(* ===== verification/_CoqProject ===== *)
-Q . S2P
Prelude.v
Rust.v
Layout.v
Addr.v
Endian.v
Error.v
Mem.v
MemSpec.v
Text.v
Registers.v
Mmu.v
MmuSpec.v
Arch.v
Pages.v
Backend.v
ArchSpec.v
KvmDump.v
KvmDumpSpec.v
Symbols.v
SymbolsSpec.v
SymbolsFile.v
Os.v
OsSpec.v
Pointer.v
PointerSpec.v
WinProfile.v
WinMemory.v
Windows.v
WinPdb.v
WinOs.v
WinVadSpec.v
WinSpec.v
WinPdbSpec.v
LinuxProfile.v
Linux.v
LinuxSpec.v
Intervals.v
WinUnwind.v
WinUnwindSpec.v
WinFrameSpec.v
WinStack.v
WinStackSpec.v
LinuxStack.v
LinuxStackSpec.v
Dwarf.v
PdbTypes.v
TypeGraph.v
DwarfSpec.v
PdbSpec.v
Native.v
NativeSpec.v
NativeBackend.v
Relocations.v
Loading.v
Kvm.v
KvmPatch.v
KvmTrace.v
KvmSpec.v
KvmTraceSpec.v
Loader.v
LoaderSpec.v
Python.v
PythonSpec.v
Connect.v
