(* ===== verification/Prelude.v ===== *)
(** * Verification library for vminer

    vminer reads the state of a virtual machine from the outside: its physical
    memory and the registers of its vCPUs come from a backend, and the processes,
    threads, modules, memory areas, symbols and call stacks of the guest are
    found in that memory, for Linux and for Windows.  This library is a model of
    the Rust code as executable definitions, with the theorems that make it
    correct.

    ** How the program is modelled

    A Rust function that returns a [Result] is a function into [Res]: [Ok],
    [Err] or [Panic]; [let?] is the operator [?].  A function with a [&mut]
    argument, or with interior mutability, is a computation on the value of that
    argument ([MutRes], [let!]), which is part of the outcome also when the
    function fails.  Integers are [Z] with the width written out ([Rust.v]): an
    operation that overflows panics or wraps around according to the class
    [Build], so that a theorem holds for builds with and without overflow checks
    unless it names one.  Traits are records of operations or classes, with their
    default methods as functions that an implementation puts in the record.  A
    loop or recursion whose length depends on the guest has a fuel, and returns
    [NoFuel] when it is exhausted; no Rust outcome is modelled by [NoFuel].

    ** The parts, from the bottom

    - [Prelude.v], [Rust.v], [Layout.v], [Text.v]: outcomes, integers, slices and
      binary search, [repr(C)] structures as bytes, text.
    - [Addr.v] ([vminer-core/src/addr.rs], masks of [lib.rs]), [Endian.v]
      ([endian.rs]), [Error.v] ([error.rs]).
    - [Mem.v], [MemSpec.v] ([mem.rs]): physical memory, its windows, search, dump.
    - [Registers.v], [Mmu.v], [Arch.v], with [MmuSpec.v] and [ArchSpec.v]
      ([arch/]): register layouts, page tables, the traits [Architecture] and
      [HasVcpus].  [Pages.v] ([lib.rs]): reads across pages.  [Backend.v]
      ([backend.rs]) puts memory and vCPUs together.
    - [KvmDump.v], [KvmDumpSpec.v] ([vminer/src/backends/kvm_dump/mod.rs]): dumps
      of a machine in a file.
    - [Symbols.v], [SymbolsSpec.v], [SymbolsFile.v] ([symbols/mod.rs],
      [symbols_file.rs]); [Dwarf.v], [PdbTypes.v] ([symbols/dwarf/mod.rs],
      [symbols/pdb/mod.rs]), with [TypeGraph.v], [DwarfSpec.v], [PdbSpec.v]:
      symbols of a module, and the types of its structures.  [Relocations.v]
      ([symbols/dwarf/relocations.rs]) is the reader under the DWARF parser, and
      [Loading.v] (the end of [symbols/mod.rs], [native/src/symbols.rs]) loads
      modules from bytes, files and directories.
    - [Os.v], [OsSpec.v] ([os.rs]): the trait [Os].  [Pointer.v], [PointerSpec.v]
      ([vminer/src/os/pointer.rs], [mod.rs]): typed pointers in guest memory.
    - Windows ([vminer/src/os/windows/]): [WinProfile.v] ([profile.rs]),
      [WinMemory.v] ([memory.rs]), [Windows.v], [WinPdb.v], [WinOs.v] ([mod.rs]),
      [WinUnwind.v], [WinStack.v] ([callstack.rs]); specifications in
      [WinVadSpec.v], [WinSpec.v], [WinPdbSpec.v], [WinUnwindSpec.v],
      [WinFrameSpec.v], [WinStackSpec.v], with the lookups of [Intervals.v].
    - Linux ([vminer/src/os/linux/]): [LinuxProfile.v], [Linux.v],
      [LinuxStack.v], with [LinuxSpec.v] and [LinuxStackSpec.v].
    - KVM: [Kvm.v] ([vminer/src/backends/kvm/mod.rs]) finds the memory and the
      vCPUs of a hypervisor in [/proc]; [KvmTrace.v] ([kvm/ptrace.rs],
      [kvm/x86_64.rs], [kvm/aarch64.rs], [attach]) runs functions in it;
      [KvmPatch.v] ([kvm_patch/src/]) is the library that it loads, which sends
      the registers back.  Theorems in [KvmSpec.v] and [KvmTraceSpec.v].
    - The C interface ([native/src/]): [Native.v] ([error.rs], [cstring.rs],
      [array.rs], [os.rs]) over a memory of bytes and the error of the thread,
      with [NativeSpec.v]; [NativeBackend.v] ([backend.rs], the constructors of
      [os.rs]).
    - [Loader.v], [LoaderSpec.v] ([os/windows/loader.rs], [SymbolLoader] of
      [os/linux/mod.rs]): the directories where symbols are kept.  [Python.v],
      [PythonSpec.v] ([python/src/lib.rs]): the objects and iterators of the
      Python module.  [Connect.v]: the functions that open a hypervisor or a dump.

    Definitions keep the names of the source; where one name is used by several
    types a prefix tells them apart ([win_], [linux_], [x86_], [arm_], [pdb_],
    [va_], [pa_], and so on).

    ** What the theorems show

    - Memory: a translation is the page walk of the architecture and keeps the
      offset; a read is the concatenation of the bytes of the range up to the
      first unmapped page, and the variant that skips pages never fails on them;
      a search finds the first occurrence of a needle, with the index that the
      code gives it (which in a page larger than the buffer is not the one that
      its documentation says); windows and dump of physical memory do what their
      documentation says, for any writer.
    - Dumps and symbol files: what is written or formatted is read back.
    - Symbols: lookups by address, by name and by the closest address agree with
      the list of symbols that were added, and a module is loaded at most once.
      The types read from DWARF and PDB are those of a reference without cache.
    - The trait [Os]: for every operating system whose iterations call their
      callback on the items of a list ([IteratesTo]), the collections and the
      lookups are those of that list; a symbol is resolved in the module that
      holds the address.
    - Windows: a page that is not valid is read from where its entry says that
      Windows keeps it; both searches of a VMA agree; the iterations over
      processes follow the lists of the kernel.  The unwinding of a function
      undoes its prolog, except where its frame pointer is not set yet, or
      emulates its epilog; the walk of the stack visits the frames of the stack,
      whatever is cached.
    - Linux: processes, modules and their span, paths; the offset of KASLR; the
      walk of the stack, with unwind data that is searched for once in a module.
    - KVM: the memory that is guessed is the first of the largest mappings; what
      the library sends from the hypervisor is what the backend receives; and
      however the attachment ends, the hypervisor is left with its registers and
      its code as they were, as long as it is seen to stop after each function
      that it runs.
    - The C interface: a string or an array that a function fills is in the
      buffer of the caller, what does not fit is cut, no other byte changes, and
      errors and panics are left for the thread.  Loading a directory skips the
      files that cannot be loaded, up to the first whose decoding panics.
    - The cache of PDB files: a PDB that was downloaded and saved is not
      downloaded again, and has a file of its own if its name is one of a file.  The Python iterators lose no item and no error.

    ** Bounds

    The loops over the input have a fuel that the definition computes from the
    input and that is proved enough, as in [parse_lines], or they are structural.
    The loops over lists, trees and stacks in the memory of the guest may not end
    on a hostile guest: their fuel is an argument, and the theorems say how much
    is enough for the structure in memory (the length of a list, the height of a
    tree, the number of frames).  The types of DWARF and PDB files refer to each
    other, and following the references may not end either: the hypothesis of
    those theorems is that the reference ends within the same fuel.

    ** What is not modelled

    Logging is left out everywhere.  The crates [gimli], [object], [pdb],
    [sync_file], [memchr], [once_map], the demanglers and the PE reader are
    parameters (a class, or an argument of the section), with what the code
    relies on as laws of that class, which concrete instances satisfy in the
    witnesses.  So are [ptrace], [/proc/pid/mem] and the ioctls of KVM, as what
    they do to the state of a thread or what they return, and the functions that
    a C program gives to the interface, the writer of a dump, the file system of
    the host and the HTTP client.  Opening files and sockets, the thread that listens to the socket, the
    conversions and the garbage collection of [pyo3], the allocator and the
    logging of the C interface, the deallocations it exports, [OnceCell]
    ([utils.rs]) and the command-line programs are left out: they are input and
    output, or glue, over what is modelled. *)

From stdpp Require Export prelude gmap strings list sorting.
From Stdlib Require Export ZArith Lia ZifyBool ZifyNat.
From Stdlib Require Strings.Byte.

#[global] Open Scope Z_scope.
#[global] Set Default Goal Selector "!".

(** ** Outcomes of Rust code *)

(** The outcome of a Rust expression of type [Result<A, E>]: it returns [Ok] or
    [Err], or it panics.  [NoFuel] is not an outcome of the program: it marks
    a loop or recursion whose bound was exhausted. *)
Inductive Res (E A : Type) : Type :=
| Ok (a : A)
| Err (e : E)
| Panic
| NoFuel.
Arguments Ok {E A} a.
Arguments Err {E A} e.
Arguments Panic {E A}.
Arguments NoFuel {E A}.

(** The error type of code that cannot return [Err]. *)
Notation Never := Empty_set.

Definition res_bind {E A B} (m : Res E A) (k : A → Res E B) : Res E B :=
  match m with
  | Ok a => k a
  | Err e => Err e
  | Panic => Panic
  | NoFuel => NoFuel
  end.

(** [Result::map_err], also the error conversion that [?] inserts. *)
Definition map_err {E F A} (f : E → F) (m : Res E A) : Res F A :=
  match m with
  | Ok a => Ok a
  | Err e => Err (f e)
  | Panic => Panic
  | NoFuel => NoFuel
  end.

Definition res_map {E A B} (f : A → B) (m : Res E A) : Res E B :=
  res_bind m (λ a, Ok (f a)).

(** Using an infallible computation where an error type is expected. *)
Definition from_never {E A} (m : Res Never A) : Res E A :=
  map_err (λ e : Never, match e with end) m.

(** [Option::ok_or] *)
Definition ok_or {E A} (o : option A) (e : E) : Res E A :=
  match o with Some a => Ok a | None => Err e end.

(** [Result::unwrap] on an [Option]. *)
Definition unwrap {E A} (o : option A) : Res E A :=
  match o with Some a => Ok a | None => Panic end.

Declare Scope rust_scope.
Delimit Scope rust_scope with rust.
#[global] Open Scope rust_scope.

(** [let? x := m in k] is Rust's [let x = m?; k]. *)
Notation "'let?' x ':=' m 'in' k" := (res_bind m (λ x, k))
  (at level 10, x binder, m at level 200, k at level 200) : rust_scope.
Notation "'let?' ' p ':=' m 'in' k" := (res_bind m (λ y, match y with p => k end))
  (at level 10, p pattern, m at level 200, k at level 200) : rust_scope.

Definition is_ok {E A} (m : Res E A) : Prop := ∃ a, m = Ok a.

(** [core::ops::ControlFlow<()>] *)
Inductive ControlFlow := Continue | Break.

Definition is_break (c : ControlFlow) : bool :=
  match c with Break => true | Continue => false end.

#[export] Instance res_eq_dec {E A} `{EqDecision E, EqDecision A} : EqDecision (Res E A).
Proof. solve_decision. Defined.
#[export] Instance control_flow_eq_dec : EqDecision ControlFlow.
Proof. solve_decision. Defined.

(** ** Code that works on a mutable buffer *)

(** A function that takes a [&mut] argument of type [S] and returns a [Result]:
    the content of the argument afterwards is part of the outcome, also when
    the function fails. *)
Definition MutRes (S E A : Type) : Type := S → Res E A * S.

Definition mut_ret {S E A} (a : A) : MutRes S E A := λ s, (Ok a, s).

Definition mut_lift {S E A} (m : Res E A) : MutRes S E A := λ s, (m, s).

Definition mut_bind {S E A B} (m : MutRes S E A) (k : A → MutRes S E B) : MutRes S E B :=
  λ s, match m s with
       | (Ok a, s') => k a s'
       | (Err e, s') => (Err e, s')
       | (Panic, s') => (Panic, s')
       | (NoFuel, s') => (NoFuel, s')
       end.

Definition mut_map_err {S E F A} (f : E → F) (m : MutRes S E A) : MutRes S F A :=
  λ s, let (r, s') := m s in (map_err f r, s').

Notation "'let!' x ':=' m 'in' k" := (mut_bind m (λ x, k))
  (at level 10, x binder, m at level 200, k at level 200) : rust_scope.
Notation "'let!' ' p ':=' m 'in' k" := (mut_bind m (λ y, match y with p => k end))
  (at level 10, p pattern, m at level 200, k at level 200) : rust_scope.

(** ** Bytes *)

Notation byte := Byte.byte.
Notation bytes := (list Byte.byte).

#[export] Instance byte_eq_dec : EqDecision byte := Byte.byte_eq_dec.

Definition bz (b : byte) : Z := Z.of_N (Byte.to_N b).

Definition zb (z : Z) : byte :=
  match Byte.of_N (Z.to_N (z mod 256)) with
  | Some b => b
  | None => Byte.x00
  end.

Lemma bz_range b : 0 <= bz b < 256.
Proof. unfold bz. pose proof (Byte.to_N_bounded b). lia. Qed.

Lemma bz_zb z : bz (zb z) = z mod 256.
Proof.
  unfold bz, zb. destruct (Byte.of_N _) as [b|] eqn:E.
  - rewrite (Byte.to_of_N _ E). lia.
  - apply Byte.of_N_None_iff in E. lia.
Qed.

Lemma bz_inj b1 b2 : bz b1 = bz b2 → b1 = b2.
Proof.
  unfold bz. intros H%N2Z.inj.
  pose proof (Byte.of_to_N b1). pose proof (Byte.of_to_N b2). congruence.
Qed.

Lemma zb_bz b : zb (bz b) = b.
Proof. apply bz_inj. rewrite bz_zb. pose proof (bz_range b). lia. Qed.

(** ** Tactics *)

(** Split the conjunctions of the context and of the goal. *)
Ltac split_all := repeat match goal with
  | H : _ ∧ _ |- _ => destruct H
  | |- _ ∧ _ => split
  end.

(** Case analysis on the outcome of the computation a [let?] waits for. *)
Ltac res_case :=
  match goal with
  | |- context [res_bind ?m _] =>
      lazymatch m with
      | context [res_bind _ _] => fail
      | _ => let E := fresh "E" in destruct m eqn:E; cbn [res_bind] in *
      end
  end.

Ltac res_case_in H :=
  match type of H with
  | context [res_bind ?m _] =>
      lazymatch m with
      | context [res_bind _ _] => fail
      | _ => let E := fresh "E" in destruct m eqn:E; cbn [res_bind] in H
      end
  end.

(** Inversion of [let? x := m in k = Ok b]. *)
Lemma res_bind_ok {E A B} (m : Res E A) (k : A → Res E B) b :
  res_bind m k = Ok b → ∃ a, m = Ok a ∧ k a = Ok b.
Proof. destruct m; naive_solver. Qed.

Lemma map_err_ok {E F A} (f : E → F) (m : Res E A) a :
  map_err f m = Ok a ↔ m = Ok a.
Proof. destruct m; naive_solver. Qed.

Lemma from_never_ok {E A} (m : Res Never A) a :
  from_never (E:=E) m = Ok a ↔ m = Ok a.
Proof. apply map_err_ok. Qed.

Lemma ok_or_ok {E A} (o : option A) (e : E) a : ok_or o e = Ok a ↔ o = Some a.
Proof. destruct o; naive_solver. Qed.

Lemma res_map_ok {E A B} (f : A → B) (m : Res E A) b :
  res_map f m = Ok b ↔ ∃ a, m = Ok a ∧ b = f a.
Proof. destruct m; naive_solver. Qed.

(** Decompose every hypothesis that says a computation returned [Ok]. *)
Ltac inv_ok := repeat match goal with
  | H : res_bind _ _ = Ok _ |- _ =>
      let a := fresh "v" in let E := fresh "Hv" in
      apply res_bind_ok in H as (a & E & H); cbn beta in H
  | H : map_err _ _ = Ok _ |- _ => apply map_err_ok in H
  | H : from_never _ = Ok _ |- _ => apply from_never_ok in H
  | H : ok_or _ _ = Ok _ |- _ => apply ok_or_ok in H
  | H : Ok _ = Ok _ |- _ => injection H as H
  | H : Err _ = Ok _ |- _ => discriminate H
  | H : Panic = Ok _ |- _ => discriminate H
  | H : NoFuel = Ok _ |- _ => discriminate H
  end.

(** Prove the first premise of [H] and specialise [H] with it. *)
Tactic Notation "forward" hyp(H) :=
  match type of H with
  | ?P → _ => let x := fresh in assert (x : P); [|specialize (H x); clear x]
  end.

(** ** Lists *)

Lemma list_eq_length_lookup {A} (l1 l2 : list A) :
  length l1 = length l2 →
  (∀ i x y, l1 !! i = Some x → l2 !! i = Some y → x = y) →
  l1 = l2.
Proof.
  intros Hl H. apply (list_eq_same_length _ _ (length l1)); eauto.
Qed.

Lemma take_drop_slice {A} (l : list A) n m k :
  take k (take m (drop n l)) = take (k `min` m)%nat (drop n l).
Proof. apply take_take. Qed.

Lemma drop_take_length {A} (l : list A) n m :
  (n + m <= length l)%nat → length (take m (drop n l)) = m.
Proof. intros. rewrite length_take, length_drop. lia. Qed.

Lemma sorted_lookup {A} (R : A → A → Prop) l i j x y :
  StronglySorted R l → (i < j)%nat → l !! i = Some x → l !! j = Some y → R x y.
Proof.
  intros Hs. revert i j. induction Hs as [|a l _ IH Ha]; intros i j Hij Hi Hj; [done|].
  destruct j as [|j]; [lia|]. cbn in Hj. destruct i as [|i]; cbn in Hi.
  - simplify_eq. rewrite Forall_forall in Ha. apply Ha. by apply list_elem_of_lookup_2 in Hj.
  - apply (IH i j); [lia|done|done].
Qed.

Create HintDb vm.
#[export] Hint Resolve bz_range : vm.
#[export] Hint Rewrite bz_zb zb_bz : vm.
