(* ===== verification/Rust.v ===== *)
(** * The Rust language and standard library, as far as the program uses them

    Machine integers at their width with the overflow behaviour of the build
    (a build with debug assertions panics, a release build wraps), slices,
    [slice::binary_search_by], [u64::from_str_radix], UTF-8 validity and the
    little-endian layout of integers in memory. *)

From S2P Require Import Prelude.

(** ** Builds

    [cfg!(debug_assertions)]; it also decides whether an arithmetic overflow
    panics, as Cargo's profiles set both together. *)
Class Build := debug_assertions : bool.

Definition debug_build : Build := true.
Definition release_build : Build := false.

(** ** 64-bit integers *)

Definition u64_max : Z := 2 ^ 64 - 1.

Definition is_u64 (z : Z) : Prop := 0 <= z < 2 ^ 64.

Definition is_i64 (z : Z) : Prop := - 2 ^ 63 <= z < 2 ^ 63.

Definition wrap_u64 (z : Z) : Z := z mod 2 ^ 64.

Definition wrap_u32 (z : Z) : Z := z mod 2 ^ 32.

(** [x as i64] for [x : u64], and the wrap-around of [i64] arithmetic. *)
Definition as_i64 (z : Z) : Z := (z + 2 ^ 63) mod 2 ^ 64 - 2 ^ 63.

(** [x as u64] for [x : i64]. *)
Definition as_u64 (z : Z) : Z := z mod 2 ^ 64.

(** [wrapping_add], [wrapping_sub]. *)
Definition wrapping_add (x y : Z) : Z := wrap_u64 (x + y).
Definition wrapping_sub (x y : Z) : Z := wrap_u64 (x - y).

(** [!x] on [u64]. *)
Definition not_u64 (x : Z) : Z := 2 ^ 64 - 1 - x.

Section arith.
Context {bm : Build}.

(** A [w]-bit unsigned result [z] computed exactly: it overflows when it does
    not fit. *)
Definition checked_width {E} (w z : Z) : Res E Z :=
  if (0 <=? z) && (z <? 2 ^ w) then Ok z
  else if debug_assertions then Panic else Ok (z mod 2 ^ w).

Definition add_u64 {E} (x y : Z) : Res E Z := checked_width 64 (x + y).
Definition sub_u64 {E} (x y : Z) : Res E Z := checked_width 64 (x - y).
Definition mul_u64 {E} (x y : Z) : Res E Z := checked_width 64 (x * y).
Definition add_u32 {E} (x y : Z) : Res E Z := checked_width 32 (x + y).
Definition sub_u32 {E} (x y : Z) : Res E Z := checked_width 32 (x - y).

(** [x << n] on [u64]: the amount must be below the width; bits shifted out are
    lost without a panic. *)
Definition shl_u64 {E} (x n : Z) : Res E Z :=
  if n <? 64 then Ok (wrap_u64 (Z.shiftl x n))
  else if debug_assertions then Panic else Ok (wrap_u64 (Z.shiftl x (n mod 64))).

(** [i64] addition. *)
Definition add_i64 {E} (x y : Z) : Res E Z :=
  if (- 2 ^ 63 <=? x + y) && (x + y <? 2 ^ 63) then Ok (x + y)
  else if debug_assertions then Panic else Ok (as_i64 (x + y)).

Lemma checked_width_ok {E} w z :
  0 <= z < 2 ^ w → checked_width (E:=E) w z = Ok z.
Proof. intros. unfold checked_width. by replace (_ && _) with true by lia. Qed.

Lemma checked_width_range {E} w z r :
  0 <= w → checked_width (E:=E) w z = Ok r → 0 <= r < 2 ^ w.
Proof.
  intros Hw. unfold checked_width. pose proof (Z.pow_pos_nonneg 2 w).
  destruct (_ && _) eqn:Hc; [intros [= <-]; lia|].
  destruct debug_assertions; [done|]. intros [= <-].
  apply Z.mod_pos_bound. lia.
Qed.

Lemma checked_width_debug {E} w z :
  debug_assertions = true → ¬ (0 <= z < 2 ^ w) → checked_width (E:=E) w z = Panic.
Proof.
  intros Hd Hz. unfold checked_width. rewrite Hd.
  by replace (_ && _) with false by lia.
Qed.

Lemma add_u64_ok {E} x y : 0 <= x + y < 2 ^ 64 → add_u64 (E:=E) x y = Ok (x + y).
Proof. apply checked_width_ok. Qed.

Lemma sub_u64_ok {E} x y : 0 <= x - y < 2 ^ 64 → sub_u64 (E:=E) x y = Ok (x - y).
Proof. apply checked_width_ok. Qed.

Lemma mul_u64_ok {E} x y : 0 <= x * y < 2 ^ 64 → mul_u64 (E:=E) x y = Ok (x * y).
Proof. apply checked_width_ok. Qed.

Lemma add_u32_ok {E} x y : 0 <= x + y < 2 ^ 32 → add_u32 (E:=E) x y = Ok (x + y).
Proof. apply checked_width_ok. Qed.

Lemma sub_u32_ok {E} x y : 0 <= x - y < 2 ^ 32 → sub_u32 (E:=E) x y = Ok (x - y).
Proof. apply checked_width_ok. Qed.

Lemma add_u64_range {E} x y r : add_u64 (E:=E) x y = Ok r → is_u64 r.
Proof. apply checked_width_range. lia. Qed.

Lemma sub_u64_range {E} x y r : sub_u64 (E:=E) x y = Ok r → is_u64 r.
Proof. apply checked_width_range. lia. Qed.
End arith.

Lemma wrap_u64_range z : is_u64 (wrap_u64 z).
Proof. unfold is_u64, wrap_u64. lia. Qed.

Lemma wrap_u64_small z : is_u64 z → wrap_u64 z = z.
Proof. unfold is_u64, wrap_u64. intros. apply Z.mod_small. lia. Qed.

Lemma as_i64_range z : is_i64 (as_i64 z).
Proof. unfold is_i64, as_i64. lia. Qed.

Lemma as_i64_small z : is_i64 z → as_i64 z = z.
Proof. unfold is_i64, as_i64. intros. rewrite Z.mod_small; lia. Qed.

Lemma as_u64_as_i64 z : as_u64 (as_i64 z) = wrap_u64 z.
Proof.
  unfold as_u64, as_i64, wrap_u64.
  rewrite Zminus_mod_idemp_l. f_equal. lia.
Qed.

Lemma as_i64_as_u64 z : is_i64 z → as_i64 (as_u64 z) = z.
Proof.
  intros Hz. unfold as_i64, as_u64. rewrite Zplus_mod_idemp_l.
  by apply as_i64_small.
Qed.

#[export] Hint Resolve wrap_u64_range as_i64_range : vm.

(** ** Slices

    Indices are [usize], which is 64 bits wide on the supported hosts. *)

(** [&s[lo..hi]], which panics when the range is not within the slice. *)
Definition slice_range {E A} (s : list A) (lo hi : Z) : Res E (list A) :=
  if (lo <=? hi) && (hi <=? Z.of_nat (length s))
  then Ok (take (Z.to_nat (hi - lo)) (drop (Z.to_nat lo) s))
  else Panic.

(** [s.get(lo..hi)] *)
Definition slice_get {A} (s : list A) (lo hi : Z) : option (list A) :=
  if (lo <=? hi) && (hi <=? Z.of_nat (length s))
  then Some (take (Z.to_nat (hi - lo)) (drop (Z.to_nat lo) s))
  else None.

(** [s.get(lo..)] *)
Definition slice_get_from {A} (s : list A) (lo : Z) : option (list A) :=
  if lo <=? Z.of_nat (length s) then Some (drop (Z.to_nat lo) s) else None.

(** [s[i]] *)
Definition slice_index {E A} (s : list A) (i : Z) : Res E A :=
  if i <? 0 then Panic else unwrap (s !! Z.to_nat i).

(** Run code on the sub-slice [lo..hi] of a mutable buffer; creating the
    sub-slice panics when the range is not within the buffer. *)
Definition on_slice {T E A} (lo hi : nat) (m : MutRes (list T) E A) : MutRes (list T) E A :=
  λ buf, if ((lo <=? hi) && (hi <=? length buf))%nat
         then let (r, mid) := m (take (hi - lo) (drop lo buf)) in
              (r, take lo buf ++ mid ++ drop hi buf)
         else (Panic, buf).

Lemma slice_get_length {A} (s r : list A) lo hi :
  0 <= lo → slice_get s lo hi = Some r → Z.of_nat (length r) = hi - lo.
Proof.
  unfold slice_get. intros ?. destruct (_ && _) eqn:Hc; [|done].
  intros [= <-]. rewrite length_take, length_drop. lia.
Qed.

(** ** [slice::binary_search_by]

    The algorithm of the standard library (since Rust 1.82): the interval is
    halved until one element is left, whatever the comparisons return, and that
    element is compared once more.  The comparator is a [FnMut], so it threads
    a state. *)
Section binary_search.
Context {A S : Type}.
Variable f : A → S → comparison * S.

Fixpoint bs_narrow (fuel : nat) (l : list A) (base size : nat) (s : S) : nat * S :=
  match fuel with
  | O => (base, s)
  | Datatypes.S fuel =>
      if (size <=? 1)%nat then (base, s)
      else
        let half := (size / 2)%nat in
        let mid := (base + half)%nat in
        match l !! mid with
        | Some x =>
            let (c, s) := f x s in
            let base := match c with Gt => base | _ => mid end in
            bs_narrow fuel l base (size - half)%nat s
        | None => (base, s)
        end
  end.

(** [Ok(i)] is [inl i], [Err(i)] is [inr i]. *)
Definition binary_search_st (l : list A) (s : S) : (nat + nat) * S :=
  match length l with
  | O => (inr O, s)
  | n =>
      let (base, s) := bs_narrow n l 0 n s in
      match l !! base with
      | Some x =>
          let (c, s) := f x s in
          (match c with
           | Eq => inl base
           | Lt => inr (Datatypes.S base)
           | Gt => inr base
           end, s)
      | None => (inr base, s)
      end
  end.
End binary_search.

Definition binary_search_by {A} (f : A → comparison) (l : list A) : nat + nat :=
  fst (binary_search_st (λ x _, (f x, tt)) l tt).

(** [binary_search_by_key(&k, key)] for integer keys. *)
Definition binary_search_by_key {A} (k : Z) (key : A → Z) (l : list A) : nat + nat :=
  binary_search_by (λ x, key x ?= k) l.

(** The precondition of the documentation: the slice is partitioned into
    elements that compare [Lt], [Eq] and [Gt], in this order. *)
Definition bs_sorted {A} (c : A → comparison) (l : list A) : Prop :=
  ∀ i j x y, (i <= j)%nat → l !! i = Some x → l !! j = Some y →
    (c x = Gt → c y = Gt) ∧ (c y = Lt → c x = Lt).

Section binary_search_spec.
Context {A S : Type} (f : A → S → comparison * S) (c : A → comparison).
Hypothesis f_pure : ∀ x s, fst (f x s) = c x.

Lemma bs_narrow_spec fuel l base size s :
  bs_sorted c l →
  (1 <= size)%nat → (size <= fuel)%nat → (base + size <= length l)%nat →
  (∀ i x, (base + size <= i)%nat → l !! i = Some x → c x = Gt) →
  (∀ i x, (i < base)%nat → l !! i = Some x → c x ≠ Gt) →
  (base = 0%nat ∨ ∃ x, l !! base = Some x ∧ c x ≠ Gt) →
  let b := fst (bs_narrow f fuel l base size s) in
  (b < length l)%nat ∧
  (∀ i x, (b < i)%nat → l !! i = Some x → c x = Gt) ∧
  (b = 0%nat ∨ ∃ x, l !! b = Some x ∧ c x ≠ Gt).
Proof.
  intros Hs. revert base size s.
  induction fuel as [|fuel IH]; intros base size s H1 Hf Hb Hhi Hlo H0; [lia|].
  cbn [bs_narrow]. destruct (Nat.leb_spec size 1).
  { cbn. split; [lia|]. split; [|done]. intros i x ? Hi. apply (Hhi i); [lia|done]. }
  assert (Hd : (1 <= size / 2 < size)%nat).
  { split; [apply Nat.div_le_lower_bound; lia | apply Nat.div_lt; lia]. }
  destruct (lookup_lt_is_Some_2 l (base + size / 2)) as [x Hx]; [lia|].
  rewrite Hx. pose proof (f_pure x s) as Hfx. destruct (f x s) as [r s'].
  cbn in Hfx. subst r. destruct (c x) eqn:Hc.
  - apply IH; try lia.
    + intros i y ? Hi. apply (Hhi i y); [lia|done].
    + intros i y ? Hi Hg. destruct (Hs i (base + size / 2)%nat y x) as [HG _]; [lia|done..|].
      rewrite (HG Hg) in Hc. done.
    + right. exists x. by rewrite Hc.
  - apply IH; try lia.
    + intros i y ? Hi. apply (Hhi i y); [lia|done].
    + intros i y ? Hi Hg. destruct (Hs i (base + size / 2)%nat y x) as [HG _]; [lia|done..|].
      rewrite (HG Hg) in Hc. done.
    + right. exists x. by rewrite Hc.
  - apply IH; try lia; [|done..].
    intros i y ? Hi. destruct (Hs (base + size / 2)%nat i x y) as [HG _]; [lia|done..|]. auto.
Qed.

(** The documented result of [binary_search_by]. *)
Lemma binary_search_st_spec l s :
  bs_sorted c l →
  match fst (binary_search_st f l s) with
  | inl i => ∃ x, l !! i = Some x ∧ c x = Eq
  | inr i => (i <= length l)%nat ∧
             (∀ j x, (j < i)%nat → l !! j = Some x → c x = Lt) ∧
             (∀ j x, (i <= j)%nat → l !! j = Some x → c x = Gt)
  end.
Proof.
  intros Hs. unfold binary_search_st. destruct (length l) as [|n] eqn:Hn.
  { apply nil_length_inv in Hn. subst. cbn. split; [lia|]. split; intros ???; by rewrite lookup_nil. }
  rewrite <- Hn.
  destruct (bs_narrow_spec (length l) l 0 (length l) s) as (Hb & Hgt & H0); [done|lia..| | |by left|].
  { intros i x ? Hi. apply lookup_lt_Some in Hi. lia. }
  { lia. }
  destruct (bs_narrow _ _ _ _ _ _) as [b s']. cbn in *.
  destruct (lookup_lt_is_Some_2 l b) as [x Hx]; [lia|]. rewrite Hx.
  pose proof (f_pure x s') as Hfx. destruct (f x s') as [r s'']. cbn in Hfx. subst r. cbn.
  destruct (c x) eqn:Hc.
  - eauto.
  - split; [lia|]. split; intros j y ? Hj.
    + destruct (Hs j b y x) as [_ HL]; [lia|done..|]. auto.
    + apply (Hgt j y); [lia|done].
  - assert (b = 0%nat) as ->. { destruct H0 as [|(y & ? & ?)]; [done|]. naive_solver. }
    split; [lia|]. split; intros j y ? Hj; [lia|].
    destruct j; [naive_solver|]. apply (Hgt (Datatypes.S j) y); [lia|done].
Qed.
End binary_search_spec.

(** What the comparisons of the elements of the slice preserve is preserved. *)
Lemma binary_search_st_state {A S} (f : A → S → comparison * S) (P : S → Prop) l s :
  (∀ x s, x ∈ l → P s → P (snd (f x s))) → P s → P (snd (binary_search_st f l s)).
Proof.
  intros Hf Hs. unfold binary_search_st. destruct (length l) as [|n] eqn:Hn; [done|]. rewrite <- Hn. clear Hn.
  assert (Hnarrow : ∀ fuel base size s, P s → P (snd (bs_narrow f fuel l base size s))).
  { induction fuel as [|fuel IH]; intros base size s0 H0; cbn [bs_narrow]; [done|].
    destruct (_ <=? _)%nat; [done|]. destruct (l !! (base + size / 2)%nat) as [x|] eqn:Hx; [|done].
    pose proof (Hf x s0 ltac:(by eapply list_elem_of_lookup_2) H0). destruct (f x s0). by apply IH. }
  pose proof (Hnarrow (length l) 0%nat (length l) s Hs) as Hb.
  destruct (bs_narrow _ _ _ _ _ _) as [base s']. cbn in Hb.
  destruct (l !! base) as [x|] eqn:Hx; [|done].
  pose proof (Hf x s' ltac:(by eapply list_elem_of_lookup_2) Hb). by destruct (f x s').
Qed.

Lemma binary_search_by_spec {A} (c : A → comparison) l :
  bs_sorted c l →
  match binary_search_by c l with
  | inl i => ∃ x, l !! i = Some x ∧ c x = Eq
  | inr i => (i <= length l)%nat ∧
             (∀ j x, (j < i)%nat → l !! j = Some x → c x = Lt) ∧
             (∀ j x, (i <= j)%nat → l !! j = Some x → c x = Gt)
  end.
Proof. by apply binary_search_st_spec. Qed.

(** The search only depends on what the comparisons return. *)
Lemma binary_search_by_Forall2 {A B} (f : A → comparison) (g : B → comparison) l l' :
  Forall2 (λ x y, f x = g y) l l' → binary_search_by f l = binary_search_by g l'.
Proof.
  intros HF. unfold binary_search_by, binary_search_st. rewrite <- (Forall2_length _ _ _ HF).
  destruct (length l) as [|n] eqn:Hn; [done|]. rewrite <- Hn. clear Hn n.
  assert (Hnarrow : ∀ fuel base size, bs_narrow (λ x _, (f x, tt)) fuel l base size tt =
                                      bs_narrow (λ x _, (g x, tt)) fuel l' base size tt).
  { induction fuel as [|fuel IH]; intros base size; cbn [bs_narrow]; [done|].
    destruct (_ <=? _)%nat; [done|]. destruct (l !! _) as [x|] eqn:Hx.
    - destruct (Forall2_lookup_l _ _ _ _ _ HF Hx) as (y & -> & ->). apply IH.
    - assert (l' !! (base + size / 2)%nat = None) as ->; [|done].
      apply lookup_ge_None. rewrite <- (Forall2_length _ _ _ HF). by apply lookup_ge_None. }
  rewrite Hnarrow. destruct (bs_narrow _ _ _ _ _ _) as [b []]. destruct (l !! b) as [x|] eqn:Hx.
  - destruct (Forall2_lookup_l _ _ _ _ _ HF Hx) as (y & -> & ->). done.
  - assert (l' !! b = None) as ->; [|done].
    apply lookup_ge_None. rewrite <- (Forall2_length _ _ _ HF). by apply lookup_ge_None.
Qed.

(** Slices sorted by the key satisfy the precondition. *)
Definition key_sorted {A} (key : A → Z) (l : list A) : Prop :=
  ∀ i j x y, (i <= j)%nat → l !! i = Some x → l !! j = Some y → key x <= key y.

Lemma key_sorted_bs {A} (key : A → Z) l k :
  key_sorted key l → bs_sorted (λ x, key x ?= k) l.
Proof.
  intros Hs i j x y ? Hi Hj. pose proof (Hs i j x y ltac:(done) Hi Hj).
  rewrite !Z.compare_gt_iff, !Z.compare_lt_iff. lia.
Qed.

Lemma binary_search_by_key_spec {A} (key : A → Z) k l :
  key_sorted key l →
  match binary_search_by_key k key l with
  | inl i => ∃ x, l !! i = Some x ∧ key x = k
  | inr i => (i <= length l)%nat ∧
             (∀ j x, (j < i)%nat → l !! j = Some x → key x < k) ∧
             (∀ j x, (i <= j)%nat → l !! j = Some x → k < key x)
  end.
Proof.
  intros Hs. pose proof (binary_search_by_spec (λ x, key x ?= k) l (key_sorted_bs key l k Hs)) as H.
  unfold binary_search_by_key. destruct (binary_search_by _ l).
  - destruct H as (x & ? & ?%Z.compare_eq_iff). eauto.
  - destruct H as (? & H1 & H2). split; [done|].
    split; intros j x Hj Hx.
    + apply Z.compare_lt_iff. by apply (H1 j).
    + apply Z.compare_gt_iff. by apply (H2 j).
Qed.

(** ** [vec!] *)

(** [vec![0; n]], which panics when [n] is more than the largest allocation. *)
Definition vec_zeroed {E} (n : Z) : Res E bytes :=
  if n <? 2 ^ 63 then Ok (replicate (Z.to_nat n) Byte.x00) else Panic.

(** ** [slice::sort_unstable_by] *)

(** What the documentation of [sort_unstable_by] promises for a total order of
    the keys. *)
Definition total_order {A} (cmp : A → A → comparison) : Prop :=
  (∀ x y, cmp y x = CompOpp (cmp x y)) ∧
  (∀ x y z, cmp x y ≠ Gt → cmp y z ≠ Gt → cmp x z ≠ Gt).

Class SortOk {A} (sort : (A → A → comparison) → list A → list A) : Prop := {
  sort_perm : ∀ cmp l, total_order cmp → sort cmp l ≡ₚ l;
  sort_sorted : ∀ cmp l i j x y, total_order cmp →
    (i < j)%nat → sort cmp l !! i = Some x → sort cmp l !! j = Some y → cmp x y ≠ Gt;
}.

(** A sort for the witnesses. *)
Definition sort_by {A} (cmp : A → A → comparison) (l : list A) : list A :=
  merge_sort (λ x y, cmp x y ≠ Gt) l.

#[export] Instance sort_by_ok {A} : SortOk (sort_by (A:=A)).
Proof.
  assert (Htot : ∀ cmp : A → A → comparison, total_order cmp → Total (λ x y, cmp x y ≠ Gt)).
  { intros cmp [Ho _] x y. rewrite (Ho x y). destruct (cmp x y); cbn; auto. }
  split.
  - intros cmp l Hc. by apply merge_sort_Permutation.
  - intros cmp l i j x y Hc Hij Hi Hj. pose proof (Htot cmp Hc) as Ht.
    assert (Hs : StronglySorted (λ x y, cmp x y ≠ Gt) (sort_by cmp l)).
    { assert (Transitive (λ x y, cmp x y ≠ Gt)) by (intros a b c; apply Hc).
      by apply (StronglySorted_merge_sort _ l). }
    by eapply (sorted_lookup _ _ i j) in Hs.
Qed.
