(* ===== verification/Layout.v ===== *)
(** * Memory layout of plain data

    Integers are laid out in little-endian order: the hosts that vminer runs on
    ([x86_64], [aarch64]) are little endian, and [bytemuck] exposes the bytes of
    a [repr(C)] structure as they lie in memory.  A [Pod T] is what
    [bytemuck::Pod] promises about [T]: every byte string of the right size is
    the representation of exactly one value. *)

From S2P Require Import Prelude Rust.

(** ** Little-endian integers *)

Fixpoint le_bytes (n : nat) (z : Z) : bytes :=
  match n with
  | O => []
  | S n => zb z :: le_bytes n (z / 256)
  end.

Fixpoint le_val (bs : bytes) : Z :=
  match bs with
  | [] => 0
  | b :: bs => bz b + 256 * le_val bs
  end.

Lemma le_bytes_length n z : length (le_bytes n z) = n.
Proof. revert z. induction n; intros; cbn; auto. Qed.

Lemma pow256_succ n : 256 ^ Z.of_nat (S n) = 256 * 256 ^ Z.of_nat n.
Proof. rewrite Nat2Z.inj_succ, Z.pow_succ_r; lia. Qed.

Lemma pow256_pow2 n : 256 ^ Z.of_nat n = 2 ^ (8 * Z.of_nat n).
Proof. rewrite (Z.pow_mul_r 2 8) by lia. done. Qed.

Lemma le_val_range bs : 0 <= le_val bs < 256 ^ Z.of_nat (length bs).
Proof.
  induction bs as [|b bs IH]; [cbn; lia|].
  cbn [le_val length]. rewrite pow256_succ. pose proof (bz_range b). lia.
Qed.

Lemma le_val_le_bytes n z : le_val (le_bytes n z) = z mod 256 ^ Z.of_nat n.
Proof.
  revert z. induction n as [|n IH]; intros z; [by rewrite Z.mod_1_r|].
  cbn [le_bytes le_val]. rewrite bz_zb, IH, pow256_succ, Z.rem_mul_r by lia. lia.
Qed.

Lemma le_bytes_le_val bs : le_bytes (length bs) (le_val bs) = bs.
Proof.
  induction bs as [|b bs IH]; [done|]. cbn [length le_bytes le_val].
  pose proof (bz_range b). f_equal.
  - apply bz_inj. rewrite bz_zb, Z.mul_comm, Z.mod_add, Z.mod_small; lia.
  - rewrite Z.mul_comm, Z.div_add, Z.div_small, Z.add_0_l by lia. done.
Qed.

Lemma le_val_inj bs1 bs2 : length bs1 = length bs2 → le_val bs1 = le_val bs2 → bs1 = bs2.
Proof. intros Hl Hv. rewrite <- (le_bytes_le_val bs1), Hl, Hv. apply le_bytes_le_val. Qed.

Lemma le_val_u64 bs : length bs = 8%nat → is_u64 (le_val bs).
Proof. intros Hl. pose proof (le_val_range bs) as H. rewrite Hl in H. unfold is_u64. lia. Qed.

(** [u64::from_be_bytes] *)
Definition be_val (bs : bytes) : Z := le_val (rev bs).

(** ** Plain data *)

Record Pod (T : Type) := {
  size_of : nat;
  bytes_of : T → bytes;
  pod_read : bytes → T;
  (** the values of [T] among those of its model *)
  pod_wf : T → Prop;
}.
Arguments size_of {T}. Arguments bytes_of {T}.
Arguments pod_read {T}. Arguments pod_wf {T}.

Class PodOk {T} (P : Pod T) := {
  pod_length : ∀ x, length (bytes_of P x) = size_of P;
  pod_read_bytes_of : ∀ x, pod_wf P x → pod_read P (bytes_of P x) = x;
  pod_bytes_of_read : ∀ bs, length bs = size_of P → bytes_of P (pod_read P bs) = bs;
  pod_read_wf : ∀ bs, length bs = size_of P → pod_wf P (pod_read P bs);
}.

(** [bytemuck::Zeroable::zeroed()] *)
Definition zeroed {T} (P : Pod T) : T := pod_read P (replicate (size_of P) Byte.x00).

(** [uN] *)
Definition pod_uint (n : nat) : Pod Z := {|
  size_of := n;
  bytes_of := le_bytes n;
  pod_read := λ bs, le_val (take n bs);
  pod_wf := λ z, 0 <= z < 256 ^ Z.of_nat n;
|}.

Notation pod_u64 := (pod_uint 8).
Notation pod_u32 := (pod_uint 4).
Notation pod_u16 := (pod_uint 2).
Notation pod_u8 := (pod_uint 1).

#[export] Instance pod_uint_ok n : PodOk (pod_uint n).
Proof.
  split; cbn [bytes_of size_of pod_read pod_wf pod_uint].
  - apply le_bytes_length.
  - intros x Hx. rewrite take_ge by (rewrite le_bytes_length; lia).
    rewrite le_val_le_bytes. by apply Z.mod_small.
  - intros bs <-. rewrite take_ge by lia. apply le_bytes_le_val.
  - intros bs <-. rewrite take_ge by lia. apply le_val_range.
Qed.

(** [[u8; n]] *)
Definition pod_array_u8 (n : nat) : Pod bytes := {|
  size_of := n;
  bytes_of := λ bs, take n (bs ++ replicate n Byte.x00);
  pod_read := take n;
  pod_wf := λ bs, length bs = n;
|}.

#[export] Instance pod_array_u8_ok n : PodOk (pod_array_u8 n).
Proof.
  split; cbn [bytes_of size_of pod_read pod_wf pod_array_u8].
  - intros x. rewrite length_take, length_app, length_replicate. lia.
  - intros x <-. rewrite take_app_length. by rewrite take_ge.
  - intros bs <-. by rewrite (take_ge bs), take_app_length.
  - intros bs <-. by rewrite take_ge.
Qed.

(** Two fields one after the other. *)
Definition pod_pair {A B} (P : Pod A) (Q : Pod B) : Pod (A * B) := {|
  size_of := size_of P + size_of Q;
  bytes_of := λ x, bytes_of P x.1 ++ bytes_of Q x.2;
  pod_read := λ bs, (pod_read P (take (size_of P) bs), pod_read Q (drop (size_of P) bs));
  pod_wf := λ x, pod_wf P x.1 ∧ pod_wf Q x.2;
|}.

#[export] Instance pod_pair_ok {A B} (P : Pod A) (Q : Pod B) :
  PodOk P → PodOk Q → PodOk (pod_pair P Q).
Proof.
  intros HP HQ. split; cbn [bytes_of size_of pod_read pod_wf pod_pair fst snd].
  - intros x. rewrite length_app, !pod_length. done.
  - intros [x y] [Hx Hy]; cbn in *. f_equal.
    + rewrite take_app_le by (rewrite pod_length; lia).
      rewrite take_ge by (rewrite pod_length; lia). by apply pod_read_bytes_of.
    + rewrite drop_app_ge by (rewrite pod_length; lia).
      rewrite pod_length, Nat.sub_diag. by apply pod_read_bytes_of.
  - intros bs Hl. rewrite !pod_bytes_of_read; [apply take_drop| |].
    + rewrite length_drop. lia.
    + rewrite length_take. lia.
  - intros bs Hl. split; apply pod_read_wf; rewrite ?length_take, ?length_drop; lia.
Qed.

(** [[T; n]] *)
Fixpoint pod_array {A} (P : Pod A) (n : nat) : Pod (list A) := {|
  size_of := n * size_of P;
  bytes_of := λ l, match n, l with
                   | S n, x :: l => bytes_of P x ++ bytes_of (pod_array P n) l
                   | _, _ => replicate (n * size_of P) Byte.x00
                   end;
  pod_read := λ bs, match n with
                    | S n => pod_read P (take (size_of P) bs)
                             :: pod_read (pod_array P n) (drop (size_of P) bs)
                    | O => []
                    end;
  pod_wf := λ l, length l = n ∧ Forall (pod_wf P) l;
|}.

#[export] Instance pod_array_ok {A} (P : Pod A) n : PodOk P → PodOk (pod_array P n).
Proof.
  intros HP.
  assert (Hsz : ∀ n, size_of (pod_array P n) = (n * size_of P)%nat) by by intros [].
  induction n as [|n IH].
  - split; cbn; try done.
    + intros []; [done|]. cbn. intros [? _]. done.
    + intros [] ?; done.
  - split; cbn [pod_array bytes_of pod_read pod_wf size_of].
    + intros [|x l]; [by rewrite length_replicate|].
      rewrite length_app, !pod_length, Hsz. lia.
    + intros [|x l] [Hl Hw]; [done|]. apply Forall_cons in Hw as [Hx Hw]. f_equal.
      * rewrite take_app_le by (rewrite pod_length; lia).
        rewrite take_ge by (rewrite pod_length; lia). by apply pod_read_bytes_of.
      * rewrite drop_app_ge by (rewrite pod_length; lia).
        rewrite pod_length, Nat.sub_diag. apply pod_read_bytes_of.
        destruct n; cbn in *; split; (lia || done).
    + intros bs Hl. rewrite !pod_bytes_of_read; [apply take_drop| |].
      * rewrite Hsz, length_drop. lia.
      * rewrite length_take. lia.
    + intros bs Hl.
      assert (Hd : length (drop (size_of P) bs) = size_of (pod_array P n))
        by (rewrite Hsz, length_drop; lia).
      pose proof (pod_read_wf (P := pod_array P n) _ Hd) as Hw.
      assert (pod_wf P (pod_read P (take (size_of P) bs)))
        by (apply pod_read_wf; rewrite length_take; lia).
      destruct n; cbn in Hw |- *; destruct Hw; split; auto.
Qed.

Lemma pod_array_length {A} (P : Pod A) n bs : length (pod_read (pod_array P n) bs) = n.
Proof. revert bs. induction n as [|n IH]; intros bs; cbn; [done|]. f_equal. apply IH. Qed.

Lemma pod_array_lookup {A} (P : Pod A) n bs i :
  (i < n)%nat →
  pod_read (pod_array P n) bs !! i = Some (pod_read P (take (size_of P) (drop (i * size_of P) bs))).
Proof.
  revert bs i. induction n as [|n IH]; intros bs [|i] Hi; [lia..| |]; cbn [pod_array pod_read]; [done|].
  cbn [lookup list_lookup]. rewrite IH by lia. rewrite drop_drop. done.
Qed.

(** A structure presented through its fields. *)
Definition pod_iso {A B} (f : A → B) (g : B → A) (P : Pod A) : Pod B := {|
  size_of := size_of P;
  bytes_of := λ y, bytes_of P (g y);
  pod_read := λ bs, f (pod_read P bs);
  pod_wf := λ y, pod_wf P (g y);
|}.

Lemma pod_iso_ok {A B} (f : A → B) (g : B → A) (P : Pod A) :
  (∀ y, f (g y) = y) → (∀ x, pod_wf P x → g (f x) = x) → PodOk P → PodOk (pod_iso f g P).
Proof.
  intros Hfg Hgf HP. split; cbn [bytes_of size_of pod_read pod_wf pod_iso].
  - intros. apply pod_length.
  - intros x Hx. by rewrite pod_read_bytes_of.
  - intros bs Hl. rewrite Hgf by (by apply pod_read_wf). by apply pod_bytes_of_read.
  - intros bs Hl. rewrite Hgf by (by apply pod_read_wf). by apply pod_read_wf.
Qed.

(** [bytemuck::cast_slice] of a list of values. *)
Definition bytes_of_list {T} (P : Pod T) (l : list T) : bytes := concat (bytes_of P <$> l).

Lemma bytes_of_list_length {T} (P : Pod T) `{!PodOk P} l :
  length (bytes_of_list P l) = (length l * size_of P)%nat.
Proof.
  induction l; cbn; [done|]. unfold bytes_of_list in *. cbn.
  rewrite length_app, pod_length. lia.
Qed.
