(* ===== verification/Addr.v ===== *)
(** * Addresses and bit masks ([vminer-core/src/addr.rs], [vminer-core/src/lib.rs])

    [PhysicalAddress], [VirtualAddress] and [MmuEntry] are transparent wrappers
    of [u64]; they are modelled by the integer they hold, and each operator by a
    function named after the wrapper ([pa_], [va_], [mmu_]). *)

From S2P Require Import Prelude Rust.

Section addr.
Context {bm : Build}.

(** ** Masks *)

Definition mask {E} (size : Z) : Res E Z :=
  let? ones := shl_u64 u64_max size in
  Ok (not_u64 ones).

Definition mask_range {E} (from to : Z) : Res E Z :=
  let? size := sub_u32 to from in
  let? m := mask size in
  shl_u64 m from.

(** ** [PhysicalAddress] *)

Definition pa_add_u64 {E} (self rhs : Z) : Res E Z := add_u64 self rhs.

(** [overflowing_add_signed], then the explicit check of debug builds. *)
Definition add_signed {E} (self rhs : Z) : Res E Z :=
  let res := wrap_u64 (self + rhs) in
  let o := negb ((0 <=? self + rhs) && (self + rhs <? 2 ^ 64)) in
  if debug_assertions && o then Panic else Ok res.

Definition pa_add_i64 {E} (self rhs : Z) : Res E Z := add_signed self rhs.

Definition pa_sub (self rhs : Z) : Z := as_i64 (wrapping_sub self rhs).

Definition pa_sub_u64 {E} (self rhs : Z) : Res E Z := sub_u64 self rhs.

(** ** [VirtualAddress] *)

Definition va_is_null (self : Z) : bool := self =? 0.

Definition va_is_kernel (self : Z) : bool := as_i64 self <? 0.

Definition va_pml4e {E} (self : Z) : Res E Z :=
  let? m := mask 9 in Ok (Z.land (Z.shiftr self 39) m).

Definition va_pdpe {E} (self : Z) : Res E Z :=
  let? m := mask 9 in Ok (Z.land (Z.shiftr self 30) m).

Definition va_pde {E} (self : Z) : Res E Z :=
  let? m := mask 9 in Ok (Z.land (Z.shiftr self 21) m).

Definition va_pte {E} (self : Z) : Res E Z :=
  let? m := mask 9 in Ok (Z.land (Z.shiftr self 12) m).

Definition va_page_offset {E} (self : Z) : Res E Z :=
  let? m := mask 12 in Ok (Z.land self m).

Definition va_large_page_offset {E} (self : Z) : Res E Z :=
  let? m := mask 21 in Ok (Z.land self m).

Definition va_huge_page_offset {E} (self : Z) : Res E Z :=
  let? m := mask 30 in Ok (Z.land self m).

Definition va_add_u64 {E} (self rhs : Z) : Res E Z := add_u64 self rhs.

Definition va_add_i64 {E} (self rhs : Z) : Res E Z := add_signed self rhs.

(** [rhs : i32], widened to [i64]. *)
Definition va_add_i32 {E} (self rhs : Z) : Res E Z := va_add_i64 self rhs.

(** [rhs : u32], widened to [u64]. *)
Definition va_add_u32 {E} (self rhs : Z) : Res E Z := add_u64 self rhs.

Definition va_sub (self rhs : Z) : Z := as_i64 (wrapping_sub self rhs).

Definition va_sub_u64 {E} (self rhs : Z) : Res E Z := sub_u64 self rhs.

(** ** [MmuEntry] *)

Definition mmu_take_bits {E} (self from to : Z) : Res E Z :=
  let? m := mask_range from to in Ok (Z.land self m).

Definition mmu_sub_u64 {E} (self rhs : Z) : Res E Z := sub_u64 self rhs.

(** ** Facts about masks *)

Lemma mask_ok {E} size : 0 <= size < 64 → mask (E:=E) size = Ok (Z.ones size).
Proof.
  intros H. unfold mask, shl_u64. replace (size <? 64) with true by lia.
  cbn [res_bind]. f_equal. unfold not_u64, wrap_u64, u64_max.
  rewrite Z.shiftl_mul_pow2 by lia. rewrite Z.ones_equiv.
  replace ((2 ^ 64 - 1) * 2 ^ size) with (2 ^ 64 - 2 ^ size + (2 ^ size - 1) * 2 ^ 64) by ring.
  assert (0 < 2 ^ size <= 2 ^ 64) by (split; [|apply Z.pow_le_mono_r]; lia).
  rewrite Z.mod_add, Z.mod_small by lia. lia.
Qed.

Lemma land_ones_mod x n : 0 <= n → Z.land x (Z.ones n) = x mod 2 ^ n.
Proof. apply Z.land_ones. Qed.

Lemma mask_range_ok {E} from to :
  0 <= from <= to → to < 64 → mask_range (E:=E) from to = Ok (Z.shiftl (Z.ones (to - from)) from).
Proof.
  intros. unfold mask_range. rewrite sub_u32_ok by lia. cbn [res_bind].
  rewrite mask_ok by lia. cbn [res_bind]. unfold shl_u64.
  replace (from <? 64) with true by lia. f_equal. apply wrap_u64_small.
  unfold is_u64. rewrite Z.shiftl_mul_pow2, Z.ones_equiv by lia.
  assert (0 < 2 ^ (to - from)) by lia. assert (0 < 2 ^ from) by lia.
  assert (2 ^ (to - from) * 2 ^ from = 2 ^ to) by (rewrite <- Z.pow_add_r by lia; f_equal; lia).
  assert (2 ^ to <= 2 ^ 64) by (apply Z.pow_le_mono_r; lia). nia.
Qed.

(** Bits [from..to] of [x], kept in place. *)
Definition bits_in_place (x from to : Z) : Z := (x mod 2 ^ to) / 2 ^ from * 2 ^ from.

Lemma land_mask_range x from to :
  0 <= from <= to → Z.land x (Z.shiftl (Z.ones (to - from)) from) = bits_in_place x from to.
Proof.
  intros. unfold bits_in_place. rewrite <- Z.shiftl_mul_pow2, <- Z.shiftr_div_pow2 by lia.
  rewrite <- Z.land_ones by lia. apply Z.bits_inj'. intros i Hi.
  rewrite Z.land_spec, !Z.shiftl_spec by lia.
  destruct (Z.ltb_spec i from).
  - rewrite !(Z.testbit_neg_r _ (i - from)) by lia. by rewrite andb_false_r.
  - rewrite Z.shiftr_spec, Z.land_spec by lia. replace (i - from + from) with i by lia.
    f_equal. destruct (Z.ltb_spec i to).
    + rewrite !Z.ones_spec_low by lia. done.
    + rewrite !Z.ones_spec_high by lia. done.
Qed.

Lemma take_bits_ok {E} e from to :
  0 <= from <= to → to < 64 → mmu_take_bits (E:=E) e from to = Ok (bits_in_place e from to).
Proof.
  intros. unfold mmu_take_bits. rewrite mask_range_ok by lia. cbn [res_bind].
  by rewrite land_mask_range by lia.
Qed.

Lemma bits_in_place_bound x from to :
  0 <= from <= to → 0 <= bits_in_place x from to <= 2 ^ to - 2 ^ from.
Proof.
  intros. unfold bits_in_place.
  assert (Hp : 2 ^ to = 2 ^ (to - from) * 2 ^ from) by (rewrite <- Z.pow_add_r by lia; f_equal; lia).
  assert (0 < 2 ^ from) by lia. assert (0 < 2 ^ (to - from)) by lia.
  pose proof (Z.mod_pos_bound x (2 ^ to)).
  assert (0 <= x mod 2 ^ to / 2 ^ from < 2 ^ (to - from)).
  { split; [apply Z.div_pos; lia|]. apply Z.div_lt_upper_bound; lia. }
  nia.
Qed.

Lemma bits_in_place_mod x from to : 0 <= from → bits_in_place x from to mod 2 ^ from = 0.
Proof. intros. unfold bits_in_place. by rewrite Z.mod_mul by lia. Qed.

(** [x & !y] *)
Lemma land_not_u64 x y : is_u64 x → is_u64 y → Z.land x (not_u64 y) = Z.ldiff x y.
Proof.
  unfold is_u64. intros Hx Hy.
  assert (not_u64 y = Z.land (Z.lnot y) (Z.ones 64)) as ->.
  { rewrite Z.land_ones by lia. unfold not_u64, Z.lnot.
    replace (Z.pred (- y)) with (2 ^ 64 - 1 - y + (-1) * 2 ^ 64) by lia.
    rewrite Z.mod_add, Z.mod_small; lia. }
  rewrite (Z.land_comm (Z.lnot y)), Z.land_assoc, (Z.land_ones x) by lia.
  rewrite Z.mod_small by lia. by rewrite <- Z.ldiff_land.
Qed.

Lemma land_not_mask x n :
  is_u64 x → 0 <= n <= 64 → Z.land x (not_u64 (Z.ones n)) = x - x mod 2 ^ n.
Proof.
  intros Hx Hn. assert (0 < 2 ^ n <= 2 ^ 64) by (split; [|apply Z.pow_le_mono_r]; lia).
  rewrite land_not_u64; [|done|unfold is_u64; rewrite Z.ones_equiv; lia].
  rewrite Z.ldiff_ones_r, Z.shiftl_mul_pow2, Z.shiftr_div_pow2 by lia. lia.
Qed.

(** ** Facts about addresses *)

Lemma va_is_kernel_spec a : is_u64 a → va_is_kernel a = (2 ^ 63 <=? a).
Proof. unfold is_u64, va_is_kernel, as_i64. lia. Qed.

Lemma va_sub_small a b : is_u64 a → is_u64 b → is_i64 (a - b) → va_sub a b = a - b.
Proof. unfold is_u64, is_i64, va_sub, wrapping_sub, wrap_u64, as_i64. lia. Qed.

Lemma va_sub_range a b : is_i64 (va_sub a b).
Proof. apply as_i64_range. Qed.

Lemma add_signed_ok {E} a d : is_u64 (a + d) → add_signed (E:=E) a d = Ok (a + d).
Proof.
  unfold is_u64, add_signed. intros. replace (_ && _) with false by lia.
  by rewrite wrap_u64_small.
Qed.

Lemma add_signed_range {E} a d r : add_signed (E:=E) a d = Ok r → is_u64 r.
Proof. unfold add_signed. case_match; [done|]. intros [= <-]. apply wrap_u64_range. Qed.

(** Adding back a difference gives the address, wherever the two addresses are,
    in a release build; a debug build does so without a panic when the
    difference fits. *)
Lemma va_add_sub_release {E} a b :
  debug_assertions = false → is_u64 a → is_u64 b →
  va_add_i64 (E:=E) b (va_sub a b) = Ok a.
Proof.
  intros Hd Ha Hb. unfold va_add_i64, add_signed. rewrite Hd. cbn [andb]. f_equal.
  unfold va_sub, wrapping_sub, wrap_u64, as_i64, is_u64 in *. lia.
Qed.
End addr.
