(* ===== verification/Endian.v ===== *)
(** * Byte order of the guest ([vminer-core/src/endian.rs])

    An integer that was read from guest memory as it lies there is in host
    (little-endian) order; the [read_*] methods convert it from the order of the
    guest, the [read_*_bytes] methods start from the bytes themselves. *)

From S2P Require Import Prelude Rust Layout.

Inductive RuntimeEndian := Big | Little.

#[export] Instance runtime_endian_eq_dec : EqDecision RuntimeEndian.
Proof. solve_decision. Defined.

(** The trait: its only required method. *)
Class Endianness (T : Type) := as_runtime_endian : T → RuntimeEndian.

Inductive LittleEndian := LittleEndian_.
Inductive BigEndian := BigEndian_.

#[export] Instance little_endianness : Endianness LittleEndian := λ _, Little.
#[export] Instance big_endianness : Endianness BigEndian := λ _, Big.
#[export] Instance runtime_endianness : Endianness RuntimeEndian := λ e, e.

(** ** Standard library conversions *)

(** [uN::swap_bytes] on [n]-byte integers. *)
Definition swap_bytes (n : nat) (z : Z) : Z := be_val (le_bytes n z).

(** The value of the [n]-byte two's complement integer with representation [z]. *)
Definition to_signed (n : nat) (z : Z) : Z :=
  let w := 256 ^ Z.of_nat n in
  if z mod w <? w / 2 then z mod w else z mod w - w.

(** [uN::from_le], [uN::from_be] on a little-endian host. *)
Definition uint_from_le (n : nat) (z : Z) : Z := z.
Definition uint_from_be (n : nat) (z : Z) : Z := swap_bytes n z.

(** [iN::from_le], [iN::from_be] *)
Definition int_from_le (n : nat) (z : Z) : Z := z.
Definition int_from_be (n : nat) (z : Z) : Z := to_signed n (swap_bytes n z).

Section endian.
Context {T : Type} `{Endianness T}.

Definition is_little_endian (self : T) : bool :=
  bool_decide (as_runtime_endian self = Little).

Definition read_uint (n : nat) (self : T) (z : Z) : Z :=
  match as_runtime_endian self with
  | Little => uint_from_le n z
  | Big => uint_from_be n z
  end.

Definition read_int (n : nat) (self : T) (z : Z) : Z :=
  match as_runtime_endian self with
  | Little => int_from_le n z
  | Big => int_from_be n z
  end.

Definition read_uint_bytes (self : T) (bs : bytes) : Z :=
  match as_runtime_endian self with
  | Little => le_val bs
  | Big => be_val bs
  end.

Definition read_int_bytes (self : T) (bs : bytes) : Z :=
  match as_runtime_endian self with
  | Little => to_signed (length bs) (le_val bs)
  | Big => to_signed (length bs) (be_val bs)
  end.

Definition read_u16 : T → Z → Z := read_uint 2.
Definition read_u32 : T → Z → Z := read_uint 4.
Definition read_u64 : T → Z → Z := read_uint 8.
Definition read_i16 : T → Z → Z := read_int 2.
Definition read_i32 : T → Z → Z := read_int 4.
Definition read_i64 : T → Z → Z := read_int 8.

Definition read_u16_bytes : T → bytes → Z := read_uint_bytes.
Definition read_u32_bytes : T → bytes → Z := read_uint_bytes.
Definition read_u64_bytes : T → bytes → Z := read_uint_bytes.
Definition read_i16_bytes : T → bytes → Z := read_int_bytes.
Definition read_i32_bytes : T → bytes → Z := read_int_bytes.
Definition read_i64_bytes : T → bytes → Z := read_int_bytes.
End endian.

(** ** Facts *)

Lemma swap_bytes_le_val bs : swap_bytes (length bs) (le_val bs) = be_val bs.
Proof. unfold swap_bytes. by rewrite le_bytes_le_val. Qed.

Lemma be_val_range bs : 0 <= be_val bs < 256 ^ Z.of_nat (length bs).
Proof. unfold be_val. rewrite <- length_rev. apply le_val_range. Qed.

Lemma swap_bytes_involutive n z :
  0 <= z < 256 ^ Z.of_nat n → swap_bytes n (swap_bytes n z) = z.
Proof.
  intros Hz. unfold swap_bytes, be_val.
  rewrite <- (le_bytes_length n z) at 1. rewrite <- length_rev, le_bytes_le_val.
  rewrite rev_involutive, le_val_le_bytes. by apply Z.mod_small.
Qed.

Lemma to_signed_range n z :
  (0 < n)%nat →
  let w := 256 ^ Z.of_nat n in - (w / 2) <= to_signed n z < w / 2.
Proof.
  intros Hn w. unfold to_signed. fold w.
  assert (Hw : w = 2 * (128 * 256 ^ Z.of_nat (pred n))).
  { unfold w. replace n with (S (pred n)) at 1 by lia. rewrite pow256_succ. lia. }
  assert (0 < 256 ^ Z.of_nat (pred n)) by lia.
  pose proof (Z.mod_pos_bound z w).
  assert (w / 2 = 128 * 256 ^ Z.of_nat (pred n)) as ->
    by (rewrite Hw, Z.mul_comm, Z.div_mul; lia).
  destruct (Z.ltb_spec (z mod w) (128 * 256 ^ Z.of_nat (pred n))); lia.
Qed.
