(* ===== verification/Error.v ===== *)
(** * Errors ([vminer-core/src/error.rs])

    [VmError] boxes a [Repr]; the dynamic errors it can hold are the error types
    of the program itself and errors of other crates, of which only the message
    and the chain of sources are visible.  The conversions of the file are the
    functions that [?] inserts. *)

From S2P Require Import Prelude.

#[local] Open Scope string_scope.
#[local] Open Scope Z_scope.

Notation string := String.string.

(** [std::io::Error]: its kind, its message, and the messages of its sources. *)
Inductive ErrorKind := UnexpectedEof | UnsupportedKind | InvalidData | InvalidInput | OtherKind.

Record IoError := { io_kind : ErrorKind; io_display : string; io_sources : list string }.

(** [io::Error::new(kind, msg)] and [io::Error::from(kind)] *)
Definition io_new (kind : ErrorKind) (msg : string) : IoError :=
  {| io_kind := kind; io_display := msg; io_sources := [] |}.

Definition io_from_kind (kind : ErrorKind) : IoError :=
  {| io_kind := kind;
     io_display := match kind with
                   | UnexpectedEof => "unexpected end of file"
                   | UnsupportedKind => "unsupported"
                   | InvalidData => "invalid data"
                   | InvalidInput => "invalid input parameter"
                   | OtherKind => "other error"
                   end;
     io_sources := [] |}.

Inductive VcpuError :=
| VcpuUnsupported
| InvalidId
| BadArchitecture
| UnknownRegister
| VcpuIo (err : IoError).

Inductive MemoryAccessError :=
| OutOfBounds
| MemUnsupported
| MemIo (err : IoError).

Inductive TranslationError :=
| TransMemory (err : MemoryAccessError)
| TransInvalid (entry : Z).

(** [VmError], [Repr] and [Box<dyn Error + Send + Sync>]. *)
Inductive VmError :=
| ReprMemory (err : MemoryAccessError)
| ReprVcpu (err : VcpuError)
| ReprInvalidPage (entry : Z)
| ReprUnsupportedArchitecture
| ReprUnsupported
| ReprUnimplemented
| ReprMissingModule (name : string)
| ReprMissingSymbol (sym : string)
| ReprMissingField (field typ : string)
| ReprNullPtr
| ReprIo (err : IoError)
| ReprOther (err : DynError)
| ReprContext (msg : string) (err : option DynError)
with DynError :=
| DynVm (err : VmError)
| DynVcpu (err : VcpuError)
| DynMemory (err : MemoryAccessError)
| DynTranslation (err : TranslationError)
| DynIo (err : IoError)
(** an error of another crate, or a string turned into an error *)
| DynForeign (display : string) (sources : list string).

Notation VcpuResult := (Res VcpuError).
Notation MemoryAccessResult := (Res MemoryAccessError).
Notation TranslationResult := (Res TranslationError).
Notation VmResult := (Res VmError).

#[export] Instance error_kind_eq_dec : EqDecision ErrorKind.
Proof. solve_decision. Defined.
#[export] Instance io_error_eq_dec : EqDecision IoError.
Proof. solve_decision. Defined.
#[export] Instance vcpu_error_eq_dec : EqDecision VcpuError.
Proof. solve_decision. Defined.
#[export] Instance memory_access_error_eq_dec : EqDecision MemoryAccessError.
Proof. solve_decision. Defined.
#[export] Instance translation_error_eq_dec : EqDecision TranslationError.
Proof. solve_decision. Defined.

(** ** Conversions *)

Definition mem_of_io (error : IoError) : MemoryAccessError := MemIo error.

Definition io_of_mem (error : MemoryAccessError) : IoError :=
  match error with
  | OutOfBounds => io_new UnexpectedEof "out of bounds memory access"
  | MemUnsupported => io_from_kind UnsupportedKind
  | MemIo error => error
  end.

Definition trans_of_mem (err : MemoryAccessError) : TranslationError := TransMemory err.

Definition vm_of_mem (err : MemoryAccessError) : VmError := ReprMemory err.

Definition vm_of_vcpu (err : VcpuError) : VmError := ReprVcpu err.

Definition vm_of_io (error : IoError) : VmError := ReprIo error.

Definition vm_of_trans (err : TranslationError) : VmError :=
  match err with
  | TransMemory err => vm_of_mem err
  | TransInvalid entry => ReprInvalidPage entry
  end.

Definition vm_of_str (msg : string) : VmError := ReprContext msg None.

(** The message of a [Utf8Error] is the standard library's. *)
Definition vm_of_utf8 (display : string) : VmError := vm_of_str display.

(** [impl From<&str> for Box<dyn Error>] *)
Definition dyn_of_str (msg : string) : DynError := DynForeign msg [].

(** ** Constructors *)

Definition missing_module (sym : string) : VmError := ReprMissingModule sym.
Definition missing_symbol (sym : string) : VmError := ReprMissingSymbol sym.
Definition missing_field (field typ : string) : VmError := ReprMissingField field typ.
Definition deref_null_ptr : VmError := ReprNullPtr.
Definition vm_error_new (err : DynError) : VmError := ReprOther err.
Definition vm_error_with_context (msg : string) (err : DynError) : VmError :=
  ReprContext msg (Some err).
Definition unsupported_architecture : VmError := ReprUnsupportedArchitecture.
Definition unsupported : VmError := ReprUnsupported.
Definition unimplemented : VmError := ReprUnimplemented.

(** ** The extension traits *)

Definition maybe_invalid {T} (self : TranslationResult T) : MemoryAccessResult (option T) :=
  match self with
  | Ok x => Ok (Some x)
  | Err (TransInvalid _) => Ok None
  | Err (TransMemory err) => Err err
  | Panic => Panic
  | NoFuel => NoFuel
  end.

(** [ResultExt] for [Result<T, E>], with [E]'s conversion to a boxed error. *)
Definition result_context {E T} (into : E → DynError) (self : Res E T) (msg : string) : VmResult T :=
  map_err (λ err, vm_error_with_context msg (into err)) self.

Definition result_with_context {E T} (into : E → DynError) (self : Res E T)
    (msg : unit → string) : VmResult T :=
  map_err (λ err, vm_error_with_context (msg tt) (into err)) self.

(** [ResultExt] for [Option<T>]. *)
Definition option_context {T} (self : option T) (msg : string) : VmResult T :=
  ok_or self (vm_error_new (dyn_of_str msg)).

Definition option_with_context {T} (self : option T) (msg : unit → string) : VmResult T :=
  ok_or self (vm_error_new (dyn_of_str (msg tt))).

(** ** Display and source chain *)

Definition vcpu_display (self : VcpuError) : string :=
  match self with
  | VcpuUnsupported => "unsupported operation"
  | InvalidId => "invalid vCPU ID"
  | BadArchitecture => "wrong architecture"
  | UnknownRegister => "unknown register"
  | VcpuIo err => io_display err
  end.

Definition mem_display (self : MemoryAccessError) : string :=
  match self with
  | OutOfBounds => "out of bounds memory access"
  | MemUnsupported => "unsupported operation"
  | MemIo err => io_display err
  end.

Definition trans_display (self : TranslationError) : string :=
  match self with
  | TransMemory err => mem_display err
  | TransInvalid _ => "invalid MMU entry"
  end.

Definition quote : string := String (Ascii.ascii_of_nat 34) "".

Fixpoint repr_display (self : VmError) : string :=
  match self with
  | ReprMemory _ => "failed to access physical memory"
  | ReprVcpu _ => "failed to access registers"
  | ReprInvalidPage _ => "encountered invalid page"
  | ReprUnsupportedArchitecture => "operation unsupported by the architecture"
  | ReprUnsupported => "unsupported operation"
  | ReprUnimplemented => "unimplemented"
  | ReprMissingModule name => "missing required module " +:+ quote +:+ name +:+ quote
  | ReprMissingSymbol sym => "missing required symbol " +:+ quote +:+ sym +:+ quote
  | ReprMissingField field typ =>
      "missing required field " +:+ quote +:+ field +:+ quote
      +:+ " in type " +:+ quote +:+ typ +:+ quote
  | ReprNullPtr => "attempted to deref NULL pointer"
  | ReprIo _ => "I/O error"
  | ReprContext msg _ => msg
  | ReprOther err => dyn_display err
  end
with dyn_display (self : DynError) : string :=
  match self with
  | DynVm err => repr_display err
  | DynVcpu err => vcpu_display err
  | DynMemory err => mem_display err
  | DynTranslation err => trans_display err
  | DynIo err => io_display err
  | DynForeign display _ => display
  end.

(** The chain of [source]s that starts below an error, as the messages of its
    members: [Error::source] gives the next one. *)
Definition vcpu_sources (self : VcpuError) : list string :=
  match self with VcpuIo err => io_sources err | _ => [] end.

Definition mem_sources (self : MemoryAccessError) : list string :=
  match self with MemIo err => io_sources err | _ => [] end.

Definition trans_sources (self : TranslationError) : list string :=
  match self with TransMemory err => mem_sources err | TransInvalid _ => [] end.

Fixpoint vm_sources (self : VmError) : list string :=
  match self with
  | ReprMemory err => mem_display err :: mem_sources err
  | ReprVcpu err => vcpu_display err :: vcpu_sources err
  | ReprIo err => io_display err :: io_sources err
  | ReprContext _ (Some err) => dyn_display err :: dyn_sources err
  | ReprOther err => dyn_sources err
  | _ => []
  end
with dyn_sources (self : DynError) : list string :=
  match self with
  | DynVm err => vm_sources err
  | DynVcpu err => vcpu_sources err
  | DynMemory err => mem_sources err
  | DynTranslation err => trans_sources err
  | DynIo err => io_sources err
  | DynForeign _ sources => sources
  end.

Definition newline : string := String (Ascii.ascii_of_nat 10) "".

(** The loop of [Display] in its alternate form over the chain of causes. *)
Fixpoint display_causes (causes : list string) : string :=
  match causes with
  | [] => ""
  | cause :: causes => newline +:+ "    " +:+ cause +:+ display_causes causes
  end.

Definition vm_error_display (alternate : bool) (self : VmError) : string :=
  if alternate then
    let chain := vm_sources self in
    repr_display self
    +:+ (match chain with [] => "" | _ => newline +:+ newline +:+ "Caused by:" end)
    +:+ display_causes chain
  else repr_display self.

Definition print_backtrace (self : VmError) : string := vm_error_display true self.

(** ** Facts *)

(** Converting to [io::Error] and back keeps an I/O error, and the other two
    errors stay recognisable by their kind. *)
Lemma mem_io_roundtrip err : io_of_mem (mem_of_io err) = err.
Proof. done. Qed.

Lemma maybe_invalid_ok {T} (r : TranslationResult T) o :
  maybe_invalid r = Ok o ↔
  match o with Some x => r = Ok x | None => ∃ e, r = Err (TransInvalid e) end.
Proof. destruct r as [|[]| |], o; naive_solver. Qed.
