(* ===== verification/Mem.v ===== *)
(** * Physical memory ([vminer-core/src/mem.rs])

    The [Memory] trait is a record of operations; the methods with a default
    body are the functions [default_*], which an implementation puts in the
    record unless it overrides them.  A read fills a caller's buffer, so it is a
    computation on that buffer ([MutRes bytes]): what the buffer holds after a
    failed read is part of the outcome. *)

From S2P Require Import Prelude Rust Layout Addr Error.

Record MemoryMap := { map_start : Z; map_end : Z }.

#[export] Instance memory_map_eq_dec : EqDecision MemoryMap.
Proof. solve_decision. Defined.

(** [memchr::memmem::Finder]: the needle and the search function. *)
Record Finder := { needle : bytes; finder_find : bytes → option Z }.

(** [io::Write]: what [write_all] does to a writer. *)
Class IoWrite (W : Type) := write_all : bytes → MutRes W IoError unit.

(** A growing vector, which takes everything. *)
#[export] Instance vec_writer : IoWrite bytes := λ data out, (Ok tt, out ++ data).

Record Memory := {
  memory_mappings : list MemoryMap;
  is_valid : Z → Z → Res Never bool;
  read_physical : Z → MutRes bytes MemoryAccessError unit;
  search : Z → Z → Finder → MutRes bytes MemoryAccessError (option Z);
  dump : ∀ W, IoWrite W → MutRes W IoError unit;
}.
Arguments dump _ {W _}.

(** The bytes that a read of [n] bytes yields. *)
Definition read_bytes (m : Memory) (addr : Z) (n : nat) : MemoryAccessResult bytes :=
  let (r, buf) := read_physical m addr (replicate n Byte.x00) in
  let? _ := r in Ok buf.

(** The value of type [T] found at [addr], read into a variable that holds
    [old] ([bytes_of_mut]). *)
Definition read_value_into {T} (P : Pod T) (m : Memory) (addr : Z) (old : T)
  : MemoryAccessResult T :=
  let (r, buf) := read_physical m addr (bytes_of P old) in
  let? _ := r in Ok (pod_read P buf).

Definition read_value {T} (P : Pod T) (m : Memory) (addr : Z) : MemoryAccessResult T :=
  let? bs := read_bytes m addr (size_of P) in Ok (pod_read P bs).

(** [(a..b).step_by(n)] *)
Definition range_step (a b n : Z) : list Z :=
  (λ i : nat, a + Z.of_nat i * n) <$> seq 0 (Z.to_nat ((b - a + n - 1) / n)).

Section mem.
Context {bm : Build}.

(** ** Default methods *)

Fixpoint default_is_valid (mappings : list MemoryMap) (addr size : Z) : Res Never bool :=
  match mappings with
  | [] => Ok false
  | mapping :: mappings =>
      if map_start mapping <=? addr then
        let? last := pa_add_u64 addr size in
        if last <=? map_end mapping then Ok true
        else default_is_valid mappings addr size
      else default_is_valid mappings addr size
  end.

Section search.
Variable read_physical : Z → MutRes bytes MemoryAccessError unit.
Variable addr page_size : Z.
Variable finder : Finder.

(** The loop over the chunks of a page that does not fit in the buffer. *)
Fixpoint search_chunks (offsets : list Z) : MutRes bytes MemoryAccessError (option Z) :=
  match offsets with
  | [] => mut_ret None
  | offset :: offsets => λ buf,
      (let! chunk_addr := mut_lift (pa_add_u64 addr offset) in
       let size := Z.min (Z.of_nat (length buf)) (page_size - offset) in
       let! _ := on_slice 0 (Z.to_nat size) (read_physical chunk_addr) in
       λ buf, match finder_find finder (take (Z.to_nat size) buf) with
              | Some index => (Ok (Some index), buf)
              | None => search_chunks offsets buf
              end) buf
  end.

Definition default_search : MutRes bytes MemoryAccessError (option Z) := λ buf,
  if page_size <=? Z.of_nat (length buf) then
    (let! _ := on_slice 0 (Z.to_nat page_size) (read_physical addr) in
     λ buf, (Ok (finder_find finder (take (Z.to_nat page_size) buf)), buf)) buf
  else
    let stride := Z.of_nat (length buf) - Z.of_nat (length (needle finder)) in
    if 0 <? stride then search_chunks (range_step 0 page_size stride) buf
    else (Panic, buf).
End search.

Section dump.
Variable read_physical : Z → MutRes bytes MemoryAccessError unit.
Context {W : Type} `{IoWrite W}.

(** The state is the fixed buffer and the writer. *)
Definition dump_chunk (addr : Z) : MutRes (bytes * W) IoError unit := λ '(buffer, out),
  match read_physical addr buffer with
  | (Ok _, buffer) => let (r, out) := write_all buffer out in (r, (buffer, out))
  | (Err e, buffer) => (Err (io_of_mem e), (buffer, out))
  | (Panic, buffer) => (Panic, (buffer, out))
  | (NoFuel, buffer) => (NoFuel, (buffer, out))
  end.

Fixpoint dump_chunks (addrs : list Z) : MutRes (bytes * W) IoError unit :=
  match addrs with
  | [] => mut_ret tt
  | addr :: addrs => let! _ := dump_chunk addr in dump_chunks addrs
  end.

Fixpoint dump_mappings (mappings : list MemoryMap) : MutRes (bytes * W) IoError unit :=
  match mappings with
  | [] => mut_ret tt
  | mapping :: mappings =>
      let! _ := dump_chunks (range_step (map_start mapping) (map_end mapping) (2 ^ 16)) in
      dump_mappings mappings
  end.

Definition default_dump (mappings : list MemoryMap) : MutRes W IoError unit := λ out,
  let '(r, (_, out)) := dump_mappings mappings (replicate (2 ^ 16) Byte.x00, out) in (r, out).
End dump.

(** ** [RawMemory]: bytes in memory, mapped at 0 *)

Record RawMemory := { raw_mapping : MemoryMap; raw_bytes : bytes }.

Definition raw_new (bs : bytes) : RawMemory :=
  {| raw_mapping := {| map_start := 0; map_end := Z.of_nat (length bs) |}; raw_bytes := bs |}.

Definition raw_read_physical (self : RawMemory) (addr : Z) : MutRes bytes MemoryAccessError unit :=
  λ buf,
    match slice_get_from (raw_bytes self) addr with
    | Some this =>
        let len := length buf in
        if (len <=? length this)%nat then (Ok tt, take len this) else (Err OutOfBounds, buf)
    | None => (Err OutOfBounds, buf)
    end.

Definition raw_search (self : RawMemory) (addr page_size : Z) (finder : Finder)
  : MutRes bytes MemoryAccessError (option Z) :=
  let this :=
    if addr + page_size <? 2 ^ 64
    then slice_get (raw_bytes self) addr (addr + page_size)
    else None in
  mut_lift (match this with
            | Some this => Ok (finder_find finder this)
            | None => Err OutOfBounds
            end).

Definition raw_dump (self : RawMemory) {W} `{IoWrite W} : MutRes W IoError unit := write_all (raw_bytes self).

Definition raw_memory (self : RawMemory) : Memory := {|
  memory_mappings := [raw_mapping self];
  is_valid := default_is_valid [raw_mapping self];
  read_physical := raw_read_physical self;
  search := raw_search self;
  dump := λ _ _, raw_dump self;
|}.

(** ** [MemRemap]: windows on another memory *)

Record MemRemap := {
  remap_mappings : list MemoryMap;
  remap_at : list Z;
  remap_inner : Memory;
}.

Definition remap_new (inner : Memory) (mappings : list MemoryMap) (at_ : list Z) : MemRemap :=
  {| remap_mappings := mappings; remap_at := at_; remap_inner := inner |}.

(** The loop that looks for the window of a read of [len] bytes. *)
Fixpoint remap_find (mappings : list MemoryMap) (at_ : list Z) (addr len : Z)
  : MemoryAccessResult Z :=
  match mappings with
  | [] => Err OutOfBounds
  | mapping :: mappings =>
      let? hit := if map_start mapping <=? addr
                  then let? last := pa_add_u64 addr len in Ok (last <=? map_end mapping)
                  else Ok false in
      match at_ with
      | [] => Panic
      | at0 :: at_ =>
          if hit : bool then pa_add_i64 at0 (pa_sub addr (map_start mapping))
          else remap_find mappings at_ addr len
      end
  end.

Definition remap_read_physical (self : MemRemap) (addr : Z) : MutRes bytes MemoryAccessError unit :=
  λ buf,
    if (length (remap_mappings self) =? length (remap_at self))%nat then
      (let! addr := mut_lift (remap_find (remap_mappings self) (remap_at self) addr
                                         (Z.of_nat (length buf))) in
       read_physical (remap_inner self) addr) buf
    else (Panic, buf).

Definition remap_memory (self : MemRemap) : Memory := {|
  memory_mappings := remap_mappings self;
  is_valid := default_is_valid (remap_mappings self);
  read_physical := remap_read_physical self;
  search := default_search (remap_read_physical self);
  dump := λ _ _, default_dump (remap_read_physical self) (remap_mappings self);
|}.

(** ** [File]: a range of an open file

    [read_exact_at] of the [sync_file] crate is a parameter. *)

Record File := {
  file_read_exact_at : Z → MutRes bytes IoError unit;
  file_start : Z;
  file_mapping : MemoryMap;
}.

Definition file_new {E} (read_exact_at : Z → MutRes bytes IoError unit) (start end_ : Z)
  : Res E File :=
  let? size := sub_u64 end_ start in
  Ok {| file_read_exact_at := read_exact_at; file_start := start;
        file_mapping := {| map_start := 0; map_end := size |} |}.

Definition file_size (self : File) : Z := map_end (file_mapping self).

Definition file_read_physical (self : File) (addr : Z) : MutRes bytes MemoryAccessError unit :=
  λ buf,
    (let! valid := mut_lift (from_never (default_is_valid [file_mapping self] addr
                                                          (Z.of_nat (length buf)))) in
     if valid : bool then
       let! offset := mut_lift (add_u64 (file_start self) addr) in
       mut_map_err mem_of_io (file_read_exact_at self offset)
     else mut_lift (Err OutOfBounds)) buf.

Definition file_memory (self : File) : Memory := {|
  memory_mappings := [file_mapping self];
  is_valid := default_is_valid [file_mapping self];
  read_physical := file_read_physical self;
  search := default_search (file_read_physical self);
  dump := λ _ _, default_dump (file_read_physical self) [file_mapping self];
|}.

(** ** [Memory] for pointers to a memory

    [Arc<M>] forwards every method; [Box<M>] and [&M] do not forward
    [is_valid], which falls back to the default. *)

Definition arc_memory (m : Memory) : Memory := {|
  memory_mappings := memory_mappings m;
  is_valid := is_valid m;
  read_physical := read_physical m;
  search := search m;
  dump := λ _ _, dump m;
|}.

Definition ref_memory (m : Memory) : Memory := {|
  memory_mappings := memory_mappings m;
  is_valid := default_is_valid (memory_mappings m);
  read_physical := read_physical m;
  search := search m;
  dump := λ _ _, dump m;
|}.

Definition box_memory (m : Memory) : Memory := {|
  memory_mappings := memory_mappings m;
  is_valid := default_is_valid (memory_mappings m);
  read_physical := read_physical m;
  search := search m;
  dump := λ _ _, dump m;
|}.
End mem.
