(* ===== verification/MemSpec.v ===== *)
(** * What physical memory promises ([vminer-core/src/mem.rs])

    [MemoryLaws] is the contract of [Memory::read_physical] that the clients
    rely on; [RawMemory] and [MemRemap] implement it.  The rest of the file is
    the behaviour of the windows of [MemRemap], of the two implementations of
    [search], and of the default [dump]. *)

From S2P Require Import Prelude Rust Layout Addr Error Mem.

(** A read never changes the length of the buffer (it is a slice); whether it
    succeeds, and the content of the buffer after a success, do not depend on
    what the buffer held before. *)
Class ReadLaws (rp : Z → MutRes bytes MemoryAccessError unit) : Prop := {
  read_length : ∀ addr buf, length (rp addr buf).2 = length buf;
  read_result : ∀ addr buf1 buf2,
    length buf1 = length buf2 → (rp addr buf1).1 = (rp addr buf2).1;
  read_content : ∀ addr buf1 buf2,
    length buf1 = length buf2 → (rp addr buf1).1 = Ok tt → rp addr buf2 = rp addr buf1;
}.

Notation MemoryLaws m := (ReadLaws (read_physical m)).

Definition occurs_at (needle hay : bytes) (i : nat) : Prop :=
  (i + length needle <= length hay)%nat ∧ take (length needle) (drop i hay) = needle.

(** The documented behaviour of [memmem]: the first occurrence. *)
Class FinderOk (f : Finder) : Prop := {
  finder_some : ∀ hay i, finder_find f hay = Some i →
    0 <= i ∧ occurs_at (needle f) hay (Z.to_nat i) ∧
    ∀ j, (j < Z.to_nat i)%nat → ¬ occurs_at (needle f) hay j;
  finder_none : ∀ hay, finder_find f hay = None → ∀ j, ¬ occurs_at (needle f) hay j;
}.

(** A part of a readable range is readable, with the same content. *)
Class SubReads (m : Memory) : Prop := sub_reads : ∀ addr n bs o k,
  0 <= addr → read_bytes m addr n = Ok bs → (o + k <= n)%nat →
  read_bytes m (addr + Z.of_nat o) k = Ok (take k (drop o bs)).

(** A computation that leaves the length of the buffer as it was. *)
Definition keeps_length {T E A} (m : MutRes (list T) E A) : Prop :=
  ∀ buf, length (m buf).2 = length buf.

Lemma keeps_ret {T E A} (a : A) : keeps_length (T:=T) (E:=E) (mut_ret a).
Proof. done. Qed.

Lemma keeps_lift {T E A} (r : Res E A) : keeps_length (T:=T) (mut_lift r).
Proof. done. Qed.

Lemma keeps_bind {T E A B} (m : MutRes (list T) E A) (k : A → MutRes (list T) E B) :
  keeps_length m → (∀ a, keeps_length (k a)) → keeps_length (mut_bind m k).
Proof.
  intros Hm Hk buf. specialize (Hm buf). unfold mut_bind.
  destruct (m buf) as [[] ?]; cbn in *; rewrite <- Hm; (apply Hk || done).
Qed.

(** The contract of [Memory::search]: a hit lies in the page, and it is an
    occurrence of the needle for the pages and buffers that fit. *)
Class SearchLaws (m : Memory) (fits : Z → nat → Prop) : Prop := {
  search_length : ∀ addr size f, keeps_length (search m addr size f);
  search_bound : ∀ addr size f `{!FinderOk f} buf i buf',
    search m addr size f buf = (Ok (Some i), buf') → 0 <= size →
    0 <= i ∧ i + Z.of_nat (length (needle f)) <= size;
  search_hit : ∀ addr size f `{!FinderOk f} buf i buf',
    search m addr size f buf = (Ok (Some i), buf') →
    0 <= addr → 0 <= size → fits size (length buf) →
    read_bytes m (addr + i) (length (needle f)) = Ok (needle f);
}.

Lemma read_bytes_of m `{!MemoryLaws m} addr buf b :
  read_physical m addr buf = (Ok tt, b) → read_bytes m addr (length buf) = Ok b.
Proof.
  intros H. unfold read_bytes.
  pose proof (read_content addr buf (replicate (length buf) Byte.x00)) as Hc.
  rewrite length_replicate, H in Hc. by rewrite (Hc eq_refl eq_refl).
Qed.

Lemma read_bytes_length m `{!MemoryLaws m} addr n b : read_bytes m addr n = Ok b → length b = n.
Proof.
  unfold read_bytes. pose proof (read_length addr (replicate n Byte.x00)) as Hl.
  destruct (read_physical _ _ _). rewrite length_replicate in Hl. intros H. inv_ok. by subst.
Qed.

(** The value a read leaves does not depend on the variable. *)
Lemma read_value_into_eq {T} (P : Pod T) `{!PodOk P} m `{!MemoryLaws m} addr old :
  read_value_into P m addr old = read_value P m addr.
Proof.
  unfold read_value_into, read_value, read_bytes.
  assert (Hl : length (bytes_of P old) = length (replicate (size_of P) Byte.x00))
    by (rewrite length_replicate; apply pod_length).
  pose proof (read_content addr _ _ Hl) as Hc. pose proof (read_result addr _ _ Hl) as Hr.
  destruct (read_physical m addr (bytes_of P old)) as [r1 b1].
  destruct (read_physical m addr (replicate _ _)) as [r2 b2]. cbn in *. subst r2.
  destruct r1 as [[]| | |]; cbn; try done. by injection (Hc eq_refl) as ->.
Qed.

(** ** [RawMemory] *)

Section raw.
Context {bm : Build}.

Lemma raw_read_spec self addr buf :
  0 <= addr →
  raw_read_physical self addr buf =
  if addr + Z.of_nat (length buf) <=? Z.of_nat (length (raw_bytes self))
  then (Ok tt, take (length buf) (drop (Z.to_nat addr) (raw_bytes self)))
  else (Err OutOfBounds, buf).
Proof.
  intros Ha. unfold raw_read_physical, slice_get_from.
  destruct (Z.leb_spec addr (Z.of_nat (length (raw_bytes self)))); cbn -[Nat.leb].
  - rewrite length_drop.
    destruct (Nat.leb_spec (length buf) (length (raw_bytes self) - Z.to_nat addr)),
      (Z.leb_spec (addr + Z.of_nat (length buf)) (Z.of_nat (length (raw_bytes self)))); (done || lia).
  - destruct (Z.leb_spec (addr + Z.of_nat (length buf)) (Z.of_nat (length (raw_bytes self)))); (done || lia).
Qed.

#[export] Instance raw_laws self : MemoryLaws (raw_memory self).
Proof.
  split; cbn [read_physical raw_memory]; unfold raw_read_physical; intros addr.
  - intros buf. destruct (slice_get_from _ _); [|done].
    destruct (Nat.leb_spec (length buf) (length l)); cbn; rewrite ?length_take; lia.
  - intros buf1 buf2 Hl. rewrite Hl.
    destruct (slice_get_from _ _); [|done]. by destruct (_ <=? _)%nat.
  - intros buf1 buf2 Hl. rewrite Hl.
    destruct (slice_get_from _ _); [|done]. by destruct (_ <=? _)%nat.
Qed.
End raw.

(** ** [MemRemap] *)

Section remap.
Context {bm : Build}.

Definition covers (mapping : MemoryMap) (addr len : Z) : bool :=
  (map_start mapping <=? addr) && (addr + len <=? map_end mapping).

Definition map_wf (mapping : MemoryMap) : Prop :=
  is_u64 (map_start mapping) ∧ is_u64 (map_end mapping).

(** The window that serves a read: the first that covers it. *)
Fixpoint remap_target (mappings : list MemoryMap) (at_ : list Z) (addr len : Z) : option Z :=
  match mappings, at_ with
  | mapping :: mappings, at0 :: at_ =>
      if covers mapping addr len then Some (at0 + (addr - map_start mapping))
      else remap_target mappings at_ addr len
  | _, _ => None
  end.

Lemma remap_find_spec mappings at_ addr len :
  length mappings = length at_ → Forall map_wf mappings →
  0 <= len → is_u64 (addr + len) → 0 <= addr < 2 ^ 63 →
  (∀ a, remap_target mappings at_ addr len = Some a → is_u64 a) →
  remap_find mappings at_ addr len = ok_or (remap_target mappings at_ addr len) OutOfBounds.
Proof.
  intros Hlen Hwf Hl Hu Ha. revert at_ Hlen.
  induction Hwf as [|mapping mappings [Hs He] _ IH]; intros [|at0 at_] Hlen; try done.
  cbn [remap_find remap_target]. unfold covers. intros Ht.
  destruct (Z.leb_spec (map_start mapping) addr) as [Hle|Hgt]; cbn [andb] in *.
  - unfold pa_add_u64. rewrite add_u64_ok by done. cbn [res_bind].
    destruct (Z.leb_spec (addr + len) (map_end mapping)); cbn [ok_or].
    + unfold pa_add_i64, pa_sub. unfold is_u64 in *.
      pose proof (va_sub_small addr (map_start mapping)) as Hsub. unfold va_sub in Hsub.
      rewrite Hsub by (unfold is_u64, is_i64; lia). apply add_signed_ok, Ht. done.
    + apply IH; auto.
  - cbn [res_bind]. apply IH; auto.
Qed.

#[export] Instance remap_laws self : MemoryLaws (remap_inner self) → MemoryLaws (remap_memory self).
Proof.
  intros Hin. split; cbn [read_physical remap_memory]; unfold remap_read_physical, mut_bind, mut_lift; intros addr.
  - intros buf. destruct (_ =? _)%nat; [|done].
    destruct (remap_find _ _ _ _); [apply read_length|done..].
  - intros buf1 buf2 Hl. rewrite Hl. destruct (_ =? _)%nat; [|done].
    destruct (remap_find _ _ _ _); [by apply read_result|done..].
  - intros buf1 buf2 Hl. rewrite Hl. destruct (_ =? _)%nat; [|done].
    destruct (remap_find _ _ _ _); [by apply read_content|done..].
Qed.
End remap.

(** ** Searching *)

(** A finder for the witnesses: it tries every position. *)
Definition occurs_here (needle hay : bytes) : bool :=
  bool_decide (take (length needle) hay = needle).

Fixpoint find_from (needle hay : bytes) (i : Z) : option Z :=
  if occurs_here needle hay then Some i
  else match hay with [] => None | _ :: hay => find_from needle hay (i + 1) end.

Definition naive_finder (n : bytes) : Finder := {| needle := n; finder_find := λ hay, find_from n hay 0 |}.

Lemma occurs_here_spec n hay : occurs_here n hay = true ↔ occurs_at n hay 0.
Proof.
  unfold occurs_here, occurs_at. rewrite bool_decide_eq_true, drop_0. split; [|tauto].
  intros H. split; [|done]. rewrite <- H, length_take. lia.
Qed.

Lemma occurs_at_cons n b hay j : occurs_at n (b :: hay) (S j) ↔ occurs_at n hay j.
Proof. unfold occurs_at. cbn. split; intros [??]; (split; [lia|done]). Qed.

Lemma find_from_spec n hay k :
  match find_from n hay k with
  | Some i => ∃ p, i = k + Z.of_nat p ∧ occurs_at n hay p ∧ ∀ j, (j < p)%nat → ¬ occurs_at n hay j
  | None => ∀ j, ¬ occurs_at n hay j
  end.
Proof.
  revert k. induction hay as [|b hay IH]; intros k; cbn [find_from].
  - destruct (occurs_here n []) eqn:E.
    + exists 0%nat. apply occurs_here_spec in E. split_and!; [lia|done|lia].
    + intros j Hj. assert (j = 0%nat) as -> by (destruct Hj; cbn in *; lia).
      apply occurs_here_spec in Hj. congruence.
  - destruct (occurs_here n (b :: hay)) eqn:E.
    + exists 0%nat. apply occurs_here_spec in E. split_and!; [lia|done|lia].
    + assert (H0 : ¬ occurs_at n (b :: hay) 0) by (rewrite <- occurs_here_spec; congruence).
      specialize (IH (k + 1)). destruct (find_from n hay (k + 1)) as [i|].
      * destruct IH as (p & -> & Hp & Hf). exists (S p). split; [lia|].
        rewrite occurs_at_cons. split; [done|]. intros [|j] Hj; [done|].
        rewrite occurs_at_cons. apply Hf. lia.
      * intros [|j]; [done|]. rewrite occurs_at_cons. apply IH.
Qed.

#[export] Instance naive_finder_ok n : FinderOk (naive_finder n).
Proof.
  split; cbn [naive_finder finder_find needle]; intros hay; pose proof (find_from_spec n hay 0) as H.
  - intros i Hi. rewrite Hi in H. destruct H as (p & -> & Hp & Hf).
    rewrite Z.add_0_l, Nat2Z.id. split_and!; [lia|done|done].
  - intros Hi. by rewrite Hi in H.
Qed.

(** The first occurrence. *)
Definition first_at (needle hay : bytes) (p : nat) : Prop :=
  occurs_at needle hay p ∧ ∀ j, (j < p)%nat → ¬ occurs_at needle hay j.

(** The distance of a first occurrence to the beginning of the chunk it is found
    in: chunks start every [stride] bytes, and an occurrence at the beginning of a
    chunk is found in the previous one. *)
Definition chunk_index (stride p : nat) : nat :=
  match p with O => O | S q => S (q mod stride) end.

(** What the default search says of a first occurrence at [p] in a page: its
    index in the page when the page fits in the buffer, and otherwise its index in
    its chunk. *)
Definition search_index (page_len buf_len needle_len p : nat) : nat :=
  if (page_len <=? buf_len)%nat then p else chunk_index (buf_len - needle_len) p.

Lemma chunk_index_at stride i p :
  (0 < stride)%nat → (p <= stride)%nat ∧ (i = 0 ∨ 1 <= p)%nat → chunk_index stride (i * stride + p) = p.
Proof.
  intros Hs [Hp Hi]. destruct p as [|p].
  - by assert (i = 0%nat) as -> by lia.
  - rewrite Nat.add_succ_r. cbn [chunk_index]. rewrite Nat.add_comm, Nat.Div0.mod_add, Nat.mod_small by lia. done.
Qed.

(** The index in the chunk is that in the page for the first chunk only. *)
Lemma chunk_index_eq stride p : (0 < stride)%nat → chunk_index stride p = p ↔ (p <= stride)%nat.
Proof.
  intros Hs. destruct p as [|p]; [split; intros; [lia|done]|]. cbn [chunk_index].
  pose proof (Nat.mod_upper_bound p stride). split; [lia|]. intros. rewrite Nat.mod_small; lia.
Qed.

(** The part of the memory at [base] holds [content]. *)
Definition holds_at (rp : Z → MutRes bytes MemoryAccessError unit) (base : Z) (content : bytes) : Prop :=
  ∀ addr buf, base <= addr → addr + Z.of_nat (length buf) <= base + Z.of_nat (length content) →
    rp addr buf = (Ok tt, take (length buf) (drop (Z.to_nat (addr - base)) content)).

Lemma occurs_at_slice n hay o s j :
  (o + s <= length hay)%nat →
  occurs_at n (take s (drop o hay)) j ↔ occurs_at n hay (o + j) ∧ (j + length n <= s)%nat.
Proof.
  intros Hs. unfold occurs_at. rewrite length_take, length_drop, skipn_firstn_comm, take_take.
  rewrite drop_drop. split.
  - intros [H1 H2]. rewrite Nat.min_l in H2 by lia. split_and!; [lia|done|lia].
  - intros [[H1 H2] H3]. rewrite (Nat.min_l (length n)) by lia. split; [lia|done].
Qed.

Lemma on_slice_prefix {T E A} n (m : MutRes (list T) E A) buf r mid :
  (n <= length buf)%nat → m (take n buf) = (r, mid) →
  on_slice 0 n m buf = (r, mid ++ drop n buf).
Proof.
  intros Hn Hm. unfold on_slice. replace (_ && _) with true by lia.
  rewrite drop_0, Nat.sub_0_r, Hm. done.
Qed.

Section search_spec.
Context {bm : Build}.
Variable rp : Z → MutRes bytes MemoryAccessError unit.
Variable base : Z.
Variable page : bytes.
Variable f : Finder.
Hypothesis page_held : holds_at rp base page.
Hypothesis finder_ok : FinderOk f.
Hypothesis page_u64 : 0 <= base ∧ base + Z.of_nat (length page) < 2 ^ 64.

Lemma chunk_read o buf n :
  (o + n <= length page)%nat → (n <= length buf)%nat →
  on_slice 0 n (rp (base + Z.of_nat o)) buf = (Ok tt, take n (drop o page) ++ drop n buf).
Proof.
  intros Ho Hn. apply on_slice_prefix; [done|].
  rewrite page_held; rewrite ?length_take; [|lia..].
  rewrite Nat.min_l by lia. by replace (Z.to_nat (base + Z.of_nat o - base)) with o by lia.
Qed.

(** What the chunk loop returns from chunk [k] on: [Ok], and up to the offset
    of its chunk the first occurrence at or after [k * stride]. *)
Definition chunk_result (stride k : nat) (r : MemoryAccessResult (option Z)) : Prop :=
  match r with
  | Ok None => ∀ j, (k * stride <= j)%nat → ¬ occurs_at (needle f) page j
  | Ok (Some idx) => ∃ i p, (k <= i)%nat ∧ idx = Z.of_nat p ∧ (p <= stride)%nat ∧ (i = k ∨ 1 <= p)%nat ∧
      occurs_at (needle f) page (i * stride + p) ∧
      ∀ j, (k * stride <= j < i * stride + p)%nat → ¬ occurs_at (needle f) page j
  | _ => False
  end.

Lemma search_chunks_spec stride n k buf :
  (0 < stride)%nat → (0 < length (needle f))%nat →
  length buf = (stride + length (needle f))%nat →
  (n = 0 ∨ (k + n - 1) * stride < length page)%nat →
  (length page <= (k + n) * stride)%nat →
  chunk_result stride k
    (search_chunks rp base (Z.of_nat (length page)) f
       ((λ i : nat, 0 + Z.of_nat i * Z.of_nat stride) <$> seq k n) buf).1.
Proof.
  intros Hst Hnd. revert k buf. induction n as [|n IH]; intros k buf Hl Hlt Hge.
  { cbn. intros j Hj [Ho _]. nia. }
  cbn [seq fmap list_fmap]. cbn [search_chunks].
  set (o := (k * stride)%nat).
  replace (0 + Z.of_nat k * Z.of_nat stride) with (Z.of_nat o) by lia.
  assert (Ho : (o < length page)%nat) by (destruct Hlt as [|Hlt]; [lia|]; unfold o; nia).
  unfold pa_add_u64, mut_bind at 1, mut_lift. rewrite add_u64_ok by lia.
  set (size := Z.min _ _). set (s := Z.to_nat size).
  assert (Hs : s = (length buf `min` (length page - o))%nat) by lia.
  unfold mut_bind. rewrite chunk_read by lia. cbn [fst snd].
  assert (Hc : length (take s (drop o page)) = s) by (rewrite length_take, length_drop; lia).
  rewrite take_app_le, (take_ge (take s _)) by lia.
  assert (Hslice : ∀ j, occurs_at (needle f) (take s (drop o page)) j ↔
    occurs_at (needle f) page (o + j) ∧ (j + length (needle f) <= s)%nat)
    by (intros; apply occurs_at_slice; lia).
  destruct (finder_find f _) as [idx|] eqn:Ef.
  - destruct (finder_some _ _ Ef) as (? & Hocc & Hfirst). cbn.
    exists k, (Z.to_nat idx). pose proof (proj1 (Hslice _) Hocc) as [_ Hin].
    split_and!; [lia|lia|lia|by left|by apply Hslice|].
    intros j Hj Hoj. apply (Hfirst (j - o)%nat); [lia|]. apply Hslice.
    replace (o + (j - o))%nat with j by lia. split; [done|].
    apply Hslice in Hocc as [_ ?]. lia.
  - pose proof (finder_none _ Ef) as Hnone.
    assert (Hthis : ∀ j, (o <= j <= o + stride)%nat → ¬ occurs_at (needle f) page j).
    { intros j Hj Hoj. apply (Hnone (j - o)%nat), Hslice.
      replace (o + (j - o))%nat with j by lia. split; [done|]. destruct Hoj. lia. }
    assert (Hnext : (S k * stride = o + stride)%nat) by (unfold o; lia).
    specialize (IH (S k) (take s (drop o page) ++ drop s buf)).
    forward IH. { rewrite length_app, Hc, length_drop. lia. }
    forward IH. { destruct n; [by left|right]. destruct Hlt; [lia|]. nia. }
    forward IH. { lia. }
    destruct (search_chunks _ _ _ _ _ _) as [r buf']; cbn in *.
    destruct r as [[idx|]| | |]; cbn [chunk_result] in *; [| |done..].
    + destruct IH as (i & p & Hi & -> & Hp & Hip & Hocc & Hfirst). exists i, p.
      split_and!; [lia|done|done| |done|].
      { right. destruct Hip as [->|]; [|done]. destruct p; [|lia]. destruct (Hthis (S k * stride + 0)%nat); [lia|done]. }
      intros j Hj. destruct (decide (j < o + stride)%nat); [apply Hthis; lia|apply Hfirst; lia].
    + intros j Hj. destruct (decide (j < o + stride)%nat); [apply Hthis; lia|apply IH; lia].
Qed.

Lemma range_step_nat (len stride : nat) :
  (0 < stride)%nat →
  range_step 0 (Z.of_nat len) (Z.of_nat stride) =
  (λ i : nat, 0 + Z.of_nat i * Z.of_nat stride) <$> seq 0 ((len + stride - 1) / stride).
Proof.
  intros. unfold range_step. do 2 f_equal.
  replace (Z.of_nat len - 0 + Z.of_nat stride - 1) with (Z.of_nat (len + stride - 1)) by lia.
  rewrite <- Nat2Z.inj_div. apply Nat2Z.id.
Qed.

(** The search as a whole, for a needle that fits in the buffer with room to
    spare (the assertion of the code). *)
Lemma default_search_first buf :
  (0 < length (needle f) < length buf)%nat →
  match (default_search rp base (Z.of_nat (length page)) f buf).1 with
  | Ok None => ∀ j, ¬ occurs_at (needle f) page j
  | Ok (Some idx) => ∃ p, first_at (needle f) page p ∧
      idx = Z.of_nat (search_index (length page) (length buf) (length (needle f)) p)
  | _ => False
  end.
Proof.
  intros Hn. unfold default_search, search_index.
  destruct (Z.leb_spec (Z.of_nat (length page)) (Z.of_nat (length buf))).
  - unfold mut_bind. rewrite Nat2Z.id. replace (length page <=? length buf)%nat with true by lia.
    pose proof (chunk_read 0 buf (length page)) as Hc. rewrite Z.add_0_r in Hc.
    rewrite Hc by lia. cbn [fst].
    rewrite drop_0, (take_ge page) by lia. rewrite take_app_le, take_ge by lia.
    destruct (finder_find f page) as [idx|] eqn:Ef; cbn.
    + destruct (finder_some _ _ Ef) as (? & ? & ?). exists (Z.to_nat idx). split; [done|lia].
    + by apply finder_none.
  - set (st := (length buf - length (needle f))%nat). replace (length page <=? length buf)%nat with false by lia.
    replace (_ - _) with (Z.of_nat st) by lia. replace (0 <? _) with true by lia.
    rewrite range_step_nat by lia.
    pose proof (Nat.div_mod (length page + st - 1) st) as Hdm.
    pose proof (Nat.mod_upper_bound (length page + st - 1) st) as Hmb.
    set (n := ((length page + st - 1) / st)%nat) in *.
    pose proof (search_chunks_spec st n 0 buf) as Hs.
    forward Hs; [lia|]. forward Hs; [lia|]. forward Hs; [lia|].
    forward Hs. { destruct n; [by left|right]. nia. }
    forward Hs. { nia. }
    destruct (search_chunks _ _ _ _ _ _) as [[[idx|]| | |] buf']; cbn in *; try done.
    + destruct Hs as (i & p & _ & -> & Hp & Hip & Hocc & Hfirst). exists (i * st + p)%nat. split.
      * split; [done|]. intros j Hj. apply Hfirst. lia.
      * f_equal. symmetry. apply chunk_index_at; [lia|]. destruct Hip as [->|]; lia.
    + intros j. apply Hs. lia.
Qed.
End search_spec.

(** ** The contract of [search] *)

Section search_laws.
Context {bm : Build}.

Lemma on_slice_length {T E A} lo hi (m : MutRes (list T) E A) :
  (∀ buf, length (m buf).2 = length buf) → keeps_length (on_slice lo hi m).
Proof.
  intros Hm buf. unfold on_slice. destruct (_ && _) eqn:Hb; [|done].
  specialize (Hm (take (hi - lo) (drop lo buf))). destruct (m _) as [r mid]. cbn in *.
  rewrite !length_app, Hm, ?length_take, ?length_drop, ?length_take. lia.
Qed.

Lemma default_search_length rp addr size f :
  ReadLaws rp → keeps_length (default_search rp addr size f).
Proof.
  intros Hrp.
  assert (Hch : ∀ l, keeps_length (search_chunks rp addr size f l)).
  { induction l as [|offset l IH]; [done|]. intros buf. cbn [search_chunks].
    revert buf. intros buf. unfold mut_bind at 1, mut_lift. destruct (pa_add_u64 _ _) as [a| | |]; [|done..].
    unfold mut_bind.
    pose proof (on_slice_length 0 (Z.to_nat (Z.min (Z.of_nat (length buf)) (size - offset))) (rp a)
      (read_length a) buf) as Hl.
    destruct (on_slice _ _ _ buf) as [[] b]; cbn in *; [|done..].
    destruct (finder_find _ _); cbn; [done|]. by rewrite IH. }
  intros buf. unfold default_search. destruct (_ <=? _).
  - unfold mut_bind. pose proof (on_slice_length 0 (Z.to_nat size) (rp addr) (read_length addr) buf) as Hl.
    by destruct (on_slice _ _ _ buf) as [[] b].
  - destruct (0 <? _); [apply Hch|done].
Qed.

Lemma finder_bound f `{!FinderOk f} hay i :
  finder_find f hay = Some i → 0 <= i ∧ i + Z.of_nat (length (needle f)) <= Z.of_nat (length hay).
Proof. intros H. destruct (finder_some _ _ H) as (? & [? _] & _). lia. Qed.

Lemma search_chunks_bound rp addr size f `{!FinderOk f} l buf i buf' :
  Forall (λ o, 0 <= o) l → 0 <= size →
  search_chunks rp addr size f l buf = (Ok (Some i), buf') →
  0 <= i ∧ i + Z.of_nat (length (needle f)) <= size.
Proof.
  intros Hl Hsz. revert buf. induction Hl as [|o l Ho _ IH]; intros buf; [done|]. cbn [search_chunks].
  unfold mut_bind, mut_lift. destruct (pa_add_u64 _ _); [|done..].
  destruct (on_slice _ _ _ buf) as [[] b]; [|done..].
  destruct (finder_find _ _) eqn:Hf; [|apply IH]. intros [= -> _].
  apply finder_bound in Hf; [|done]. rewrite length_take in Hf. lia.
Qed.

Lemma range_step_nonneg n stride : 0 < stride → Forall (λ o, 0 <= o) (range_step 0 n stride).
Proof. intros. unfold range_step. apply Forall_fmap, Forall_forall. intros i _. cbn. lia. Qed.

Lemma default_search_bound rp addr size f `{!FinderOk f} buf i buf' :
  default_search rp addr size f buf = (Ok (Some i), buf') → 0 <= size →
  0 <= i ∧ i + Z.of_nat (length (needle f)) <= size.
Proof.
  intros H Hsz. unfold default_search in H. destruct (_ <=? _).
  - unfold mut_bind in H. destruct (on_slice _ _ _ buf) as [[] b]; [|done..]. injection H as Hf _.
    apply finder_bound in Hf; [|done]. rewrite length_take in Hf. lia.
  - destruct (Z.ltb_spec 0 (Z.of_nat (length buf) - Z.of_nat (length (needle f)))); [|done].
    eapply search_chunks_bound, H; [done|by apply range_step_nonneg|done].
Qed.

(** A memory that keeps the default [search] meets the contract on the pages
    that fit in the buffer. *)
Lemma default_search_laws m :
  MemoryLaws m → SubReads m → search m = default_search (read_physical m) →
  SearchLaws m (λ size n, size <= Z.of_nat n).
Proof.
  intros Hm Hsub Hs. split; rewrite Hs.
  - intros. by apply default_search_length.
  - intros. by eapply default_search_bound.
  - intros addr size f Hf buf i buf' H Ha Hsz Hfit. unfold default_search in H.
    replace (size <=? _) with true in H by lia. unfold mut_bind in H.
    destruct (read_physical m addr (take (Z.to_nat size) buf)) as [r mid] eqn:Er.
    rewrite (on_slice_prefix _ _ _ r mid) in H by (done || lia).
    destruct r as [[]| | |]; cbn in H; [|done..]. injection H as Hfind _.
    pose proof (read_bytes_of m _ _ _ Er) as Hr.
    assert (Hl : length (take (Z.to_nat size) buf) = Z.to_nat size) by (rewrite length_take; lia).
    rewrite Hl in Hr. pose proof (read_bytes_length m _ _ _ Hr) as Hmid.
    rewrite take_app_le, take_ge in Hfind by lia.
    destruct (finder_some _ _ Hfind) as (Hi & [Hocc Heq] & _). rewrite Hmid in Hocc.
    rewrite <- Heq at 2. replace (addr + i) with (addr + Z.of_nat (Z.to_nat i)) by lia.
    eapply sub_reads; [done|done|lia].
Qed.

Lemma raw_read_bytes self addr n :
  0 <= addr →
  read_bytes (raw_memory self) addr n =
  if addr + Z.of_nat n <=? Z.of_nat (length (raw_bytes self))
  then Ok (take n (drop (Z.to_nat addr) (raw_bytes self))) else Err OutOfBounds.
Proof.
  intros Ha. unfold read_bytes. cbn [read_physical raw_memory].
  rewrite raw_read_spec, length_replicate by done. by destruct (_ <=? _).
Qed.

#[export] Instance raw_sub_reads self : SubReads (raw_memory self).
Proof.
  intros addr n bs o k Ha. rewrite !raw_read_bytes by lia.
  destruct (_ <=? _) eqn:E1; [|done]. intros [= <-] Hk.
  replace (_ <=? _) with true by lia. f_equal.
  rewrite skipn_firstn_comm, take_take, drop_drop. f_equal; [lia|]. f_equal. lia.
Qed.

Lemma raw_search_inv self addr size f buf i buf' :
  raw_search self addr size f buf = (Ok (Some i), buf') →
  0 <= size ∧ addr + size <= Z.of_nat (length (raw_bytes self)) ∧
  finder_find f (take (Z.to_nat size) (drop (Z.to_nat addr) (raw_bytes self))) = Some i.
Proof.
  unfold raw_search, mut_lift. destruct (_ <? _); [|done]. unfold slice_get.
  destruct (_ && _) eqn:Hb; [|done]. intros [= Hf _]. split_and!; [lia|lia|].
  rewrite <- Hf. do 2 f_equal. lia.
Qed.

#[export] Instance raw_search_laws self : SearchLaws (raw_memory self) (λ _ _, True).
Proof.
  split; cbn [search raw_memory].
  - intros. apply keeps_lift.
  - intros addr size f Hf buf i buf' (? & ? & Hfind)%raw_search_inv _.
    apply finder_bound in Hfind; [|done]. rewrite length_take in Hfind. lia.
  - intros addr size f Hf buf i buf' (? & ? & Hfind)%raw_search_inv Ha Hsz _.
    destruct (finder_some _ _ Hfind) as (Hi & [Hocc Heq] & _). rewrite length_take, length_drop in Hocc.
    rewrite raw_read_bytes by lia. replace (_ <=? _) with true by lia. f_equal.
    etransitivity; [|exact Heq]. rewrite skipn_firstn_comm, take_take, drop_drop. f_equal; [lia|]. f_equal. lia.
Qed.
End search_laws.

(** ** Dumping *)

Section dump_spec.
Context {bm : Build}.
Variable rp : Z → MutRes bytes MemoryAccessError unit.

(** The blocks of [w] bytes of a content. *)
Fixpoint blocks (w n : nat) (content : bytes) : list bytes :=
  match n with
  | O => []
  | S n => take w content :: blocks w n (drop w content)
  end.

Lemma concat_blocks w n content : length content = (n * w)%nat → concat (blocks w n content) = content.
Proof.
  revert content. induction n as [|n IH]; intros content Hl; cbn [blocks concat]; [by destruct content|].
  rewrite IH by (rewrite length_drop; lia). apply take_drop.
Qed.

(** What a writer gets: pieces in order, up to the first that it does not take. *)
Fixpoint write_each {W} `{IoWrite W} (l : list bytes) : MutRes W IoError unit :=
  match l with
  | [] => mut_ret tt
  | data :: l => let! _ := write_all data in write_each l
  end.

Lemma write_each_app {W} `{IoWrite W} l1 l2 (out : W) :
  write_each (l1 ++ l2) out = (let! _ := write_each l1 in write_each l2) out.
Proof.
  revert out. induction l1 as [|x l1 IH]; intros out; [done|]. cbn [app write_each]. unfold mut_bind in *.
  by destruct (write_all x out) as [[[]| | |] out'].
Qed.

Lemma write_each_vec l (out : bytes) : write_each l out = (Ok tt, out ++ concat l).
Proof.
  revert out. induction l as [|x l IH]; intros out; cbn [write_each concat]; [by rewrite app_nil_r|].
  unfold mut_bind, write_all, vec_writer. by rewrite IH, app_assoc.
Qed.

Section writer.
Context {W : Type} `{IoWrite W}.

(** The buffer is left out of a result. *)
Definition forget_buffer {E} (r : Res E unit * (bytes * W)) : Res E unit * W := (r.1, r.2.2).

Lemma dump_chunks_whole base content n buffer (out : W) :
  holds_at rp base content → length content = (n * length buffer)%nat →
  let r := dump_chunks rp ((λ i : nat, base + Z.of_nat i * Z.of_nat (length buffer)) <$> seq 0 n) (buffer, out) in
  length r.2.1 = length buffer ∧ forget_buffer r = write_each (blocks (length buffer) n content) out.
Proof.
  revert base content buffer out. induction n as [|n IH]; intros base content buffer out Hh Hl; [done|].
  cbn [seq fmap list_fmap dump_chunks blocks write_each]. rewrite Z.add_0_r. unfold mut_bind, dump_chunk.
  rewrite Hh by lia. replace (Z.to_nat (base - base)) with 0%nat by lia. rewrite drop_0.
  set (w := length buffer) in *.
  assert (Hw : length (take w content) = w) by (rewrite length_take; lia).
  destruct (write_all (take w content) out) as [[[]| | |] out']; try (by split; [exact Hw|]).
  destruct (IH (base + Z.of_nat w) (drop w content) (take w content) out') as [Hb Hd].
  - intros a b Ha Hab. rewrite length_drop in Hab. rewrite Hh, drop_drop by lia. do 3 f_equal. lia.
  - rewrite length_drop, Hw. lia.
  - rewrite Hw in *. rewrite <- fmap_S_seq, <- list_fmap_compose.
    assert (Heq : (λ i : nat, base + Z.of_nat w + Z.of_nat i * Z.of_nat w) <$> seq 0 n =
                  (λ i : nat, base + Z.of_nat i * Z.of_nat w) ∘ S <$> seq 0 n)
      by (apply list_fmap_ext; intros i x _; cbn; lia).
    by rewrite Heq in Hb, Hd.
Qed.
End writer.

(** A mapping of whole 64 KiB blocks and its content. *)
Definition block_mapping (mapping : MemoryMap) (content : bytes) : Prop :=
  holds_at rp (map_start mapping) content ∧
  ∃ n, length content = (n * Z.to_nat (2 ^ 16))%nat ∧
       map_end mapping = map_start mapping + Z.of_nat (length content).

Lemma range_step_from (a stride : Z) (n : nat) :
  0 < stride →
  range_step a (a + Z.of_nat n * stride) stride = (λ i : nat, a + Z.of_nat i * stride) <$> seq 0 n.
Proof.
  intros. unfold range_step. do 2 f_equal.
  replace (a + Z.of_nat n * stride - a + stride - 1) with (stride - 1 + Z.of_nat n * stride) by lia.
  rewrite Z.div_add, Z.div_small by lia. lia.
Qed.

(** The blocks of 64 KiB of a content. *)
Definition dump_blocks (content : bytes) : list bytes :=
  blocks (Z.to_nat (2 ^ 16)) (length content / Z.to_nat (2 ^ 16)) content.

Lemma concat_dump_blocks mappings contents :
  Forall2 block_mapping mappings contents → concat (concat (dump_blocks <$> contents)) = concat contents.
Proof.
  induction 1 as [|m c ms cs (_ & n & Hn & _) _ IH]; [done|]. cbn [fmap list_fmap concat]. rewrite concat_app.
  fold (dump_blocks <$> cs). rewrite IH. f_equal. unfold dump_blocks. apply concat_blocks.
  rewrite Hn, Nat.div_mul by lia. done.
Qed.

Lemma dump_mappings_whole {W} `{IoWrite W} mappings contents buffer (out : W) :
  Forall2 block_mapping mappings contents → length buffer = Z.to_nat (2 ^ 16) →
  forget_buffer (dump_mappings rp mappings (buffer, out)) = write_each (concat (dump_blocks <$> contents)) out.
Proof.
  intros Hm. revert buffer out. induction Hm as [|mapping content mappings contents Hb _ IH];
    intros buffer out Hl; cbn [dump_mappings fmap list_fmap concat]; [done|].
  destruct Hb as (Hh & n & Hn & He).
  destruct (dump_chunks_whole (map_start mapping) content n buffer out Hh ltac:(congruence)) as [Hb1 Hd].
  rewrite He, Hn. replace (Z.of_nat (n * Z.to_nat (2 ^ 16))) with (Z.of_nat n * 2 ^ 16) by lia.
  rewrite range_step_from by lia. rewrite Hl, Z2Nat.id in Hb1, Hd by lia. rewrite write_each_app.
  assert (Hblocks : dump_blocks content = blocks (Z.to_nat (2 ^ 16)) n content)
    by (unfold dump_blocks; by rewrite Hn, Nat.div_mul by lia).
  rewrite Hblocks. unfold mut_bind. destruct (dump_chunks _ _ _) as [r [b1 out1]].
  unfold forget_buffer in Hd. cbn [fst snd] in Hb1, Hd. rewrite <- Hd.
  destruct r as [[]| | |]; [|done..]. apply IH. congruence.
Qed.

Lemma default_dump_whole {W} `{IoWrite W} mappings contents (out : W) :
  Forall2 block_mapping mappings contents →
  default_dump rp mappings out = write_each (concat (dump_blocks <$> contents)) out.
Proof.
  intros Hm. unfold default_dump.
  rewrite <- (dump_mappings_whole mappings contents (replicate (2 ^ 16) Byte.x00) out Hm)
    by (rewrite length_replicate; lia).
  by destruct (dump_mappings _ _ _) as [r [b out']].
Qed.
End dump_spec.

(** ** Properties of the memories *)

Section claims.
Context {bm : Build}.

(** C5. A read of a [MemRemap] is the read of the inner memory at the address
    that the first window covering the whole read maps it to, and [OutOfBounds]
    (with the buffer untouched) when no window covers it; and [is_valid] of the
    remapped memory says exactly whether a window covers the read. *)
Theorem remap_read_spec self addr buf :
  length (remap_mappings self) = length (remap_at self) →
  Forall map_wf (remap_mappings self) →
  0 <= addr < 2 ^ 63 → is_u64 (addr + Z.of_nat (length buf)) →
  (∀ a, remap_target (remap_mappings self) (remap_at self) addr (Z.of_nat (length buf)) = Some a →
        is_u64 a) →
  let target := remap_target (remap_mappings self) (remap_at self) addr (Z.of_nat (length buf)) in
  remap_read_physical self addr buf =
    match target with
    | Some a => read_physical (remap_inner self) a buf
    | None => (Err OutOfBounds, buf)
    end
  ∧ is_valid (remap_memory self) addr (Z.of_nat (length buf)) = Ok (bool_decide (is_Some target)).
Proof.
  intros Hl Hwf Ha Hu Ht target. split.
  - unfold remap_read_physical, mut_bind, mut_lift. rewrite Hl, Nat.eqb_refl.
    rewrite remap_find_spec by (done || lia). fold target. by destruct target.
  - cbn [is_valid remap_memory]. subst target. clear Ht. revert Hl. generalize (remap_at self).
    induction Hwf as [|mapping mappings _ _ IH]; intros [|at0 at_] Hl; try done.
    cbn [default_is_valid remap_target]. unfold covers.
    destruct (Z.leb_spec (map_start mapping) addr); cbn [andb]; [|auto].
    unfold pa_add_u64. rewrite add_u64_ok by done. cbn [res_bind].
    destruct (_ <=? _); [done|auto].
Qed.

(** C6. The default [search] on a page whose bytes are readable: it answers
    [None] exactly when the needle occurs nowhere in the page, also when the page
    is read in overlapping chunks because it does not fit in the buffer.
    Otherwise it answers from the first occurrence in the page: its index in the
    page when the page fits in the buffer, but when it does not, its distance to
    the beginning of the chunk in which it was found ([chunk_index]), which is the
    index in the page only for the first chunk. *)
Theorem default_search_spec rp base page f `{!FinderOk f} buf :
  holds_at rp base page →
  0 <= base ∧ base + Z.of_nat (length page) < 2 ^ 64 →
  (0 < length (needle f) < length buf)%nat →
  match (default_search rp base (Z.of_nat (length page)) f buf).1 with
  | Ok None => ∀ j, ¬ occurs_at (needle f) page j
  | Ok (Some idx) => ∃ p, first_at (needle f) page p ∧
      idx = Z.of_nat (search_index (length page) (length buf) (length (needle f)) p)
  | _ => False
  end.
Proof. intros. by apply default_search_first. Qed.

Lemma raw_holds_at self start size :
  0 <= start → start + Z.of_nat size <= Z.of_nat (length (raw_bytes self)) →
  holds_at (raw_read_physical self) start (take size (drop (Z.to_nat start) (raw_bytes self))).
Proof.
  intros Hs Hb addr buf Ha Hl. rewrite length_take, length_drop in Hl.
  rewrite raw_read_spec by lia. replace (_ <=? _) with true by lia. f_equal.
  rewrite skipn_firstn_comm, take_take, drop_drop. f_equal; [lia|]. f_equal. lia.
Qed.

(** The first occurrence is what a finder gives. *)
Lemma first_at_unique n hay p q : first_at n hay p → first_at n hay q → p = q.
Proof.
  intros [Hp Hp'] [Hq Hq']. destruct (lt_eq_lt_dec p q) as [[Hlt|]|Hlt]; [|done|].
  - by destruct (Hq' p Hlt).
  - by destruct (Hp' q Hlt).
Qed.

Lemma finder_first f `{!FinderOk f} hay i : finder_find f hay = Some i → ∃ p, i = Z.of_nat p ∧ first_at (needle f) hay p.
Proof. intros (? & ? & ?)%finder_some. exists (Z.to_nat i). split; [lia|done]. Qed.

(** What [RawMemory] searches is the part of its bytes. *)
Lemma raw_search_find self base size f buf :
  0 <= base → base + Z.of_nat size <= Z.of_nat (length (raw_bytes self)) →
  Z.of_nat (length (raw_bytes self)) < 2 ^ 64 →
  (raw_search self base (Z.of_nat size) f buf).1 = Ok (finder_find f (take size (drop (Z.to_nat base) (raw_bytes self)))).
Proof.
  intros Hb Hs H64. unfold raw_search, mut_lift. replace (base + Z.of_nat size <? 2 ^ 64) with true by lia.
  unfold slice_get. replace (_ && _) with true by lia. cbn. do 2 f_equal. f_equal. lia.
Qed.

(** C9. The specialised [search] of [RawMemory] and the default one, on a page of
    the memory, for a needle shorter than the buffer: they find the needle on the
    same pages, from the same occurrence.  The index is the same when the page
    fits in the buffer; when it does not, [RawMemory] gives the index in the page
    and the default search the index in the chunk. *)
Theorem raw_search_agrees self base size f `{!FinderOk f} buf :
  0 <= base → base + Z.of_nat size <= Z.of_nat (length (raw_bytes self)) →
  Z.of_nat (length (raw_bytes self)) < 2 ^ 64 →
  (0 < length (needle f) < length buf)%nat →
  ∃ found : option nat,
    (raw_search self base (Z.of_nat size) f buf).1 = Ok (Z.of_nat <$> found) ∧
    (default_search (raw_read_physical self) base (Z.of_nat size) f buf).1
    = Ok (Z.of_nat ∘ search_index size (length buf) (length (needle f)) <$> found).
Proof.
  intros Hb Hs H64 Hn. rewrite raw_search_find by done.
  set (page := take size (drop (Z.to_nat base) (raw_bytes self))).
  assert (length page = size) as Hp by (unfold page; rewrite length_take, length_drop; lia).
  pose proof (default_search_first (raw_read_physical self) base page f) as Hd.
  forward Hd; [apply raw_holds_at; lia|]. forward Hd; [done|]. forward Hd; [lia|]. specialize (Hd buf Hn). rewrite Hp in Hd.
  destruct (default_search _ _ _ _ _).1 as [[idx|]| | |]; [| |done..].
  - destruct Hd as (p & Hfirst & ->). destruct (finder_find f page) as [i|] eqn:Ef.
    + apply finder_first in Ef as (q & -> & Hq); [|done]. rewrite (first_at_unique _ _ _ _ Hq Hfirst). by exists (Some p).
    + by destruct (finder_none _ Ef p); destruct Hfirst.
  - destruct (finder_find f page) as [i|] eqn:Ef; [|by exists None].
    apply finder_first in Ef as (q & -> & [Hq _]); [|done]. by destruct (Hd q).
Qed.

(** C10. The default [dump] writes the content of every mapping, in order, when
    every mapping is made of whole blocks of 64 KiB: a vector gets the content at
    its end, and any writer gets the blocks one after the other, up to the first
    that it fails to take, whose error is returned. *)
Theorem default_dump_spec rp mappings contents out :
  Forall2 (block_mapping rp) mappings contents →
  default_dump rp mappings out = (Ok tt, out ++ concat contents) ∧
  ∀ W `{IoWrite W} (writer : W),
    default_dump rp mappings writer = write_each (concat (dump_blocks <$> contents)) writer.
Proof.
  intros Hm. split; [|intros; by apply default_dump_whole].
  rewrite (default_dump_whole rp mappings contents out Hm), write_each_vec.
  by rewrite (concat_dump_blocks rp mappings contents Hm).
Qed.
End claims.

(** ** The properties at concrete inputs *)

(** Five bytes with one at the end, seen through two windows: the second byte
    at 0x10, the whole at 0x20. *)
Definition sample_raw : RawMemory := raw_new (zb <$> [0; 7; 0; 0; 1]).

Definition sample_remap : MemRemap :=
  remap_new (raw_memory (bm := debug_build) sample_raw)
    [{| map_start := 0x10; map_end := 0x11 |}; {| map_start := 0x20; map_end := 0x25 |}] [1; 0].

Definition sample_finder : Finder := naive_finder [zb 1].

Lemma remap_read_spec_witness :
  remap_read_physical (bm := debug_build) sample_remap 0x22 (replicate 3 Byte.x00) =
    (Ok tt, zb <$> [0; 0; 1]).
Proof.
  pose proof (remap_read_spec (bm := debug_build) sample_remap 0x22 (replicate 3 Byte.x00)) as H.
  destruct H as [H _].
  - reflexivity.
  - repeat constructor; unfold is_u64; cbn; lia.
  - lia.
  - unfold is_u64; cbn; lia.
  - intros a Ha. vm_compute in Ha. injection Ha as <-. unfold is_u64; lia.
  - rewrite H. vm_compute. reflexivity.
Defined.

Lemma sample_raw_holds :
  holds_at (raw_read_physical sample_raw) 0 (raw_bytes sample_raw).
Proof.
  pose proof (raw_holds_at sample_raw 0 5) as H. apply H; [lia|]. reflexivity.
Qed.

(** The needle at 4 in a page of 5 bytes, searched with a buffer of 3: it is found
    in the second chunk, whose beginning is 2. *)
Lemma default_search_spec_witness :
  first_at (needle sample_finder) (raw_bytes sample_raw) 4 ∧ 2%nat = search_index 5 3 1 4.
Proof.
  pose proof (default_search_spec (bm := debug_build) (raw_read_physical sample_raw) 0
    (raw_bytes sample_raw) sample_finder (replicate 3 Byte.x00) sample_raw_holds) as H.
  forward H; [cbn; lia|]. forward H; [cbn; lia|].
  destruct H as (p & Hp & Hidx). change (search_index _ _ _ p) with (search_index 5 3 1 p) in Hidx.
  assert (p = 4%nat) as ->; [|by split].
  destruct Hp as [Hocc _]. do 4 (destruct p as [|p]; [by destruct Hocc|]). destruct Hocc as [Hl _]. cbn in Hl. lia.
Defined.

Lemma raw_search_agrees_witness :
  ∃ found, (raw_search sample_raw 0 5 sample_finder (replicate 3 Byte.x00)).1 = Ok (Z.of_nat <$> found) ∧
    (default_search (bm := debug_build) (raw_read_physical sample_raw) 0 5 sample_finder (replicate 3 Byte.x00)).1
    = Ok (Z.of_nat ∘ search_index 5 3 1 <$> found) ∧ found = Some 4%nat.
Proof.
  destruct (raw_search_agrees (bm := debug_build) sample_raw 0 5 sample_finder (replicate 3 Byte.x00))
    as (found & Hr & Hd); [cbn; lia..|].
  exists found. split; [exact Hr|]. split; [exact Hd|].
  assert ((raw_search sample_raw 0 5 sample_finder (replicate 3 Byte.x00)).1 = Ok (Some 4)) as Hs by reflexivity.
  destruct found as [p|]; [|discriminate (eq_trans (eq_sym Hs) Hr)].
  pose proof (eq_trans (eq_sym Hs) Hr) as He. injection He as Hp. f_equal. lia.
Defined.

Definition sample_block : RawMemory := raw_new (replicate (Z.to_nat (2 ^ 16)) (zb 3)).

Lemma default_dump_spec_witness :
  default_dump (raw_read_physical sample_block) [{| map_start := 0; map_end := 2 ^ 16 |}] [zb 1] =
  (Ok tt, [zb 1] ++ concat [replicate (Z.to_nat (2 ^ 16)) (zb 3)]).
Proof.
  apply (λ H, proj1 (default_dump_spec (raw_read_physical sample_block) _ _ [zb 1] H)). constructor; [|constructor].
  unfold sample_block. set (n := Z.to_nat (2 ^ 16)).
  assert (Hn : Z.of_nat n = 2 ^ 16) by (apply Z2Nat.id; lia). clearbody n.
  pose proof (length_replicate n (zb 3)) as Hl. split.
  - pose proof (raw_holds_at (raw_new (replicate n (zb 3))) 0 n) as H.
    unfold raw_new, raw_bytes in *. rewrite Hl, drop_0, take_ge in H by lia. apply H; lia.
  - exists 1%nat. rewrite Hl, <- Hn, Nat2Z.id. unfold map_start, map_end. split; lia.
Defined.

(** A hit in a later chunk is given relative to that chunk: the byte 1 at index
    4 of the page is reported at 2 when the buffer holds three bytes. *)
Theorem chunked_search_index :
  (raw_search sample_raw 0 5 sample_finder (replicate 3 Byte.x00)).1 = Ok (Some 4) ∧
  (default_search (bm := debug_build) (raw_read_physical sample_raw) 0 5 sample_finder
    (replicate 3 Byte.x00)).1 = Ok (Some 2).
Proof. split; reflexivity. Qed.
