(* ===== verification/Text.v ===== *)
(** * Text

    A Rust [str] is the string of its UTF-8 bytes.  What the program uses of the
    standard library on text: parsing of integers, searching, splitting, the
    validity of UTF-8. *)

From S2P Require Import Prelude Rust.
From Stdlib Require Ascii.

Notation string := String.string.
Notation ascii := Ascii.ascii.

Definition ascii_byte (c : ascii) : byte := Ascii.byte_of_ascii c.
Definition byte_ascii (b : byte) : ascii := Ascii.ascii_of_byte b.

Definition str_bytes (s : string) : bytes := ascii_byte <$> String.list_ascii_of_string s.
Definition bytes_str (bs : bytes) : string := String.string_of_list_ascii (byte_ascii <$> bs).

Lemma bytes_str_bytes s : bytes_str (str_bytes s) = s.
Proof.
  unfold bytes_str, str_bytes. rewrite <- list_fmap_compose.
  rewrite (list_fmap_ext _ id), list_fmap_id by (intros; apply Ascii.ascii_of_byte_of_ascii).
  apply String.string_of_list_ascii_of_string.
Qed.

Lemma str_bytes_str bs : str_bytes (bytes_str bs) = bs.
Proof.
  unfold bytes_str, str_bytes. rewrite String.list_ascii_of_string_of_list_ascii.
  rewrite <- list_fmap_compose. rewrite (list_fmap_ext _ id), list_fmap_id; [done|].
  intros. apply Ascii.byte_of_ascii_of_byte.
Qed.

(** ** Integers

    [uN::from_str_radix]: an optional [+], then at least one digit; anything
    else, a value that does not fit, and a minus sign are errors. *)

Definition digit_value (radix : Z) (b : byte) : option Z :=
  let c := bz b in
  let v := if (48 <=? c) && (c <=? 57) then c - 48
           else if (97 <=? c) && (c <=? 122) then c - 97 + 10
           else if (65 <=? c) && (c <=? 90) then c - 65 + 10
           else radix in
  if v <? radix then Some v else None.

Fixpoint parse_digits (radix limit acc : Z) (bs : bytes) : option Z :=
  match bs with
  | [] => Some acc
  | b :: bs =>
      d ← digit_value radix b;
      let acc := acc * radix + d in
      if acc <? limit then parse_digits radix limit acc bs else None
  end.

Definition parse_uint (radix limit : Z) (bs : bytes) : option Z :=
  match bs with
  | [] => None
  | b :: rest =>
      let digits := if bz b =? 43 then rest else bs in
      match digits with [] => None | _ => parse_digits radix limit 0 digits end
  end.

(** [u64::from_str_radix], and [str::parse::<usize>]. *)
Definition u64_from_str_radix (radix : Z) (bs : bytes) : option Z := parse_uint radix (2 ^ 64) bs.
Definition parse_usize (s : string) : option Z := u64_from_str_radix 10 (str_bytes s).

Lemma digit_value_range radix b d : digit_value radix b = Some d → 0 <= d < radix.
Proof.
  unfold digit_value. pose proof (bz_range b).
  destruct (_ <? _) eqn:E; [|done]. intros [= <-]. split; [|lia].
  repeat case_match; lia.
Qed.

Lemma parse_digits_range radix limit acc bs v :
  0 < radix → 0 <= acc < limit → parse_digits radix limit acc bs = Some v → 0 <= v < limit.
Proof.
  intros Hr. revert acc. induction bs as [|b bs IH]; intros acc Ha; cbn [parse_digits].
  - by intros [= <-].
  - destruct (digit_value radix b) as [d|] eqn:E; cbn; [|done].
    apply digit_value_range in E. destruct (_ <? _) eqn:El; [|done].
    apply IH. nia.
Qed.

Lemma u64_from_str_radix_range radix bs v :
  0 < radix → u64_from_str_radix radix bs = Some v → is_u64 v.
Proof.
  intros Hr. unfold u64_from_str_radix, parse_uint, is_u64.
  destruct bs as [|b bs]; [done|]. case_match; [done|]. by apply parse_digits_range.
Qed.

(** ** Order of strings: by bytes *)

Fixpoint bytes_cmp (x y : bytes) : comparison :=
  match x, y with
  | [], [] => Eq
  | [], _ :: _ => Lt
  | _ :: _, [] => Gt
  | a :: x, b :: y => match bz a ?= bz b with Eq => bytes_cmp x y | c => c end
  end.

Definition str_cmp (x y : string) : comparison := bytes_cmp (str_bytes x) (str_bytes y).

Lemma bytes_cmp_eq x y : bytes_cmp x y = Eq ↔ x = y.
Proof.
  revert y. induction x as [|a x IH]; intros [|b y]; cbn; [done..|].
  destruct (Z.compare_spec (bz a) (bz b)) as [Hc|Hc|Hc]; [apply bz_inj in Hc as ->; rewrite IH|..];
    (split; [congruence|]); try (intros [= -> ->]; lia); congruence.
Qed.

Lemma bytes_cmp_flip x y : bytes_cmp y x = CompOpp (bytes_cmp x y).
Proof.
  revert y. induction x as [|a x IH]; intros [|b y]; cbn; [done..|].
  rewrite (Z.compare_antisym (bz a) (bz b)). by destruct (bz a ?= bz b); cbn.
Qed.

(** [x <= y] *)
Definition bytes_le (x y : bytes) : Prop := bytes_cmp x y ≠ Gt.

Lemma bytes_le_trans x y z : bytes_le x y → bytes_le y z → bytes_le x z.
Proof.
  unfold bytes_le. revert y z. induction x as [|a x IH]; intros [|b y] [|c z]; cbn; [done..|].
  destruct (Z.compare_spec (bz a) (bz b)), (Z.compare_spec (bz b) (bz c)),
    (Z.compare_spec (bz a) (bz c)); (done || lia || apply IH).
Qed.

Lemma str_cmp_eq x y : str_cmp x y = Eq ↔ x = y.
Proof.
  unfold str_cmp. rewrite bytes_cmp_eq. split; [|congruence].
  intros H. rewrite <- (bytes_str_bytes x), H. apply bytes_str_bytes.
Qed.

(** ** UTF-8 *)

(** Bytes that are not the first of a character. *)
Definition is_continuation (b : byte) : bool := (0x80 <=? bz b) && (bz b <=? 0xbf).

Definition byte_in (lo hi : Z) (b : byte) : bool := (lo <=? bz b) && (bz b <=? hi).

(** [core::str::from_utf8] succeeds: the well-formed sequences of the Unicode
    standard. *)
Fixpoint utf8_valid (bs : bytes) : bool :=
  match bs with
  | [] => true
  | b0 :: bs =>
      if bz b0 <? 0x80 then utf8_valid bs
      else match bs with
      | [] => false
      | b1 :: bs =>
          if byte_in 0xc2 0xdf b0 then is_continuation b1 && utf8_valid bs
          else match bs with
          | [] => false
          | b2 :: bs =>
              if byte_in 0xe0 0xef b0 then
                (if bz b0 =? 0xe0 then byte_in 0xa0 0xbf b1
                 else if bz b0 =? 0xed then byte_in 0x80 0x9f b1
                 else is_continuation b1) && is_continuation b2 && utf8_valid bs
              else match bs with
              | [] => false
              | b3 :: bs =>
                  byte_in 0xf0 0xf4 b0 &&
                  (if bz b0 =? 0xf0 then byte_in 0x90 0xbf b1
                   else if bz b0 =? 0xf4 then byte_in 0x80 0x8f b1
                   else is_continuation b1) && is_continuation b2 && is_continuation b3 &&
                  utf8_valid bs
              end
          end
      end
  end.

(** [str::is_char_boundary] *)
Definition char_boundary (bs : bytes) (i : nat) : bool :=
  match i with
  | O => true
  | _ => match bs !! i with
         | Some b => negb (is_continuation b)
         | None => (i =? length bs)%nat
         end
  end.

(** [&s[lo..hi]] and [s.split_at(i)]; they panic out of range and in the middle
    of a character. *)
Definition str_slice {E} (bs : bytes) (lo hi : nat) : Res E bytes :=
  if ((lo <=? hi) && (hi <=? length bs))%nat && char_boundary bs lo && char_boundary bs hi
  then Ok (take (hi - lo) (drop lo bs)) else Panic.

Definition str_split_at {E} (bs : bytes) (i : nat) : Res E (bytes * bytes) :=
  if (i <=? length bs)%nat && char_boundary bs i then Ok (take i bs, drop i bs) else Panic.

Lemma utf8_app x y : utf8_valid x = true → utf8_valid y = true → utf8_valid (x ++ y) = true.
Proof.
  intros Hx Hy. remember (length x) as n eqn:Hn. revert x Hx Hn.
  induction (lt_wf n) as [n _ IH]; intros x Hx ->.
  destruct x as [|b0 x]; [done|]. cbn [app utf8_valid] in *.
  destruct (_ <? 0x80). { eapply IH; [|exact Hx|done]. cbn. lia. }
  destruct x as [|b1 x]; [done|]. cbn [app] in *.
  destruct (byte_in 0xc2 _ _).
  { apply andb_true_iff in Hx as [-> Hx]. cbn [andb]. eapply IH; [|exact Hx|done]. cbn. lia. }
  destruct x as [|b2 x]; [done|]. cbn [app] in *.
  destruct (byte_in 0xe0 _ _).
  { apply andb_true_iff in Hx as [-> Hx]. cbn [andb]. eapply IH; [|exact Hx|done]. cbn. lia. }
  destruct x as [|b3 x]; [done|]. cbn [app] in *.
  apply andb_true_iff in Hx as [-> Hx]. cbn [andb]. eapply IH; [|exact Hx|done]. cbn. lia.
Qed.

(** A valid text starts at a character. *)
Lemma utf8_head b bs : utf8_valid (b :: bs) = true → is_continuation b = false.
Proof.
  cbn [utf8_valid]. unfold is_continuation, byte_in. intros H.
  destruct (Z.ltb_spec (bz b) 0x80); [lia|].
  destruct bs as [|b1 bs]; [done|].
  destruct (_ && _) eqn:E1 in H; [lia|]. destruct bs as [|b2 bs]; [done|].
  destruct (_ && _) eqn:E2 in H; [lia|]. destruct bs as [|b3 bs]; [done|]. lia.
Qed.

Lemma char_boundary_app x y :
  utf8_valid y = true → char_boundary (x ++ y) (length x) = true.
Proof.
  intros Hy. unfold char_boundary. destruct (length x) as [|n] eqn:Hl; [done|]. rewrite <- Hl.
  rewrite lookup_app_r, Nat.sub_diag by lia. destruct y as [|b y]; cbn.
  - rewrite app_nil_r. by rewrite Nat.eqb_refl.
  - by rewrite (utf8_head b y).
Qed.

(** ** Formatting of integers

    [{:x}], [{:X}], [{}] of an unsigned integer; 64 digits are enough for 64 bits
    in any radix. *)

Definition digit_byte (upper : bool) (d : Z) : byte :=
  zb (if d <? 10 then 48 + d else (if upper then 55 else 87) + d).

Fixpoint radix_digits (fuel : nat) (upper : bool) (radix z : Z) (acc : bytes) : bytes :=
  match fuel with
  | O => acc
  | S fuel =>
      let acc := digit_byte upper (z mod radix) :: acc in
      if z / radix =? 0 then acc else radix_digits fuel upper radix (z / radix) acc
  end.

Definition format_radix (upper : bool) (radix z : Z) : bytes := radix_digits 64 upper radix z [].

(** Padding with zeros to a width. *)
Definition pad_zeros (width : nat) (s : bytes) : bytes := replicate (width - length s) (zb 48) ++ s.

(** [{:#x}] *)
Definition format_hex (z : Z) : string := String.append "0x" (bytes_str (format_radix false 16 z)).

(** [{}] *)
Definition format_dec (z : Z) : string := bytes_str (format_radix false 10 z).

Lemma digit_value_byte radix upper d :
  2 <= radix <= 16 → 0 <= d < radix → digit_value radix (digit_byte upper d) = Some d.
Proof.
  intros Hr Hd. unfold digit_value, digit_byte. rewrite bz_zb. cbv zeta.
  destruct (Z.ltb_spec d 10).
  - rewrite Z.mod_small by lia. replace (48 <=? 48 + d) with true by lia.
    replace (48 + d <=? 57) with true by lia. cbn [andb].
    replace (48 + d - 48 <? radix) with true by lia. f_equal. lia.
  - destruct upper.
    + rewrite Z.mod_small by lia. replace (55 + d <=? 57) with false by lia.
      rewrite andb_false_r. replace (97 <=? 55 + d) with false by lia. cbn [andb].
      replace (65 <=? 55 + d) with true by lia. replace (55 + d <=? 90) with true by lia. cbn [andb].
      replace (_ <? radix) with true by lia. f_equal. lia.
    + rewrite Z.mod_small by lia. replace (87 + d <=? 57) with false by lia.
      rewrite andb_false_r. replace (97 <=? 87 + d) with true by lia.
      replace (87 + d <=? 122) with true by lia. cbn [andb].
      replace (_ <? radix) with true by lia. f_equal. lia.
Qed.

Lemma parse_radix_digits fuel upper radix limit z acc :
  2 <= radix <= 16 → 0 <= z < limit → z < radix ^ Z.of_nat fuel → (0 < fuel)%nat →
  parse_digits radix limit 0 (radix_digits fuel upper radix z acc) = parse_digits radix limit z acc.
Proof.
  intros Hr. revert z acc. induction fuel as [|fuel IH]; intros z acc Hz Hf H0; [lia|].
  cbn [radix_digits]. pose proof (Z.mod_pos_bound z radix).
  pose proof (Z.div_mod z radix). assert (0 <= z / radix) by (apply Z.div_pos; lia).
  assert (Hstep : parse_digits radix limit (z / radix) (digit_byte upper (z mod radix) :: acc)
                  = parse_digits radix limit z acc).
  { cbn [parse_digits]. rewrite digit_value_byte by lia. cbn.
    replace (z / radix * radix + z mod radix) with z by lia. by replace (z <? limit) with true by lia. }
  destruct (Z.eqb_spec (z / radix) 0) as [E|E]; [by rewrite <- Hstep, E|].
  rewrite Nat2Z.inj_succ, Z.pow_succ_r in Hf by lia.
  assert (z / radix < radix ^ Z.of_nat fuel) by (apply Z.div_lt_upper_bound; lia).
  rewrite IH; [done|nia|lia|]. destruct fuel; [cbn in *; lia|lia].
Qed.

(** The first digit is not a sign. *)
Lemma digit_byte_no_plus upper d : 0 <= d < 16 → bz (digit_byte upper d) ≠ 43.
Proof. intros Hd. unfold digit_byte. rewrite bz_zb. destruct (_ <? _); [|destruct upper]; lia. Qed.

Lemma radix_digits_head fuel upper radix z acc :
  2 <= radix <= 16 → 0 <= z → (0 < fuel)%nat →
  ∃ b bs, radix_digits fuel upper radix z acc = b :: bs ∧ bz b ≠ 43.
Proof.
  intros Hr. revert z acc. induction fuel as [|fuel IH]; intros z acc Hz Hf; [lia|]. cbn [radix_digits].
  assert (Hd : bz (digit_byte upper (z mod radix)) ≠ 43)
    by (apply digit_byte_no_plus; pose proof (Z.mod_pos_bound z radix); lia).
  destruct (_ =? 0); [eauto|]. destruct fuel as [|fuel]; [cbn; eauto|].
  apply IH; [apply Z.div_pos; lia|lia].
Qed.

Lemma u64_pow64 radix z : 2 <= radix → is_u64 z → z < radix ^ 64.
Proof.
  intros Hr Hz. eapply Z.lt_le_trans; [apply Hz|]. apply Z.pow_le_mono_l. lia.
Qed.

(** A formatted integer is read back by the parser. *)
Lemma parse_format_radix upper radix z :
  2 <= radix <= 16 → is_u64 z → u64_from_str_radix radix (format_radix upper radix z) = Some z.
Proof.
  intros Hr Hz. destruct (radix_digits_head 64 upper radix z []) as (b & bs & Hb & Hn);
    [done|apply Hz|exact (Nat.lt_0_succ 63)|].
  unfold u64_from_str_radix, parse_uint, format_radix. rewrite Hb.
  apply Z.eqb_neq in Hn as ->. rewrite <- Hb. rewrite parse_radix_digits; [done|done|apply Hz| |].
  - apply (u64_pow64 radix z); [apply Hr|done].
  - exact (Nat.lt_0_succ 63).
Qed.

(** ** Searching a byte *)

(** The first occurrence of a byte. *)
Fixpoint find_byte (b : byte) (bs : bytes) : option nat :=
  match bs with
  | [] => None
  | c :: bs => if bool_decide (c = b) then Some O else S <$> find_byte b bs
  end.

Lemma find_byte_some b bs i :
  find_byte b bs = Some i ↔ bs !! i = Some b ∧ b ∉ take i bs.
Proof.
  revert i. induction bs as [|c bs IH]; intros i; cbn [find_byte]; [by rewrite lookup_nil; naive_solver|].
  destruct (decide (c = b)) as [->|Hc].
  - rewrite bool_decide_eq_true_2 by done. split.
    + intros [= <-]. split; [done|]. cbn. apply not_elem_of_nil.
    + intros [_ Hn]. destruct i; [done|]. cbn in Hn. rewrite elem_of_cons in Hn. tauto.
  - rewrite bool_decide_eq_false_2 by done. destruct i as [|i]; cbn.
    + split; [by destruct (find_byte b bs)|]. intros [[= ?] _]. done.
    + rewrite fmap_Some. setoid_rewrite IH. rewrite elem_of_cons. split.
      * intros (j & [Hj Hn] & [= ->]). split; [done|]. intros [?|?]; [by symmetry in H|done].
      * intros [Hl Hn]. exists i. split; [|done]. split; [done|]. tauto.
Qed.

Lemma find_byte_none b bs : find_byte b bs = None ↔ b ∉ bs.
Proof.
  induction bs as [|c bs IH]; cbn [find_byte]; [split; [intros _; apply not_elem_of_nil|done]|].
  rewrite elem_of_cons. destruct (decide (c = b)) as [->|Hc].
  - rewrite bool_decide_eq_true_2 by done. split; [done|tauto].
  - rewrite bool_decide_eq_false_2 by done. rewrite fmap_None, IH.
    split; [intros ? [?|?]; [by symmetry in H0|done]|tauto].
Qed.

(** The function [memchr::memchr], and its documentation. *)
Class MemchrOk (memchr : byte → bytes → option nat) : Prop :=
  memchr_find_byte : ∀ b bs, memchr b bs = find_byte b bs.

#[export] Instance find_byte_memchr : MemchrOk find_byte.
Proof. done. Qed.

(** ** Lossy decoding *)

Definition REPLACEMENT : Z := 0xfffd.

(** [char::encode_utf8] *)
Definition utf8_encode (c : Z) : bytes :=
  if c <? 0x80 then [zb c]
  else if c <? 0x800 then [zb (0xc0 + c / 2 ^ 6); zb (0x80 + c mod 2 ^ 6)]
  else if c <? 0x10000 then
    [zb (0xe0 + c / 2 ^ 12); zb (0x80 + c / 2 ^ 6 mod 2 ^ 6); zb (0x80 + c mod 2 ^ 6)]
  else [zb (0xf0 + c / 2 ^ 18); zb (0x80 + c / 2 ^ 12 mod 2 ^ 6);
        zb (0x80 + c / 2 ^ 6 mod 2 ^ 6); zb (0x80 + c mod 2 ^ 6)].

(** [String::from_utf16_lossy]: a surrogate without its partner is replaced. *)
Fixpoint from_utf16_lossy (us : list Z) : bytes :=
  match us with
  | [] => []
  | u :: us =>
      if (u <? 0xd800) || (0xdfff <? u) then utf8_encode u ++ from_utf16_lossy us
      else if 0xdc00 <=? u then utf8_encode REPLACEMENT ++ from_utf16_lossy us
      else match us with
           | [] => utf8_encode REPLACEMENT
           | u2 :: us' =>
               if (0xdc00 <=? u2) && (u2 <=? 0xdfff)
               then utf8_encode (0x10000 + (u - 0xd800) * 2 ^ 10 + (u2 - 0xdc00)) ++ from_utf16_lossy us'
               else utf8_encode REPLACEMENT ++ from_utf16_lossy us
           end
  end.

(** The length of the longest prefix that begins a character, and whether it is
    a whole one; [b0] is the first byte. *)
Definition utf8_prefix (b0 : byte) (bs : bytes) : nat * bool :=
  let second ok := match bs with b1 :: _ => ok b1 | [] => false end in
  let nth i := match bs !! i with Some b => is_continuation b | None => false end in
  if bz b0 <? 0x80 then (1, true)%nat
  else if byte_in 0xc2 0xdf b0 then if nth 0%nat then (2, true)%nat else (1, false)%nat
  else if byte_in 0xe0 0xef b0 then
    if second (λ b1, if bz b0 =? 0xe0 then byte_in 0xa0 0xbf b1
                     else if bz b0 =? 0xed then byte_in 0x80 0x9f b1 else is_continuation b1)
    then if nth 1%nat then (3, true)%nat else (2, false)%nat else (1, false)%nat
  else if byte_in 0xf0 0xf4 b0 then
    if second (λ b1, if bz b0 =? 0xf0 then byte_in 0x90 0xbf b1
                     else if bz b0 =? 0xf4 then byte_in 0x80 0x8f b1 else is_continuation b1)
    then if nth 1%nat then if nth 2%nat then (4, true)%nat else (3, false)%nat else (2, false)%nat
    else (1, false)%nat
  else (1, false)%nat.

(** [String::from_utf8_lossy]: every maximal prefix of a character that is not
    completed is replaced.  Each round consumes at least one byte. *)
Fixpoint utf8_lossy (fuel : nat) (bs : bytes) : bytes :=
  match fuel, bs with
  | S fuel, b0 :: rest =>
      let '(n, ok) := utf8_prefix b0 rest in
      (if ok then take n bs else utf8_encode REPLACEMENT) ++ utf8_lossy fuel (drop n bs)
  | _, _ => []
  end.

Definition from_utf8_lossy (bs : bytes) : bytes := utf8_lossy (length bs) bs.

(** Valid text is unchanged. *)
Lemma from_utf8_lossy_valid bs : utf8_valid bs = true → from_utf8_lossy bs = bs.
Proof.
  unfold from_utf8_lossy.
  assert (H : ∀ n bs, (length bs <= n)%nat → utf8_valid bs = true → utf8_lossy n bs = bs); [|by apply H].
  clear bs. induction n as [|n IH]; intros bs Hl Hv; [destruct bs; [done|cbn in Hl; lia]|].
  destruct bs as [|b0 bs]; [done|]. cbn [utf8_lossy]. cbn [utf8_valid] in Hv. unfold utf8_prefix.
  destruct (_ <? 0x80). { cbn. rewrite drop_0, IH; [done|cbn in *; lia|done]. }
  destruct bs as [|b1 bs]; [done|]. cbn [lookup list_lookup].
  destruct (byte_in 0xc2 _ _).
  { apply andb_true_iff in Hv as [-> Hv]. cbn. rewrite drop_0, IH; [done|cbn in *; lia|done]. }
  destruct bs as [|b2 bs]; [done|]. cbn [lookup list_lookup].
  destruct (byte_in 0xe0 _ _).
  { rewrite !andb_true_iff in Hv. destruct Hv as [[-> ->] Hv]. cbn.
    rewrite drop_0, IH; [done|cbn in *; lia|done]. }
  destruct bs as [|b3 bs]; [done|]. cbn [lookup list_lookup]. rewrite !andb_true_iff in Hv.
  destruct Hv as [[[[-> ->] ->] ->] Hv]. cbn. rewrite drop_0, IH; [done|cbn in *; lia|done].
Qed.
