(* ===== verification/Registers.v ===== *)
(** * Registers of a virtual CPU

    The [repr(C)] structures of [vminer-core/src/arch/x86_64.rs] and
    [aarch64.rs], with their layout, and the sums of
    [vminer-core/src/arch/runtime.rs]. *)

From S2P Require Import Prelude Rust Layout.

(** ** x86_64 *)

Record x86_Registers := {
  rax : Z; rbx : Z; rcx : Z; rdx : Z; rsi : Z; rdi : Z; rsp : Z; rbp : Z;
  r8 : Z; r9 : Z; r10 : Z; r11 : Z; r12 : Z; r13 : Z; r14 : Z; r15 : Z;
  rip : Z; rflags : Z;
}.

Record Segment := {
  seg_base : Z; seg_limit : Z; seg_selector : Z;
  seg_type : Z; seg_present : Z; seg_dpl : Z; seg_db : Z; seg_s : Z; seg_l : Z;
  seg_g : Z; seg_avl : Z; seg_unusable : Z; seg_padding : Z;
}.

Record Dtable := { dt_base : Z; dt_limit : Z; dt_padding : list Z }.

Record x86_SpecialRegisters := {
  cs : Segment; ds : Segment; es : Segment; fs : Segment;
  gs : Segment; ss : Segment; tr : Segment; ldt : Segment;
  gdt : Dtable; idt : Dtable;
  cr0 : Z; cr2 : Z; cr3 : Z; cr4 : Z; cr8 : Z; efer : Z; apic_base : Z;
  interrupt_bitmap : list Z;
}.

Record x86_OtherRegisters := { lstar : Z; gs_kernel_base : Z }.

Definition x86_registers_of (l : list Z) : x86_Registers :=
  let r i := nth i l 0 in
  {| rax := r 0%nat; rbx := r 1%nat; rcx := r 2%nat; rdx := r 3%nat;
     rsi := r 4%nat; rdi := r 5%nat; rsp := r 6%nat; rbp := r 7%nat;
     r8 := r 8%nat; r9 := r 9%nat; r10 := r 10%nat; r11 := r 11%nat;
     r12 := r 12%nat; r13 := r 13%nat; r14 := r 14%nat; r15 := r 15%nat;
     rip := r 16%nat; rflags := r 17%nat |}.

Definition x86_registers_list (r : x86_Registers) : list Z :=
  [rax r; rbx r; rcx r; rdx r; rsi r; rdi r; rsp r; rbp r;
   r8 r; r9 r; r10 r; r11 r; r12 r; r13 r; r14 r; r15 r; rip r; rflags r].

Definition x86_Registers_pod : Pod x86_Registers :=
  pod_iso x86_registers_of x86_registers_list (pod_array pod_u64 18).

Definition segment_of (x : Z * (Z * (Z * list Z))) : Segment :=
  let '(b, (l, (s, f))) := x in
  let u i := nth i f 0 in
  {| seg_base := b; seg_limit := l; seg_selector := s;
     seg_type := u 0%nat; seg_present := u 1%nat; seg_dpl := u 2%nat; seg_db := u 3%nat;
     seg_s := u 4%nat; seg_l := u 5%nat; seg_g := u 6%nat; seg_avl := u 7%nat;
     seg_unusable := u 8%nat; seg_padding := u 9%nat |}.

Definition segment_fields (s : Segment) : Z * (Z * (Z * list Z)) :=
  (seg_base s, (seg_limit s, (seg_selector s,
    [seg_type s; seg_present s; seg_dpl s; seg_db s; seg_s s; seg_l s; seg_g s; seg_avl s;
     seg_unusable s; seg_padding s]))).

Definition Segment_pod : Pod Segment :=
  pod_iso segment_of segment_fields
    (pod_pair pod_u64 (pod_pair pod_u32 (pod_pair pod_u16 (pod_array pod_u8 10)))).

Definition Dtable_pod : Pod Dtable :=
  pod_iso (λ '(b, (l, p)), {| dt_base := b; dt_limit := l; dt_padding := p |})
          (λ d, (dt_base d, (dt_limit d, dt_padding d)))
          (pod_pair pod_u64 (pod_pair pod_u16 (pod_array pod_u16 3))).

Definition Segment_zero : Segment := segment_of (0, (0, (0, []))).

Definition Dtable_zero : Dtable := {| dt_base := 0; dt_limit := 0; dt_padding := [] |}.

Definition x86_special_of (x : list Segment * (list Dtable * (list Z * list Z))) : x86_SpecialRegisters :=
  let '(segs, (tables, (crs, bitmap))) := x in
  let s i := nth i segs Segment_zero in
  let c i := nth i crs 0 in
  {| cs := s 0%nat; ds := s 1%nat; es := s 2%nat; fs := s 3%nat;
     gs := s 4%nat; ss := s 5%nat; tr := s 6%nat; ldt := s 7%nat;
     gdt := nth 0 tables Dtable_zero; idt := nth 1 tables Dtable_zero;
     cr0 := c 0%nat; cr2 := c 1%nat; cr3 := c 2%nat; cr4 := c 3%nat;
     cr8 := c 4%nat; efer := c 5%nat; apic_base := c 6%nat;
     interrupt_bitmap := bitmap |}.

Definition x86_special_fields (r : x86_SpecialRegisters)
  : list Segment * (list Dtable * (list Z * list Z)) :=
  ([cs r; ds r; es r; fs r; gs r; ss r; tr r; ldt r],
   ([gdt r; idt r],
    ([cr0 r; cr2 r; cr3 r; cr4 r; cr8 r; efer r; apic_base r], interrupt_bitmap r))).

Definition x86_SpecialRegisters_pod : Pod x86_SpecialRegisters :=
  pod_iso x86_special_of x86_special_fields
    (pod_pair (pod_array Segment_pod 8)
      (pod_pair (pod_array Dtable_pod 2) (pod_pair (pod_array pod_u64 7) (pod_array pod_u64 4)))).

Definition x86_OtherRegisters_pod : Pod x86_OtherRegisters :=
  pod_iso (λ '(a, b), {| lstar := a; gs_kernel_base := b |})
          (λ r, (lstar r, gs_kernel_base r)) (pod_pair pod_u64 pod_u64).

Record x86_Vcpu := {
  x86_registers : x86_Registers;
  x86_special_registers : x86_SpecialRegisters;
  x86_other_registers : x86_OtherRegisters;
}.

Definition x86_Vcpu_pod : Pod x86_Vcpu :=
  pod_iso (λ '(r, (s, o)), {| x86_registers := r; x86_special_registers := s; x86_other_registers := o |})
          (λ v, (x86_registers v, (x86_special_registers v, x86_other_registers v)))
          (pod_pair x86_Registers_pod (pod_pair x86_SpecialRegisters_pod x86_OtherRegisters_pod)).

(** ** aarch64 *)

Record arm_Registers := { regs : list Z; sp : Z; pc : Z; pstate : Z }.

Record arm_SpecialRegisters := { sp_el1 : Z; ttbr0_el1 : Z; ttbr1_el1 : Z; vbar_el1 : Z }.

Inductive arm_OtherRegisters := arm_no_other_registers.

Definition arm_Registers_pod : Pod arm_Registers :=
  pod_iso (λ '(r, (s, (p, t))), {| regs := r; sp := s; pc := p; pstate := t |})
          (λ r, (regs r, (sp r, (pc r, pstate r))))
          (pod_pair (pod_array pod_u64 31) (pod_pair pod_u64 (pod_pair pod_u64 pod_u64))).

Definition arm_SpecialRegisters_pod : Pod arm_SpecialRegisters :=
  pod_iso (λ '(s, (a, (b, v))), {| sp_el1 := s; ttbr0_el1 := a; ttbr1_el1 := b; vbar_el1 := v |})
          (λ r, (sp_el1 r, (ttbr0_el1 r, (ttbr1_el1 r, vbar_el1 r))))
          (pod_pair pod_u64 (pod_pair pod_u64 (pod_pair pod_u64 pod_u64))).

Definition arm_OtherRegisters_pod : Pod arm_OtherRegisters :=
  pod_iso (λ _, arm_no_other_registers) (λ _, []) (pod_array_u8 0).

Record arm_Vcpu := {
  arm_registers : arm_Registers;
  arm_special_registers : arm_SpecialRegisters;
  arm_other_registers : arm_OtherRegisters;
}.

Definition arm_Vcpu_pod : Pod arm_Vcpu :=
  pod_iso (λ '(r, (s, o)), {| arm_registers := r; arm_special_registers := s; arm_other_registers := o |})
          (λ v, (arm_registers v, (arm_special_registers v, arm_other_registers v)))
          (pod_pair arm_Registers_pod (pod_pair arm_SpecialRegisters_pod arm_OtherRegisters_pod)).

(** ** The structures are plain data *)

Lemma pod_array_wf_length {A} (P : Pod A) n l : pod_wf (pod_array P n) l → length l = n.
Proof. by destruct n; intros [? _]. Qed.

(** A list of known length is the list of its elements. *)
Ltac list_by_length l := repeat (destruct l as [|? l]; [discriminate|]); destruct l; [|discriminate].

Ltac pod_struct := apply pod_iso_ok; [by intros []|by intros; repeat case_match|apply _].

#[export] Instance Segment_pod_ok : PodOk Segment_pod.
Proof.
  apply pod_iso_ok; [by intros []| |apply _].
  intros (b & l & s & f) (_ & _ & _ & Hf). apply pod_array_wf_length in Hf. cbn [fst snd] in Hf.
  by list_by_length f.
Qed.
#[export] Instance Dtable_pod_ok : PodOk Dtable_pod.
Proof. pod_struct. Qed.
#[export] Instance x86_OtherRegisters_pod_ok : PodOk x86_OtherRegisters_pod.
Proof. pod_struct. Qed.
#[export] Instance arm_Registers_pod_ok : PodOk arm_Registers_pod.
Proof. pod_struct. Qed.
#[export] Instance arm_SpecialRegisters_pod_ok : PodOk arm_SpecialRegisters_pod.
Proof. pod_struct. Qed.

#[export] Instance arm_OtherRegisters_pod_ok : PodOk arm_OtherRegisters_pod.
Proof. apply pod_iso_ok; [by intros []|by intros []|apply _]. Qed.

#[export] Instance x86_Registers_pod_ok : PodOk x86_Registers_pod.
Proof.
  apply pod_iso_ok; [by intros []| |apply _].
  intros l Hl%pod_array_wf_length. by list_by_length l.
Qed.

#[export] Instance x86_SpecialRegisters_pod_ok : PodOk x86_SpecialRegisters_pod.
Proof.
  apply pod_iso_ok; [by intros []| |apply _].
  intros (segs & tables & crs & bitmap) (Hs & Ht & Hc & _).
  apply pod_array_wf_length in Hs, Ht, Hc. cbn [fst snd] in *.
  list_by_length segs. list_by_length tables. by list_by_length crs.
Qed.

#[export] Instance x86_Vcpu_pod_ok : PodOk x86_Vcpu_pod.
Proof. pod_struct. Qed.
#[export] Instance arm_Vcpu_pod_ok : PodOk arm_Vcpu_pod.
Proof. pod_struct. Qed.

(** ** Registers of an architecture known at run time *)

Inductive rt_Registers := RegsX86_64 (r : x86_Registers) | RegsAarch64 (r : arm_Registers).

Inductive rt_SpecialRegisters :=
| SpecialX86_64 (r : x86_SpecialRegisters)
| SpecialAarch64 (r : arm_SpecialRegisters).

Inductive rt_OtherRegisters :=
| OtherX86_64 (r : x86_OtherRegisters)
| OtherAarch64 (r : arm_OtherRegisters).
