(* ===== verification/Mmu.v ===== *)
(** * Address translation and search through page tables
    ([vminer-core/src/arch/mod.rs])

    [virtual_to_physical] walks the tables from the address in a PGD register;
    [find_in_kernel_memory] walks all of them to look for a byte string. *)

From S2P Require Import Prelude Rust Layout Addr Error Mem.

(** The description of a MMU; [ADDR_BITS] and [LEVELS] keep their default values
    on all the architectures. *)
Record MmuDesc := {
  mmu_is_valid : Z → bool;
  mmu_is_large : Z → bool;
}.

(** [x86_64::MmuDesc] *)
Definition x86_mmu : MmuDesc := {|
  mmu_is_valid := λ mmu_entry, negb (Z.land mmu_entry 1 =? 0);
  mmu_is_large := λ mmu_entry, negb (Z.land mmu_entry (Z.shiftl 1 7) =? 0);
|}.

(** [aarch64::MmuDesc] *)
Definition arm_mmu : MmuDesc := {|
  mmu_is_valid := λ mmu_entry, negb (Z.land mmu_entry 1 =? 0);
  mmu_is_large := λ mmu_entry, Z.land mmu_entry 2 =? 0;
|}.

Definition ADDR_BITS : Z := 48.

Definition LEVELS : list (Z * bool) := [(39, false); (30, true); (21, true); (12, false)].

(** [[MmuEntry; 512]] *)
Notation table_pod := (pod_array pod_u64 512).

Section mmu.
Context {bm : Build}.
Variable Mmu : MmuDesc.
Variable memory : Memory.

(** ** Translation *)

(** The loop over the levels; [mmu_entry] is the entry found so far. *)
Fixpoint v2p_levels (levels : list (Z * bool)) (mmu_entry addr : Z) : TranslationResult Z :=
  match levels with
  | [] =>
      let? base := mmu_take_bits mmu_entry 12 ADDR_BITS in
      let? m := mask 12 in
      pa_add_u64 base (Z.land addr m)
  | (shift, has_huge) :: levels =>
      let? table_addr := mmu_take_bits mmu_entry 12 ADDR_BITS in
      let? m := mask 9 in
      let index := Z.land (Z.shiftr addr shift) m in
      let? offset := mul_u64 8 index in
      let? entry_addr := pa_add_u64 table_addr offset in
      let? mmu_entry := map_err trans_of_mem (read_value_into pod_u64 memory entry_addr mmu_entry) in
      if negb (mmu_is_valid Mmu mmu_entry) then Err (TransInvalid mmu_entry)
      else if has_huge && mmu_is_large Mmu mmu_entry then
        let? base := mmu_take_bits mmu_entry shift ADDR_BITS in
        let? m := mask shift in
        pa_add_u64 base (Z.land addr m)
      else v2p_levels levels mmu_entry addr
  end.

Definition virtual_to_physical (mmu_addr addr : Z) : TranslationResult Z :=
  v2p_levels LEVELS mmu_addr addr.

(** ** Search *)

Section entries.
Variable finder : Finder.
Variable shift : Z.
Variable has_large : bool.
Variable last_level : bool.
Variable recurse : Z → Z → MutRes bytes MemoryAccessError (option Z).
Variables page_size prefix base_index search_rest : Z.

(** The body of the loop over the entries of a table. *)
Definition find_entry (index entry : Z) : MutRes bytes MemoryAccessError (option Z) :=
  let! index_offset := mut_lift (mul_u64 index page_size) in
  let! base_addr := mut_lift (va_add_u64 prefix index_offset) in
  let offset := if index =? base_index then search_rest else 0 in
  if last_level || (has_large && mmu_is_large Mmu entry) then
    let! addr := mut_lift (mmu_take_bits entry shift ADDR_BITS) in
    let! search_addr := mut_lift (pa_add_u64 addr offset) in
    let! size := mut_lift (sub_u64 page_size offset) in
    λ buf,
      match search memory search_addr size finder buf with
      | (Ok (Some i), buf) =>
          (let? found := va_add_u64 base_addr offset in
           let? found := va_add_u64 found i in
           Ok (Some found), buf)
      | (Ok None, buf) | (Err OutOfBounds, buf) => (Ok None, buf)
      | (Err err, buf) => (Err err, buf)
      | (Panic, buf) => (Panic, buf)
      | (NoFuel, buf) => (NoFuel, buf)
      end
  else
    let! table_addr := mut_lift (mmu_take_bits entry 12 ADDR_BITS) in
    let! base_search_addr := mut_lift (va_add_u64 base_addr offset) in
    recurse table_addr base_search_addr.

(** The loop, over the entries from [index] on. *)
Fixpoint find_entries (index : Z) (entries : list Z) : MutRes bytes MemoryAccessError (option Z) :=
  match entries with
  | [] => mut_ret None
  | entry :: entries =>
      if mmu_is_valid Mmu entry then
        let! result := find_entry index entry in
        match result with
        | Some addr => mut_ret (Some addr)
        | None => find_entries (index + 1) entries
        end
      else find_entries (index + 1) entries
  end.
End entries.

Fixpoint find_in_kernel_memory_inner (finder : Finder) (levels : list (Z * bool))
    (table_addr base_search_addr : Z) : MutRes bytes MemoryAccessError (option Z) :=
  match levels with
  | [] => mut_ret None
  | (shift, has_large) :: rest =>
      match read_value table_pod memory table_addr with
      | Err OutOfBounds => mut_ret None
      | Err err => mut_lift (Err err)
      | Panic => mut_lift Panic
      | NoFuel => mut_lift NoFuel
      | Ok table =>
          let! page_size := mut_lift (shl_u64 1 shift) in
          let! prefix_mask := mut_lift (mask (shift + 9)) in
          let! index_mask := mut_lift (mask 9) in
          let! rest_mask := mut_lift (mask shift) in
          let prefix := Z.land base_search_addr (not_u64 prefix_mask) in
          let base_index := Z.land (Z.shiftr base_search_addr shift) index_mask in
          let search_rest := Z.land base_search_addr rest_mask in
          find_entries finder shift has_large (bool_decide (rest = []))
            (find_in_kernel_memory_inner finder rest)
            page_size prefix base_index search_rest
            base_index (drop (Z.to_nat base_index) table)
      end
  end.

Definition find_in_kernel_memory_raw (mmu_addr base_search_addr : Z) (finder : Finder)
  : MutRes bytes MemoryAccessError (option Z) :=
  let! table_addr := mut_lift (mmu_take_bits mmu_addr 12 ADDR_BITS) in
  find_in_kernel_memory_inner finder LEVELS table_addr base_search_addr.

(** [Finder::new] is a parameter of the code that builds its own finder. *)
Definition find_in_kernel_memory (new_finder : bytes → Finder) (mmu_addr : Z) (needle : bytes)
    (base_search_addr : Z) : MemoryAccessResult (option Z) :=
  let buf := replicate (Z.to_nat (2 ^ 21) + length needle) Byte.x00 in
  (find_in_kernel_memory_raw mmu_addr base_search_addr (new_finder needle) buf).1.
End mmu.
