(* ===== verification/MmuSpec.v ===== *)
(** * What translation and search do

    [walk] is the page walk of the architecture manuals, in plain arithmetic;
    [virtual_to_physical] computes it on every input, without an overflow in any
    build.  The search through the tables is sound for it: what it finds is
    mapped by the same tables, at the place where the needle lies. *)

From S2P Require Import Prelude Rust Layout Addr Error Mem MemSpec Mmu.

(** The address of the table (or page) that an entry points to. *)
Definition pfn (entry : Z) : Z := bits_in_place entry 12 ADDR_BITS.

(** The address of the entry that translates [addr] at the level with [shift]. *)
Definition entry_address (entry shift addr : Z) : Z := pfn entry + 8 * (addr / 2 ^ shift mod 512).

Section walk.
Context {bm : Build}.
Variable Mmu : MmuDesc.
Variable memory : Memory.
Context {laws : MemoryLaws memory}.

Fixpoint walk (levels : list (Z * bool)) (entry addr : Z) : TranslationResult Z :=
  match levels with
  | [] => Ok (pfn entry + addr mod 2 ^ 12)
  | (shift, has_huge) :: levels =>
      let? entry := map_err TransMemory (read_value pod_u64 memory (entry_address entry shift addr)) in
      if negb (mmu_is_valid Mmu entry) then Err (TransInvalid entry)
      else if has_huge && mmu_is_large Mmu entry
      then Ok (bits_in_place entry shift ADDR_BITS + addr mod 2 ^ shift)
      else walk levels entry addr
  end.

(** The shifts of a description are those of pages inside the address space. *)
Definition levels_ok (levels : list (Z * bool)) : Prop :=
  Forall (λ l, 12 <= l.1 <= 39) levels.

Lemma LEVELS_ok : levels_ok LEVELS.
Proof. repeat constructor; cbn; lia. Qed.

Lemma pfn_bound entry : 0 <= pfn entry <= 2 ^ 48 - 2 ^ 12.
Proof. apply bits_in_place_bound. unfold ADDR_BITS. lia. Qed.

Lemma page_offset_ok {E} entry shift addr :
  12 <= shift <= 39 →
  pa_add_u64 (E:=E) (bits_in_place entry shift ADDR_BITS) (addr mod 2 ^ shift) =
  Ok (bits_in_place entry shift ADDR_BITS + addr mod 2 ^ shift).
Proof.
  intros Hs. unfold pa_add_u64. apply add_u64_ok.
  pose proof (bits_in_place_bound entry shift ADDR_BITS) as Hb. unfold ADDR_BITS in *.
  pose proof (Z.mod_pos_bound addr (2 ^ shift)). assert (0 < 2 ^ shift) by lia.
  assert (2 ^ 48 < 2 ^ 64) by lia. lia.
Qed.

Lemma entry_address_ok {E} entry shift addr :
  0 <= shift →
  (let? table_addr := mmu_take_bits entry 12 ADDR_BITS in
   let? m := mask 9 in
   let? offset := mul_u64 8 (Z.land (Z.shiftr addr shift) m) in
   pa_add_u64 (E:=E) table_addr offset) = Ok (entry_address entry shift addr).
Proof.
  intros Hs. rewrite take_bits_ok by (unfold ADDR_BITS; lia). cbn [res_bind].
  rewrite mask_ok by lia. cbn [res_bind]. rewrite land_ones_mod, Z.shiftr_div_pow2 by lia.
  change (2 ^ 9) with 512. pose proof (Z.mod_pos_bound (addr / 2 ^ shift) 512).
  rewrite mul_u64_ok by lia. cbn [res_bind]. unfold pa_add_u64. apply add_u64_ok.
  pose proof (pfn_bound entry). unfold pfn in *. lia.
Qed.

Lemma v2p_levels_walk levels entry addr :
  levels_ok levels → v2p_levels Mmu memory levels entry addr = walk levels entry addr.
Proof.
  intros Hok. revert entry. induction Hok as [|[shift has_huge] levels Hs _ IH];
    intros entry; cbn [v2p_levels walk].
  - rewrite take_bits_ok by (unfold ADDR_BITS; lia). cbn [res_bind]. rewrite mask_ok by lia.
    cbn [res_bind]. rewrite land_ones_mod by lia. apply (page_offset_ok entry 12 addr). lia.
  - cbn [fst] in Hs. pose proof (entry_address_ok (E:=TranslationError) entry shift addr) as He.
    forward He; [lia|].
    destruct (mmu_take_bits entry 12 ADDR_BITS); cbn [res_bind] in *; [|done..].
    destruct (mask 9); cbn [res_bind] in *; [|done..].
    destruct (mul_u64 8 _); cbn [res_bind] in *; [|done..].
    rewrite He. cbn [res_bind]. rewrite read_value_into_eq by apply _.
    destruct (map_err _ _) as [entry'| | |]; cbn [res_bind]; [|done..].
    destruct (negb _); [done|]. destruct (has_huge && _); [|apply IH].
    rewrite take_bits_ok by (unfold ADDR_BITS; lia). cbn [res_bind]. rewrite mask_ok by lia.
    cbn [res_bind]. rewrite land_ones_mod by lia. apply page_offset_ok. lia.
Qed.

Lemma walk_offset levels entry addr pa :
  levels_ok levels → walk levels entry addr = Ok pa → 0 <= pa < 2 ^ 48 ∧ pa mod 2 ^ 12 = addr mod 2 ^ 12.
Proof.
  assert (Hin : ∀ entry shift, 12 <= shift <= 39 →
    let pa := bits_in_place entry shift ADDR_BITS + addr mod 2 ^ shift in
    0 <= pa < 2 ^ 48 ∧ pa mod 2 ^ 12 = addr mod 2 ^ 12).
  { intros entry' shift Hs pa'. pose proof (bits_in_place_bound entry' shift ADDR_BITS) as Hb.
    unfold ADDR_BITS in *. pose proof (Z.mod_pos_bound addr (2 ^ shift)).
    assert (0 < 2 ^ shift) by lia. split; [lia|]. subst pa'. unfold bits_in_place.
    assert (Hp : 2 ^ shift = 2 ^ (shift - 12) * 2 ^ 12)
      by (rewrite <- Z.pow_add_r by lia; f_equal; lia).
    rewrite Z.add_comm. rewrite Hp at 3. rewrite Z.mul_assoc, Z.mod_add by lia.
    rewrite Hp, (Z.mul_comm (2 ^ (shift - 12))), Z.rem_mul_r by lia.
    rewrite Z.mul_comm, Z.mod_add by lia. apply Z.mod_mod. lia. }
  intros Hok. revert entry. induction Hok as [|[shift has_huge] levels Hs _ IH];
    intros entry; cbn [walk].
  - intros [= <-]. apply (Hin entry 12). lia.
  - intros H. inv_ok. destruct (negb _); [done|]. destruct (has_huge && _); [|by eapply IH].
    injection H as <-. by apply Hin.
Qed.
End walk.

(** ** The parts of an address at one level *)

Section slot.
Variables base shift : Z.
Hypothesis base_u64 : is_u64 base.
Hypothesis shift_ok : 12 <= shift <= 39.

Let P := 2 ^ shift.
Let q := base / P / 512.

(** The address at [off] in the slot [idx] of the table that translates [base]. *)
Definition slot_addr (idx off : Z) : Z := base - base mod 2 ^ (shift + 9) + idx * 2 ^ shift + off.

Lemma slot_pos : 0 < P.
Proof. unfold P. lia. Qed.

Lemma slot_pow9 : 2 ^ (shift + 9) = P * 512.
Proof. unfold P. rewrite Z.pow_add_r by lia. done. Qed.

Lemma slot_base : base = (q * 512 + base / P mod 512) * P + base mod P.
Proof.
  unfold q. pose proof slot_pos as HP.
  pose proof (Z.div_mod base P). pose proof (Z.div_mod (base / P) 512). nia.
Qed.

Lemma slot_prefix : base - base mod 2 ^ (shift + 9) = q * 512 * P.
Proof.
  pose proof slot_pos as HP. rewrite slot_pow9. rewrite Z.rem_mul_r by lia.
  pose proof slot_base. nia.
Qed.

Lemma slot_addr_eq idx off : slot_addr idx off = (q * 512 + idx) * P + off.
Proof. unfold slot_addr. rewrite slot_prefix. unfold P. ring. Qed.

Context (idx off : Z).
Hypothesis idx_ok : 0 <= idx < 512.
Hypothesis off_ok : 0 <= off < P.

Lemma slot_addr_div : slot_addr idx off / P = q * 512 + idx.
Proof.
  pose proof slot_pos. rewrite slot_addr_eq, Z.div_add_l by lia. rewrite (Z.div_small off) by lia. lia.
Qed.

Lemma slot_addr_index : slot_addr idx off / P mod 512 = idx.
Proof. rewrite slot_addr_div, Z.add_comm, Z.mod_add, Z.mod_small; lia. Qed.

Lemma slot_addr_offset : slot_addr idx off mod P = off.
Proof.
  pose proof slot_pos. rewrite slot_addr_eq, Z.add_comm, Z.mod_add, Z.mod_small; lia.
Qed.

Lemma slot_addr_prefix : slot_addr idx off / 2 ^ (shift + 9) = base / 2 ^ (shift + 9).
Proof.
  pose proof slot_pos. rewrite slot_pow9, <- !Z.div_div by lia. rewrite slot_addr_div.
  rewrite Z.div_add_l, (Z.div_small idx) by lia. unfold q. lia.
Qed.

Lemma slot_addr_u64 : is_u64 (slot_addr idx off).
Proof.
  pose proof slot_pos. unfold is_u64. rewrite slot_addr_eq.
  assert (Hq : 0 <= q) by (unfold q; apply Z.div_pos; [apply Z.div_pos; unfold is_u64 in *|]; lia).
  assert (H64 : 2 ^ 64 = 2 ^ (55 - shift) * 512 * P).
  { unfold P. change 512 with (2 ^ 9). rewrite <- !Z.pow_add_r by lia. f_equal. lia. }
  assert (q < 2 ^ (55 - shift)).
  { unfold q. rewrite Z.div_div by lia. apply Z.div_lt_upper_bound; [lia|].
    unfold is_u64 in *. lia. }
  assert ((q + 1) * 512 * P <= 2 ^ 64) by (rewrite H64; nia). nia.
Qed.

Lemma slot_addr_above :
  base / P mod 512 <= idx → (idx = base / P mod 512 → base mod P <= off) → base <= slot_addr idx off.
Proof.
  pose proof slot_pos. intros Hi Ho. rewrite slot_addr_eq. rewrite slot_base at 1.
  pose proof (Z.mod_pos_bound base P).
  destruct (Z.eq_dec idx (base / P mod 512)) as [e|]; [rewrite e in *; specialize (Ho eq_refl); nia|].
  assert (base / P mod 512 + 1 <= idx) by lia. nia.
Qed.
End slot.

(** ** Soundness of the search *)

Section find.
Context {bm : Build}.
Variable Mmu : MmuDesc.
Variable memory : Memory.
Variable fits : Z → nat → Prop.
Context {laws : MemoryLaws memory} {sub : SubReads memory} {slaws : SearchLaws memory fits}.
Variable f : Finder.
Context {finder_ok : FinderOk f}.
Hypothesis needle_nonempty : needle f ≠ [].

(** The levels of a walk that ends with pages of 4 KiB. *)
Fixpoint chain (levels : list (Z * bool)) : Prop :=
  match levels with
  | [] => False
  | (shift, _) :: rest =>
      12 <= shift <= 39 ∧
      match rest with [] => shift = 12 | (shift', _) :: _ => shift = shift' + 9 ∧ chain rest end
  end.

Definition top_shift (levels : list (Z * bool)) : Z :=
  match levels with [] => 12 | (shift, _) :: _ => shift + 9 end.

Lemma LEVELS_chain : chain LEVELS.
Proof. cbn. lia. Qed.

(** What a hit at [va] in the tables below [entry] says, for a search from
    [base] with a buffer of [n] bytes. *)
Definition hit (levels : list (Z * bool)) (entry base : Z) (n : nat) (va : Z) : Prop :=
  base <= va ∧ is_u64 va ∧ va / 2 ^ top_shift levels = base / 2 ^ top_shift levels ∧
  ∃ shift pa, 12 <= shift <= 39 ∧ walk Mmu memory levels entry va = Ok pa ∧
    va mod 2 ^ shift + Z.of_nat (length (needle f)) <= 2 ^ shift ∧
    ((∀ size, 0 <= size <= 2 ^ shift → fits size n) →
     read_bytes memory pa (length (needle f)) = Ok (needle f)).

Lemma find_entries_some shift has_large last recurse page_size prefix b rest index entries buf va buf' :
  (∀ index entry, keeps_length (find_entry Mmu memory f shift has_large last recurse page_size
                                  prefix b rest index entry)) →
  find_entries Mmu memory f shift has_large last recurse page_size prefix b rest index entries buf
    = (Ok (Some va), buf') →
  ∃ k entry b1 b2, entries !! k = Some entry ∧ mmu_is_valid Mmu entry = true ∧
    length b1 = length buf ∧
    find_entry Mmu memory f shift has_large last recurse page_size prefix b rest
      (index + Z.of_nat k) entry b1 = (Ok (Some va), b2).
Proof.
  intros Hk. revert index buf. induction entries as [|entry entries IH]; intros index buf; [done|].
  cbn [find_entries].
  assert (Hnext : ∀ buf1, length buf1 = length buf →
    find_entries Mmu memory f shift has_large last recurse page_size prefix b rest (index + 1) entries buf1
      = (Ok (Some va), buf') →
    ∃ k entry0 b1 b2, (entry :: entries) !! k = Some entry0 ∧ mmu_is_valid Mmu entry0 = true ∧
      length b1 = length buf ∧
      find_entry Mmu memory f shift has_large last recurse page_size prefix b rest
        (index + Z.of_nat k) entry0 b1 = (Ok (Some va), b2)).
  { intros buf1 Hl (k & e & b1 & b2 & ? & ? & ? & Hf)%IH. exists (S k), e, b1, b2.
    split_and!; [done|done|congruence|]. rewrite <- Hf. f_equal. lia. }
  destruct (mmu_is_valid Mmu entry) eqn:Hv; [|by apply Hnext].
  unfold mut_bind. pose proof (Hk index entry buf) as Hl.
  destruct (find_entry _ _ _ _ _ _ _ _ _ _ _ index entry buf) as [[[va'|]| | |] b1] eqn:He; try done.
  - intros [= -> <-]. exists 0%nat, entry, buf, b1. split_and!; [done|done|done|].
    rewrite <- He. f_equal. lia.
  - by apply Hnext.
Qed.

Section level.
Variables base shift : Z.
Hypothesis base_u64 : is_u64 base.
Hypothesis shift_ok : 12 <= shift <= 39.

Lemma find_entry_eq has_large last recurse idx entry :
  0 <= idx < 512 →
  find_entry Mmu memory f shift has_large last recurse (2 ^ shift) (base - base mod 2 ^ (shift + 9))
    (base / 2 ^ shift mod 512) (base mod 2 ^ shift) idx entry =
  let off := if idx =? base / 2 ^ shift mod 512 then base mod 2 ^ shift else 0 in
  if last || (has_large && mmu_is_large Mmu entry) then λ buf,
    match search memory (bits_in_place entry shift ADDR_BITS + off) (2 ^ shift - off) f buf with
    | (Ok (Some i), buf) => (let? found := va_add_u64 (slot_addr base shift idx off) i in Ok (Some found), buf)
    | (Ok None, buf) | (Err OutOfBounds, buf) => (Ok None, buf)
    | (Err err, buf) => (Err err, buf)
    | (Panic, buf) => (Panic, buf)
    | (NoFuel, buf) => (NoFuel, buf)
    end
  else recurse (pfn entry) (slot_addr base shift idx off).
Proof.
  intros Hi. set (off := if idx =? _ then _ else _). cbv zeta.
  assert (Hoff : 0 <= off < 2 ^ shift).
  { unfold off. assert (0 < 2 ^ shift) by lia. destruct (_ =? _); [apply Z.mod_pos_bound|]; lia. }
  pose proof (slot_addr_u64 base shift base_u64 shift_ok idx 0 Hi) as H0. forward H0; [lia|].
  pose proof (slot_addr_u64 base shift base_u64 shift_ok idx off Hi Hoff) as H1.
  assert (Hle : 0 <= idx * 2 ^ shift <= 2 ^ 48).
  { assert (2 ^ shift <= 2 ^ 39) by (apply Z.pow_le_mono_r; lia).
    assert (0 < 2 ^ shift) by lia. change (2 ^ 48) with (512 * 2 ^ 39). nia. }
  unfold find_entry, mut_bind, mut_lift. rewrite mul_u64_ok by lia.
  unfold va_add_u64. rewrite (add_u64_ok (base - _))
    by (unfold is_u64, slot_addr in H0; rewrite Z.add_0_r in H0; exact H0).
  fold off. rewrite !take_bits_ok by (unfold ADDR_BITS; lia).
  unfold pa_add_u64. pose proof (bits_in_place_bound entry shift ADDR_BITS) as Hb.
  unfold ADDR_BITS in *. rewrite (add_u64_ok (bits_in_place _ _ _)) by lia.
  rewrite (sub_u64_ok (2 ^ shift)) by lia. rewrite add_u64_ok by exact H1.
  destruct (last || _); [|done]. cbn [res_bind]. done.
Qed.

Lemma find_entry_length has_large last recurse page_size prefix b rest idx entry :
  (∀ t a, keeps_length (recurse t a)) →
  keeps_length (find_entry Mmu memory f shift has_large last recurse page_size prefix b rest idx entry).
Proof.
  intros Hr. unfold find_entry. repeat (apply keeps_bind; [apply keeps_lift|intros]).
  destruct (last || _); repeat (apply keeps_bind; [apply keeps_lift|intros]); [|apply Hr].
  intros buf. match goal with |- context [search memory ?a ?n f buf] =>
    pose proof (search_length (fits := fits) a n f buf) as Hs end.
  destruct (search _ _ _ _ _) as [[[i|]|[]| |] b1]; exact Hs.
Qed.
End level.

Lemma find_entries_length shift has_large last recurse page_size prefix b rest index entries :
  (∀ t a, keeps_length (recurse t a)) →
  keeps_length (find_entries Mmu memory f shift has_large last recurse page_size prefix b rest index entries).
Proof.
  intros Hr. revert index. induction entries as [|e entries IH]; intros i; [apply keeps_ret|].
  cbn [find_entries]. destruct (mmu_is_valid _ _); [|apply IH].
  apply keeps_bind; [by apply find_entry_length|]. intros [r|]; [apply keeps_ret|apply IH].
Qed.

Lemma find_inner_length levels table_addr base :
  keeps_length (find_in_kernel_memory_inner Mmu memory f levels table_addr base).
Proof.
  revert table_addr base. induction levels as [|[shift has_large] rest IH]; intros table_addr base; [done|].
  cbn [find_in_kernel_memory_inner].
  destruct (read_value _ _ _) as [table|[]| |]; try apply keeps_lift.
  repeat (apply keeps_bind; [apply keeps_lift|intros]). by apply find_entries_length.
Qed.

(** The entry that the search reads in a table is the one a walk reads. *)
Lemma array_entry n t table i entry :
  0 <= t → (i < n)%nat → read_value (pod_array pod_u64 n) memory t = Ok table →
  table !! i = Some entry → read_value pod_u64 memory (t + Z.of_nat (i * 8)) = Ok entry.
Proof.
  unfold read_value. intros Ht Hi Hr Hl. apply res_bind_ok in Hr as (bs & Hv & Hr).
  injection Hr as <-. rewrite pod_array_lookup in Hl by lia. injection Hl as <-.
  rewrite (sub_reads t _ _ _ 8 Ht Hv); [done|].
  assert (size_of (pod_array pod_u64 n) = n * 8)%nat as -> by by destruct n. lia.
Qed.

Lemma read_array_length n t (table : list Z) :
  read_value (pod_array pod_u64 n) memory t = Ok table → length table = n.
Proof.
  unfold read_value. intros (bs & _ & Hr)%res_bind_ok. injection Hr as <-. apply pod_array_length.
Qed.

Lemma table_entry t table idx entry :
  0 <= t → 0 <= idx < 512 → read_value table_pod memory t = Ok table →
  table !! Z.to_nat idx = Some entry → read_value pod_u64 memory (t + 8 * idx) = Ok entry.
Proof.
  intros Ht Hi Hr Hl. replace (t + 8 * idx) with (t + Z.of_nat (Z.to_nat idx * 8)) by lia.
  apply (array_entry 512 t table); [exact Ht|lia|exact Hr|exact Hl].
Qed.

(** One step of the walk of an address whose index at this level is [idx]. *)
Lemma walk_step shift has_large rest entry va e :
  read_value pod_u64 memory (pfn entry + 8 * (va / 2 ^ shift mod 512)) = Ok e →
  mmu_is_valid Mmu e = true →
  walk Mmu memory ((shift, has_large) :: rest) entry va =
  if has_large && mmu_is_large Mmu e then Ok (bits_in_place e shift ADDR_BITS + va mod 2 ^ shift)
  else walk Mmu memory rest e va.
Proof. intros Hr Hv. cbn [walk]. unfold entry_address. rewrite Hr. cbn. by rewrite Hv. Qed.

Section entry_hit.
Variables (shift : Z) (has_large : bool) (rest : list (Z * bool)) (entry base : Z).
Hypothesis chain_ok : chain ((shift, has_large) :: rest).
Hypothesis base_u64 : is_u64 base.
Let idx0 := base / 2 ^ shift mod 512.
Variables (idx e : Z).
Hypothesis idx_ok : idx0 <= idx < 512.
Hypothesis e_read : read_value pod_u64 memory (pfn entry + 8 * idx) = Ok e.
Hypothesis e_valid : mmu_is_valid Mmu e = true.
Let off := if idx =? idx0 then base mod 2 ^ shift else 0.

Lemma shift_range : 12 <= shift <= 39.
Proof. by destruct chain_ok. Qed.

Lemma chain_top : rest ≠ [] → top_shift rest = shift.
Proof. clear - chain_ok. cbn in chain_ok. destruct chain_ok as [_ Hc]. by destruct rest as [|[]]; [|destruct Hc]. Qed.

Lemma idx_range : 0 <= idx < 512.
Proof. pose proof (Z.mod_pos_bound (base / 2 ^ shift) 512). unfold idx0 in *. lia. Qed.

Lemma off_range : 0 <= off < 2 ^ shift.
Proof.
  pose proof shift_range. unfold off. assert (0 < 2 ^ shift) by lia.
  destruct (_ =? _); [apply Z.mod_pos_bound|]; lia.
Qed.

Lemma slot_above o : off <= o < 2 ^ shift → base <= slot_addr base shift idx o.
Proof.
  intros Ho. pose proof off_range. apply slot_addr_above; [apply shift_range|apply idx_range|lia|lia|].
  intros e0. unfold off in Ho. fold idx0 in e0. rewrite e0, Z.eqb_refl in Ho. lia.
Qed.

Lemma leaf_hit i b1 b2 :
  bool_decide (rest = []) || (has_large && mmu_is_large Mmu e) = true →
  search memory (bits_in_place e shift ADDR_BITS + off) (2 ^ shift - off) f b1 = (Ok (Some i), b2) →
  let va := slot_addr base shift idx off + i in
  is_u64 va ∧ hit ((shift, has_large) :: rest) entry base (length b1) va.
Proof.
  intros Hleaf Hs va. pose proof shift_range. pose proof idx_range. pose proof off_range.
  destruct (search_bound _ _ f _ _ _ Hs) as [Hi1 Hi2]; [lia|].
  assert (Hn : (0 < length (needle f))%nat) by (destruct (needle f); [done|cbn; lia]).
  assert (Hva : va = slot_addr base shift idx (off + i)) by (unfold va, slot_addr; lia).
  assert (Hu : is_u64 va) by (rewrite Hva; apply slot_addr_u64; done || lia).
  split; [done|]. split; [rewrite Hva; apply slot_above; lia|]. split; [done|].
  split; [rewrite Hva; apply slot_addr_prefix; lia|].
  assert (Hmod : va mod 2 ^ shift = off + i) by (rewrite Hva; apply slot_addr_offset; lia).
  exists shift, (bits_in_place e shift ADDR_BITS + va mod 2 ^ shift). split_and!; [lia|lia| |lia|].
  - rewrite (walk_step _ _ _ _ _ e); [|rewrite Hva, slot_addr_index by lia; done|done].
    destruct (has_large && _); [done|]. rewrite orb_false_r in Hleaf.
    apply bool_decide_eq_true in Hleaf as ->. destruct chain_ok as [_ ->]. done.
  - intros Hfit. rewrite Hmod, Z.add_assoc. pose proof (bits_in_place_bound e shift ADDR_BITS) as Hb.
    unfold ADDR_BITS in *. eapply (search_hit _ _ f); [exact Hs|lia|lia|]. apply Hfit. lia.
Qed.

Lemma inner_hit n va :
  bool_decide (rest = []) || (has_large && mmu_is_large Mmu e) = false →
  hit rest e (slot_addr base shift idx off) n va →
  hit ((shift, has_large) :: rest) entry base n va.
Proof.
  intros Hleaf (Hle & Hu & Hpre & s & pa & Hs & Hw & Hrd).
  pose proof shift_range. pose proof idx_range. pose proof off_range.
  apply orb_false_iff in Hleaf as [Hrest Hlarge]. apply bool_decide_eq_false in Hrest.
  rewrite chain_top in Hpre by done. unfold hit. cbn [top_shift].
  rewrite slot_addr_div in Hpre by (done || lia).
  split; [etransitivity; [apply (slot_above off); lia|exact Hle]|]. split; [done|]. split.
  - rewrite (slot_pow9 base) by (done || lia). assert (0 < 2 ^ shift) by lia. rewrite <- !Z.div_div, Hpre by lia.
    rewrite Z.div_add_l, (Z.div_small idx) by lia. lia.
  - exists s, pa. split; [done|]. split; [|done].
    rewrite (walk_step _ _ _ _ _ e); [by rewrite Hlarge| |done].
    rewrite Hpre, (Z.add_comm (_ * 512)), Z.mod_add, (Z.mod_small idx) by lia. exact e_read.
Qed.
End entry_hit.

Lemma find_inner_sound levels entry base buf va buf' :
  chain levels → is_u64 base →
  find_in_kernel_memory_inner Mmu memory f levels (pfn entry) base buf = (Ok (Some va), buf') →
  hit levels entry base (length buf) va.
Proof.
  revert entry base buf va buf'. induction levels as [|[shift has_large] rest IH];
    intros entry base buf va buf' Hc Hb; [done|].
  pose proof Hc as [Hs Hc']. cbn [find_in_kernel_memory_inner].
  destruct (read_value table_pod memory (pfn entry)) as [table|[]| |] eqn:Ht; try done.
  unfold mut_bind, mut_lift. unfold shl_u64. replace (shift <? 64) with true by lia.
  rewrite wrap_u64_small by (unfold is_u64; rewrite Z.shiftl_1_l; split; [lia|apply Z.pow_lt_mono_r; lia]).
  rewrite Z.shiftl_1_l, !mask_ok by lia.
  rewrite land_not_mask by (done || lia). rewrite !land_ones_mod, Z.shiftr_div_pow2 by lia.
  change (2 ^ 9) with 512. intros H.
  apply find_entries_some in H; [|intros; apply find_entry_length, find_inner_length].
  destruct H as (k & e & b1 & b2 & Hk & Hv & Hl & H). rewrite <- Hl.
  pose proof (Z.mod_pos_bound (base / 2 ^ shift) 512) as Hbi.
  rewrite lookup_drop in Hk. pose proof (lookup_lt_Some _ _ _ Hk) as Hlt.
  rewrite (read_array_length _ _ _ Ht) in Hlt.
  replace (Z.to_nat (base / 2 ^ shift mod 512) + k)%nat
    with (Z.to_nat (base / 2 ^ shift mod 512 + Z.of_nat k)) in * by lia.
  set (idx := base / 2 ^ shift mod 512 + Z.of_nat k) in *.
  assert (Hr : read_value pod_u64 memory (pfn entry + 8 * idx) = Ok e).
  { eapply table_entry; [apply pfn_bound|lia|exact Ht|exact Hk]. }
  rewrite find_entry_eq in H by (done || lia). cbv zeta in H.
  destruct (bool_decide _ || _) eqn:Hleaf.
  - destruct (search _ _ _ _ _) as [[[i|]|[]| |] b3] eqn:Hse; try done.
    edestruct (leaf_hit shift has_large rest entry base Hc Hb idx e) as [Hu Hhit];
      [lia|exact Hr|exact Hv|exact Hleaf|exact Hse|].
    unfold va_add_u64 in H. rewrite add_u64_ok in H by exact Hu. injection H as <- _. exact Hhit.
  - eapply (inner_hit shift has_large rest entry base Hc idx e); [lia|exact Hr|exact Hv|exact Hleaf|].
    eapply IH; [| |exact H].
    + destruct rest as [|[]]; [done|]. by destruct Hc'.
    + apply slot_addr_u64; [done|done|lia|]. assert (0 < 2 ^ shift) by lia.
      destruct (_ =? _); [apply Z.mod_pos_bound|]; lia.
Qed.
End find.

(** ** Properties *)

Section claims.
Context {bm : Build}.

(** C1. Address translation is the page walk: [virtual_to_physical] returns what
    [walk] returns for every memory, PGD and address, errors included, and no
    arithmetic on the way overflows, so debug and release builds agree. *)
Theorem virtual_to_physical_walk Mmu memory `{!MemoryLaws memory} mmu_addr addr :
  virtual_to_physical Mmu memory mmu_addr addr = walk Mmu memory LEVELS mmu_addr addr.
Proof. unfold virtual_to_physical. by apply v2p_levels_walk; [|apply LEVELS_ok]. Qed.

(** C8. A translation keeps the offset in the 4 KiB page and gives an address of
    at most 48 bits, whatever the size of the page. *)
Theorem virtual_to_physical_offset Mmu memory `{!MemoryLaws memory} mmu_addr addr pa :
  virtual_to_physical Mmu memory mmu_addr addr = Ok pa →
  0 <= pa < 2 ^ 48 ∧ pa mod 2 ^ 12 = addr mod 2 ^ 12.
Proof.
  unfold virtual_to_physical. rewrite v2p_levels_walk by (done || apply LEVELS_ok).
  apply walk_offset, LEVELS_ok.
Qed.

End claims.

(** ** The properties at concrete inputs

    Four tables that map the page 5 of the lower half of the address space to a
    page with a needle, then that page. *)

Definition sample_page (index entry : Z) : list Z :=
  replicate (Z.to_nat index) 0 ++ [entry] ++ replicate (Z.to_nat (511 - index)) 0.

Definition sample_tables : RawMemory :=
  raw_new (bytes_of_list pod_u64 (concat
    [sample_page 0 0x1001; sample_page 0 0x2001; sample_page 0 0x3001;
     sample_page 5 0x4001; sample_page 7 0x11223344])).

Notation sample_tables_memory := (raw_memory (bm := debug_build) sample_tables).

(** A walk that meets an invalid entry at the third level. *)
Lemma virtual_to_physical_walk_witness :
  virtual_to_physical (bm := debug_build) x86_mmu sample_tables_memory 0 0x200000 = Err (TransInvalid 0).
Proof.
  etransitivity; [apply (virtual_to_physical_walk (bm := debug_build)); apply _|].
  vm_compute. reflexivity.
Defined.

Lemma virtual_to_physical_offset_witness :
  virtual_to_physical (bm := debug_build) x86_mmu sample_tables_memory 0 0x5abc
    = Ok 0x4abc ∧ 0x4abc mod 2 ^ 12 = 0x5abc mod 2 ^ 12.
Proof.
  assert (H : virtual_to_physical (bm := debug_build) x86_mmu
    sample_tables_memory 0 0x5abc = Ok 0x4abc) by (vm_compute; reflexivity).
  split; [exact H|].
  apply (virtual_to_physical_offset (bm := debug_build) x86_mmu sample_tables_memory 0 0x5abc 0x4abc H).
Defined.

