(* ===== verification/Arch.v ===== *)
(** * Architectures and virtual CPUs
    ([vminer-core/src/arch/mod.rs], [x86_64.rs], [aarch64.rs], [runtime.rs])

    The trait [Architecture] is a class over the type of the architecture; its
    methods that take the virtual CPUs use the required methods of [HasVcpus]
    only ([RawVcpus]), except [find_kernel_pgd], which calls the others too.
    The provided methods of [HasVcpus] are those of its architecture
    ([default_vcpus]) unless an implementation overrides them. *)

From S2P Require Import Prelude Rust Layout Addr Endian Error Mem Text Registers Mmu.

(** ** Virtual CPUs *)

Inductive X86_64 := X86_64_.
Inductive Aarch64 := Aarch64_.

(** [runtime::Architecture] *)
Inductive RtArch := RtX86_64 (a : X86_64) | RtAarch64 (a : Aarch64).

(** The associated types of an architecture, and their conversions to the types
    of the architecture known at run time. *)
Class ArchTypes (A : Type) := {
  Registers : Type;
  SpecialRegisters : Type;
  OtherRegisters : Type;
  rt_registers : Registers → rt_Registers;
  rt_special_registers : SpecialRegisters → rt_SpecialRegisters;
  rt_other_registers : OtherRegisters → rt_OtherRegisters;
}.
Arguments Registers A {_}. Arguments SpecialRegisters A {_}. Arguments OtherRegisters A {_}.

#[export] Instance x86_types : ArchTypes X86_64 := {|
  Registers := x86_Registers;
  SpecialRegisters := x86_SpecialRegisters;
  OtherRegisters := x86_OtherRegisters;
  rt_registers := RegsX86_64;
  rt_special_registers := SpecialX86_64;
  rt_other_registers := OtherX86_64;
|}.

#[export] Instance arm_types : ArchTypes Aarch64 := {|
  Registers := arm_Registers;
  SpecialRegisters := arm_SpecialRegisters;
  OtherRegisters := arm_OtherRegisters;
  rt_registers := RegsAarch64;
  rt_special_registers := SpecialAarch64;
  rt_other_registers := OtherAarch64;
|}.

#[export] Instance rt_types : ArchTypes RtArch := {|
  Registers := rt_Registers;
  SpecialRegisters := rt_SpecialRegisters;
  OtherRegisters := rt_OtherRegisters;
  rt_registers := id;
  rt_special_registers := id;
  rt_other_registers := id;
|}.

(** The required methods of [HasVcpus]; a [VcpuId] is its number. *)
Record RawVcpus (A : Type) `{ArchTypes A} := {
  arch : A;
  vcpus_count : Z;
  registers : Z → VcpuResult (Registers A);
  special_registers : Z → VcpuResult (SpecialRegisters A);
  other_registers : Z → VcpuResult (OtherRegisters A);
}.
Arguments arch {A _}. Arguments vcpus_count {A _}. Arguments registers {A _}.
Arguments special_registers {A _}. Arguments other_registers {A _}.

(** All the methods. *)
Record HasVcpus (A : Type) `{ArchTypes A} := {
  raw_vcpus : RawVcpus A;
  register_by_name : Z → string → VcpuResult Z;
  instruction_pointer : Z → VcpuResult Z;
  stack_pointer : Z → VcpuResult Z;
  base_pointer : Z → VcpuResult (option Z);
  pgd : Z → VcpuResult Z;
  kernel_per_cpu : Z → VcpuResult (option Z);
}.
Arguments raw_vcpus {A _}. Arguments register_by_name {A _}.
Arguments instruction_pointer {A _}. Arguments stack_pointer {A _}.
Arguments base_pointer {A _}. Arguments pgd {A _}. Arguments kernel_per_cpu {A _}.

(** [VcpuIterator], a [Range<usize>]: its [next], its [len] and the items that
    are left. *)
Record VcpuIterator := { vi_start : Z; vi_end : Z }.

Definition vi_next (it : VcpuIterator) : option (Z * VcpuIterator) :=
  if vi_start it <? vi_end it
  then Some (vi_start it, {| vi_start := vi_start it + 1; vi_end := vi_end it |})
  else None.

Definition vi_len (it : VcpuIterator) : Z := Z.max 0 (vi_end it - vi_start it).

Definition vi_items (it : VcpuIterator) : list Z := seqZ (vi_start it) (vi_end it - vi_start it).

Definition iter_vcpus {A} `{ArchTypes A} (self : RawVcpus A) : VcpuIterator :=
  {| vi_start := 0; vi_end := vcpus_count self |}.

(** ** The trait *)

Class Architecture (A : Type) `{ArchTypes A} := {
  into_runtime : A → RtArch;
  arch_endianness : A → RuntimeEndian;
  arch_virtual_to_physical : A → Memory → Z → Z → TranslationResult Z;
  arch_find_kernel_pgd : A → Memory → HasVcpus A → bool → list Z → VmResult (option Z);
  arch_find_in_kernel_memory_raw :
    A → Memory → Z → Z → Finder → MutRes bytes MemoryAccessError (option Z);
  arch_find_in_kernel_memory :
    A → (bytes → Finder) → Memory → Z → bytes → MemoryAccessResult (option Z);
  kernel_base : A → Z;
  arch_register_by_name : A → RawVcpus A → Z → string → VcpuResult Z;
  arch_instruction_pointer : A → RawVcpus A → Z → VcpuResult Z;
  arch_stack_pointer : A → RawVcpus A → Z → VcpuResult Z;
  arch_base_pointer : A → RawVcpus A → Z → VcpuResult (option Z);
  arch_pgd : A → RawVcpus A → Z → VcpuResult Z;
  arch_kernel_per_cpu : A → RawVcpus A → Z → VcpuResult (option Z);
}.

(** The provided methods of [HasVcpus]. *)
Definition default_vcpus {A} `{Architecture A} (self : RawVcpus A) : HasVcpus A := {|
  raw_vcpus := self;
  register_by_name := arch_register_by_name (arch self) self;
  instruction_pointer := arch_instruction_pointer (arch self) self;
  stack_pointer := arch_stack_pointer (arch self) self;
  base_pointer := arch_base_pointer (arch self) self;
  pgd := arch_pgd (arch self) self;
  kernel_per_cpu := arch_kernel_per_cpu (arch self) self;
|}.

(** [impl HasVcpus for Arc<V>]: every method is forwarded. *)
Definition arc_vcpus {A} `{ArchTypes A} (self : HasVcpus A) : HasVcpus A := {|
  raw_vcpus := {|
    arch := arch (raw_vcpus self);
    vcpus_count := vcpus_count (raw_vcpus self);
    registers := registers (raw_vcpus self);
    special_registers := special_registers (raw_vcpus self);
    other_registers := other_registers (raw_vcpus self);
  |};
  register_by_name := register_by_name self;
  instruction_pointer := instruction_pointer self;
  stack_pointer := stack_pointer self;
  base_pointer := base_pointer self;
  pgd := pgd self;
  kernel_per_cpu := kernel_per_cpu self;
|}.

(** ** Guessing the kernel page directory *)

Section pgd.
Context {bm : Build}.

(** The first address that passes the test. *)
Fixpoint try_addresses (test : Z → Res Never bool) (addrs : list Z) : Res Never (option Z) :=
  match addrs with
  | [] => Ok None
  | addr :: addrs =>
      let? ok := test addr in
      if ok : bool then Ok (Some addr) else try_addresses test addrs
  end.

Definition try_all_addresses (test : Z → Res Never bool) : Res Never (option Z) :=
  try_addresses test (range_step 0 (2 ^ 32 - 1) 0x1000).

Context {A : Type} `{ArchTypes A}.
(** [virtual_to_physical] of the architecture *)
Variable v2p : A → Memory → Z → Z → TranslationResult Z.

(** The loop that collects the per-CPU addresses; a vCPU without one, or that
    cannot be read, is skipped. *)
Fixpoint per_cpu_addresses (vcpus : HasVcpus A) (ids : list Z) : Res Never (list Z) :=
  match ids with
  | [] => Ok []
  | vcpu :: ids =>
      match kernel_per_cpu vcpus vcpu with
      | Ok (Some addr) => let? addrs := per_cpu_addresses vcpus ids in Ok (addr :: addrs)
      | Ok None | Err _ => per_cpu_addresses vcpus ids
      | Panic => Panic
      | NoFuel => NoFuel
      end
  end.

(** [addresses.iter().all(..)] *)
Fixpoint all_addresses_valid (arch : A) (memory : Memory) (pgd_addr : Z) (addresses : list Z)
  : Res Never bool :=
  match addresses with
  | [] => Ok true
  | test_addr :: addresses =>
      let? ok := match v2p arch memory pgd_addr test_addr with
                 | Ok addr => is_valid memory addr 1
                 | Err _ => Ok false
                 | Panic => Panic
                 | NoFuel => NoFuel
                 end in
      if ok : bool then all_addresses_valid arch memory pgd_addr addresses else Ok false
  end.

Definition make_address_test (vcpus : HasVcpus A) (memory : Memory) (use_per_cpu : bool)
    (additional : list (list Z)) : Res Never (Z → Res Never bool) :=
  let? per_cpu := if use_per_cpu
                  then per_cpu_addresses vcpus (vi_items (iter_vcpus (raw_vcpus vcpus)))
                  else Ok [] in
  let addresses := concat additional ++ per_cpu in
  Ok (λ addr, all_addresses_valid (arch (raw_vcpus vcpus)) memory addr addresses).
End pgd.

(** ** x86_64 *)

Section x86.
Context {bm : Build}.

Definition x86_kernel_base : Z := 0xfffff80000000000.

Definition x86_register_by_name (vcpus : RawVcpus X86_64) (vcpu : Z) (name : string)
  : VcpuResult Z :=
  let? regs := registers vcpus vcpu in
  (if bool_decide (name = "rax") then Ok (rax regs)
   else if bool_decide (name = "rbx") then Ok (rbx regs)
   else if bool_decide (name = "rcx") then Ok (rcx regs)
   else if bool_decide (name = "rdx") then Ok (rdx regs)
   else if bool_decide (name = "rsi") then Ok (rsi regs)
   else if bool_decide (name = "rdi") then Ok (rdi regs)
   else if bool_decide (name = "rsp") then Ok (rsp regs)
   else if bool_decide (name = "rbp") then Ok (rbp regs)
   else if bool_decide (name = "r8") then Ok (r8 regs)
   else if bool_decide (name = "r9") then Ok (r9 regs)
   else if bool_decide (name = "r10") then Ok (r10 regs)
   else if bool_decide (name = "r11") then Ok (r11 regs)
   else if bool_decide (name = "r12") then Ok (r12 regs)
   else if bool_decide (name = "r13") then Ok (r13 regs)
   else if bool_decide (name = "r14") then Ok (r14 regs)
   else if bool_decide (name = "r15") then Ok (r15 regs)
   else if bool_decide (name = "rip") then Ok (rip regs)
   else if bool_decide (name = "rflags") then Ok (rflags regs)
   else Err UnknownRegister)%string.

Definition x86_instruction_pointer (vcpus : RawVcpus X86_64) (vcpu : Z) : VcpuResult Z :=
  let? regs := registers vcpus vcpu in Ok (rip regs).

Definition x86_stack_pointer (vcpus : RawVcpus X86_64) (vcpu : Z) : VcpuResult Z :=
  let? regs := registers vcpus vcpu in Ok (rsp regs).

Definition x86_base_pointer (vcpus : RawVcpus X86_64) (vcpu : Z) : VcpuResult (option Z) :=
  let? regs := registers vcpus vcpu in Ok (Some (rbp regs)).

Definition x86_pgd (vcpus : RawVcpus X86_64) (vcpu : Z) : VcpuResult Z :=
  let? regs := special_registers vcpus vcpu in Ok (cr3 regs).

Definition x86_kernel_per_cpu (vcpus : RawVcpus X86_64) (vcpu : Z) : VcpuResult (option Z) :=
  let? special := special_registers vcpus vcpu in
  let per_cpu := seg_base (gs special) in
  if va_is_kernel per_cpu then Ok (Some per_cpu)
  else
    let? other := other_registers vcpus vcpu in
    let per_cpu := gs_kernel_base other in
    if va_is_kernel per_cpu then Ok (Some per_cpu) else Ok None.

(** The loop over the [cr3] registers. *)
Fixpoint x86_try_vcpus (vcpus : HasVcpus X86_64) (test : Z → Res Never bool) (ids : list Z)
  : VmResult (option Z) :=
  match ids with
  | [] => Ok None
  | vcpu :: ids =>
      let? addr := map_err vm_of_vcpu (pgd vcpus vcpu) in
      let? ok := from_never (test addr) in
      if ok : bool then Ok (Some addr) else x86_try_vcpus vcpus test ids
  end.

Definition x86_v2p (_ : X86_64) : Memory → Z → Z → TranslationResult Z :=
  virtual_to_physical x86_mmu.

Definition x86_find_kernel_pgd (memory : Memory) (vcpus : HasVcpus X86_64) (use_per_cpu : bool)
    (additional : list Z) : VmResult (option Z) :=
  let? lstar := match other_registers (raw_vcpus vcpus) 0 with
                | Ok regs => Ok [lstar regs]
                | Err _ => Ok []
                | Panic => Panic
                | NoFuel => NoFuel
                end in
  let? test := from_never (make_address_test x86_v2p vcpus memory use_per_cpu [additional; lstar]) in
  let? found := x86_try_vcpus vcpus test (vi_items (iter_vcpus (raw_vcpus vcpus))) in
  match found with
  | Some addr => Ok (Some addr)
  | None => from_never (try_all_addresses test)
  end.

Definition x86_find_in_kernel_memory (new_finder : bytes → Finder) (memory : Memory) (mmu_addr : Z)
    (needle : bytes) : MemoryAccessResult (option Z) :=
  find_in_kernel_memory x86_mmu memory new_finder mmu_addr needle x86_kernel_base.

#[export] Instance x86_architecture : Architecture X86_64 := {|
  into_runtime := RtX86_64;
  arch_endianness := λ _, as_runtime_endian LittleEndian_;
  arch_virtual_to_physical := x86_v2p;
  arch_find_kernel_pgd := λ _, x86_find_kernel_pgd;
  arch_find_in_kernel_memory_raw := λ _, find_in_kernel_memory_raw x86_mmu;
  arch_find_in_kernel_memory := λ _, x86_find_in_kernel_memory;
  kernel_base := λ _, x86_kernel_base;
  arch_register_by_name := λ _, x86_register_by_name;
  arch_instruction_pointer := λ _, x86_instruction_pointer;
  arch_stack_pointer := λ _, x86_stack_pointer;
  arch_base_pointer := λ _, x86_base_pointer;
  arch_pgd := λ _, x86_pgd;
  arch_kernel_per_cpu := λ _, x86_kernel_per_cpu;
|}.
End x86.

(** ** aarch64 *)

Section arm.
Context {bm : Build}.

Definition arm_kernel_base : Z := 0xffffa00000000000.

(** [str::strip_prefix] of one character. *)
Definition strip_prefix_char (c : ascii) (s : string) : option string :=
  match s with
  | String.String c' s => if bool_decide (c = c') then Some s else None
  | String.EmptyString => None
  end.

Definition arm_register_by_name (vcpus : RawVcpus Aarch64) (vcpu : Z) (name : string)
  : VcpuResult Z :=
  let? regs := registers vcpus vcpu in
  let reg :=
    match strip_prefix_char (byte_ascii Byte.x78 (* x *)) name with
    | Some n =>
        n ← parse_usize n;
        if n =? 0 then Some 0 else Registers.regs regs !! Z.to_nat (n - 1)
    | None =>
        (if bool_decide (name = "pc") then Some (pc regs)
         else if bool_decide (name = "sp") then Some (sp regs)
         else if bool_decide (name = "pstate") then Some (pstate regs)
         else None)%string
    end in
  ok_or reg UnknownRegister.

Definition arm_instruction_pointer (vcpus : RawVcpus Aarch64) (vcpu : Z) : VcpuResult Z :=
  let? registers := registers vcpus vcpu in Ok (pc registers).

Definition arm_stack_pointer (vcpus : RawVcpus Aarch64) (vcpu : Z) : VcpuResult Z :=
  let? ip := arm_instruction_pointer vcpus vcpu in
  if va_is_kernel ip
  then let? special := special_registers vcpus vcpu in Ok (sp_el1 special)
  else let? regs := registers vcpus vcpu in Ok (sp regs).

Definition arm_base_pointer (vcpus : RawVcpus Aarch64) (vcpu : Z) : VcpuResult (option Z) :=
  let? registers := registers vcpus vcpu in
  let? fp := slice_index (regs registers) 29 in
  Ok (Some fp).

Definition arm_pgd (vcpus : RawVcpus Aarch64) (vcpu : Z) : VcpuResult Z :=
  let? s_registers := special_registers vcpus vcpu in
  let? ip := arm_instruction_pointer vcpus vcpu in
  let ttbr := if va_is_kernel ip then ttbr1_el1 s_registers else ttbr0_el1 s_registers in
  let? m := mask ADDR_BITS in
  Ok (Z.land ttbr m).

Definition arm_kernel_per_cpu (vcpus : RawVcpus Aarch64) (vcpu : Z) : VcpuResult (option Z) :=
  Ok None.

Definition arm_v2p (_ : Aarch64) : Memory → Z → Z → TranslationResult Z :=
  virtual_to_physical arm_mmu.

(** The loop that looks for a vCPU in kernel mode. *)
Fixpoint arm_kernel_vcpu (vcpus : HasVcpus Aarch64) (ids : list Z) : VmResult (option Z) :=
  match ids with
  | [] => Ok None
  | vcpu :: ids =>
      let? ip := map_err vm_of_vcpu (instruction_pointer vcpus vcpu) in
      if va_is_kernel ip
      then let? addr := map_err vm_of_vcpu (pgd vcpus vcpu) in Ok (Some addr)
      else arm_kernel_vcpu vcpus ids
  end.

Definition arm_find_kernel_pgd (memory : Memory) (vcpus : HasVcpus Aarch64) (use_per_cpu : bool)
    (additional : list Z) : VmResult (option Z) :=
  let? found := arm_kernel_vcpu vcpus (vi_items (iter_vcpus (raw_vcpus vcpus))) in
  match found with
  | Some addr => Ok (Some addr)
  | None =>
      let? test := from_never (make_address_test arm_v2p vcpus memory use_per_cpu [additional]) in
      from_never (try_all_addresses test)
  end.

Definition arm_find_in_kernel_memory (new_finder : bytes → Finder) (memory : Memory) (mmu_addr : Z)
    (needle : bytes) : MemoryAccessResult (option Z) :=
  find_in_kernel_memory arm_mmu memory new_finder mmu_addr needle arm_kernel_base.

#[export] Instance arm_architecture : Architecture Aarch64 := {|
  into_runtime := RtAarch64;
  arch_endianness := λ _, as_runtime_endian LittleEndian_;
  arch_virtual_to_physical := arm_v2p;
  arch_find_kernel_pgd := λ _, arm_find_kernel_pgd;
  arch_find_in_kernel_memory_raw := λ _, find_in_kernel_memory_raw arm_mmu;
  arch_find_in_kernel_memory := λ _, arm_find_in_kernel_memory;
  kernel_base := λ _, arm_kernel_base;
  arch_register_by_name := λ _, arm_register_by_name;
  arch_instruction_pointer := λ _, arm_instruction_pointer;
  arch_stack_pointer := λ _, arm_stack_pointer;
  arch_base_pointer := λ _, arm_base_pointer;
  arch_pgd := λ _, arm_pgd;
  arch_kernel_per_cpu := λ _, arm_kernel_per_cpu;
|}.
End arm.

(** ** The architecture known at run time *)

Section assume.
Context {A : Type} `{ArchTypes A}.

(** [AssumeX86_64]: the vCPUs of another architecture, read as x86_64 ones. *)
Definition assume_x86 (vcpus : RawVcpus A) : RawVcpus X86_64 := {|
  arch := X86_64_;
  vcpus_count := vcpus_count vcpus;
  registers := λ vcpu,
    let? regs := registers vcpus vcpu in
    match rt_registers regs with RegsX86_64 regs => Ok regs | _ => Err BadArchitecture end;
  special_registers := λ vcpu,
    let? regs := special_registers vcpus vcpu in
    match rt_special_registers regs with SpecialX86_64 regs => Ok regs | _ => Err BadArchitecture end;
  other_registers := λ vcpu,
    let? regs := other_registers vcpus vcpu in
    match rt_other_registers regs with OtherX86_64 regs => Ok regs | _ => Err BadArchitecture end;
|}.

(** [AssumeAarch64] *)
Definition assume_arm (vcpus : RawVcpus A) : RawVcpus Aarch64 := {|
  arch := Aarch64_;
  vcpus_count := vcpus_count vcpus;
  registers := λ vcpu,
    let? regs := registers vcpus vcpu in
    match rt_registers regs with RegsAarch64 regs => Ok regs | _ => Err BadArchitecture end;
  special_registers := λ vcpu,
    let? regs := special_registers vcpus vcpu in
    match rt_special_registers regs with SpecialAarch64 regs => Ok regs | _ => Err BadArchitecture end;
  other_registers := λ vcpu,
    let? regs := other_registers vcpus vcpu in
    match rt_other_registers regs with OtherAarch64 regs => Ok regs | _ => Err BadArchitecture end;
|}.
End assume.

Section runtime.
Context {bm : Build}.

(** [dispatch!] without vCPUs, and with vCPUs seen through [Assume*]. *)
Definition dispatch {B} (self : RtArch) (on_x86 : X86_64 → B) (on_arm : Aarch64 → B) : B :=
  match self with RtX86_64 arch => on_x86 arch | RtAarch64 arch => on_arm arch end.

Definition dispatch_vcpus {B} (self : RtArch) (vcpus : RawVcpus RtArch)
    (on_x86 : X86_64 → RawVcpus X86_64 → B) (on_arm : Aarch64 → RawVcpus Aarch64 → B) : B :=
  match self with
  | RtX86_64 arch => on_x86 arch (assume_x86 vcpus)
  | RtAarch64 arch => on_arm arch (assume_arm vcpus)
  end.

#[export] Instance rt_architecture : Architecture RtArch := {|
  into_runtime := id;
  arch_endianness := λ self, dispatch self arch_endianness arch_endianness;
  arch_virtual_to_physical := λ self memory mmu_addr addr,
    dispatch self (λ arch, arch_virtual_to_physical arch memory mmu_addr addr)
                  (λ arch, arch_virtual_to_physical arch memory mmu_addr addr);
  arch_find_kernel_pgd := λ self memory vcpus use_per_cpu additional,
    dispatch_vcpus self (raw_vcpus vcpus)
      (λ arch vcpus, arch_find_kernel_pgd arch memory (default_vcpus vcpus) use_per_cpu additional)
      (λ arch vcpus, arch_find_kernel_pgd arch memory (default_vcpus vcpus) use_per_cpu additional);
  arch_find_in_kernel_memory_raw := λ self memory mmu_addr base finder,
    dispatch self (λ arch, arch_find_in_kernel_memory_raw arch memory mmu_addr base finder)
                  (λ arch, arch_find_in_kernel_memory_raw arch memory mmu_addr base finder);
  arch_find_in_kernel_memory := λ self new_finder memory mmu_addr needle,
    dispatch self (λ arch, arch_find_in_kernel_memory arch new_finder memory mmu_addr needle)
                  (λ arch, arch_find_in_kernel_memory arch new_finder memory mmu_addr needle);
  kernel_base := λ self, dispatch self kernel_base kernel_base;
  arch_register_by_name := λ self vcpus vcpu name,
    dispatch_vcpus self vcpus (λ arch vcpus, arch_register_by_name arch vcpus vcpu name)
                              (λ arch vcpus, arch_register_by_name arch vcpus vcpu name);
  arch_instruction_pointer := λ self vcpus vcpu,
    dispatch_vcpus self vcpus (λ arch vcpus, arch_instruction_pointer arch vcpus vcpu)
                              (λ arch vcpus, arch_instruction_pointer arch vcpus vcpu);
  arch_stack_pointer := λ self vcpus vcpu,
    dispatch_vcpus self vcpus (λ arch vcpus, arch_stack_pointer arch vcpus vcpu)
                              (λ arch vcpus, arch_stack_pointer arch vcpus vcpu);
  arch_base_pointer := λ self vcpus vcpu,
    dispatch_vcpus self vcpus (λ arch vcpus, arch_base_pointer arch vcpus vcpu)
                              (λ arch vcpus, arch_base_pointer arch vcpus vcpu);
  arch_pgd := λ self vcpus vcpu,
    dispatch_vcpus self vcpus (λ arch vcpus, arch_pgd arch vcpus vcpu)
                              (λ arch vcpus, arch_pgd arch vcpus vcpu);
  arch_kernel_per_cpu := λ self vcpus vcpu,
    dispatch_vcpus self vcpus (λ arch vcpus, arch_kernel_per_cpu arch vcpus vcpu)
                              (λ arch vcpus, arch_kernel_per_cpu arch vcpus vcpu);
|}.
End runtime.
