(* ===== verification/Pages.v ===== *)
(** * Reads of virtual memory, page by page ([vminer-core/src/lib.rs])

    [read_virtual_memory] cuts a read of any length into reads that stay in one
    page; [try_read_virtual_memory] skips the pages that are not mapped. *)

From S2P Require Import Prelude Rust Layout Addr Error Mem MemSpec.

Section read.
Context {E : Type}.
Variable read_memory : Z → MutRes bytes E unit.

(** The loop; [fuel] bounds the number of pages. *)
Fixpoint read_pages (fuel : nat) (addr next_page : Z) : MutRes bytes E unit := λ buf,
  match fuel with
  | O => (NoFuel, buf)
  | S fuel =>
      let next_page := wrapping_add next_page 0x1000 in
      let diff := as_u64 (va_sub next_page addr) in
      if Z.of_nat (length buf) <=? diff then read_memory addr buf
      else
        let start := take (Z.to_nat diff) buf in
        let end_ := drop (Z.to_nat diff) buf in
        match read_memory addr start with
        | (Ok _, start) =>
            let (r, end_) := read_pages fuel next_page next_page end_ in (r, start ++ end_)
        | (Err e, start) => (Err e, start ++ end_)
        | (Panic, start) => (Panic, start ++ end_)
        | (NoFuel, start) => (NoFuel, start ++ end_)
        end
  end.

Definition read_virtual_memory (addr : Z) : MutRes bytes E unit := λ buf,
  read_pages (S (length buf)) addr (Z.land addr (not_u64 0xfff)) buf.
End read.

(** The closure that turns an unmapped page into a success. *)
Definition skip_invalid (read_memory : Z → MutRes bytes TranslationError unit) (addr : Z)
  : MutRes bytes MemoryAccessError unit := λ buf,
  match read_memory addr buf with
  | (Ok _, buf) => (Ok tt, buf)
  | (Err (TransInvalid _), buf) => (Ok tt, buf)
  | (Err (TransMemory err), buf) => (Err err, buf)
  | (Panic, buf) => (Panic, buf)
  | (NoFuel, buf) => (NoFuel, buf)
  end.

Definition try_read_virtual_memory (addr : Z)
    (read_memory : Z → MutRes bytes TranslationError unit) : MutRes bytes MemoryAccessError unit :=
  read_virtual_memory (skip_invalid read_memory) addr.

(** ** Facts *)

Definition in_page (addr : Z) (n : nat) : Prop := addr mod 2 ^ 12 + Z.of_nat n <= 2 ^ 12.

(** The distance to the next page. *)
Definition to_next (addr : Z) : Z := 2 ^ 12 - addr mod 2 ^ 12.

Lemma page_base addr : is_u64 addr → Z.land addr (not_u64 0xfff) = addr - addr mod 2 ^ 12.
Proof. intros. apply (land_not_mask addr 12); [done|lia]. Qed.

(** The step of the loop: from an address of a page, [next_page] is the base of
    the next one, at the end of the address space included. *)
Lemma page_diff addr :
  is_u64 addr →
  as_u64 (va_sub (wrapping_add (addr - addr mod 2 ^ 12) 0x1000) addr) = to_next addr.
Proof.
  unfold is_u64, as_u64, va_sub, as_i64, wrapping_sub, wrapping_add, wrap_u64, to_next. intros. lia.
Qed.

Lemma next_page_base addr :
  is_u64 addr → let n := wrapping_add (addr - addr mod 2 ^ 12) 0x1000 in
  is_u64 n ∧ n mod 2 ^ 12 = 0 ∧ n = wrap_u64 (addr + to_next addr).
Proof.
  unfold is_u64, wrapping_add, wrap_u64, to_next. intros. cbv zeta. split_and!; [lia..| |].
  - assert (Hd : (2 ^ 12 | 2 ^ 64)) by (exists (2 ^ 52); lia).
    rewrite Z.mod_mod_divide by done. lia.
  - f_equal. lia.
Qed.

Lemma to_next_range addr : 0 < to_next addr <= 2 ^ 12.
Proof. unfold to_next. lia. Qed.

(** What the read does, without the loop variables: it follows the pages. *)
Section spec.
Context {E : Type}.
Variable read_memory : Z → MutRes bytes E unit.

Lemma read_pages_unfold fuel addr buf :
  is_u64 addr →
  read_pages read_memory (S fuel) addr (addr - addr mod 2 ^ 12) buf =
  if Z.of_nat (length buf) <=? to_next addr then read_memory addr buf
  else
    let n := Z.to_nat (to_next addr) in
    let addr' := wrap_u64 (addr + to_next addr) in
    match read_memory addr (take n buf) with
    | (Ok _, start) =>
        let (r, end_) := read_pages read_memory fuel addr' (addr' - addr' mod 2 ^ 12) (drop n buf) in
        (r, start ++ end_)
    | (Err e, start) => (Err e, start ++ drop n buf)
    | (Panic, start) => (Panic, start ++ drop n buf)
    | (NoFuel, start) => (NoFuel, start ++ drop n buf)
    end.
Proof.
  intros Ha. cbn [read_pages]. rewrite page_diff by done.
  destruct (next_page_base addr Ha) as (_ & Hm & Hn). cbv zeta in *.
  rewrite <- Hn, Hm, Z.sub_0_r. done.
Qed.

End spec.

Lemma in_page_take addr (buf : bytes) :
  is_u64 addr → to_next addr < Z.of_nat (length buf) →
  let n := Z.to_nat (to_next addr) in
  length (take n buf) = n ∧ (0 < length (take n buf))%nat ∧ in_page addr (length (take n buf)).
Proof.
  intros Ha Hl n. pose proof (to_next_range addr). unfold in_page.
  assert (length (take n buf) = n) as -> by (rewrite length_take; lia).
  unfold n, to_next in *. lia.
Qed.

(** ** Memory as a byte for each address

    [mapped] says which pages are mapped. *)

Section bytewise.
Variable mem : Z → byte.
Variable mapped : Z → bool.

Definition page_of (addr : Z) : Z := wrap_u64 addr / 2 ^ 12.

Definition bytes_at (addr : Z) (n : nat) : bytes :=
  (λ i : nat, mem (wrap_u64 (addr + Z.of_nat i))) <$> seq 0 n.

(** How many of the [n] bytes at [addr] come before the first unmapped page. *)
Fixpoint mapped_prefix (addr : Z) (n : nat) : nat :=
  match n with
  | O => O
  | S n => if mapped (page_of addr) then S (mapped_prefix (addr + 1) n) else O
  end.

(** The buffer with the bytes of the mapped pages put in it. *)
Fixpoint overlay (addr : Z) (buf : bytes) : bytes :=
  match buf with
  | [] => []
  | b :: buf => (if mapped (page_of addr) then mem (wrap_u64 addr) else b) :: overlay (addr + 1) buf
  end.

(** A reader of non-empty ranges inside a page; [unmapped] is its error, and
    leaves the buffer as it was. *)
Definition reads_pages {E} (read_memory : Z → MutRes bytes E unit) (unmapped : Z → E) : Prop :=
  ∀ addr buf, is_u64 addr → (0 < length buf)%nat → in_page addr (length buf) →
    read_memory addr buf =
      if mapped (page_of addr) then (Ok tt, bytes_at addr (length buf))
      else (Err (unmapped (page_of addr)), buf).

Lemma page_of_in_page addr i :
  is_u64 addr → 0 <= i < to_next addr → page_of (addr + i) = page_of addr.
Proof. unfold is_u64, page_of, wrap_u64, to_next. intros. lia. Qed.

Lemma page_of_wrap addr : page_of (wrap_u64 addr) = page_of addr.
Proof. unfold page_of, wrap_u64. by rewrite Z.mod_mod by lia. Qed.

Lemma wrap_add addr i : wrap_u64 (wrap_u64 addr + i) = wrap_u64 (addr + i).
Proof. unfold wrap_u64. by rewrite Zplus_mod_idemp_l. Qed.

Lemma bytes_at_app addr n m :
  bytes_at addr (n + m) = bytes_at addr n ++ bytes_at (addr + Z.of_nat n) m.
Proof.
  unfold bytes_at. rewrite seq_app, fmap_app. f_equal.
  replace (0 + n)%nat with (n + 0)%nat by lia. rewrite <- fmap_add_seq, <- list_fmap_compose.
  apply list_fmap_ext. intros i x _. cbn. do 2 f_equal. lia.
Qed.

Lemma bytes_at_length addr n : length (bytes_at addr n) = n.
Proof. unfold bytes_at. by rewrite length_fmap, length_seq. Qed.

Lemma bytes_at_wrap addr n : bytes_at (wrap_u64 addr) n = bytes_at addr n.
Proof. unfold bytes_at. apply list_fmap_ext. intros. cbn. by rewrite wrap_add. Qed.

Lemma mapped_prefix_wrap addr n : mapped_prefix (wrap_u64 addr) n = mapped_prefix addr n.
Proof.
  revert addr. induction n as [|n IH]; intros addr; cbn; [done|]. rewrite page_of_wrap.
  rewrite <- IH, wrap_add, IH. done.
Qed.

Lemma overlay_wrap addr buf : overlay (wrap_u64 addr) buf = overlay addr buf.
Proof.
  revert addr. induction buf as [|b buf IH]; intros addr; cbn; [done|]. rewrite page_of_wrap.
  pose proof (wrap_add addr 0) as Hw. rewrite !Z.add_0_r in Hw. rewrite Hw.
  rewrite <- IH, wrap_add, IH. done.
Qed.

(** Inside a page these are all-or-nothing. *)
Lemma mapped_prefix_page addr n m :
  is_u64 addr → Z.of_nat n <= to_next addr → mapped (page_of addr) = true →
  mapped_prefix addr (n + m) = (n + mapped_prefix (addr + Z.of_nat n) m)%nat.
Proof.
  intros Ha Hn Hm.
  assert (H : ∀ k j, (j + k = n)%nat →
    mapped_prefix (addr + Z.of_nat j) (k + m) = (k + mapped_prefix (addr + Z.of_nat n) m)%nat).
  { induction k as [|k IH]; intros j Hj; [by replace j with n by lia|].
    cbn [Nat.add mapped_prefix]. rewrite page_of_in_page, Hm by (done || lia). f_equal.
    rewrite <- (IH (S j)) by lia. f_equal. lia. }
  specialize (H n 0%nat). rewrite Z.add_0_r in H. apply H. lia.
Qed.

Lemma mapped_prefix_none addr n : mapped (page_of addr) = false → mapped_prefix addr n = 0%nat.
Proof. intros H. destruct n; cbn; [done|]. by rewrite H. Qed.

Lemma mapped_prefix_le addr n : (mapped_prefix addr n <= n)%nat.
Proof. revert addr. induction n as [|n IH]; intros; cbn; [lia|]. case_match; [|lia]. specialize (IH (addr + 1)). lia. Qed.

Lemma overlay_app addr b1 b2 :
  overlay addr (b1 ++ b2) = overlay addr b1 ++ overlay (addr + Z.of_nat (length b1)) b2.
Proof.
  revert addr. induction b1 as [|b b1 IH]; intros addr; cbn [app overlay length].
  - by rewrite Z.add_0_r.
  - rewrite IH. do 2 f_equal. f_equal. lia.
Qed.

Lemma overlay_page addr buf :
  is_u64 addr → Z.of_nat (length buf) <= to_next addr →
  overlay addr buf = if mapped (page_of addr) then bytes_at addr (length buf) else buf.
Proof.
  intros Ha Hn.
  assert (H : ∀ l j, (j + length l = length buf)%nat →
    overlay (addr + Z.of_nat j) l =
    if mapped (page_of addr) then bytes_at (addr + Z.of_nat j) (length l) else l).
  { induction l as [|b l IH]; intros j Hj; cbn [overlay length] in *; [by case_match|].
    rewrite page_of_in_page by (done || lia).
    replace (addr + Z.of_nat j + 1) with (addr + Z.of_nat (S j)) by lia. rewrite (IH (S j)) by lia.
    destruct (mapped _); [|done]. rewrite (bytes_at_app _ 1). cbn.
    rewrite Z.add_0_r. do 2 f_equal. lia. }
  specialize (H buf 0%nat). rewrite Z.add_0_r in H. by apply H.
Qed.

Lemma read_pages_bytes {E} (rm : Z → MutRes bytes E unit) unmapped fuel addr buf :
  reads_pages rm unmapped → is_u64 addr → (0 < length buf < fuel)%nat →
  let k := mapped_prefix addr (length buf) in
  read_pages rm fuel addr (addr - addr mod 2 ^ 12) buf =
  (if (k =? length buf)%nat then Ok tt else Err (unmapped (page_of (addr + Z.of_nat k))),
   bytes_at addr k ++ drop k buf).
Proof.
  intros Hrm. revert addr buf. induction fuel as [|fuel IH]; intros addr buf Ha Hl k; [lia|].
  rewrite read_pages_unfold by done. pose proof (to_next_range addr) as Ht.
  assert (Hbad : mapped (page_of addr) = false → k = 0%nat) by apply mapped_prefix_none.
  destruct (Z.leb_spec (Z.of_nat (length buf)) (to_next addr)) as [Hle|Hgt].
  - rewrite Hrm; [|done|lia|unfold in_page, to_next in *; lia].
    destruct (mapped (page_of addr)) eqn:Hm.
    + assert (Hk : k = length buf).
      { unfold k. replace (length buf) with (length buf + 0)%nat at 1 by lia.
        rewrite mapped_prefix_page by done. cbn. lia. }
      rewrite Hk, Nat.eqb_refl, drop_all, app_nil_r. done.
    + rewrite Hbad by done. replace (_ =? _)%nat with false by lia. by rewrite Z.add_0_r.
  - destruct (in_page_take addr buf Ha Hgt) as (Hn & H0 & Hp). set (n := Z.to_nat (to_next addr)) in *.
    cbv zeta. rewrite Hrm by (done || lia). rewrite Hn.
    destruct (mapped (page_of addr)) eqn:Hm.
    + assert (Hd : length (drop n buf) = (length buf - n)%nat) by apply length_drop.
      rewrite (IH (wrap_u64 (addr + to_next addr)) (drop n buf)); [|apply wrap_u64_range|lia].
      rewrite mapped_prefix_wrap, bytes_at_wrap.
      assert (Hk : k = (n + mapped_prefix (addr + to_next addr) (length (drop n buf)))%nat).
      { unfold k. replace (length buf) with (n + length (drop n buf))%nat by lia.
        rewrite mapped_prefix_page by (done || lia). f_equal. f_equal. lia. }
      clearbody k. subst k.
      set (k' := mapped_prefix (addr + to_next addr) _).
      f_equal.
      * destruct (Nat.eqb_spec k' (length (drop n buf))), (Nat.eqb_spec (n + k') (length buf)); [done|lia|lia|].
        do 2 f_equal. rewrite <- (page_of_wrap (wrap_u64 _ + _)), wrap_add, page_of_wrap. f_equal. lia.
      * rewrite bytes_at_app, drop_drop, app_assoc. do 3 f_equal. lia.
    + rewrite Hbad by done. replace (_ =? _)%nat with false by lia.
      rewrite Z.add_0_r, take_drop. done.
Qed.

Lemma read_pages_overlay {E} (rm : Z → MutRes bytes E unit) fuel addr buf :
  (∀ addr buf, is_u64 addr → (0 < length buf)%nat → in_page addr (length buf) →
     rm addr buf = (Ok tt, overlay addr buf)) →
  is_u64 addr → (0 < length buf < fuel)%nat →
  read_pages rm fuel addr (addr - addr mod 2 ^ 12) buf = (Ok tt, overlay addr buf).
Proof.
  intros Hrm. revert addr buf. induction fuel as [|fuel IH]; intros addr buf Ha Hl; [lia|].
  rewrite read_pages_unfold by done. pose proof (to_next_range addr) as Ht.
  destruct (Z.leb_spec (Z.of_nat (length buf)) (to_next addr)) as [Hle|Hgt].
  - apply Hrm; [done|lia|unfold in_page, to_next in *; lia].
  - destruct (in_page_take addr buf Ha Hgt) as (Hn & H0 & Hp). set (n := Z.to_nat (to_next addr)) in *.
    cbv zeta. rewrite Hrm by done. pose proof (length_drop buf n).
    rewrite IH; [|apply wrap_u64_range|lia]. rewrite overlay_wrap.
    rewrite <- (take_drop n buf) at 3. rewrite overlay_app, Hn. do 3 f_equal. lia.
Qed.
End bytewise.

(** ** Properties *)

(** C3. Reading a range through a reader of single pages gives the bytes of the
    range, one by one, wrapping around at the end of the address space; the
    first unmapped page stops it with that page's error, after the bytes that
    come before it were written, and the rest of the buffer is untouched. *)
Theorem read_virtual_memory_bytes {E} mem mapped (rm : Z → MutRes bytes E unit) unmapped addr buf :
  reads_pages mem mapped rm unmapped → is_u64 addr → (0 < length buf)%nat →
  let k := mapped_prefix mapped addr (length buf) in
  read_virtual_memory rm addr buf =
  (if (k =? length buf)%nat then Ok tt else Err (unmapped (page_of (addr + Z.of_nat k))),
   bytes_at mem addr k ++ drop k buf).
Proof.
  intros Hrm Ha Hl. unfold read_virtual_memory. rewrite page_base by done.
  apply read_pages_bytes; [done|done|lia].
Qed.

(** C4. [try_read_virtual_memory] never fails because of an unmapped page: it
    puts the bytes of the mapped pages in the buffer and leaves the others as
    they were. *)
Theorem try_read_virtual_memory_overlay mem mapped rm entry addr buf :
  reads_pages mem mapped rm (λ page, TransInvalid (entry page)) → is_u64 addr → (0 < length buf)%nat →
  try_read_virtual_memory addr rm buf = (Ok tt, overlay mem mapped addr buf).
Proof.
  intros Hrm Ha Hl. unfold try_read_virtual_memory, read_virtual_memory. rewrite page_base by done.
  apply read_pages_overlay; [|done|lia].
  intros a b Ha' Hb Hp. unfold skip_invalid. rewrite Hrm by done.
  rewrite overlay_page; [|done|unfold in_page, to_next in *; lia]. by destruct (mapped _).
Qed.

Lemma read_pages_local {E} (rm1 rm2 : Z → MutRes bytes E unit) fuel addr buf :
  (∀ a b, is_u64 a → in_page a (length b) → rm1 a b = rm2 a b) →
  is_u64 addr → (length buf < fuel)%nat →
  read_pages rm1 fuel addr (addr - addr mod 2 ^ 12) buf =
  read_pages rm2 fuel addr (addr - addr mod 2 ^ 12) buf ∧
  ((∀ a b, is_u64 a → in_page a (length b) → (rm1 a b).1 ≠ NoFuel) →
   (read_pages rm1 fuel addr (addr - addr mod 2 ^ 12) buf).1 ≠ NoFuel).
Proof.
  intros Hrm. revert addr buf. induction fuel as [|fuel IH]; intros addr buf Ha Hl; [lia|].
  rewrite !read_pages_unfold by done. pose proof (to_next_range addr) as Ht.
  destruct (Z.leb_spec (Z.of_nat (length buf)) (to_next addr)) as [Hle|Hgt].
  { assert (in_page addr (length buf)) by (unfold in_page, to_next in *; lia). split; auto. }
  destruct (in_page_take addr buf Ha Hgt) as (Hn & H0 & Hp). set (n := Z.to_nat (to_next addr)) in *.
  cbv zeta. rewrite <- Hrm by done. pose proof (length_drop buf n) as Hd.
  destruct (IH (wrap_u64 (addr + to_next addr)) (drop n buf)) as [Heq Hf]; [apply wrap_u64_range|lia|].
  rewrite <- Heq. split; [done|]. intros Hnf. specialize (Hf Hnf).
  pose proof (Hnf addr (take n buf) Ha Hp). destruct (rm1 addr (take n buf)) as [[] start]; try done.
  by destruct (read_pages rm1 _ _ _ _).
Qed.

(** C7. Whatever the reader does, it is only asked for ranges inside one page,
    and the loop over the pages ends. *)
Theorem read_virtual_memory_in_page {E} (rm1 rm2 : Z → MutRes bytes E unit) addr buf :
  (∀ a b, is_u64 a → in_page a (length b) → rm1 a b = rm2 a b) →
  is_u64 addr →
  read_virtual_memory rm1 addr buf = read_virtual_memory rm2 addr buf ∧
  ((∀ a b, is_u64 a → in_page a (length b) → (rm1 a b).1 ≠ NoFuel) →
   (read_virtual_memory rm1 addr buf).1 ≠ NoFuel).
Proof.
  intros Hrm Ha. unfold read_virtual_memory. rewrite page_base by done.
  apply read_pages_local; [done|done|lia].
Qed.

(** ** The properties at concrete inputs

    Only the last page of the address space and the one after it, at 0, are
    looked at: the first is mapped. *)

Definition sample_mem (addr : Z) : byte := zb addr.
Definition sample_mapped (page : Z) : bool := page =? 2 ^ 52 - 1.
Definition sample_reader (addr : Z) : MutRes bytes TranslationError unit := λ buf,
  if sample_mapped (page_of addr) then (Ok tt, bytes_at sample_mem addr (length buf))
  else (Err (TransInvalid (page_of addr)), buf).

Lemma read_virtual_memory_bytes_witness :
  read_virtual_memory sample_reader (2 ^ 64 - 2) [zb 7; zb 7; zb 7; zb 7] =
  (Err (TransInvalid 0), [zb 254; zb 255; zb 7; zb 7]).
Proof.
  etransitivity;
    [apply (read_virtual_memory_bytes sample_mem sample_mapped sample_reader TransInvalid)|].
  - by intros a b _ _ _.
  - by split.
  - cbn. lia.
  - vm_compute. reflexivity.
Defined.

Lemma try_read_virtual_memory_overlay_witness :
  try_read_virtual_memory (2 ^ 64 - 2) sample_reader [zb 7; zb 7; zb 7; zb 7] =
  (Ok tt, [zb 254; zb 255; zb 7; zb 7]).
Proof.
  etransitivity;
    [apply (try_read_virtual_memory_overlay sample_mem sample_mapped sample_reader id)|].
  - by intros a b _ _ _.
  - by split.
  - cbn. lia.
  - vm_compute. reflexivity.
Defined.

Lemma read_virtual_memory_in_page_witness :
  (read_virtual_memory sample_reader 0 [zb 7]).1 ≠ NoFuel.
Proof.
  apply (read_virtual_memory_in_page sample_reader sample_reader 0 [zb 7]).
  - done.
  - by split.
  - intros a b _ _. unfold sample_reader. by destruct (sample_mapped _).
Defined.
