(* ===== verification/Backend.v ===== *)
(** * Backends ([vminer-core/src/backend.rs])

    A backend is a memory and virtual CPUs with methods that have default
    bodies ([default_backend]); [Arc] and [RuntimeBackend] forward them. *)

From S2P Require Import Prelude Rust Layout Addr Error Mem Text Registers Mmu Arch.

Record Backend (A : Type) `{ArchTypes A} := {
  bk_memory : Memory;
  bk_vcpus : HasVcpus A;
  bk_read_virtual_memory : Z → Z → MutRes bytes TranslationError unit;
  bk_virtual_to_physical : Z → Z → TranslationResult Z;
  bk_find_kernel_pgd : bool → list Z → VmResult Z;
  bk_find_in_kernel_memory : (bytes → Finder) → Z → bytes → MemoryAccessResult (option Z);
}.
Arguments bk_memory {A _}. Arguments bk_vcpus {A _}. Arguments bk_read_virtual_memory {A _}.
Arguments bk_virtual_to_physical {A _}. Arguments bk_find_kernel_pgd {A _}.
Arguments bk_find_in_kernel_memory {A _}.

Section backend.
Context {bm : Build}.
Context {A : Type} `{Architecture A}.

Definition bk_arch (self : Backend A) : A := arch (raw_vcpus (bk_vcpus self)).

(** ** Default methods *)

Definition default_read_virtual_memory (virtual_to_physical : Z → Z → TranslationResult Z)
    (memory : Memory) (mmu_addr addr : Z) : MutRes bytes TranslationError unit :=
  let! addr := mut_lift (virtual_to_physical mmu_addr addr) in
  mut_map_err trans_of_mem (read_physical memory addr).

Definition default_backend (memory : Memory) (vcpus : HasVcpus A) : Backend A :=
  let arch := arch (raw_vcpus vcpus) in
  let virtual_to_physical := arch_virtual_to_physical arch memory in {|
    bk_memory := memory;
    bk_vcpus := vcpus;
    bk_read_virtual_memory := default_read_virtual_memory virtual_to_physical memory;
    bk_virtual_to_physical := virtual_to_physical;
    bk_find_kernel_pgd := λ use_per_cpu additional,
      let? found := arch_find_kernel_pgd arch memory vcpus use_per_cpu additional in
      ok_or found (vm_of_str "could not find kernel page directory"%string);
    bk_find_in_kernel_memory := λ new_finder mmu_addr needle,
      arch_find_in_kernel_memory arch new_finder memory mmu_addr needle;
  |}.

Definition read_value_virtual {T} (P : Pod T) (self : Backend A) (mmu_addr addr : Z)
  : TranslationResult T :=
  let (r, value) := bk_read_virtual_memory self mmu_addr addr (bytes_of P (zeroed P)) in
  let? _ := r in Ok (pod_read P value).

(** ** [Arc<B>] *)

Definition arc_backend (self : Backend A) : Backend A := {|
  bk_memory := arc_memory (bk_memory self);
  bk_vcpus := arc_vcpus (bk_vcpus self);
  bk_read_virtual_memory := bk_read_virtual_memory self;
  bk_virtual_to_physical := bk_virtual_to_physical self;
  bk_find_kernel_pgd := bk_find_kernel_pgd self;
  bk_find_in_kernel_memory := bk_find_in_kernel_memory self;
|}.

(** ** [RuntimeBackend] *)

Definition runtime_memory (m : Memory) : Memory := {|
  memory_mappings := memory_mappings m;
  is_valid := is_valid m;
  read_physical := read_physical m;
  search := search m;
  dump := λ _ _, default_dump (read_physical m) (memory_mappings m);
|}.

Definition runtime_raw_vcpus (v : RawVcpus A) : RawVcpus RtArch := {|
  arch := into_runtime (arch v);
  vcpus_count := vcpus_count v;
  registers := λ vcpu, (res_map rt_registers (registers v vcpu) : VcpuResult (Registers RtArch));
  special_registers := λ vcpu,
    (res_map rt_special_registers (special_registers v vcpu) : VcpuResult (SpecialRegisters RtArch));
  other_registers := λ vcpu,
    (res_map rt_other_registers (other_registers v vcpu) : VcpuResult (OtherRegisters RtArch));
|}.

Definition runtime_vcpus (v : HasVcpus A) : HasVcpus RtArch :=
  let self := runtime_raw_vcpus (raw_vcpus v) in {|
    raw_vcpus := self;
    register_by_name := arch_register_by_name (arch self) self;
    instruction_pointer := instruction_pointer v;
    stack_pointer := stack_pointer v;
    base_pointer := base_pointer v;
    pgd := pgd v;
    kernel_per_cpu := kernel_per_cpu v;
  |}.

Definition runtime_backend (self : Backend A) : Backend RtArch := {|
  bk_memory := runtime_memory (bk_memory self);
  bk_vcpus := runtime_vcpus (bk_vcpus self);
  bk_read_virtual_memory := bk_read_virtual_memory self;
  bk_virtual_to_physical := bk_virtual_to_physical self;
  bk_find_kernel_pgd := bk_find_kernel_pgd self;
  bk_find_in_kernel_memory := bk_find_in_kernel_memory self;
|}.

(** ** [KernelSearchIterator] *)

Record KernelSearchIterator := {
  ksi_backend : Backend A;
  ksi_finder : Finder;
  ksi_buffer : bytes;
  ksi_mmu_addr : Z;
  ksi_base : Z;
}.

Definition iter_in_kernel_memory (new_finder : bytes → Finder) (self : Backend A) (mmu_addr : Z)
    (needle : bytes) : KernelSearchIterator := {|
  ksi_backend := self;
  ksi_mmu_addr := mmu_addr;
  ksi_finder := new_finder needle;
  ksi_base := kernel_base (bk_arch self);
  ksi_buffer := replicate (Z.to_nat (Z.shiftl 2 20) + length needle) Byte.x00;
|}.

Definition ksi_set (self : KernelSearchIterator) (base : Z) (buffer : bytes) : KernelSearchIterator := {|
  ksi_backend := ksi_backend self;
  ksi_finder := ksi_finder self;
  ksi_buffer := buffer;
  ksi_mmu_addr := ksi_mmu_addr self;
  ksi_base := base;
|}.

Definition ksi_next (self : KernelSearchIterator)
  : Res Never (option (VmResult Z * KernelSearchIterator)) :=
  let (result, buffer) :=
    arch_find_in_kernel_memory_raw (bk_arch (ksi_backend self)) (ref_memory (bk_memory (ksi_backend self)))
      (ksi_mmu_addr self) (ksi_base self) (ksi_finder self) (ksi_buffer self) in
  match result with
  | Ok None => Ok None
  | Ok (Some addr) =>
      let? base := va_add_u64 addr 1 in Ok (Some (Ok addr, ksi_set self base buffer))
  | Err err =>
      let? base := va_add_u64 (ksi_base self) 1 in
      Ok (Some (Err (vm_of_mem err), ksi_set self base buffer))
  | Panic => Panic
  | NoFuel => NoFuel
  end.

(** The first [n] items. *)
Fixpoint ksi_take (n : nat) (self : KernelSearchIterator) : Res Never (list (VmResult Z)) :=
  match n with
  | O => Ok []
  | S n =>
      let? item := ksi_next self in
      match item with
      | None => Ok []
      | Some (item, self) => let? items := ksi_take n self in Ok (item :: items)
      end
  end.
End backend.
Arguments KernelSearchIterator A {_}.
