(* ===== verification/ArchSpec.v ===== *)
(** * Properties of architectures and backends

    A backend wrapped in [RuntimeBackend] answers like the backend itself; the
    guess of the kernel page directory returns the first candidate that
    translates all the test addresses; the search iterator goes upwards. *)

From S2P Require Import Prelude Rust Layout Addr Error Mem MemSpec Text Registers Mmu MmuSpec Arch Backend.

Section spec.
Context {bm : Build}.

(** ** The architecture known at run time *)

(** What an architecture promises to the code that only knows
    [runtime::Architecture]: its methods on a wrapped vCPU are its own. *)
Class RuntimeLaws (A : Type) `{Architecture A} : Prop := {
  rt_register_by_name : ∀ (v : RawVcpus A) vcpu name,
    arch_register_by_name (into_runtime (arch v)) (runtime_raw_vcpus v) vcpu name =
    arch_register_by_name (arch v) v vcpu name;
  rt_instruction_pointer : ∀ (v : RawVcpus A) vcpu,
    arch_instruction_pointer (into_runtime (arch v)) (runtime_raw_vcpus v) vcpu =
    arch_instruction_pointer (arch v) v vcpu;
  rt_stack_pointer : ∀ (v : RawVcpus A) vcpu,
    arch_stack_pointer (into_runtime (arch v)) (runtime_raw_vcpus v) vcpu =
    arch_stack_pointer (arch v) v vcpu;
  rt_base_pointer : ∀ (v : RawVcpus A) vcpu,
    arch_base_pointer (into_runtime (arch v)) (runtime_raw_vcpus v) vcpu =
    arch_base_pointer (arch v) v vcpu;
  rt_pgd : ∀ (v : RawVcpus A) vcpu,
    arch_pgd (into_runtime (arch v)) (runtime_raw_vcpus v) vcpu = arch_pgd (arch v) v vcpu;
  rt_kernel_per_cpu : ∀ (v : RawVcpus A) vcpu,
    arch_kernel_per_cpu (into_runtime (arch v)) (runtime_raw_vcpus v) vcpu =
    arch_kernel_per_cpu (arch v) v vcpu;
  rt_virtual_to_physical : ∀ (a : A) memory mmu_addr addr,
    arch_virtual_to_physical (into_runtime a) memory mmu_addr addr =
    arch_virtual_to_physical a memory mmu_addr addr;
  rt_find_in_kernel_memory : ∀ (a : A) new_finder memory mmu_addr needle,
    arch_find_in_kernel_memory (into_runtime a) new_finder memory mmu_addr needle =
    arch_find_in_kernel_memory a new_finder memory mmu_addr needle;
  rt_kernel_base : ∀ (a : A), kernel_base (into_runtime a) = kernel_base a;
}.

(** Reading a register through the sum type and back. *)
Lemma assume_x86_registers (v : RawVcpus X86_64) vcpu :
  registers (assume_x86 (runtime_raw_vcpus v)) vcpu = registers v vcpu ∧
  special_registers (assume_x86 (runtime_raw_vcpus v)) vcpu = special_registers v vcpu ∧
  other_registers (assume_x86 (runtime_raw_vcpus v)) vcpu = other_registers v vcpu.
Proof.
  cbn. split_and!; [destruct (registers v vcpu)|destruct (special_registers v vcpu)|
    destruct (other_registers v vcpu)]; done.
Qed.

Lemma assume_arm_registers (v : RawVcpus Aarch64) vcpu :
  registers (assume_arm (runtime_raw_vcpus v)) vcpu = registers v vcpu ∧
  special_registers (assume_arm (runtime_raw_vcpus v)) vcpu = special_registers v vcpu ∧
  other_registers (assume_arm (runtime_raw_vcpus v)) vcpu = other_registers v vcpu.
Proof.
  cbn. split_and!; [destruct (registers v vcpu)|destruct (special_registers v vcpu)|
    destruct (other_registers v vcpu)]; done.
Qed.

Ltac runtime_law E v vcpu :=
  intros; cbn -[registers special_registers other_registers assume_x86 assume_arm runtime_raw_vcpus];
  destruct (E v vcpu) as (Hr & Hs & Ho).

#[export] Instance x86_runtime_laws : RuntimeLaws X86_64.
Proof.
  split; [intros v vcpu name|intros v vcpu..|done|done|done];
    destruct (assume_x86_registers v vcpu) as (Hr & Hs & Ho).
  - change (x86_register_by_name (assume_x86 (runtime_raw_vcpus v)) vcpu name = x86_register_by_name v vcpu name).
    unfold x86_register_by_name. by rewrite Hr.
  - change (x86_instruction_pointer (assume_x86 (runtime_raw_vcpus v)) vcpu = x86_instruction_pointer v vcpu).
    unfold x86_instruction_pointer. by rewrite Hr.
  - change (x86_stack_pointer (assume_x86 (runtime_raw_vcpus v)) vcpu = x86_stack_pointer v vcpu).
    unfold x86_stack_pointer. by rewrite Hr.
  - change (x86_base_pointer (assume_x86 (runtime_raw_vcpus v)) vcpu = x86_base_pointer v vcpu).
    unfold x86_base_pointer. by rewrite Hr.
  - change (x86_pgd (assume_x86 (runtime_raw_vcpus v)) vcpu = x86_pgd v vcpu).
    unfold x86_pgd. by rewrite Hs.
  - change (x86_kernel_per_cpu (assume_x86 (runtime_raw_vcpus v)) vcpu = x86_kernel_per_cpu v vcpu).
    unfold x86_kernel_per_cpu. by rewrite Hs, Ho.
Qed.

#[export] Instance arm_runtime_laws : RuntimeLaws Aarch64.
Proof.
  split; [intros v vcpu name|intros v vcpu..|done|done|done];
    destruct (assume_arm_registers v vcpu) as (Hr & Hs & Ho).
  - change (arm_register_by_name (assume_arm (runtime_raw_vcpus v)) vcpu name = arm_register_by_name v vcpu name).
    unfold arm_register_by_name. by rewrite Hr.
  - change (arm_instruction_pointer (assume_arm (runtime_raw_vcpus v)) vcpu = arm_instruction_pointer v vcpu).
    unfold arm_instruction_pointer. by rewrite Hr.
  - change (arm_stack_pointer (assume_arm (runtime_raw_vcpus v)) vcpu = arm_stack_pointer v vcpu).
    unfold arm_stack_pointer, arm_instruction_pointer. by rewrite Hr, Hs.
  - change (arm_base_pointer (assume_arm (runtime_raw_vcpus v)) vcpu = arm_base_pointer v vcpu).
    unfold arm_base_pointer. by rewrite Hr.
  - change (arm_pgd (assume_arm (runtime_raw_vcpus v)) vcpu = arm_pgd v vcpu).
    unfold arm_pgd, arm_instruction_pointer. by rewrite Hr, Hs.
  - done.
Qed.

(** ** The kernel page directory *)

(** The addresses can all be translated with the directory [p], to valid
    memory. *)
Definition pgd_translates (v2p : Z → Z → TranslationResult Z) (memory : Memory)
    (addresses : list Z) (p : Z) : Prop :=
  ∀ a, a ∈ addresses → ∃ pa, v2p p a = Ok pa ∧ is_valid memory pa 1 = Ok true.

Section test.
Context {A : Type} `{ArchTypes A}.
Variable v2p : A → Memory → Z → Z → TranslationResult Z.

Lemma all_addresses_valid_spec a memory p addresses b :
  all_addresses_valid v2p a memory p addresses = Ok b →
  (b = true ↔ pgd_translates (v2p a memory) memory addresses p).
Proof.
  unfold pgd_translates. revert b. induction addresses as [|t addresses IH]; intros b; cbn [all_addresses_valid].
  - intros [= <-]. split; [|done]. by intros _ a' ?%not_elem_of_nil.
  - destruct (v2p a memory p t) as [pa| | |] eqn:Ht; cbn [res_bind]; [| |done..].
    + destruct (is_valid memory pa 1) as [[]| | |] eqn:Hv; cbn [res_bind]; [| |done..].
      * intros Hb%IH. rewrite Hb. split.
        -- intros Hall x [->|Hx]%elem_of_cons; [by exists pa|by apply Hall].
        -- intros Hall x Hx. apply Hall. by right.
      * intros [= <-]. split; [done|]. intros Hall. destruct (Hall t ltac:(left)) as (pa' & ? & ?). congruence.
    + intros [= <-]. split; [done|]. intros Hall. destruct (Hall t ltac:(left)) as (pa' & ? & ?). congruence.
Qed.

Lemma try_addresses_spec (test : Z → Res Never bool) (P : Z → Prop) addrs r :
  (∀ a b, test a = Ok b → (b = true ↔ P a)) →
  try_addresses test addrs = Ok r →
  match r with
  | Some a => ∃ pre post, addrs = pre ++ a :: post ∧ P a ∧ ∀ x, x ∈ pre → ¬ P x
  | None => ∀ x, x ∈ addrs → ¬ P x
  end.
Proof.
  intros Ht. revert r. induction addrs as [|a addrs IH]; intros r; cbn [try_addresses].
  - intros [= <-] x ?%not_elem_of_nil. done.
  - destruct (test a) as [[]| | |] eqn:Ea; cbn [res_bind]; [| |done..].
    + intros [= <-]. exists [], addrs. split_and!; [done|by apply (Ht a true)|by intros x ?%not_elem_of_nil].
    + assert (Hn : ¬ P a) by (intros Hp; apply (Ht a false) in Hp; done).
      intros Hr%IH. destruct r as [b|].
      * destruct Hr as (pre & post & -> & Hb & Hpre). exists (a :: pre), post.
        split_and!; [done|done|]. intros x [->|Hx]%elem_of_cons; auto.
      * intros x [->|Hx]%elem_of_cons; auto.
Qed.
End test.

Lemma range_step_elem a b n x :
  0 < n → x ∈ range_step a b n ↔ a <= x < b ∧ (x - a) mod n = 0.
Proof.
  intros Hn. unfold range_step. rewrite list_elem_of_fmap. split.
  - intros (i & -> & Hi). rewrite elem_of_seq in Hi.
    replace (a + Z.of_nat i * n - a) with (Z.of_nat i * n) by lia.
    rewrite Z.mod_mul by lia. split; [|done].
    assert (Z.of_nat i < (b - a + n - 1) / n) by lia.
    assert (n * ((b - a + n - 1) / n) <= b - a + n - 1) by (apply Z.mul_div_le; lia). nia.
  - intros [Hx Hm]. exists (Z.to_nat ((x - a) / n)).
    pose proof (Z.div_mod (x - a) n). assert (0 <= (x - a) / n) by (apply Z.div_pos; lia).
    split; [rewrite Z2Nat.id by lia; lia|]. apply elem_of_seq. split; [lia|].
    assert ((x - a) / n < (b - a + n - 1) / n); [|lia].
    apply Z.lt_le_trans with ((x - a) / n + 1); [lia|]. rewrite <- Z.div_add by lia.
    apply Z.div_le_mono; lia.
Qed.

(** The members below one of the range come before it. *)
Lemma range_step_before a b n pre x post y :
  0 < n → range_step a b n = pre ++ x :: post → a <= y < x → (y - a) mod n = 0 → y ∈ pre.
Proof.
  intros Hn Heq Hy Hm.
  assert (Hx : x ∈ range_step a b n) by (rewrite Heq; apply elem_of_app; right; left).
  apply (range_step_elem a b n x Hn) in Hx as [Hx _].
  assert (Hin : y ∈ range_step a b n) by (apply range_step_elem; [done|split; [lia|done]]).
  rewrite Heq, elem_of_app, elem_of_cons in Hin. destruct Hin as [?|[->|Hin]]; [done|lia|].
  exfalso. apply list_elem_of_lookup in Hin as [j Hj].
  assert (Hlx : range_step a b n !! length pre = Some x) by (rewrite Heq; by apply list_lookup_middle).
  assert (Hly : range_step a b n !! (length pre + S j)%nat = Some y)
    by (rewrite Heq, lookup_app_r by lia; by replace (_ - _)%nat with (S j) by lia).
  unfold range_step in Hlx, Hly. rewrite list_lookup_fmap in Hlx, Hly.
  apply fmap_Some in Hlx as (i1 & H1%lookup_seq & ->). apply fmap_Some in Hly as (i2 & H2%lookup_seq & ->).
  nia.
Qed.

Lemma try_range_spec (test : Z → Res Never bool) (P : Z → Prop) a b n r :
  0 < n → (∀ x c, test x = Ok c → (c = true ↔ P x)) →
  try_addresses test (range_step a b n) = Ok r →
  match r with
  | Some p => P p ∧ a <= p < b ∧ (p - a) mod n = 0 ∧
      ∀ q, a <= q < p → (q - a) mod n = 0 → ¬ P q
  | None => ∀ q, a <= q < b → (q - a) mod n = 0 → ¬ P q
  end.
Proof.
  intros Hn Ht H. apply (try_addresses_spec _ P) in H; [|done]. destruct r as [p|].
  - destruct H as (pre & post & Heq & Hp & Hpre). split; [done|].
    assert (Hin : p ∈ range_step a b n) by (rewrite Heq; apply elem_of_app; right; left).
    apply range_step_elem in Hin as [Hin Hm]; [|done].
    split_and!; [lia|lia|done|]. intros q Hq Hqm. apply Hpre. by eapply range_step_before.
  - intros q Hq Hm. by apply H, range_step_elem.
Qed.

Lemma try_all_eq test :
  try_all_addresses test = try_addresses test (range_step 0 (2 ^ 32 - 1) 0x1000).
Proof. unfold try_all_addresses. reflexivity. Qed.

(** The addresses that a candidate must translate. *)
Definition x86_test_addresses (vcpus : HasVcpus X86_64) (use_per_cpu : bool) (additional : list Z)
  : list Z :=
  additional ++
  match other_registers (raw_vcpus vcpus) 0 with Ok regs => [lstar regs] | _ => [] end ++
  if use_per_cpu
  then omap (λ vcpu, match kernel_per_cpu vcpus vcpu with Ok a => a | _ => None end)
            (vi_items (iter_vcpus (raw_vcpus vcpus)))
  else [].

Lemma per_cpu_addresses_spec {A} `{ArchTypes A} (vcpus : HasVcpus A) ids l :
  per_cpu_addresses vcpus ids = Ok l →
  l = omap (λ vcpu, match kernel_per_cpu vcpus vcpu with Ok a => a | _ => None end) ids.
Proof.
  revert l. induction ids as [|vcpu ids IH]; intros l; cbn [per_cpu_addresses]; [by intros [= <-]|].
  cbn [omap list_omap]. destruct (kernel_per_cpu vcpus vcpu) as [[addr|]| | |]; try done; [|by apply IH..].
  intros Hl. inv_ok. subst. f_equal. by apply IH.
Qed.

Definition x86_candidate (vcpus : HasVcpus X86_64) (p : Z) : Prop :=
  ∃ vcpu, 0 <= vcpu < vcpus_count (raw_vcpus vcpus) ∧ pgd vcpus vcpu = Ok p.

(** The first of the vCPUs [ids] whose page directory satisfies [P] has [p]. *)
Definition first_vcpu (vcpus : HasVcpus X86_64) (P : Z → Prop) (ids : list Z) (p : Z) : Prop :=
  ∃ pre vcpu post, ids = pre ++ vcpu :: post ∧ pgd vcpus vcpu = Ok p ∧ P p ∧
    ∀ v, v ∈ pre → ∃ q, pgd vcpus v = Ok q ∧ ¬ P q.

Lemma x86_try_vcpus_spec vcpus test P ids r :
  (∀ a b, test a = Ok b → (b = true ↔ P a)) →
  x86_try_vcpus vcpus test ids = Ok r →
  match r with
  | Some a => first_vcpu vcpus P ids a
  | None => ∀ vcpu a, vcpu ∈ ids → pgd vcpus vcpu = Ok a → ¬ P a
  end.
Proof.
  intros Ht. revert r. induction ids as [|vcpu ids IH]; intros r; cbn [x86_try_vcpus].
  - intros [= <-] vcpu a ?%not_elem_of_nil. done.
  - destruct (pgd vcpus vcpu) as [a| | |] eqn:Ep; cbn [map_err res_bind]; [|done..].
    destruct (test a) as [b| | |] eqn:Ea; cbn [from_never map_err res_bind]; [|by destruct e|done..].
    apply Ht in Ea. destruct b.
    + intros [= <-]. exists [], vcpu, ids. split_and!; [done|done|by apply Ea|]. by intros v ?%not_elem_of_nil.
    + assert (Hn : ¬ P a) by (intros Hp%Ea; done).
      intros Hr%IH. destruct r as [b|].
      * destruct Hr as (pre & v & post & -> & Hv & Hb & Hpre). exists (vcpu :: pre), v, post.
        split_and!; [done|done|done|]. intros x [->|Hx]%elem_of_cons; [by exists a|by apply Hpre].
      * intros v x [->|Hv]%elem_of_cons Hx; [congruence|by eapply Hr].
Qed.

(** The vCPUs before one of a range are the ones with smaller numbers. *)
Lemma seqZ_middle a n pre x post v :
  seqZ a n = pre ++ x :: post → a <= v < x → v ∈ pre.
Proof.
  intros Heq Hv. assert (Hx : seqZ a n !! length pre = Some x)
    by (rewrite Heq; by apply list_lookup_middle).
  apply lookup_seqZ in Hx as [Hx Hlt].
  assert (Hl : seqZ a n !! Z.to_nat (v - a) = Some v) by (apply lookup_seqZ; lia).
  rewrite Heq, lookup_app_l in Hl by lia. by apply list_elem_of_lookup_2 in Hl.
Qed.

(** C11. The guess of the kernel page directory on x86_64: what it returns
    translates the system call entry point and all the other test addresses to
    valid memory, and is the [cr3] of the first vCPU whose [cr3] does so if there
    is one, else the first page below 4 GiB that does; [None] means that no
    candidate does. *)
Theorem x86_find_kernel_pgd_spec memory vcpus use_per_cpu additional r :
  x86_find_kernel_pgd memory vcpus use_per_cpu additional = Ok r →
  let translates := pgd_translates (virtual_to_physical x86_mmu memory) memory
                      (x86_test_addresses vcpus use_per_cpu additional) in
  match r with
  | Some p => translates p ∧
      ((∃ vcpu, 0 <= vcpu < vcpus_count (raw_vcpus vcpus) ∧ pgd vcpus vcpu = Ok p ∧
          ∀ v, 0 <= v < vcpu → ∃ q, pgd vcpus v = Ok q ∧ ¬ translates q) ∨
       (∀ q, x86_candidate vcpus q → ¬ translates q) ∧
       0 <= p < 2 ^ 32 - 1 ∧ p mod 2 ^ 12 = 0 ∧
       ∀ q, 0 <= q < p → q mod 2 ^ 12 = 0 → ¬ translates q)
  | None =>
      (∀ q, x86_candidate vcpus q → ¬ translates q) ∧
      (∀ q, 0 <= q < 2 ^ 32 - 1 → q mod 2 ^ 12 = 0 → ¬ translates q)
  end.
Proof.
  intros H translates. unfold x86_find_kernel_pgd in H. inv_ok.
  unfold make_address_test in Hv0. apply res_bind_ok in Hv0 as (per_cpu & Hper & Htest).
  injection Htest as <-.
  assert (Haddr : (additional ++ v ++ []) ++ per_cpu = x86_test_addresses vcpus use_per_cpu additional).
  { unfold x86_test_addresses. rewrite app_nil_r, <- app_assoc. do 2 f_equal.
    - destruct (other_registers _ 0); inv_ok; by subst.
    - destruct use_per_cpu; [by apply per_cpu_addresses_spec|by injection Hper as <-]. }
  rewrite Haddr in Hv1, H.
  pose proof (all_addresses_valid_spec x86_v2p (arch (raw_vcpus vcpus)) memory) as Ht.
  apply (x86_try_vcpus_spec _ _ translates) in Hv1; [|intros a b; apply Ht].
  assert (Hcand : ∀ vcpu, vcpu ∈ vi_items (iter_vcpus (raw_vcpus vcpus)) ↔
                          0 <= vcpu < vcpus_count (raw_vcpus vcpus)).
  { intros vcpu. unfold vi_items. cbn. rewrite elem_of_seqZ. lia. }
  destruct v1 as [p|].
  - injection H as <-. destruct Hv1 as (pre & vcpu & post & Hids & Hpgd & Hp & Hpre).
    split; [done|]. left. exists vcpu. split_and!; [apply Hcand; rewrite Hids; apply elem_of_app; right; left..|done|].
    intros v' Hv'. apply Hpre. unfold vi_items in Hids. cbn in Hids. by eapply seqZ_middle.
  - assert (Hno : ∀ q, x86_candidate vcpus q → ¬ translates q).
    { intros q (vcpu & Hin & Hq). eapply Hv1; [by apply Hcand|done]. }
    apply from_never_ok in H. rewrite try_all_eq in H. apply (try_range_spec _ translates) in H; [|lia|intros a b; apply Ht].
    destruct r as [p|]; setoid_rewrite Z.sub_0_r in H.
    + destruct H as (Hp & Hin & Hm & Hf). split; [done|right]. split_and!; [done|lia|lia|done|done].
    + split; [done|exact H].
Qed.

(** ** Backends *)

(** The code that only knows [runtime::Architecture] reads the same
    registers, page directory and addresses from a wrapped vCPU as the code that
    knows the architecture: the dispatch and the conversions through the sums of
    registers lose nothing. *)
Theorem runtime_vcpus_agree {A} `{RuntimeLaws A} (v : RawVcpus A) vcpu name :
  let rt := default_vcpus (runtime_raw_vcpus v) in
  let native := default_vcpus v in
  register_by_name rt vcpu name = register_by_name native vcpu name ∧
  instruction_pointer rt vcpu = instruction_pointer native vcpu ∧
  stack_pointer rt vcpu = stack_pointer native vcpu ∧
  base_pointer rt vcpu = base_pointer native vcpu ∧
  pgd rt vcpu = pgd native vcpu ∧
  kernel_per_cpu rt vcpu = kernel_per_cpu native vcpu ∧
  ∀ memory mmu_addr addr,
    bk_virtual_to_physical (default_backend memory rt) mmu_addr addr =
    bk_virtual_to_physical (default_backend memory native) mmu_addr addr.
Proof.
  cbn -[arch_register_by_name arch_instruction_pointer arch_stack_pointer arch_base_pointer
        arch_pgd arch_kernel_per_cpu arch_virtual_to_physical].
  split_and!; [apply rt_register_by_name|apply rt_instruction_pointer|apply rt_stack_pointer
    |apply rt_base_pointer|apply rt_pgd|apply rt_kernel_per_cpu|intros; apply rt_virtual_to_physical].
Qed.

(** An architecture whose translation is described by a MMU. *)
Class MmuLaws (A : Type) `{Architecture A} := {
  arch_mmu : A → MmuDesc;
  arch_v2p_mmu : ∀ a memory mmu_addr addr,
    arch_virtual_to_physical a memory mmu_addr addr = virtual_to_physical (arch_mmu a) memory mmu_addr addr;
  arch_find_mmu : ∀ a memory mmu_addr base finder buf,
    arch_find_in_kernel_memory_raw a memory mmu_addr base finder buf =
    find_in_kernel_memory_raw (arch_mmu a) memory mmu_addr base finder buf;
}.

#[export] Program Instance x86_mmu_laws : MmuLaws X86_64 := {| arch_mmu := λ _, x86_mmu |}.
Solve All Obligations with done.
#[export] Program Instance arm_mmu_laws : MmuLaws Aarch64 := {| arch_mmu := λ _, arm_mmu |}.
Solve All Obligations with done.
#[export] Program Instance rt_mmu_laws : MmuLaws RtArch :=
  {| arch_mmu := λ a, dispatch a (λ _, x86_mmu) (λ _, arm_mmu) |}.
Solve All Obligations with by intros [].

#[export] Instance ref_memory_laws m : MemoryLaws m → MemoryLaws (ref_memory m).
Proof. by intros [???]. Qed.
#[export] Instance ref_sub_reads m : SubReads m → SubReads (ref_memory m).
Proof. done. Qed.
#[export] Instance ref_search_laws m fits : SearchLaws m fits → SearchLaws (ref_memory m) fits.
Proof. by intros [???]. Qed.

(** The addresses among the items. *)
Definition ksi_hits (items : list (VmResult Z)) : list Z :=
  omap (λ item, match item with Ok addr => Some addr | _ => None end) items.

(** The base of the search after some items, were addresses not bounded: one
    above the last address, and one more for each error since. *)
Definition ksi_after (base : Z) (items : list (VmResult Z)) : Z :=
  foldl (λ b item, match item with Ok addr => addr + 1 | _ => b + 1 end) base items.

(** The addresses go upwards, from [base] on. *)
Definition goes_upwards (base : Z) (items : list (VmResult Z)) : Prop :=
  StronglySorted Z.lt (ksi_hits items) ∧ Forall (Z.le base) (ksi_hits items).

Lemma goes_upwards_nil base : goes_upwards base [].
Proof. split; constructor. Qed.

Lemma goes_upwards_cons base item items :
  match item with Ok addr => base <= addr | _ => True end →
  goes_upwards (ksi_after base [item]) items → goes_upwards base (item :: items).
Proof.
  intros Hitem [Hsort Hall]. cbn [ksi_after foldl] in Hall.
  destruct item as [addr|err| |]; unfold goes_upwards; cbn [ksi_hits omap list_omap]; split; try done;
    try constructor; try done; (eapply Forall_impl; [exact Hall|cbn; lia]).
Qed.

Section iterator.
Context {A : Type} `{MmuLaws A}.

Lemma va_succ_ok a b :
  is_u64 a → va_add_u64 (E:=Never) a 1 = Ok b →
  is_u64 b ∧ (b = a + 1 ∨ debug_assertions = false ∧ a + 1 = 2 ^ 64 ∧ b = 0).
Proof.
  unfold va_add_u64, add_u64, checked_width, is_u64. intros Ha.
  destruct (_ && _) eqn:Hr; [intros [= <-]; lia|].
  destruct debug_assertions; [done|]. intros [= <-].
  assert (a + 1 = 2 ^ 64) as -> by lia. rewrite Z.mod_same by lia. split; [lia|]. by right.
Qed.

(** A step: its item, and the iterator after it, whose base is one above what
    it was or what was found, unless that wraps in a release build. *)
Lemma ksi_next_step (it it' : KernelSearchIterator A) item fits :
  MemoryLaws (bk_memory (ksi_backend it)) → SubReads (bk_memory (ksi_backend it)) →
  SearchLaws (bk_memory (ksi_backend it)) fits → FinderOk (ksi_finder it) →
  needle (ksi_finder it) ≠ [] → is_u64 (ksi_base it) →
  ksi_next it = Ok (Some (item, it')) →
  it' = ksi_set it (ksi_base it') (ksi_buffer it') ∧ is_u64 (ksi_base it') ∧
  match item with Ok addr => ksi_base it <= addr | _ => True end ∧
  (ksi_base it' = ksi_after (ksi_base it) [item] ∨
   debug_assertions = false ∧ ksi_after (ksi_base it) [item] = 2 ^ 64 ∧ ksi_base it' = 0).
Proof.
  intros Hm Hs Hl Hf Hn Hb. unfold ksi_next.
  destruct (arch_find_in_kernel_memory_raw _ _ _ _ _ _) as [r buf] eqn:Hfind.
  rewrite arch_find_mmu in Hfind.
  destruct r as [[addr|]|err| |]; [|done| |done|done]; intros Hv; inv_ok; subst;
    cbn [ksi_set ksi_backend ksi_finder ksi_base ksi_buffer ksi_after foldl].
  - unfold find_in_kernel_memory_raw, mut_bind, mut_lift in Hfind.
    rewrite take_bits_ok in Hfind by (unfold ADDR_BITS; lia).
    eapply (find_inner_sound _ (ref_memory (bk_memory (ksi_backend it))) fits (ksi_finder it) Hn LEVELS) in Hfind
      as (Hle & Hu & _); [|apply LEVELS_chain|done].
    destruct (va_succ_ok _ _ Hu Hv0). done.
  - destruct (va_succ_ok _ _ Hb Hv0). done.
Qed.

(** C17. The iterator over the occurrences of a needle in kernel memory goes
    upwards: the addresses it yields are strictly increasing, and at or above
    the base it starts from, errors in between included.  The one exception, in
    a release build only, is an address or an error at the very top of the
    address space: up to there the addresses increase, and then the iterator
    starts over, from the address 0. *)
Theorem ksi_take_increasing n (it : KernelSearchIterator A) items fits :
  MemoryLaws (bk_memory (ksi_backend it)) → SubReads (bk_memory (ksi_backend it)) →
  SearchLaws (bk_memory (ksi_backend it)) fits → FinderOk (ksi_finder it) →
  needle (ksi_finder it) ≠ [] → is_u64 (ksi_base it) →
  ksi_take n it = Ok items →
  goes_upwards (ksi_base it) items ∨
  debug_assertions = false ∧ ∃ pre post buf, items = pre ++ post ∧
    goes_upwards (ksi_base it) pre ∧ ksi_after (ksi_base it) pre = 2 ^ 64 ∧
    ksi_take (n - length pre) (ksi_set it 0 buf) = Ok post.
Proof.
  intros Hm Hs Hl Hf Hn Hb. revert it items Hm Hs Hl Hf Hn Hb.
  induction n as [|n IH]; intros it items Hm Hs Hl Hf Hn Hb; cbn [ksi_take].
  { intros [= <-]. left. apply goes_upwards_nil. }
  destruct (ksi_next it) as [[[item it']|]| | |] eqn:Hnext; cbn [res_bind]; try done.
  2: { intros [= <-]. left. apply goes_upwards_nil. }
  intros Hi. apply res_bind_ok in Hi as (rest & Hrest & Hi). injection Hi as <-.
  destruct (ksi_next_step it it' item fits Hm Hs Hl Hf Hn Hb Hnext) as (Heq & Hb' & Hle & Hbase).
  destruct Hbase as [Hbase|(Hd & Htop & Hzero)].
  - destruct (IH it' rest) as [Hup|(Hd & pre & post & buf & -> & Hup & Htop & Hpost)];
      [by rewrite Heq..|done|done| |].
    + left. apply goes_upwards_cons; [done|]. by rewrite <- Hbase.
    + right. split; [done|]. exists (item :: pre), post, buf. rewrite Hbase in Hup, Htop.
      split_and!; [done|by apply goes_upwards_cons|exact Htop|]. by rewrite Heq in Hpost.
  - right. split; [done|]. exists [item], rest, (ksi_buffer it').
    rewrite Heq, Hzero in Hrest. replace (S n - length [item])%nat with n by (cbn; lia).
    split_and!; [done|by apply goes_upwards_cons; [|apply goes_upwards_nil]|exact Htop|exact Hrest].
Qed.
End iterator.

(** ** Register names on aarch64 *)

(** The name of a general register is one off: [xN] is the register with index
    [N - 1], so [x29] is not the frame pointer that [base_pointer] reads. *)
Theorem arm_frame_pointer_name (v : RawVcpus Aarch64) vcpu r :
  registers v vcpu = Ok r → length (regs r) = 31%nat →
  arm_register_by_name v vcpu "x29"%string = ok_or (regs r !! 28%nat) UnknownRegister ∧
  arm_base_pointer v vcpu = (let? fp := ok_or (regs r !! 29%nat) UnknownRegister in Ok (Some fp)).
Proof.
  intros Hr Hl. unfold arm_register_by_name, arm_base_pointer. rewrite Hr. split; [done|].
  destruct r as [l s p t]. cbn [regs] in *. cbn -[lookup]. by list_by_length l.
Qed.
End spec.

(** ** The properties at concrete inputs

    One vCPU whose [cr3] is 0, and whose system call entry point is in the page
    that the sample tables map. *)

#[local] Existing Instance debug_build.

Definition sample_vcpus : RawVcpus X86_64 := {|
  arch := X86_64_;
  vcpus_count := 1;
  registers := λ vcpu, Ok (x86_registers_of [1; 2; 3]) : VcpuResult (Registers X86_64);
  special_registers := λ vcpu,
    Ok (x86_special_of ([], ([], ([0; 0; 0], [])))) : VcpuResult (SpecialRegisters X86_64);
  other_registers := λ vcpu,
    Ok {| lstar := 0x5abc; gs_kernel_base := 0 |} : VcpuResult (OtherRegisters X86_64);
|}.

Notation sample_has_vcpus := (default_vcpus sample_vcpus).

Lemma x86_find_kernel_pgd_spec_witness :
  pgd_translates (virtual_to_physical x86_mmu sample_tables_memory)
    sample_tables_memory [0x5000; 0x5abc] 0.
Proof.
  assert (H : x86_find_kernel_pgd sample_tables_memory sample_has_vcpus true [0x5000]
              = Ok (Some 0)) by (vm_compute; reflexivity).
  apply (x86_find_kernel_pgd_spec) in H. exact (proj1 H).
Defined.

Lemma runtime_vcpus_agree_witness :
  register_by_name (default_vcpus
    (runtime_raw_vcpus sample_vcpus)) 0 "rcx"%string = Ok 3.
Proof.
  etransitivity; [apply (runtime_vcpus_agree sample_vcpus 0 "rcx"%string)|].
  vm_compute. reflexivity.
Defined.

Definition sample_iterator : KernelSearchIterator X86_64 := {|
  ksi_backend := default_backend
                   sample_tables_memory sample_has_vcpus;
  ksi_finder := naive_finder [zb 0];
  ksi_buffer := [];
  ksi_mmu_addr := 0;
  ksi_base := 0;
|}.

Lemma ksi_take_increasing_witness : StronglySorted Z.lt [0x5000; 0x5001].
Proof.
  assert (H : ksi_take 2 sample_iterator = Ok [Ok 0x5000; Ok 0x5001])
    by (vm_compute; reflexivity).
  eapply (ksi_take_increasing _ _ _ (λ _ _, True)) in H.
  - destruct H as [[Hup _]|[Hd _]]; [exact Hup|discriminate Hd].
  - exact (raw_laws sample_tables).
  - exact (raw_sub_reads sample_tables).
  - exact (raw_search_laws sample_tables).
  - apply naive_finder_ok.
  - discriminate.
  - by split.
Defined.
