(* ===== verification/KvmDump.v ===== *)
(** * Dumps of a virtual machine in a file
    ([vminer/src/backends/kvm_dump/mod.rs])

    A dump is a header, the memory mappings, the registers of the vCPUs and the
    content of the mappings.  A writer is the bytes it has received, a reader is
    the bytes that are left, and the file given to the memory is read with
    [read_exact_at] of the [sync_file] crate, a parameter. *)

From S2P Require Import Prelude Rust Layout Addr Error Mem Text Registers Mmu Arch Backend.

Record Header := { hd_magic : Z; hd_arch : Z; hd_n_mappings : Z; hd_n_vcpus : Z }.

Definition Header_pod : Pod Header :=
  pod_iso (λ '(m, (a, (n, v))), {| hd_magic := m; hd_arch := a; hd_n_mappings := n; hd_n_vcpus := v |})
          (λ h, (hd_magic h, (hd_arch h, (hd_n_mappings h, hd_n_vcpus h))))
          (pod_pair pod_u32 (pod_pair pod_u32 (pod_pair pod_u32 pod_u32))).

Definition MemoryMap_pod : Pod MemoryMap :=
  pod_iso (λ '(s, e), {| map_start := s; map_end := e |}) (λ m, (map_start m, map_end m))
          (pod_pair pod_u64 pod_u64).

(** [u32::from_le_bytes] of the byte 0xaa and the text "box". *)
Definition MAGIC : Z := le_val (zb <$> [0xaa; 0x62; 0x6f; 0x78]).

Inductive Vcpus :=
| VcpusX86_64 (vcpus : list x86_Vcpu)
| VcpusAarch64 (vcpus : list arm_Vcpu).

Record DumbDump := { dd_vcpus : Vcpus; dd_mem : MemRemap }.

(** ** Reading *)

(** [io::Read::read_exact] on the bytes that are left. *)
Definition read_exact (n : nat) : MutRes bytes IoError bytes := λ rest,
  if (n <=? length rest)%nat then (Ok (take n rest), drop n rest)
  else (Err (io_new UnexpectedEof "failed to fill whole buffer"%string), []).

Definition read_pod {T} (P : Pod T) : MutRes bytes IoError T :=
  let! bs := read_exact (size_of P) in mut_ret (pod_read P bs).

(** The loop that reads the registers of the vCPUs. *)
Fixpoint read_vcpus {V} (read_one : MutRes bytes IoError V) (n : nat) : MutRes bytes IoError (list V) :=
  match n with
  | O => mut_ret []
  | S n =>
      let! vcpu := read_one in
      let! vcpus := read_vcpus read_one n in
      mut_ret (vcpu :: vcpus)
  end.

Definition read_x86_vcpu : MutRes bytes IoError x86_Vcpu :=
  let! registers := read_pod x86_Registers_pod in
  let! special_registers := read_pod x86_SpecialRegisters_pod in
  let! other_registers := read_pod x86_OtherRegisters_pod in
  mut_ret {| x86_registers := registers; x86_special_registers := special_registers;
             x86_other_registers := other_registers |}.

Definition read_arm_vcpu : MutRes bytes IoError arm_Vcpu :=
  let! registers := read_pod arm_Registers_pod in
  let! special_registers := read_pod arm_SpecialRegisters_pod in
  let! other_registers := read_pod arm_OtherRegisters_pod in
  mut_ret {| arm_registers := registers; arm_special_registers := special_registers;
             arm_other_registers := other_registers |}.

Definition read_x86_64 (n_vcpus : nat) : MutRes bytes IoError Vcpus :=
  let! vcpus := read_vcpus read_x86_vcpu n_vcpus in mut_ret (VcpusX86_64 vcpus).

Definition read_aarch64 (n_vcpus : nat) : MutRes bytes IoError Vcpus :=
  let! vcpus := read_vcpus read_arm_vcpu n_vcpus in mut_ret (VcpusAarch64 vcpus).

Section dump.
Context {bm : Build}.

(** Where each mapping starts in the memory of the dump, and the end. *)
Fixpoint remap_offsets {E} (remap_addr : Z) (mappings : list MemoryMap) : Res E (list Z * Z) :=
  match mappings with
  | [] => Ok ([], remap_addr)
  | mapping :: mappings =>
      let? next := pa_add_i64 remap_addr (pa_sub (map_end mapping) (map_start mapping)) in
      let? ' (offsets, last) := remap_offsets next mappings in
      Ok (remap_addr :: offsets, last)
  end.

(** The sum of the sizes, an [i64]. *)
Fixpoint mem_size {E} (acc : Z) (mappings : list MemoryMap) : Res E Z :=
  match mappings with
  | [] => Ok acc
  | mapping :: mappings =>
      let? acc := add_i64 acc (pa_sub (map_end mapping) (map_start mapping)) in
      mem_size acc mappings
  end.

(** The body of [DumbDump::read] on a file with this content; the state is what
    the buffered reader has left. *)
Definition dump_reader (read_exact_at : bytes → Z → MutRes bytes IoError unit) (content : bytes)
  : MutRes bytes VmError DumbDump :=
  let! header := mut_map_err vm_of_io (read_pod Header_pod) in
  if negb (hd_magic header =? MAGIC)
  then mut_lift (Err (vm_error_new (dyn_of_str "invalid file magic"%string)))
  else
  let! mappings := mut_map_err vm_of_io
                     (read_pod (pod_array MemoryMap_pod (Z.to_nat (hd_n_mappings header)))) in
  let! offsets := mut_lift (remap_offsets 0 mappings) in
  let! vcpus :=
    if hd_arch header =? 0 then mut_map_err vm_of_io (read_x86_64 (Z.to_nat (hd_n_vcpus header)))
    else if hd_arch header =? 1 then mut_map_err vm_of_io (read_aarch64 (Z.to_nat (hd_n_vcpus header)))
    else mut_lift (Err (vm_error_new (dyn_of_str "unsupported architecture"%string))) in
  λ rest,
    let start := Z.of_nat (length content) - Z.of_nat (length rest) in
    let end_ := Z.of_nat (length content) in
    (let? size := mem_size 0 mappings in
     let? file_size := sub_u64 end_ start in
     if negb (file_size =? as_u64 size)
     then Err (vm_error_new (dyn_of_str "invalid file size"%string))
     else
     let? file := file_new (read_exact_at content) start end_ in
     Ok {| dd_vcpus := vcpus; dd_mem := remap_new (file_memory file) mappings offsets.1 |},
     rest).

Definition dump_read (read_exact_at : bytes → Z → MutRes bytes IoError unit) (content : bytes)
  : VmResult DumbDump := (dump_reader read_exact_at content content).1.

(** ** Writing *)

Section write.
Context {W : Type} `{IoWrite W}.

Definition write_x86_vcpu (vcpu : x86_Vcpu) : MutRes W IoError unit :=
  let! _ := write_all (bytes_of x86_Registers_pod (x86_registers vcpu)) in
  let! _ := write_all (bytes_of x86_SpecialRegisters_pod (x86_special_registers vcpu)) in
  write_all (bytes_of x86_OtherRegisters_pod (x86_other_registers vcpu)).

Definition write_arm_vcpu (vcpu : arm_Vcpu) : MutRes W IoError unit :=
  let! _ := write_all (bytes_of arm_Registers_pod (arm_registers vcpu)) in
  let! _ := write_all (bytes_of arm_SpecialRegisters_pod (arm_special_registers vcpu)) in
  write_all (bytes_of arm_OtherRegisters_pod (arm_other_registers vcpu)).

Fixpoint write_vcpus {V} (write_one : V → MutRes W IoError unit) (vcpus : list V)
  : MutRes W IoError unit :=
  match vcpus with
  | [] => mut_ret tt
  | vcpu :: vcpus => let! _ := write_one vcpu in write_vcpus write_one vcpus
  end.

(** [DumbDump::write] once the file is created: the state is the [BufWriter] on
    the file. *)
Definition dump_write (self : DumbDump) : MutRes W IoError unit :=
  let mappings := remap_mappings (dd_mem self) in
  let (arch, n_vcpus) := match dd_vcpus self with
                         | VcpusX86_64 vcpus => (0, wrap_u32 (Z.of_nat (length vcpus)))
                         | VcpusAarch64 vcpus => (1, wrap_u32 (Z.of_nat (length vcpus)))
                         end in
  let header := {| hd_magic := MAGIC; hd_arch := arch;
                   hd_n_mappings := wrap_u32 (Z.of_nat (length mappings));
                   hd_n_vcpus := n_vcpus |} in
  let! _ := write_all (bytes_of Header_pod header) in
  let! _ := write_all (bytes_of_list MemoryMap_pod mappings) in
  let! _ := match dd_vcpus self with
            | VcpusX86_64 vcpus => write_vcpus write_x86_vcpu vcpus
            | VcpusAarch64 vcpus => write_vcpus write_arm_vcpu vcpus
            end in
  dump (remap_memory (dd_mem self)).
End write.

(** ** Dumping a running virtual machine *)

(** The loop that copies the mappings in the buffer [mem]. *)
Fixpoint copy_mappings (memory : Memory) (mappings : list MemoryMap) (offset : Z)
  : MutRes bytes MemoryAccessError unit :=
  match mappings with
  | [] => mut_ret tt
  | mapping :: mappings =>
      let! next_offset :=
        mut_lift (add_u64 offset (as_u64 (pa_sub (map_end mapping) (map_start mapping)))) in
      let! _ := on_slice (Z.to_nat offset) (Z.to_nat next_offset)
                         (read_physical memory (map_start mapping)) in
      copy_mappings memory mappings next_offset
  end.

Fixpoint collect_x86 (vcpus : RawVcpus X86_64) (ids : list Z) : VcpuResult (list x86_Vcpu) :=
  match ids with
  | [] => Ok []
  | vcpu :: ids =>
      let? registers := registers vcpus vcpu in
      let? special_registers := special_registers vcpus vcpu in
      let? other_registers := other_registers vcpus vcpu in
      let? rest := collect_x86 vcpus ids in
      Ok ({| x86_registers := registers; x86_special_registers := special_registers;
             x86_other_registers := other_registers |} :: rest)
  end.

Fixpoint collect_arm (vcpus : RawVcpus Aarch64) (ids : list Z) : VcpuResult (list arm_Vcpu) :=
  match ids with
  | [] => Ok []
  | vcpu :: ids =>
      let? registers := registers vcpus vcpu in
      let? special_registers := special_registers vcpus vcpu in
      let? other_registers := other_registers vcpus vcpu in
      let? rest := collect_arm vcpus ids in
      Ok ({| arm_registers := registers; arm_special_registers := special_registers;
             arm_other_registers := other_registers |} :: rest)
  end.

Definition dump_vm {A} `{Architecture A} (backend : Backend A) : VmResult DumbDump :=
  let mappings := memory_mappings (bk_memory backend) in
  let? ' (remap_at, last) := remap_offsets 0 mappings in
  let (copied, mem) := copy_mappings (bk_memory backend) mappings 0
                                     (replicate (Z.to_nat last) Byte.x00) in
  let? _ := map_err vm_of_mem copied in
  let raw := raw_vcpus (bk_vcpus backend) in
  let? vcpus :=
    match into_runtime (arch raw) with
    | RtX86_64 _ =>
        let backend := assume_x86 raw in
        let? vcpus := map_err vm_of_vcpu (collect_x86 backend (vi_items (iter_vcpus backend))) in
        Ok (VcpusX86_64 vcpus)
    | RtAarch64 _ =>
        let backend := assume_arm raw in
        let? vcpus := map_err vm_of_vcpu (collect_arm backend (vi_items (iter_vcpus backend))) in
        Ok (VcpusAarch64 vcpus)
    end in
  Ok {| dd_vcpus := vcpus; dd_mem := remap_new (raw_memory (raw_new mem)) mappings remap_at |}.

(** ** A dump as a backend *)

Definition dump_memory (self : DumbDump) : Memory :=
  let mem := remap_memory (dd_mem self) in {|
    memory_mappings := memory_mappings mem;
    is_valid := is_valid mem;
    read_physical := read_physical mem;
    search := search mem;
    dump := λ _ _, default_dump (read_physical mem) (memory_mappings mem);
  |}.

(** [vcpus.get(vcpu.0).ok_or(InvalidId)?] and a field of it. *)
Definition dump_register {V R} (vcpus : list V) (field : V → R) (vcpu : Z) : VcpuResult R :=
  let? v := ok_or (if vcpu <? 0 then None else vcpus !! Z.to_nat vcpu) InvalidId in Ok (field v).

Definition dump_vcpus (self : DumbDump) : RawVcpus RtArch := {|
  arch := match dd_vcpus self with
          | VcpusX86_64 _ => RtX86_64 X86_64_
          | VcpusAarch64 _ => RtAarch64 Aarch64_
          end;
  vcpus_count := match dd_vcpus self with
                 | VcpusX86_64 vcpus => Z.of_nat (length vcpus)
                 | VcpusAarch64 vcpus => Z.of_nat (length vcpus)
                 end;
  registers := λ vcpu,
    (match dd_vcpus self with
     | VcpusX86_64 vcpus => dump_register vcpus (λ v, RegsX86_64 (x86_registers v)) vcpu
     | VcpusAarch64 vcpus => dump_register vcpus (λ v, RegsAarch64 (arm_registers v)) vcpu
     end : VcpuResult (Registers RtArch));
  special_registers := λ vcpu,
    (match dd_vcpus self with
     | VcpusX86_64 vcpus => dump_register vcpus (λ v, SpecialX86_64 (x86_special_registers v)) vcpu
     | VcpusAarch64 vcpus => dump_register vcpus (λ v, SpecialAarch64 (arm_special_registers v)) vcpu
     end : VcpuResult (SpecialRegisters RtArch));
  other_registers := λ vcpu,
    (match dd_vcpus self with
     | VcpusX86_64 vcpus => dump_register vcpus (λ v, OtherX86_64 (x86_other_registers v)) vcpu
     | VcpusAarch64 vcpus => dump_register vcpus (λ v, OtherAarch64 (arm_other_registers v)) vcpu
     end : VcpuResult (OtherRegisters RtArch));
|}.

Definition dump_backend (self : DumbDump) : Backend RtArch :=
  default_backend (dump_memory self) (default_vcpus (dump_vcpus self)).
End dump.
