(* ===== verification/KvmDumpSpec.v ===== *)
(** * A dump can be read back

    [dump_write] followed by [dump_read] gives the vCPUs, the mappings and the
    content of the memory of the dumped machine. *)

From S2P Require Import Prelude Rust Layout Addr Error Mem MemSpec Text Registers Mmu Arch Backend KvmDump.

#[export] Instance Header_pod_ok : PodOk Header_pod.
Proof. pod_struct. Qed.
#[export] Instance MemoryMap_pod_ok : PodOk MemoryMap_pod.
Proof. pod_struct. Qed.

(** ** Readers and writers *)

(** [read] undoes [write], on the bytes [enc v]. *)
Definition codec {V} (write : V → MutRes bytes IoError unit) (read : MutRes bytes IoError V)
    (enc : V → bytes) (wf : V → Prop) : Prop :=
  (∀ v out, write v out = (Ok tt, out ++ enc v)) ∧
  (∀ v rest, wf v → read (enc v ++ rest) = (Ok v, rest)).

Lemma read_exact_app n bs rest : length bs = n → read_exact n (bs ++ rest) = (Ok bs, rest).
Proof.
  intros Hl. unfold read_exact. rewrite length_app. replace (n <=? _)%nat with true by lia.
  rewrite take_app_le, take_ge by lia. rewrite drop_app_ge by lia. by rewrite Hl, Nat.sub_diag.
Qed.

Lemma read_pod_app {T} (P : Pod T) `{!PodOk P} x rest :
  pod_wf P x → read_pod P (bytes_of P x ++ rest) = (Ok x, rest).
Proof.
  intros Hx. unfold read_pod, mut_bind. rewrite read_exact_app by apply pod_length.
  unfold mut_ret. by rewrite pod_read_bytes_of.
Qed.

Lemma pod_array_bytes {T} (P : Pod T) l : bytes_of (pod_array P (length l)) l = bytes_of_list P l.
Proof. induction l as [|x l IH]; [done|]. cbn. unfold bytes_of_list. cbn. f_equal. apply IH. Qed.

Lemma read_array_app {T} (P : Pod T) `{!PodOk P} l rest :
  Forall (pod_wf P) l → read_pod (pod_array P (length l)) (bytes_of_list P l ++ rest) = (Ok l, rest).
Proof.
  intros Hl. rewrite <- pod_array_bytes. apply read_pod_app; [apply _|]. by destruct l; split.
Qed.

Lemma read_vcpus_app {V} write (read : MutRes bytes IoError V) enc wf vcpus rest :
  codec write read enc wf → Forall wf vcpus →
  read_vcpus read (length vcpus) (concat (enc <$> vcpus) ++ rest) = (Ok vcpus, rest).
Proof.
  intros [_ Hr] Hv. induction Hv as [|v vcpus Hv _ IH]; [done|].
  cbn [length read_vcpus fmap list_fmap concat]. unfold mut_bind at 1.
  rewrite <- app_assoc, Hr by done. unfold mut_bind. by rewrite IH.
Qed.

Lemma write_vcpus_app {V} (write : V → MutRes bytes IoError unit) read enc wf vcpus out :
  codec write read enc wf → write_vcpus write vcpus out = (Ok tt, out ++ concat (enc <$> vcpus)).
Proof.
  intros [Hw _]. revert out. induction vcpus as [|v vcpus IH]; intros out; cbn [write_vcpus fmap list_fmap concat].
  - unfold mut_ret. by rewrite app_nil_r.
  - unfold mut_bind. by rewrite Hw, IH, app_assoc.
Qed.

Lemma x86_codec : codec write_x86_vcpu read_x86_vcpu (bytes_of x86_Vcpu_pod) (pod_wf x86_Vcpu_pod).
Proof.
  split.
  - intros [r s o] out. unfold write_x86_vcpu, mut_bind, write_all, vec_writer.
    cbn [bytes_of x86_Vcpu_pod pod_iso pod_pair x86_registers x86_special_registers x86_other_registers fst snd].
    by rewrite <- !app_assoc.
  - intros [r s o] rest (Hr & Hs & Ho). unfold read_x86_vcpu, mut_bind.
    cbn [bytes_of x86_Vcpu_pod pod_iso pod_pair x86_registers x86_special_registers x86_other_registers fst snd].
    rewrite <- !app_assoc. rewrite (read_pod_app x86_Registers_pod r) by exact Hr.
    rewrite (read_pod_app x86_SpecialRegisters_pod s) by exact Hs.
    by rewrite (read_pod_app x86_OtherRegisters_pod o) by exact Ho.
Qed.

Lemma arm_codec : codec write_arm_vcpu read_arm_vcpu (bytes_of arm_Vcpu_pod) (pod_wf arm_Vcpu_pod).
Proof.
  split.
  - intros [r s o] out. unfold write_arm_vcpu, mut_bind, write_all, vec_writer.
    cbn [bytes_of arm_Vcpu_pod pod_iso pod_pair arm_registers arm_special_registers arm_other_registers fst snd].
    by rewrite <- !app_assoc.
  - intros [r s o] rest (Hr & Hs & Ho). unfold read_arm_vcpu, mut_bind.
    cbn [bytes_of arm_Vcpu_pod pod_iso pod_pair arm_registers arm_special_registers arm_other_registers fst snd].
    rewrite <- !app_assoc. rewrite (read_pod_app arm_Registers_pod r) by exact Hr.
    rewrite (read_pod_app arm_SpecialRegisters_pod s) by exact Hs.
    by rewrite (read_pod_app arm_OtherRegisters_pod o) by exact Ho.
Qed.

(** The bytes of the vCPUs in the file. *)
Definition vcpus_bytes (vcpus : Vcpus) : bytes :=
  match vcpus with
  | VcpusX86_64 vcpus => concat (bytes_of x86_Vcpu_pod <$> vcpus)
  | VcpusAarch64 vcpus => concat (bytes_of arm_Vcpu_pod <$> vcpus)
  end.

Definition vcpus_wf (vcpus : Vcpus) : Prop :=
  match vcpus with
  | VcpusX86_64 vcpus => Forall (pod_wf x86_Vcpu_pod) vcpus ∧ Z.of_nat (length vcpus) < 2 ^ 32
  | VcpusAarch64 vcpus => Forall (pod_wf arm_Vcpu_pod) vcpus ∧ Z.of_nat (length vcpus) < 2 ^ 32
  end.

Section spec.
Context {bm : Build}.

(** ** The layout of the memory in the file *)

Fixpoint offsets_from (acc : Z) (contents : list bytes) : list Z :=
  match contents with
  | [] => []
  | c :: contents => acc :: offsets_from (acc + Z.of_nat (length c)) contents
  end.

(** A mapping and its content, inside the lower half of the address space. *)
Definition sized (mapping : MemoryMap) (content : bytes) : Prop :=
  0 <= map_start mapping ∧ map_end mapping < 2 ^ 63 ∧
  map_end mapping = map_start mapping + Z.of_nat (length content).

Lemma sized_sub mapping content :
  sized mapping content → pa_sub (map_end mapping) (map_start mapping) = Z.of_nat (length content).
Proof.
  intros (Hs & He & Heq). unfold pa_sub. pose proof (va_sub_small (map_end mapping) (map_start mapping)) as H.
  unfold va_sub in H. rewrite H by (unfold is_u64, is_i64; lia). lia.
Qed.

Lemma remap_offsets_spec {E} acc mappings contents :
  Forall2 sized mappings contents → 0 <= acc → acc + Z.of_nat (length (concat contents)) < 2 ^ 63 →
  remap_offsets (E:=E) acc mappings =
  Ok (offsets_from acc contents, acc + Z.of_nat (length (concat contents))).
Proof.
  intros Hm. revert acc. induction Hm as [|m c ms cs Hs _ IH]; intros acc Ha Hl; cbn [remap_offsets offsets_from concat].
  - cbn. by rewrite Z.add_0_r.
  - cbn [concat] in Hl. rewrite length_app in *. rewrite (sized_sub m c Hs). unfold pa_add_i64.
    rewrite add_signed_ok by (unfold is_u64; lia). cbn [res_bind].
    rewrite IH by lia. cbn [res_bind]. do 2 f_equal. lia.
Qed.

Lemma mem_size_spec {E} acc mappings contents :
  Forall2 sized mappings contents → 0 <= acc → acc + Z.of_nat (length (concat contents)) < 2 ^ 63 →
  mem_size (E:=E) acc mappings = Ok (acc + Z.of_nat (length (concat contents))).
Proof.
  intros Hm. revert acc. induction Hm as [|m c ms cs Hs _ IH]; intros acc Ha Hl; cbn [mem_size concat].
  - cbn. by rewrite Z.add_0_r.
  - cbn [concat] in Hl. rewrite length_app in *. rewrite (sized_sub m c Hs). unfold add_i64.
    replace (_ && _) with true by lia. cbn [res_bind]. rewrite IH by lia. f_equal. lia.
Qed.

Lemma offsets_from_length acc contents : length (offsets_from acc contents) = length contents.
Proof. revert acc. induction contents; intros; cbn; auto. Qed.

(** A covered read is served from the file, at the place of its content. *)
Lemma target_content rp acc mappings contents addr buf :
  Forall2 sized mappings contents → Forall2 (λ m c, holds_at rp (map_start m) c) mappings contents →
  existsb (λ m, covers m addr (Z.of_nat (length buf))) mappings = true →
  ∃ a, remap_target mappings (offsets_from acc contents) addr (Z.of_nat (length buf)) = Some a ∧
    acc <= a ∧ a + Z.of_nat (length buf) <= acc + Z.of_nat (length (concat contents)) ∧
    rp addr buf = (Ok tt, take (length buf) (drop (Z.to_nat (a - acc)) (concat contents))).
Proof.
  intros Hs. revert acc. induction Hs as [|m c ms cs Hs _ IH]; intros acc Hh Hc; [done|].
  inversion_clear Hh as [|? ? ? ? Hm Hms]. cbn [existsb remap_target offsets_from concat] in *.
  rewrite length_app. destruct (covers m addr _) eqn:Hcov.
  - unfold covers in Hcov. destruct Hs as (Hs & He & Heq).
    eexists. split; [done|]. split_and!; [lia|lia|].
    rewrite Hm by lia. f_equal. replace (acc + _ - acc) with (addr - map_start m) by lia.
    rewrite drop_app_le, take_app_le by (rewrite ?length_drop; lia). done.
  - destruct (IH (acc + Z.of_nat (length c)) Hms Hc) as (a & -> & Ha & Hl & Hr).
    exists a. split_and!; [done|lia|lia|]. rewrite Hr, drop_app_ge by lia. do 3 f_equal. lia.
Qed.

(** The documented behaviour of [read_exact_at] on a file: it fills the buffer
    from the given offset when the file is long enough. *)
Definition read_exact_at_ok (read_exact_at : bytes → Z → MutRes bytes IoError unit) : Prop :=
  ∀ content off buf, 0 <= off → off + Z.of_nat (length buf) <= Z.of_nat (length content) →
    read_exact_at content off buf = (Ok tt, take (length buf) (drop (Z.to_nat off) content)).

(** What a dump writes before the memory. *)
Definition dump_prelude (self : DumbDump) : bytes :=
  let mappings := remap_mappings (dd_mem self) in
  let (arch, n_vcpus) := match dd_vcpus self with
                         | VcpusX86_64 vcpus => (0, Z.of_nat (length vcpus))
                         | VcpusAarch64 vcpus => (1, Z.of_nat (length vcpus))
                         end in
  bytes_of Header_pod {| hd_magic := MAGIC; hd_arch := arch;
                         hd_n_mappings := Z.of_nat (length mappings); hd_n_vcpus := n_vcpus |} ++
  bytes_of_list MemoryMap_pod mappings ++ vcpus_bytes (dd_vcpus self).

Lemma wrap_u32_small z : 0 <= z < 2 ^ 32 → wrap_u32 z = z.
Proof. unfold wrap_u32. intros. by apply Z.mod_small. Qed.

Lemma dump_write_spec self contents :
  vcpus_wf (dd_vcpus self) → Z.of_nat (length (remap_mappings (dd_mem self))) < 2 ^ 32 →
  Forall2 (block_mapping (remap_read_physical (dd_mem self))) (remap_mappings (dd_mem self)) contents →
  dump_write self [] = (Ok tt, dump_prelude self ++ concat contents).
Proof.
  intros Hv Hn Hm. unfold dump_write, dump_prelude.
  assert (Hdump : ∀ out, dump (remap_memory (dd_mem self)) out = (Ok tt, out ++ concat contents)).
  { intros out. cbn [dump remap_memory]. rewrite (default_dump_whole _ _ contents out Hm), write_each_vec.
    by rewrite (concat_dump_blocks _ _ contents Hm). }
  destruct (dd_vcpus self) as [vcpus|vcpus] eqn:E; destruct Hv as [Hv Hl];
    rewrite !wrap_u32_small by lia; unfold mut_bind, write_all, vec_writer; cbn [app].
  - rewrite (write_vcpus_app _ _ _ _ _ _ x86_codec), Hdump. cbn [vcpus_bytes]. by rewrite <- !app_assoc.
  - rewrite (write_vcpus_app _ _ _ _ _ _ arm_codec), Hdump. cbn [vcpus_bytes]. by rewrite <- !app_assoc.
Qed.

Lemma sized_wf mappings contents : Forall2 sized mappings contents → Forall (pod_wf MemoryMap_pod) mappings.
Proof.
  induction 1 as [|m c ms cs (Hs & He & Heq) _ IH]; constructor; [|done]. cbn. lia.
Qed.

Definition file_of (read_exact_at : bytes → Z → MutRes bytes IoError unit) (self : DumbDump)
    (contents : list bytes) : File :=
  let content := dump_prelude self ++ concat contents in {|
    file_read_exact_at := read_exact_at content;
    file_start := Z.of_nat (length (dump_prelude self));
    file_mapping := {| map_start := 0; map_end := Z.of_nat (length (concat contents)) |};
  |}.

Lemma dump_read_spec read_exact_at self contents :
  vcpus_wf (dd_vcpus self) → Z.of_nat (length (remap_mappings (dd_mem self))) < 2 ^ 32 →
  Forall2 sized (remap_mappings (dd_mem self)) contents →
  Z.of_nat (length (dump_prelude self ++ concat contents)) < 2 ^ 63 →
  dump_read read_exact_at (dump_prelude self ++ concat contents) =
  Ok {| dd_vcpus := dd_vcpus self;
        dd_mem := remap_new (file_memory (file_of read_exact_at self contents))
                    (remap_mappings (dd_mem self)) (offsets_from 0 contents) |}.
Proof.
  intros Hv Hn Hs Hlen. pose proof Hlen as Hlen'. rewrite length_app in Hlen'.
  unfold dump_read. set (content := dump_prelude self ++ concat contents) in *.
  set (mappings := remap_mappings (dd_mem self)) in *.
  set (n_vcpus := match dd_vcpus self with VcpusX86_64 v => Z.of_nat (length v) | VcpusAarch64 v => Z.of_nat (length v) end).
  set (arch := match dd_vcpus self with VcpusX86_64 _ => 0 | VcpusAarch64 _ => 1 end).
  set (hd := {| hd_magic := MAGIC; hd_arch := arch; hd_n_mappings := Z.of_nat (length mappings);
                hd_n_vcpus := n_vcpus |}).
  assert (Hcontent : content = bytes_of Header_pod hd ++ bytes_of_list MemoryMap_pod mappings ++
                               vcpus_bytes (dd_vcpus self) ++ concat contents).
  { unfold content, dump_prelude, hd, arch, n_vcpus. by destruct (dd_vcpus self); rewrite <- !app_assoc. }
  assert (Hhd : pod_wf Header_pod hd).
  { assert (0 <= MAGIC < 2 ^ 32) by (vm_compute; done).
    cbn [pod_wf Header_pod pod_iso pod_pair pod_uint fst snd hd hd_magic hd_arch hd_n_mappings hd_n_vcpus].
    change (256 ^ Z.of_nat 4) with (2 ^ 32). unfold arch, n_vcpus.
    destruct (dd_vcpus self); destruct Hv; split_and!; lia. }
  assert (Hrd : (if hd_arch hd =? 0 then mut_map_err vm_of_io (read_x86_64 (Z.to_nat (hd_n_vcpus hd)))
     else if hd_arch hd =? 1 then mut_map_err vm_of_io (read_aarch64 (Z.to_nat (hd_n_vcpus hd)))
     else mut_lift (Err (vm_error_new (dyn_of_str "unsupported architecture"%string))))
     (vcpus_bytes (dd_vcpus self) ++ concat contents) = (Ok (dd_vcpus self), concat contents)).
  { cbn [hd_arch hd_n_vcpus hd]. unfold arch, n_vcpus.
    destruct (dd_vcpus self); destruct Hv; cbn [Z.eqb Pos.eqb]; rewrite Nat2Z.id; unfold mut_map_err;
      [unfold read_x86_64|unfold read_aarch64]; unfold mut_bind, vcpus_bytes;
      [rewrite (read_vcpus_app _ _ _ _ _ _ x86_codec) by done
      |rewrite (read_vcpus_app _ _ _ _ _ _ arm_codec) by done]; done. }
  rewrite Hcontent at 2. unfold dump_reader. unfold mut_bind at 1, mut_map_err at 1.
  rewrite (read_pod_app Header_pod hd) by exact Hhd. cbn [map_err]. cbn [hd_magic hd]. rewrite Z.eqb_refl. cbn [negb].
  unfold mut_bind at 1, mut_map_err at 1. cbn [hd_n_mappings hd]. rewrite Nat2Z.id.
  rewrite read_array_app; [|apply _|by eapply sized_wf]. cbn [map_err].
  unfold mut_bind at 1, mut_lift at 1. rewrite (remap_offsets_spec 0 mappings contents) by (done || lia).
  unfold mut_bind. rewrite Hrd. cbn [fst].
  rewrite (mem_size_spec 0 mappings contents) by (done || lia). cbn [res_bind].
  replace (Z.of_nat (length content) - Z.of_nat (length (concat contents)))
    with (Z.of_nat (length (dump_prelude self))) by (unfold content; rewrite length_app; lia).
  assert (Hsz : Z.of_nat (length content) - Z.of_nat (length (dump_prelude self)) =
                Z.of_nat (length (concat contents))) by (unfold content; rewrite length_app; lia).
  rewrite sub_u64_ok by lia. cbn [res_bind]. rewrite Hsz. unfold as_u64. rewrite Z.add_0_l, Z.mod_small by lia.
  rewrite Z.eqb_refl. cbn [negb]. unfold file_new. rewrite sub_u64_ok by lia. cbn [res_bind]. by rewrite Hsz.
Qed.

Lemma file_read_spec read_exact_at self contents a buf :
  read_exact_at_ok read_exact_at →
  Z.of_nat (length (dump_prelude self ++ concat contents)) < 2 ^ 63 →
  0 <= a → a + Z.of_nat (length buf) <= Z.of_nat (length (concat contents)) →
  file_read_physical (file_of read_exact_at self contents) a buf =
  (Ok tt, take (length buf) (drop (Z.to_nat a) (concat contents))).
Proof.
  intros Hf Hlen Ha Hb. rewrite length_app in Hlen. unfold file_read_physical.
  cbn [file_of file_mapping file_start file_read_exact_at default_is_valid map_start map_end].
  replace (0 <=? a) with true by lia. unfold pa_add_u64. rewrite add_u64_ok by lia.
  cbn [res_bind]. replace (_ <=? _) with true by lia.
  unfold mut_bind, mut_lift. cbn [from_never map_err].
  rewrite add_u64_ok by lia. unfold mut_map_err. rewrite Hf by (rewrite ?length_app; lia). cbn [map_err].
  f_equal. rewrite drop_app_ge by lia. do 2 f_equal. lia.
Qed.

Lemma block_sized rp mappings contents :
  Forall2 (block_mapping rp) mappings contents →
  Forall (λ m, 0 <= map_start m ∧ map_end m < 2 ^ 63) mappings →
  Forall2 sized mappings contents.
Proof.
  induction 1 as [|m c ms cs (_ & n & _ & He) _ IH]; intros Hb; [constructor|].
  apply Forall_cons in Hb as [[??] Hb]. constructor; [|by apply IH]. done.
Qed.

Lemma covers_bounds mappings contents addr len :
  Forall2 sized mappings contents → existsb (λ m, covers m addr len) mappings = true → 0 <= len →
  0 <= addr ∧ addr + len < 2 ^ 63.
Proof.
  induction 1 as [|m c ms cs (? & ? & ?) _ IH]; [done|]. cbn [existsb].
  intros [Hc|Hc]%orb_true_iff Hl; [|by apply IH]. unfold covers in Hc. lia.
Qed.

(** C12. A dump can be read back: for a machine whose mappings are made of whole
    blocks of 64 KiB, writing its dump succeeds, and reading the file gives
    the same vCPUs and the same mappings, and a memory that answers every read
    inside a mapping as the dumped one does. *)
Theorem dump_roundtrip read_exact_at self contents :
  let mappings := remap_mappings (dd_mem self) in
  read_exact_at_ok read_exact_at → vcpus_wf (dd_vcpus self) →
  Z.of_nat (length mappings) < 2 ^ 32 →
  Forall (λ m, 0 <= map_start m ∧ map_end m < 2 ^ 63) mappings →
  Forall2 (block_mapping (remap_read_physical (dd_mem self))) mappings contents →
  ∃ file, dump_write self [] = (Ok tt, file) ∧
    (Z.of_nat (length file) < 2 ^ 63 →
     ∃ d, dump_read read_exact_at file = Ok d ∧ dd_vcpus d = dd_vcpus self ∧
       remap_mappings (dd_mem d) = mappings ∧
       ∀ addr buf, existsb (λ m, covers m addr (Z.of_nat (length buf))) mappings = true →
         remap_read_physical (dd_mem d) addr buf = remap_read_physical (dd_mem self) addr buf).
Proof.
  intros mappings Hf Hv Hn Hbounds Hm. subst mappings. pose proof (block_sized _ _ _ Hm Hbounds) as Hs.
  exists (dump_prelude self ++ concat contents). split; [by apply dump_write_spec|]. intros Hlen.
  eexists. split; [by apply dump_read_spec|]. split; [done|]. split; [done|].
  intros addr buf Hc. cbn [dd_mem].
  assert (Hh : Forall2 (λ m c, holds_at (remap_read_physical (dd_mem self)) (map_start m) c) (remap_mappings (dd_mem self)) contents)
    by (eapply Forall2_impl; [exact Hm|by intros ?? [? _]]).
  destruct (covers_bounds _ _ _ _ Hs Hc) as [Ha0 Ha1]; [lia|].
  destruct (target_content _ 0 _ _ addr buf Hs Hh Hc) as (a & Hta & Ha & Hal & Hr). rewrite Hr.
  unfold remap_read_physical at 1. cbn [remap_new remap_mappings remap_at remap_inner file_memory read_physical].
  rewrite offsets_from_length, (Forall2_length _ _ _ Hs), Nat.eqb_refl.
  pose proof Hlen as Hlen'. rewrite length_app in Hlen'.
  unfold mut_bind, mut_lift. rewrite remap_find_spec; [|..].
  - rewrite Hta. cbn [ok_or]. rewrite file_read_spec by (done || lia). by rewrite Z.sub_0_r.
  - by rewrite offsets_from_length, (Forall2_length _ _ _ Hs).
  - clear -Hs. induction Hs as [|m c ms cs (? & ? & ?) _ IH]; constructor; [|done].
    unfold map_wf, is_u64. lia.
  - lia.
  - unfold is_u64. lia.
  - lia.
  - intros x Hx. rewrite Hta in Hx. injection Hx as <-. unfold is_u64. lia.
Qed.
End spec.

(** ** The property at a concrete input

    A machine with one vCPU and one block of memory, mapped at 0x10000. *)

#[local] Existing Instance debug_build.

(** A file whose content is at hand. *)
Definition sample_read_exact_at (content : bytes) (off : Z) : MutRes bytes IoError unit := λ buf,
  match slice_get content off (off + Z.of_nat (length buf)) with
  | Some bs => (Ok tt, bs)
  | None => (Err (io_from_kind UnexpectedEof), buf)
  end.

Lemma sample_read_exact_at_ok : read_exact_at_ok sample_read_exact_at.
Proof.
  intros content off buf Ho Hl. unfold sample_read_exact_at, slice_get.
  replace (_ && _) with true by lia. do 2 f_equal. lia.
Qed.

Definition sample_dump : DumbDump := {|
  dd_vcpus := VcpusAarch64 [{|
    arm_registers := zeroed arm_Registers_pod;
    arm_special_registers := zeroed arm_SpecialRegisters_pod;
    arm_other_registers := arm_no_other_registers |}];
  dd_mem := remap_new (raw_memory sample_block) [{| map_start := 0x10000; map_end := 0x20000 |}] [0];
|}.

Lemma sample_dump_block :
  Forall2 (block_mapping (remap_read_physical (dd_mem sample_dump))) (remap_mappings (dd_mem sample_dump))
    [replicate (Z.to_nat (2 ^ 16)) (zb 3)].
Proof.
  constructor; [|constructor]. unfold sample_dump, sample_block. cbn [dd_mem remap_new].
  set (n := Z.to_nat (2 ^ 16)).
  assert (Hn : Z.of_nat n = 2 ^ 16) by (apply Z2Nat.id; lia). assert (Hz : n = Z.to_nat (2 ^ 16)) by done.
  clearbody n. pose proof (length_replicate n (zb 3)) as Hl. split.
  - intros addr buf Ha Hb. cbn [map_start] in *. rewrite Hl in Hb.
    unfold remap_read_physical, remap_new. cbn [remap_mappings remap_at length Nat.eqb].
    unfold mut_bind, mut_lift. rewrite remap_find_spec; [|done| |lia|unfold is_u64; lia|lia|].
    + cbn [remap_target]. unfold covers. cbn [map_start map_end]. replace (_ && _) with true by lia.
      cbn [ok_or remap_inner raw_memory read_physical]. rewrite raw_read_spec by lia.
      cbn [raw_new raw_bytes]. rewrite Hl. by replace (_ <=? _) with true by lia.
    + repeat constructor; unfold is_u64; cbn; lia.
    + intros a. cbn [remap_target]. destruct (covers _ _ _); [|done]. intros [= <-].
      cbn [map_start]. unfold is_u64. lia.
  - exists 1%nat. rewrite Hl. cbn [map_start map_end]. lia.
Qed.

Lemma dump_roundtrip_witness : ∃ file, dump_write sample_dump [] = (Ok tt, file).
Proof.
  destruct (dump_roundtrip sample_read_exact_at sample_dump [replicate (Z.to_nat (2 ^ 16)) (zb 3)])
    as (file & Hw & _).
  - exact sample_read_exact_at_ok.
  - split; [|cbn; lia]. constructor; [|constructor]. split; [|split].
    + exact (pod_read_wf (P := arm_Registers_pod) (replicate _ Byte.x00) (length_replicate _ _)).
    + exact (pod_read_wf (P := arm_SpecialRegisters_pod) (replicate _ Byte.x00) (length_replicate _ _)).
    + reflexivity.
  - cbn. lia.
  - constructor; [cbn; lia|constructor].
  - exact sample_dump_block.
  - exists file. exact Hw.
Defined.
