(* ===== verification/Symbols.v ===== *)
(** * Symbols of a module ([vminer-core/src/symbols/mod.rs])

    A builder keeps the names in one buffer, as ranges; [build] sorts the
    symbols by address and by name, so that both lookups are binary searches.
    [slice::sort_unstable_by_key] gives no particular order to equal keys: it
    is a parameter, with what its documentation promises. *)

From S2P Require Import Prelude Rust Layout Addr Error Text.

(** ** Types *)

Inductive Primitive := Void | I8 | U8 | I16 | U16 | I32 | U32 | I64 | U64.

(** [Type] is a shared pointer to a [TypeKind]; the types are immutable, so the
    pointer is left out. *)
Inductive TypeKind :=
| TPrimitive (p : Primitive)
| TBitfield
| TArray (t : TypeKind) (len : Z)
| TFunction
| TPointer (t : TypeKind)
| TStruct (name : string)
| TUnion (name : string)
| TUnknown.

Record StructField := { sf_name : string; sf_offset : Z; sf_typ : TypeKind }.

(** [Struct] and the borrowed [StructRef] have the same fields. *)
Record Struct := { st_size : Z; st_name : string; st_fields : list StructField }.

Definition find_field (self : Struct) (field_name : string) : option StructField :=
  snd <$> list_find (λ field, sf_name field = field_name) (st_fields self).

Definition find_offset (self : Struct) (field_name : string) : option Z :=
  sf_offset <$> find_field self field_name.

Definition require_offset (self : Struct) (field_name : string) : VmResult Z :=
  ok_or (find_offset self field_name) (missing_field field_name (st_name self)).

Section struct.
Context {bm : Build}.

Definition find_offset_and_size (self : Struct) (field_name : string) : VmResult (Z * Z) :=
  let? ' (i, field) := ok_or (list_find (λ field, sf_name field = field_name) (st_fields self))
                             (missing_field field_name (st_name self)) in
  let end_ := match st_fields self !! S i with Some f => sf_offset f | None => st_size self end in
  let? size := sub_u64 end_ (sf_offset field) in
  Ok (sf_offset field, size).
End struct.

(** ** [ModuleSymbolsBuilder] *)

(** An address and the range of its name in the buffer. *)
Notation SymbolEntry := (Z * (nat * nat))%type.

Record ModuleSymbolsBuilder := {
  mb_buffer : bytes;
  mb_symbols : list SymbolEntry;
  mb_types : gmap string Struct;
}.

Definition builder_new : ModuleSymbolsBuilder :=
  {| mb_buffer := []; mb_symbols := []; mb_types := ∅ |}.

Definition builder_push (self : ModuleSymbolsBuilder) (addr : Z) (symbol : string)
  : ModuleSymbolsBuilder :=
  let start := length (mb_buffer self) in
  let buffer := mb_buffer self ++ str_bytes symbol in
  let end_ := length buffer in
  {| mb_buffer := buffer;
     mb_symbols := mb_symbols self ++ [(addr, (start, end_))];
     mb_types := mb_types self |}.

Definition insert_struct (self : ModuleSymbolsBuilder) (structure : Struct) : ModuleSymbolsBuilder :=
  {| mb_buffer := mb_buffer self;
     mb_symbols := mb_symbols self;
     mb_types := <[st_name structure := structure]> (mb_types self) |}.

(** The two [Extend] implementations. *)
Definition builder_extend (self : ModuleSymbolsBuilder) (iter : list (Z * string))
  : ModuleSymbolsBuilder :=
  fold_left (λ self x, builder_push self x.1 x.2) iter self.

Definition builder_extend_types (self : ModuleSymbolsBuilder) (iter : list Struct)
  : ModuleSymbolsBuilder :=
  fold_left insert_struct iter self.

(** ** [ModuleSymbols] *)

Record ModuleSymbols := {
  ms_buffer : bytes;
  ms_symbols : list SymbolEntry;
  ms_addresses : list SymbolEntry;
  ms_types : gmap string Struct;
}.

(** [&buffer[range]] *)
Definition buffer_symbol {E} (buffer : bytes) (range : nat * nat) : Res E bytes :=
  str_slice buffer range.1 range.2.

Section symbols.
Context {bm : Build}.
(** [sort_unstable_by], with the comparison of the keys *)
Variable sort_unstable_by : (SymbolEntry → SymbolEntry → comparison) → list SymbolEntry → list SymbolEntry.

Definition cmp_addr (x y : SymbolEntry) : comparison := x.1 ?= y.1.

Definition entry_name (buffer : bytes) (x : SymbolEntry) : bytes :=
  match buffer_symbol (E:=Never) buffer x.2 with Ok name => name | _ => [] end.

Definition cmp_name (buffer : bytes) (x y : SymbolEntry) : comparison :=
  bytes_cmp (entry_name buffer x) (entry_name buffer y).

(** Whether the key of every element can be computed. *)
Definition names_ok (buffer : bytes) (l : list SymbolEntry) : bool :=
  forallb (λ x, match buffer_symbol (E:=Never) buffer x.2 with Ok _ => true | _ => false end) l.

(** The second sort slices the buffer for its keys, of every element as soon as
    there are two of them. *)
Definition build (self : ModuleSymbolsBuilder) : Res Never ModuleSymbols :=
  let buffer := mb_buffer self in
  let names := sort_unstable_by cmp_addr (mb_symbols self) in
  if (2 <=? length names)%nat && negb (names_ok buffer names) then Panic
  else
    let addresses := sort_unstable_by (cmp_name buffer) names in
    Ok {| ms_buffer := buffer; ms_symbols := names; ms_addresses := addresses;
          ms_types := mb_types self |}.

Definition ms_symbol {E} (self : ModuleSymbols) (range : nat * nat) : Res E string :=
  res_map bytes_str (buffer_symbol (ms_buffer self) range).

Definition get_symbol (self : ModuleSymbols) (addr : Z) : Res Never (option string) :=
  match binary_search_by_key addr fst (ms_symbols self) with
  | inl index =>
      let? entry := unwrap (ms_symbols self !! index) in
      let? name := ms_symbol self entry.2 in
      Ok (Some name)
  | inr _ => Ok None
  end.

Definition get_symbol_inexact (self : ModuleSymbols) (addr : Z) : Res Never (option (string * Z)) :=
  match binary_search_by_key addr fst (ms_symbols self) with
  | inl i =>
      let? entry := unwrap (ms_symbols self !! i) in
      let? name := ms_symbol self entry.2 in
      Ok (Some (name, 0))
  | inr O => Ok None
  | inr (S i) =>
      let? ' (sym_addr, range) := unwrap (ms_symbols self !! i) in
      let offset := as_u64 (va_sub addr sym_addr) in
      let? name := ms_symbol self range in
      Ok (Some (name, offset))
  end.

(** The comparison slices the buffer: the state says whether it has panicked. *)
Definition cmp_to_name (self : ModuleSymbols) (name : bytes) (x : SymbolEntry) (panicked : bool)
  : comparison * bool :=
  match buffer_symbol (E:=Never) (ms_buffer self) x.2 with
  | Ok sym => (bytes_cmp sym name, panicked)
  | _ => (Eq, true)
  end.

Definition get_address (self : ModuleSymbols) (name : string) : Res Never (option Z) :=
  match binary_search_st (cmp_to_name self (str_bytes name)) (ms_addresses self) false with
  | (_, true) => Panic
  | (inl index, false) => let? entry := unwrap (ms_addresses self !! index) in Ok (Some entry.1)
  | (inr _, false) => Ok None
  end.

Definition require_address (self : ModuleSymbols) (name : string) : VmResult Z :=
  let? addr := from_never (get_address self name) in ok_or addr (missing_symbol name).

(** The items of [iter_symbols]. *)
Fixpoint symbol_items (self : ModuleSymbols) (l : list SymbolEntry) : Res Never (list (Z * string)) :=
  match l with
  | [] => Ok []
  | (addr, range) :: l =>
      let? name := ms_symbol self range in
      let? items := symbol_items self l in
      Ok ((addr, name) :: items)
  end.

Definition iter_symbols (self : ModuleSymbols) : Res Never (list (Z * string)) :=
  symbol_items self (ms_symbols self).

Definition get_struct (self : ModuleSymbols) (name : string) : option Struct :=
  ms_types self !! name.

Definition require_struct (self : ModuleSymbols) (name : string) : VmResult Struct :=
  ok_or (get_struct self name) (missing_symbol name).
End symbols.

(** ** [SymbolsIndexer]

    [once_map::OnceMap] is the class below: a map to which values are only
    added.  [try_insert] returns the value of a key that is present, and
    otherwise inserts what the function returns, unless it fails. *)

Class OnceMap (M : Type) := {
  om_new : M;
  om_get : M → string → option (option ModuleSymbols);
  om_try_insert : string → (string → VmResult (option ModuleSymbols)) →
                  MutRes M VmError (option ModuleSymbols);
}.

Class OnceMapLaws (M : Type) `{OnceMap M} : Prop := {
  om_get_new : ∀ name, om_get om_new name = None;
  om_present : ∀ (m : M) name f v, om_get m name = Some v → om_try_insert name f m = (Ok v, m);
  om_absent_ok : ∀ (m : M) name f v, om_get m name = None → f name = Ok v →
    ∃ m', om_try_insert name f m = (Ok v, m') ∧ om_get m' name = Some v ∧
          ∀ k, k ≠ name → om_get m' k = om_get m k;
  om_absent_err : ∀ (m : M) name f e, om_get m name = None → f name = Err e →
    om_try_insert name f m = (Err e, m);
  om_absent_panic : ∀ (m : M) name f, om_get m name = None → f name = Panic →
    om_try_insert name f m = (Panic, m);
}.

Section indexer.
Context {bm : Build} {M : Type} `{OnceMap M}.

Record SymbolsIndexer := { si_modules : M }.

Definition indexer_new : SymbolsIndexer := {| si_modules := om_new |}.

Definition get_module (self : SymbolsIndexer) (name : string) : option ModuleSymbols :=
  m ← om_get (si_modules self) name; m.

Definition require_module (self : SymbolsIndexer) (name : string) : VmResult ModuleSymbols :=
  ok_or (get_module self name) (missing_module name).

Definition get_addr (self : SymbolsIndexer) (lib name : string) : VmResult Z :=
  let? m := require_module self lib in require_address m name.

Definition load_module (name : string) (f : string → VmResult (option ModuleSymbols))
  : MutRes SymbolsIndexer VmError (option ModuleSymbols) := λ self,
  let (r, modules) :=
    om_try_insert name
      (λ name, result_with_context DynVm (f name)
         (λ _, ("failed to load symbols for module " +:+ quote +:+ name +:+ quote)%string))
      (si_modules self) in
  (r, {| si_modules := modules |}).
End indexer.
Arguments SymbolsIndexer M : clear implicits.

#[export] Instance gmap_once_map : OnceMap (gmap string (option ModuleSymbols)) := {|
  om_new := ∅;
  om_get := λ m name, m !! name;
  om_try_insert := λ name f m,
    match m !! name with
    | Some v => (Ok v, m)
    | None => match f name with Ok v => (Ok v, <[name := v]> m) | r => (r, m) end
    end;
|}.

#[export] Instance gmap_once_map_laws : OnceMapLaws (gmap string (option ModuleSymbols)).
Proof.
  split; cbn.
  - intros. apply lookup_empty.
  - by intros m name f v ->.
  - intros m name f v -> ->. eexists. split; [done|]. rewrite lookup_insert_eq.
    split; [done|]. intros k Hk. by rewrite lookup_insert_ne.
  - by intros m name f e -> ->.
  - by intros m name f -> ->.
Qed.
