(* ===== verification/SymbolsSpec.v ===== *)
(** * Symbol lookups are correct

    A builder stands for the list of the symbols pushed into it; the module it
    builds answers the lookups by address and by name as that list does. *)

From S2P Require Import Prelude Rust Layout Addr Error Text Symbols.

Lemma cmp_addr_order : total_order cmp_addr.
Proof.
  unfold total_order, cmp_addr. split.
  - intros x y. apply Z.compare_antisym.
  - intros x y z. rewrite !Z.compare_gt_iff. lia.
Qed.

Lemma cmp_name_order buffer : total_order (cmp_name buffer).
Proof.
  split; [intros; apply bytes_cmp_flip|]. intros x y z. apply bytes_le_trans.
Qed.

(** ** What a builder stands for *)

(** An entry of a builder or a module as a symbol. *)
Definition entry_symbol (buffer : bytes) (x : SymbolEntry) : Z * string :=
  (x.1, bytes_str (entry_name buffer x)).

(** The entry [e] denotes the symbol [p], also when the buffer grows. *)
Definition denotes (buffer : bytes) (e : SymbolEntry) (p : Z * string) : Prop :=
  e.1 = p.1 ∧ ∀ rest, utf8_valid rest = true →
    buffer_symbol (E:=Never) (buffer ++ rest) e.2 = Ok (str_bytes p.2).

Definition builder_holds (b : ModuleSymbolsBuilder) (l : list (Z * string)) : Prop :=
  utf8_valid (mb_buffer b) = true ∧ Forall2 (denotes (mb_buffer b)) (mb_symbols b) l.

Definition utf8_names (l : list (Z * string)) : Prop :=
  Forall (λ p, utf8_valid (str_bytes p.2) = true) l.

Lemma builder_new_holds : builder_holds builder_new [].
Proof. split; [done|constructor]. Qed.

Lemma slice_middle {E} x y z :
  utf8_valid y = true → utf8_valid z = true →
  str_slice (E:=E) (x ++ y ++ z) (length x) (length (x ++ y)) = Ok y.
Proof.
  intros Hy Hz. unfold str_slice. rewrite char_boundary_app by by apply utf8_app.
  rewrite (app_assoc x y z), (char_boundary_app (x ++ y) z) by done. rewrite !length_app.
  replace (_ && _ && _ && _) with true by lia. f_equal. rewrite <- app_assoc.
  rewrite drop_app_length. rewrite take_app_le, take_ge by lia. done.
Qed.

Lemma builder_push_holds b l addr symbol :
  utf8_valid (str_bytes symbol) = true → builder_holds b l →
  builder_holds (builder_push b addr symbol) (l ++ [(addr, symbol)]).
Proof.
  intros Hs [Hu Hl]. unfold builder_push. split; cbn [mb_buffer mb_symbols].
  - by apply utf8_app.
  - apply Forall2_app.
    + eapply Forall2_impl; [exact Hl|]. intros e p [He Hd]. split; [done|].
      intros rest Hr. rewrite <- app_assoc. apply Hd. by apply utf8_app.
    + constructor; [|constructor]. split; [done|]. intros rest Hr. unfold buffer_symbol.
      cbn [fst snd]. rewrite <- app_assoc. by apply slice_middle.
Qed.

Lemma builder_extend_holds b l iter :
  utf8_names iter → builder_holds b l → builder_holds (builder_extend b iter) (l ++ iter).
Proof.
  intros Hi. revert b l. induction Hi as [|[a s] iter Hs _ IH]; intros b l Hb; cbn.
  - by rewrite app_nil_r.
  - replace (l ++ (a, s) :: iter) with ((l ++ [(a, s)]) ++ iter) by by rewrite <- app_assoc.
    by apply IH, builder_push_holds.
Qed.

Lemma denotes_symbol buffer e p :
  denotes buffer e p → buffer_symbol (E:=Never) buffer e.2 = Ok (str_bytes p.2) ∧ entry_symbol buffer e = p.
Proof.
  intros [He Hd]. specialize (Hd [] eq_refl). rewrite app_nil_r in Hd. split; [done|].
  unfold entry_symbol, entry_name. rewrite Hd, He, bytes_str_bytes. by destruct p.
Qed.

(** ** What a module promises *)

Record module_holds (ms : ModuleSymbols) (l : list (Z * string)) : Prop := {
  mh_names : ∀ e, e ∈ ms_symbols ms →
    buffer_symbol (E:=Never) (ms_buffer ms) e.2 = Ok (entry_name (ms_buffer ms) e);
  mh_symbols : l ≡ₚ entry_symbol (ms_buffer ms) <$> ms_symbols ms;
  mh_sorted : key_sorted fst (ms_symbols ms);
  mh_addresses : ms_addresses ms ≡ₚ ms_symbols ms;
  mh_name_sorted : ∀ i j x y, (i <= j)%nat → ms_addresses ms !! i = Some x →
    ms_addresses ms !! j = Some y → cmp_name (ms_buffer ms) x y ≠ Gt;
}.

Section build.
Context {bm : Build}.
Variable sort : (SymbolEntry → SymbolEntry → comparison) → list SymbolEntry → list SymbolEntry.
Context `{!SortOk sort}.

Lemma build_holds b l :
  builder_holds b l → ∃ ms, build sort b = Ok ms ∧ module_holds ms l ∧ ms_types ms = mb_types b.
Proof.
  intros [Hu Hl]. unfold build. set (names := sort cmp_addr (mb_symbols b)).
  assert (Hp : names ≡ₚ mb_symbols b) by apply sort_perm, cmp_addr_order.
  assert (Hent : ∀ e, e ∈ names → ∃ p, denotes (mb_buffer b) e p).
  { intros e He. rewrite Hp in He. apply list_elem_of_lookup in He as [i Hi].
    destruct (Forall2_lookup_l _ _ _ _ _ Hl Hi) as (p & _ & ?). eauto. }
  assert (Hok : names_ok (mb_buffer b) names = true).
  { apply forallb_forall. intros e He%list_elem_of_In.
    destruct (Hent e He) as [p Hd%denotes_symbol]. destruct Hd as [Hd _]. by rewrite Hd. }
  rewrite Hok, andb_false_r. eexists. split; [done|]. split; [|done].
  split; cbn [ms_buffer ms_symbols ms_addresses].
  - intros e He. destruct (Hent e He) as [p Hd%denotes_symbol]. destruct Hd as [Hd _].
    unfold entry_name. by rewrite Hd.
  - rewrite Hp. clear -Hl. induction Hl as [|e p es ps Hd _ IH]; [done|]. cbn.
    apply denotes_symbol in Hd as [_ ->]. by constructor.
  - intros i j x y Hij Hi Hj. destruct (decide (i = j)) as [->|]; [simplify_eq; lia|].
    pose proof (sort_sorted cmp_addr (mb_symbols b) i j x y cmp_addr_order) as Hs.
    forward Hs; [lia|]. specialize (Hs Hi Hj). unfold cmp_addr in Hs. rewrite Z.compare_gt_iff in Hs. lia.
  - apply sort_perm, cmp_name_order.
  - intros i j x y Hij Hi Hj. destruct (decide (i = j)) as [->|].
    + assert (x = y) as -> by congruence. unfold cmp_name. pose proof (proj2 (bytes_cmp_eq (entry_name (mb_buffer b) y) _) eq_refl) as ->. done.
    + eapply (sort_sorted (cmp_name (mb_buffer b))); [apply cmp_name_order| |exact Hi|exact Hj]. lia.
Qed.
End build.

Section lookups.
Context {bm : Build}.
Variables (ms : ModuleSymbols) (l : list (Z * string)).
Hypothesis holds : module_holds ms l.

Lemma symbol_of_entry {E} e :
  e ∈ ms_symbols ms →
  ms_symbol (E:=E) ms e.2 = Ok (entry_symbol (ms_buffer ms) e).2 ∧ entry_symbol (ms_buffer ms) e ∈ l.
Proof.
  intros He. split.
  - unfold ms_symbol. pose proof (mh_names _ _ holds e He) as Hn. unfold buffer_symbol, str_slice in *.
    by destruct (_ && _); [injection Hn as ->|].
  - rewrite (mh_symbols _ _ holds). by apply list_elem_of_fmap_2.
Qed.

Lemma entry_of_symbol p : p ∈ l → ∃ e, e ∈ ms_symbols ms ∧ entry_symbol (ms_buffer ms) e = p.
Proof.
  rewrite (mh_symbols _ _ holds). intros (e & -> & He)%list_elem_of_fmap. eauto.
Qed.

Lemma get_symbol_holds addr :
  ∃ r, get_symbol ms addr = Ok r ∧
  match r with
  | Some name => (addr, name) ∈ l
  | None => ∀ name, (addr, name) ∉ l
  end.
Proof.
  unfold get_symbol. pose proof (binary_search_by_key_spec fst addr _ (mh_sorted _ _ holds)) as Hs.
  destruct (binary_search_by_key _ _ _) as [i|i].
  - destruct Hs as (e & Hi & <-). rewrite Hi. cbn [unwrap res_bind].
    destruct (symbol_of_entry (E:=Never) e) as [-> Hl]; [by eapply list_elem_of_lookup_2|].
    eexists. split; [done|]. exact Hl.
  - exists None. split; [done|]. intros name (e & He & Heq)%entry_of_symbol.
    apply list_elem_of_lookup in He as [j Hj]. destruct Hs as (_ & Hlt & Hgt).
    assert (e.1 = addr) by by injection Heq.
    destruct (decide (j < i)%nat) as [Hd|Hd]; [pose proof (Hlt j e Hd Hj)|pose proof (Hgt j e ltac:(lia) Hj)]; lia.
Qed.

Lemma get_symbol_inexact_holds addr :
  is_u64 addr → Forall (λ p, is_u64 p.1 ∧ is_i64 (addr - p.1)) l →
  ∃ r, get_symbol_inexact ms addr = Ok r ∧
  match r with
  | Some (name, offset) => 0 <= offset ∧ (addr - offset, name) ∈ l ∧
      ∀ p, p ∈ l → p.1 <= addr → p.1 <= addr - offset
  | None => ∀ p, p ∈ l → addr < p.1
  end.
Proof.
  intros Ha Hu. unfold get_symbol_inexact.
  pose proof (binary_search_by_key_spec fst addr _ (mh_sorted _ _ holds)) as Hs.
  destruct (binary_search_by_key _ _ _) as [i|[|i]].
  - destruct Hs as (e & Hi & <-). rewrite Hi. cbn [unwrap res_bind].
    destruct (symbol_of_entry (E:=Never) e) as [-> Hl]; [by eapply list_elem_of_lookup_2|].
    eexists. split; [done|]. cbv beta iota. rewrite Z.sub_0_r. split_and!; [done|exact Hl|lia].
  - exists None. split; [done|]. intros p (e & He & <-)%entry_of_symbol.
    apply list_elem_of_lookup in He as [j Hj]. destruct Hs as (_ & _ & Hgt). apply (Hgt j e); [lia|done].
  - destruct Hs as (Hlen & Hlt & Hgt). destruct (lookup_lt_is_Some_2 (ms_symbols ms) i) as [e Hi]; [lia|].
    rewrite Hi. destruct (symbol_of_entry (E:=Never) e) as [Hsym Hl]; [by eapply list_elem_of_lookup_2|].
    pose proof (Hlt i e ltac:(lia) Hi) as Hle. rewrite Forall_forall in Hu. specialize (Hu _ Hl).
    destruct e as [a range]. cbn [unwrap res_bind fst snd entry_symbol] in *. rewrite Hsym.
    eexists. split; [done|]. rewrite va_sub_small by tauto. unfold as_u64, is_u64 in *.
    rewrite Z.mod_small by lia. replace (addr - (addr - a)) with a by lia.
    split_and!; [lia|exact Hl|]. intros p (e' & He' & <-)%entry_of_symbol Hp.
    apply list_elem_of_lookup in He' as [j Hj]. cbn [entry_symbol fst] in *.
    destruct (decide (j <= i)%nat) as [Hji|Hji].
    + exact (mh_sorted _ _ holds j i e' (a, range) Hji Hj Hi).
    + pose proof (Hgt j e' ltac:(lia) Hj). lia.
Qed.

Lemma get_address_holds name :
  ∃ r, get_address ms name = Ok r ∧
  match r with
  | Some addr => (addr, name) ∈ l
  | None => ∀ addr, (addr, name) ∉ l
  end.
Proof.
  unfold get_address. set (n := str_bytes name).
  set (c := λ x, (cmp_to_name ms n x false).1).
  assert (Hc : ∀ e, e ∈ ms_addresses ms → c e = bytes_cmp (entry_name (ms_buffer ms) e) n ∧
                    ∀ p, (cmp_to_name ms n e p).2 = p).
  { intros e He. rewrite (mh_addresses _ _ holds) in He. unfold c, cmp_to_name.
    by rewrite (mh_names _ _ holds e He). }
  assert (Hsort : bs_sorted c (ms_addresses ms)).
  { intros i j x y Hij Hi Hj. pose proof (mh_name_sorted _ _ holds i j x y Hij Hi Hj) as Hle.
    destruct (Hc x) as [-> _]; [by eapply list_elem_of_lookup_2|].
    destruct (Hc y) as [-> _]; [by eapply list_elem_of_lookup_2|].
    unfold cmp_name in Hle. set (a := entry_name _ x) in *. set (b := entry_name _ y) in *. split.
    - intros Hg. destruct (bytes_cmp b n) eqn:E; [..|done]; exfalso;
        apply (bytes_le_trans a b n); unfold bytes_le; congruence.
    - intros Hl. destruct (bytes_cmp a n) eqn:E; [|done|].
      + apply bytes_cmp_eq in E as Heq. rewrite <- Heq in Hl. rewrite bytes_cmp_flip, Hl in Hle. done.
      + exfalso. apply (bytes_le_trans a b n); unfold bytes_le; congruence. }
  pose proof (binary_search_st_spec (cmp_to_name ms n) c ltac:(intros x s; unfold c, cmp_to_name; by case_match)
    (ms_addresses ms) false Hsort) as Hs.
  pose proof (binary_search_st_state (cmp_to_name ms n) (λ p, p = false) (ms_addresses ms) false) as Hp.
  forward Hp. { intros x p Hx ->. by apply (Hc x). } specialize (Hp eq_refl).
  destruct (binary_search_st _ _ _) as [res p]. cbn [fst snd] in *. subst p.
  assert (Hin : ∀ e, e ∈ ms_addresses ms → entry_symbol (ms_buffer ms) e ∈ l).
  { intros e He. rewrite (mh_addresses _ _ holds) in He. by apply (symbol_of_entry (E:=Never)). }
  destruct res as [i|i].
  - destruct Hs as (e & Hi & He). rewrite Hi. cbn [unwrap res_bind]. eexists. split; [done|].
    assert (Hel : e ∈ ms_addresses ms) by by eapply list_elem_of_lookup_2.
    destruct (Hc e Hel) as [Hce _]. rewrite Hce in He. apply bytes_cmp_eq in He.
    specialize (Hin e Hel). unfold entry_symbol in Hin. rewrite He in Hin.
    unfold n in Hin. by rewrite bytes_str_bytes in Hin.
  - exists None. split; [done|]. intros addr (e & He & Heq)%entry_of_symbol.
    rewrite <- (mh_addresses _ _ holds) in He. destruct (Hc e He) as [Hce _].
    assert (Hn : entry_name (ms_buffer ms) e = n).
    { unfold n. injection Heq as _ <-. by rewrite str_bytes_str. }
    assert (Heqc : c e = Eq) by (rewrite Hce; by apply bytes_cmp_eq).
    apply list_elem_of_lookup in He as [j Hj]. destruct Hs as (_ & Hlt & Hgt).
    destruct (decide (j < i)%nat) as [Hd|Hd];
      [pose proof (Hlt j e Hd Hj)|pose proof (Hgt j e ltac:(lia) Hj)]; congruence.
Qed.
End lookups.

(** ** Properties *)

Section claims.
Context {bm : Build}.
Variable sort : (SymbolEntry → SymbolEntry → comparison) → list SymbolEntry → list SymbolEntry.
Context `{!SortOk sort}.

Lemma build_extend_holds l :
  utf8_names l → ∃ ms, build sort (builder_extend builder_new l) = Ok ms ∧ module_holds ms l.
Proof.
  intros Hl. destruct (build_holds sort (builder_extend builder_new l) l) as (ms & Hb & Hh & _); [|eauto].
  apply (builder_extend_holds builder_new []); [done|apply builder_new_holds].
Qed.

(** C14. Lookup by address, in the module built from any list of symbols: it
    returns a name that was pushed with the address, and [None] exactly when
    there is none; slicing the shared buffer of names never panics. *)
Theorem get_symbol_spec l addr :
  utf8_names l →
  ∃ ms r, build sort (builder_extend builder_new l) = Ok ms ∧ get_symbol ms addr = Ok r ∧
  match r with
  | Some name => (addr, name) ∈ l
  | None => ∀ name, (addr, name) ∉ l
  end.
Proof.
  intros Hl. destruct (build_extend_holds l Hl) as (ms & Hb & Hh).
  destruct (get_symbol_holds ms l Hh addr) as (r & Hr & Hspec). eauto.
Qed.

(** C15. Inexact lookup: it returns the symbol that starts at the greatest
    address not above the one asked for, with the distance to it, and [None]
    exactly when all the symbols are above. *)
Theorem get_symbol_inexact_spec l addr :
  utf8_names l → is_u64 addr → Forall (λ p, is_u64 p.1 ∧ is_i64 (addr - p.1)) l →
  ∃ ms r, build sort (builder_extend builder_new l) = Ok ms ∧ get_symbol_inexact ms addr = Ok r ∧
  match r with
  | Some (name, offset) => 0 <= offset ∧ (addr - offset, name) ∈ l ∧
      ∀ p, p ∈ l → p.1 <= addr → p.1 <= addr - offset
  | None => ∀ p, p ∈ l → addr < p.1
  end.
Proof.
  intros Hl Ha Hu. destruct (build_extend_holds l Hl) as (ms & Hb & Hh).
  destruct (get_symbol_inexact_holds ms l Hh addr Ha Hu) as (r & Hr & Hspec). eauto.
Qed.

(** C16. Lookup by name: it returns an address that was pushed with the name, and
    [None] exactly when there is none. *)
Theorem get_address_spec l name :
  utf8_names l →
  ∃ ms r, build sort (builder_extend builder_new l) = Ok ms ∧ get_address ms name = Ok r ∧
  match r with
  | Some addr => (addr, name) ∈ l
  | None => ∀ addr, (addr, name) ∉ l
  end.
Proof.
  intros Hl. destruct (build_extend_holds l Hl) as (ms & Hb & Hh).
  destruct (get_address_holds ms l Hh name) as (r & Hr & Hspec). eauto.
Qed.

(** The symbols of a module are loaded at most once: after a load that
    succeeds, every later load of the same name returns the same symbols without
    running its function, and the other modules are as before; a load that fails
    says which module it was and changes nothing. *)
Theorem load_module_once {M} `{OnceMapLaws M} (self : SymbolsIndexer M) name f :
  om_get (si_modules self) name = None →
  match f name with
  | Ok v => ∃ self', load_module name f self = (Ok v, self') ∧
      get_module self' name = v ∧
      (∀ g, load_module name g self' = (Ok v, self')) ∧
      ∀ k, k ≠ name → get_module self' k = get_module self k
  | Err e => load_module name f self =
      (Err (vm_error_with_context
              ("failed to load symbols for module " +:+ quote +:+ name +:+ quote)%string (DynVm e)), self)
  | _ => True
  end.
Proof.
  intros Hn. unfold load_module. destruct (f name) as [v|e| |] eqn:Hf; [| |done..].
  - edestruct (om_absent_ok (si_modules self) name) as (m' & -> & Hg & Hk);
      [done|unfold result_with_context; by rewrite Hf|].
    eexists. split; [done|]. unfold get_module. cbn [si_modules]. split_and!.
    + by rewrite Hg.
    + intros g. by rewrite (om_present m' name _ v Hg).
    + intros k Hk'. by rewrite Hk.
  - rewrite (om_absent_err _ _ _ (vm_error_with_context
              ("failed to load symbols for module " +:+ quote +:+ name +:+ quote)%string (DynVm e)));
      [by destruct self|done|]. unfold result_with_context. by rewrite Hf.
Qed.
End claims.

(** ** The properties at concrete inputs *)

Definition sample_symbols : list (Z * string) :=
  [(0x30, "start"); (0x10, "init"); (0x20, "main")]%string.

Lemma sample_symbols_utf8 : utf8_names sample_symbols.
Proof. repeat constructor. Qed.

Lemma get_symbol_spec_witness :
  ∃ ms r, build sort_by (builder_extend builder_new sample_symbols) = Ok ms ∧ get_symbol ms 0x20 = Ok r ∧
          r = Some "main"%string.
Proof.
  destruct (get_symbol_spec sort_by sample_symbols 0x20 sample_symbols_utf8) as (ms & r & Hb & Hr & _).
  exists ms, r. split; [exact Hb|]. split; [exact Hr|].
  vm_compute in Hb. injection Hb as <-. vm_compute in Hr. by injection Hr.
Defined.

Lemma get_symbol_inexact_spec_witness :
  ∃ ms r, build sort_by (builder_extend builder_new sample_symbols) = Ok ms ∧
          get_symbol_inexact ms 0x2f = Ok r ∧ r = Some ("main"%string, 15).
Proof.
  destruct (get_symbol_inexact_spec sort_by sample_symbols 0x2f sample_symbols_utf8) as (ms & r & Hb & Hr & _).
  - by split.
  - repeat constructor; cbn; unfold is_i64; lia.
  - exists ms, r. split; [exact Hb|]. split; [exact Hr|].
    vm_compute in Hb. injection Hb as <-. vm_compute in Hr. by injection Hr.
Defined.

Lemma get_address_spec_witness :
  ∃ ms r, build sort_by (builder_extend builder_new sample_symbols) = Ok ms ∧
          get_address ms "init"%string = Ok r ∧ r = Some 0x10.
Proof.
  destruct (get_address_spec sort_by sample_symbols "init"%string sample_symbols_utf8) as (ms & r & Hb & Hr & _).
  exists ms, r. split; [exact Hb|]. split; [exact Hr|].
  vm_compute in Hb. injection Hb as <-. vm_compute in Hr. by injection Hr.
Defined.

Lemma load_module_once_witness :
  load_module "libc"%string (λ _, Err unsupported)
    (indexer_new (M := gmap string (option ModuleSymbols))) =
  (Err (vm_error_with_context
          ("failed to load symbols for module " +:+ quote +:+ "libc" +:+ quote)%string (DynVm unsupported)),
   indexer_new).
Proof.
  exact (load_module_once (indexer_new (M := gmap string (option ModuleSymbols))) "libc"%string
    (λ _, Err unsupported) eq_refl).
Defined.
