(* ===== verification/SymbolsFile.v ===== *)
(** * Symbol files ([vminer-core/src/symbols/symbols_file.rs])

    Lines like [ffffffffba000200 D linux_banner], as in [System.map].  The file
    has two readers of lines, for builds with and without the standard library;
    the parser is the same. *)

From S2P Require Import Prelude Rust Layout Addr Error Text Symbols.

(** The state of a reader: the bytes that are left.  It returns the text to
    append to the line and the number of bytes read. *)
Notation LineReader := (MutRes bytes VmError (bytes * nat)).

Notation newline_byte := Byte.x0a.
Notation tab_byte := Byte.x09.

(** With the standard library: [BufRead::read_line] of [&[u8]], which keeps the
    newline and fails on text that is not UTF-8. *)
Definition read_one_line_std : LineReader := λ bs,
  let n := match find_byte newline_byte bs with Some i => S i | None => length bs end in
  if utf8_valid (take n bs) then (Ok (take n bs, n), drop n bs)
  else (Err (vm_of_io (io_new InvalidData "stream did not contain valid UTF-8"%string)), drop n bs).

(** Without it: the reader is left at the newline.  The message of the UTF-8
    error is the standard library's; [memchr] is another crate's. *)
Definition read_one_line_no_std (memchr : byte → bytes → option nat) (utf8_error : bytes → string)
  : LineReader := λ bs,
  let '(line, rest) := match memchr newline_byte bs with
                       | Some i => (take i bs, drop i bs)
                       | None => (bs, [])
                       end in
  if utf8_valid line then (Ok (line, length line), rest)
  else (Err (vm_error_new (DynForeign (utf8_error line) [])), rest).

(** [rest.find(&['\t', '\n'][..])] *)
Fixpoint find_tab_or_newline (bs : bytes) : option nat :=
  match bs with
  | [] => None
  | c :: bs =>
      if bool_decide (c = tab_byte) || bool_decide (c = newline_byte) then Some O
      else S <$> find_tab_or_newline bs
  end.

(** [u8::to_ascii_uppercase] *)
Definition to_ascii_uppercase (b : byte) : Z :=
  if (97 <=? bz b) && (bz b <=? 122) then bz b - 32 else bz b.

(** The closure that parses one line: [T], [A], [D] and [R] symbols only. *)
Definition parse_line (line : bytes) : Res Never (option (bytes * Z)) :=
  let? ' (start, rest) := str_split_at line 19 in
  let? digits := str_slice start 0 16 in
  match u64_from_str_radix 16 digits with
  | None => Ok None
  | Some addr =>
      let? kind := slice_index start 17 in
      let k := to_ascii_uppercase kind in
      if (k =? 84) || (k =? 65) || (k =? 68) || (k =? 82) then
        let? name := match find_tab_or_newline rest with
                     | Some i => str_slice rest 0 i
                     | None => Ok rest
                     end in
        Ok (Some (name, addr))
      else Ok None
  end.

Section parse.
Variable read_one_line : LineReader.

(** The reader, in a computation on the reader and the symbols. *)
Definition on_reader {A} (f : MutRes bytes VmError A) : MutRes (bytes * ModuleSymbolsBuilder) VmError A :=
  λ '(r, syms), let (a, r) := f r in (a, (r, syms)).

Definition push_sym (addr : Z) (name : bytes) : MutRes (bytes * ModuleSymbolsBuilder) VmError unit :=
  λ '(r, syms), (Ok tt, (r, builder_push syms addr (bytes_str name))).

(** The loop; every line but the last has at least one byte.  The symbols that
    were pushed before an error stay. *)
Fixpoint parse_lines (fuel : nat) : MutRes (bytes * ModuleSymbolsBuilder) VmError unit :=
  match fuel with
  | O => mut_lift NoFuel
  | S fuel =>
      let! line := on_reader read_one_line in
      let '(line, n) := line in
      if (n =? 0)%nat then mut_ret tt
      else
        let! sym := mut_lift (from_never (parse_line line)) in
        let! _ := match sym with Some (name, addr) => push_sym addr name | None => mut_ret tt end in
        parse_lines fuel
  end.

Definition parse_symbol_file_inner (r : bytes) : MutRes ModuleSymbolsBuilder VmError unit := λ syms,
  let '(result, (_, syms)) := parse_lines (S (length r)) (r, syms) in (result, syms).
End parse.

(** [read_from_bytes] of a build with the standard library. *)
Definition read_from_bytes (bs : bytes) : MutRes ModuleSymbolsBuilder VmError unit :=
  parse_symbol_file_inner read_one_line_std bs.

(** ** Facts *)

(** Every line consumes what it returns. *)
Lemma read_one_line_std_progress bs line n rest :
  read_one_line_std bs = (Ok (line, n), rest) →
  bs = line ++ rest ∧ n = length line ∧ (bs ≠ [] → (0 < n)%nat).
Proof.
  unfold read_one_line_std. set (k := match find_byte _ _ with Some i => S i | None => length bs end).
  assert (Hk : (k <= length bs)%nat ∧ (bs ≠ [] → (0 < k)%nat)).
  { unfold k. destruct (find_byte _ _) as [i|] eqn:E.
    - apply find_byte_some in E as [Hl _]. apply lookup_lt_Some in Hl. lia.
    - split; [done|]. destruct bs; [done|cbn; lia]. }
  clearbody k. destruct (utf8_valid _); [|done]. intros [= <- <- <-].
  rewrite take_drop, length_take. split_and!; [done|lia|tauto].
Qed.

(** The loop ends: enough fuel is one more than the number of bytes. *)
Lemma parse_lines_total fuel bs syms :
  (length bs < fuel)%nat → (parse_lines read_one_line_std fuel (bs, syms)).1 ≠ NoFuel.
Proof.
  revert syms bs. induction fuel as [|fuel IH]; intros syms bs Hf; [lia|].
  cbn [parse_lines]. unfold mut_bind at 1, on_reader.
  destruct (read_one_line_std bs) as [[[line n]|e| |] rest] eqn:Hr; try done.
  - destruct (Nat.eqb_spec n 0) as [|Hn]; [done|].
    apply read_one_line_std_progress in Hr as (-> & Hl & _). rewrite length_app in Hf.
    unfold mut_bind, mut_lift.
    assert (Hp : parse_line line ≠ NoFuel).
    { unfold parse_line, str_split_at, str_slice, slice_index, unwrap.
      repeat (case_match; cbn [res_bind]; try done). }
    destruct (parse_line line) as [[[name addr]|]|[]| |]; cbn [from_never map_err]; [apply IH; lia..|done|done].
  - unfold read_one_line_std in Hr. by case_match.
Qed.

(** ** Files as they are written by [nm] and the kernel *)

Definition hex_digit (k : Z) : byte := zb (if k <? 10 then 48 + k else 87 + k).

Fixpoint hex (n : nat) (z : Z) : bytes :=
  match n with
  | O => []
  | S n => hex n (z / 16) ++ [hex_digit (z mod 16)]
  end.

Record FileLine := { fl_addr : Z; fl_kind : byte; fl_name : string }.

Definition format_line (l : FileLine) : bytes :=
  hex 16 (fl_addr l) ++ [Byte.x20; fl_kind l; Byte.x20] ++ str_bytes (fl_name l) ++ [newline_byte].

Definition format_file (lines : list FileLine) : bytes := concat (format_line <$> lines).

Definition line_ok (l : FileLine) : Prop :=
  is_u64 (fl_addr l) ∧ bz (fl_kind l) < 0x80 ∧ fl_kind l ≠ newline_byte ∧
  utf8_valid (str_bytes (fl_name l)) = true ∧
  newline_byte ∉ str_bytes (fl_name l) ∧ tab_byte ∉ str_bytes (fl_name l).

(** The symbols that a file is read for. *)
Definition kind_wanted (b : byte) : bool :=
  let k := to_ascii_uppercase b in (k =? 84) || (k =? 65) || (k =? 68) || (k =? 82).

Definition file_symbols (lines : list FileLine) : list (Z * string) :=
  (λ l, (fl_addr l, fl_name l)) <$> filter (λ l, kind_wanted (fl_kind l) = true) lines.

Lemma hex_digit_spec k :
  0 <= k < 16 → digit_value 16 (hex_digit k) = Some k ∧ bz (hex_digit k) ≠ 43 ∧
  bz (hex_digit k) < 0x80 ∧ hex_digit k ≠ newline_byte.
Proof.
  intros Hk. unfold digit_value, hex_digit. rewrite bz_zb.
  assert (Hn : ∀ b, bz b ≠ 10 → b ≠ newline_byte) by (intros b Hb ->; by apply Hb).
  split_and!; [|destruct (Z.ltb_spec k 10); lia..|apply Hn; rewrite bz_zb; destruct (Z.ltb_spec k 10); lia].
  destruct (Z.ltb_spec k 10); rewrite Z.mod_small by lia.
  - replace ((48 <=? 48 + k) && _) with true by lia. replace (_ <? 16) with true by lia. f_equal. lia.
  - replace ((48 <=? 87 + k) && _) with false by lia. replace ((97 <=? 87 + k) && _) with true by lia.
    replace (_ <? 16) with true by lia. f_equal. lia.
Qed.

Lemma hex_length n z : length (hex n z) = n.
Proof. revert z. induction n as [|n IH]; intros z; cbn; [done|]. rewrite length_app, IH. cbn. lia. Qed.

Lemma hex_ascii n z b : b ∈ hex n z → bz b < 0x80 ∧ b ≠ newline_byte ∧ bz b ≠ 43.
Proof.
  revert z. induction n as [|n IH]; intros z; cbn [hex]; [by intros ?%not_elem_of_nil|].
  rewrite elem_of_app, list_elem_of_singleton. intros [Hb| ->]; [by eapply IH|].
  destruct (hex_digit_spec (z mod 16)) as (_ & ? & ? & ?); [lia|]. done.
Qed.

Lemma parse_digits_snoc radix limit acc bs b :
  parse_digits radix limit acc (bs ++ [b]) =
  (v ← parse_digits radix limit acc bs; d ← digit_value radix b;
   if v * radix + d <? limit then Some (v * radix + d) else None).
Proof.
  revert acc. induction bs as [|c bs IH]; intros acc; cbn [app parse_digits].
  - cbn. destruct (digit_value radix b); cbn; [|done]. by destruct (_ <? _).
  - destruct (digit_value radix c); cbn; [|done]. destruct (_ <? _); [apply IH|done].
Qed.

Lemma parse_hex n z limit :
  0 <= z < 16 ^ Z.of_nat n → z < limit → parse_digits 16 limit 0 (hex n z) = Some z.
Proof.
  revert z. induction n as [|n IH]; intros z Hz Hl; [cbn in *; f_equal; lia|].
  cbn [hex]. rewrite parse_digits_snoc, Nat2Z.inj_succ, Z.pow_succ_r in * by lia.
  rewrite IH; [|split; [lia|]; apply Z.div_lt_upper_bound; lia|lia]. cbn.
  destruct (hex_digit_spec (z mod 16)) as [-> _]; [lia|]. cbn.
  replace (z / 16 * 16 + z mod 16) with z by lia. by replace (z <? limit) with true by lia.
Qed.

Lemma u64_from_hex z : is_u64 z → u64_from_str_radix 16 (hex 16 z) = Some z.
Proof.
  intros Hz. unfold u64_from_str_radix, parse_uint.
  pose proof (hex_length 16 z) as Hl. pose proof (hex_ascii 16 z) as Ha.
  pose proof (parse_hex 16 z (2 ^ 64) Hz ltac:(unfold is_u64 in *; lia)) as Hp.
  destruct (hex 16 z) as [|b bs]; [done|].
  destruct (Ha b ltac:(left)) as (_ & _ & Hb). by replace (bz b =? 43) with false by lia.
Qed.

Lemma utf8_ascii bs : (∀ b, b ∈ bs → bz b < 0x80) → utf8_valid bs = true.
Proof.
  induction bs as [|b bs IH]; intros Hb; [done|]. cbn [utf8_valid].
  pose proof (Hb b ltac:(left)). replace (_ <? _) with true by lia. apply IH.
  intros c Hc. apply Hb. by right.
Qed.

Lemma find_tab_spec name rest :
  newline_byte ∉ name → tab_byte ∉ name →
  find_tab_or_newline (name ++ newline_byte :: rest) = Some (length name).
Proof.
  induction name as [|b name IH]; [done|]. rewrite !not_elem_of_cons. intros [Hn Hns] [Ht Hts].
  cbn [app find_tab_or_newline]. rewrite !bool_decide_eq_false_2 by congruence. cbn [orb].
  by rewrite IH.
Qed.

Section line.
Variable l : FileLine.
Hypothesis l_ok : line_ok l.

Let tail := str_bytes (fl_name l) ++ [newline_byte].
Let head := hex 16 (fl_addr l) ++ [Byte.x20; fl_kind l; Byte.x20].

Lemma format_line_eq : format_line l = head ++ tail.
Proof. unfold format_line, head, tail. by rewrite <- app_assoc. Qed.

Lemma head_length : length head = 19%nat.
Proof. unfold head. by rewrite length_app, hex_length. Qed.

Lemma tail_utf8 : utf8_valid tail = true.
Proof. apply utf8_app; [apply l_ok|done]. Qed.

Lemma head_ascii b : b ∈ head → bz b < 0x80 ∧ b ≠ newline_byte.
Proof.
  unfold head. rewrite elem_of_app, !elem_of_cons. destruct l_ok as (_ & Hk & Hn & _).
  intros [Hb|[->|[->|[->|Hb]]]]; [|done..|by apply not_elem_of_nil in Hb].
  by apply hex_ascii in Hb as (? & ? & _).
Qed.

Lemma format_line_utf8 : utf8_valid (format_line l) = true.
Proof.
  rewrite format_line_eq. apply utf8_app; [|apply tail_utf8]. apply utf8_ascii.
  intros b Hb. by apply head_ascii.
Qed.

Lemma head_digits : take 16 (format_line l) = hex 16 (fl_addr l).
Proof. unfold format_line. rewrite take_app_le, take_ge by (rewrite hex_length; lia). done. Qed.

Lemma parse_format_line :
  parse_line (format_line l) =
  Ok (if kind_wanted (fl_kind l) then Some (str_bytes (fl_name l), fl_addr l) else None).
Proof.
  pose proof head_length as Hh. pose proof format_line_eq as Heq.
  unfold parse_line, str_split_at.
  assert (Hb : char_boundary (format_line l) 19 = true)
    by (rewrite Heq, <- Hh; apply char_boundary_app, tail_utf8).
  rewrite Hb. replace (19 <=? length (format_line l))%nat with true by (rewrite Heq, length_app; lia).
  cbn [andb res_bind].
  assert (Ht : take 19 (format_line l) = head) by (rewrite Heq, take_app_le, take_ge by lia; done).
  assert (Hd : drop 19 (format_line l) = tail)
    by (rewrite Heq, drop_app_ge by lia; by rewrite Hh).
  rewrite Ht, Hd. unfold str_slice at 1. rewrite Hh. cbn [Nat.leb andb].
  assert (Hb16 : char_boundary head 16 = true).
  { unfold head. pose proof (hex_length 16 (fl_addr l)) as Hl. rewrite <- Hl at 2. apply char_boundary_app.
    apply utf8_ascii. intros b Hin. apply head_ascii. unfold head. rewrite elem_of_app. by right. }
  cbn [char_boundary] in Hb16 |- *. rewrite Hb16.
  replace (take (16 - 0) (drop 0 head)) with (hex 16 (fl_addr l))
    by (unfold head; rewrite drop_0, take_app_le, take_ge by (rewrite hex_length; lia); done).
  cbn [andb res_bind]. rewrite u64_from_hex by apply l_ok.
  unfold slice_index. replace (17 <? 0) with false by done.
  assert (Hk : head !! Z.to_nat 17 = Some (fl_kind l)).
  { unfold head. rewrite lookup_app_r by (rewrite hex_length; lia). by rewrite hex_length. }
  rewrite Hk. cbn [unwrap res_bind]. fold (kind_wanted (fl_kind l)). unfold kind_wanted.
  destruct (_ || _); [|done]. unfold tail.
  rewrite find_tab_spec by apply l_ok. unfold str_slice. cbn [char_boundary].
  rewrite char_boundary_app by done. rewrite length_app. cbn [length Nat.leb].
  replace (_ <=? _)%nat with true by lia. cbn [andb res_bind].
  rewrite drop_0, Nat.sub_0_r, take_app_le, take_ge by lia. done.
Qed.

Lemma read_format_line rest :
  read_one_line_std (format_line l ++ rest) = (Ok (format_line l, length (format_line l)), rest).
Proof.
  pose proof (proj1 (proj2 (proj2 (proj2 (proj2 l_ok))))) as Hnl.
  assert (Hf : find_byte newline_byte (format_line l ++ rest) =
               Some (length head + length (str_bytes (fl_name l)))%nat).
  { apply find_byte_some. rewrite format_line_eq. unfold tail. rewrite <- !app_assoc, (app_assoc head).
    rewrite <- length_app. split.
    - by apply list_lookup_middle.
    - rewrite take_app_length. rewrite not_elem_of_app. split; [|done]. intros Hb.
      by apply head_ascii in Hb as [_ ?]. }
  unfold read_one_line_std. rewrite Hf.
  assert (Hlen : S (length head + length (str_bytes (fl_name l))) = length (format_line l))
    by (rewrite format_line_eq; unfold tail; rewrite !length_app; cbn; lia).
  rewrite Hlen, take_app_length, drop_app_length, format_line_utf8. done.
Qed.
End line.

Lemma parse_format_file fuel lines syms :
  Forall line_ok lines → (length (format_file lines) < fuel)%nat →
  parse_lines read_one_line_std fuel (format_file lines, syms) =
  (Ok tt, ([], builder_extend syms (file_symbols lines))).
Proof.
  intros Hl. revert fuel syms. induction Hl as [|l lines Hl _ IH]; intros fuel syms Hf.
  - destruct fuel; [cbn in Hf; lia|]. done.
  - unfold format_file in *. cbn [fmap list_fmap concat] in *. rewrite length_app in Hf.
    destruct fuel as [|fuel]; [lia|]. cbn [parse_lines]. unfold mut_bind at 1, on_reader.
    rewrite read_format_line by done.
    assert (Hpos : (0 < length (format_line l))%nat)
      by (rewrite format_line_eq, length_app, head_length; lia).
    replace (_ =? 0)%nat with false by lia. unfold mut_bind, mut_lift.
    rewrite parse_format_line by done. cbn [from_never map_err].
    unfold file_symbols. rewrite filter_cons.
    destruct (kind_wanted (fl_kind l)) eqn:Hk.
    + rewrite decide_True by done. unfold push_sym. rewrite bytes_str_bytes, IH by lia. done.
    + rewrite decide_False by done. unfold mut_ret at 1. rewrite IH by lia. done.
Qed.

(** ** Properties *)

(** C13. Reading a symbol file gives its symbols: from the text of any list of
    lines (address, kind, name), the parser pushes exactly those of kind [T],
    [A], [D] and [R], upper or lower case, in order, with their address and the
    name up to the end of the line. *)
Theorem read_symbol_file lines syms :
  Forall line_ok lines →
  read_from_bytes (format_file lines) syms = (Ok tt, builder_extend syms (file_symbols lines)).
Proof.
  intros Hl. unfold read_from_bytes, parse_symbol_file_inner.
  rewrite parse_format_file by (done || lia). done.
Qed.

(** The parser ends on every input, whatever its bytes. *)
Theorem read_symbol_file_ends bs syms : (read_from_bytes bs syms).1 ≠ NoFuel.
Proof.
  unfold read_from_bytes, parse_symbol_file_inner.
  pose proof (parse_lines_total (S (length bs)) bs syms ltac:(lia)) as H.
  by destruct (parse_lines _ _ _) as [r [? ?]].
Qed.

(** A line of less than 19 bytes, an empty one included, stops the program: the
    parser splits it at 19. *)
Theorem short_line_panics line rest syms :
  newline_byte ∉ line → utf8_valid (line ++ [newline_byte]) = true → (length line < 18)%nat →
  read_from_bytes (line ++ newline_byte :: rest) syms = (Panic, syms).
Proof.
  intros Hn Hu Hl. unfold read_from_bytes, parse_symbol_file_inner. cbn [parse_lines].
  unfold mut_bind at 1, on_reader, read_one_line_std.
  assert (Hf : find_byte newline_byte (line ++ newline_byte :: rest) = Some (length line)).
  { apply find_byte_some. split; [by apply list_lookup_middle|]. by rewrite take_app_length. }
  rewrite Hf. replace (line ++ newline_byte :: rest) with ((line ++ [newline_byte]) ++ rest)
    by by rewrite <- app_assoc.
  assert (HS : S (length line) = length (line ++ [newline_byte])) by (rewrite length_app; cbn; lia).
  rewrite HS, take_app_length, Hu, <- HS. cbn [Nat.eqb].
  unfold mut_bind, mut_lift, parse_line, str_split_at.
  replace (19 <=? length (line ++ [newline_byte]))%nat with false by (rewrite <- HS; lia). done.
Qed.

Definition sample_line (addr : Z) (kind : byte) (name : string) : FileLine :=
  {| fl_addr := addr; fl_kind := kind; fl_name := name |}.

Definition sample_lines : list FileLine :=
  [sample_line 0xffffffffba000200 (zb 68) "linux_banner"; sample_line 0x1000 (zb 117) "weak";
   sample_line 0xffffffffba000300 (zb 116) "init_task"].

(** Without the standard library only the first line is read: the reader is
    left at the newline, so that the next line is empty. *)
Theorem no_std_first_line_only :
  let r := parse_symbol_file_inner (read_one_line_no_std find_byte (λ _, ""%string)) (format_file sample_lines) builder_new in
  r.1 = Ok tt ∧ mb_symbols r.2 = mb_symbols (builder_extend builder_new [(0xffffffffba000200, "linux_banner"%string)]).
Proof. split; vm_compute; reflexivity. Qed.

Lemma read_symbol_file_witness :
  read_from_bytes (format_file sample_lines) builder_new =
  (Ok tt, builder_extend builder_new
        [(0xffffffffba000200, "linux_banner"); (0xffffffffba000300, "init_task")]%string).
Proof.
  etransitivity; [apply (read_symbol_file sample_lines builder_new)|reflexivity].
  assert (Hin : ∀ b (bs : bytes), bool_decide (b ∈ bs) = false → b ∉ bs)
    by (intros b bs H; by apply bool_decide_eq_false in H).
  repeat constructor; try (cbn; lia); try (by apply Hin); try done; discriminate.
Defined.
