(* ===== verification/Os.v ===== *)
(** * Operating systems ([vminer-core/src/os.rs])

    The trait [Os]: what an operating system offers, and the methods it derives
    from that.  [Process], [Thread], [Module] and [Vma] are transparent wrappers
    of a virtual address; they are modelled by the address.

    The iterations of the trait take a [&mut dyn FnMut]: a callback works on the
    variables it captures, so it is a function on a state, and an iteration is a
    function that is polymorphic in that state.  The only state of the operating
    system itself is the index of symbols, to which [module_symbols] adds. *)

From S2P Require Import Prelude Rust Layout Addr Error Mem Text Registers Mmu Arch Symbols.

(** ** Flags of a VMA *)

Definition VmaFlags := Z.

Definition VMA_READ : VmaFlags := 0x1.
Definition VMA_WRITE : VmaFlags := 0x2.
Definition VMA_EXEC : VmaFlags := 0x4.

Definition is_read (self : VmaFlags) : bool := negb (Z.land self VMA_READ =? 0).
Definition is_write (self : VmaFlags) : bool := negb (Z.land self VMA_WRITE =? 0).
Definition is_exec (self : VmaFlags) : bool := negb (Z.land self VMA_EXEC =? 0).

(** [BitOr] and [BitOrAssign] *)
Definition flags_or (self rhs : VmaFlags) : VmaFlags := Z.lor self rhs.

(** ** Callbacks and iterations *)

(** The type of [for_each_process] and of the other iterations. *)
Definition ForEach (T : Type) : Type :=
  ∀ S : Type, (T → MutRes S VmError ControlFlow) → MutRes S VmError unit.

(** The callback made from a predicate; its state is [result]. *)
Definition find {T} (predicate : T → VmResult bool) (item : T)
  : MutRes (option T) VmError ControlFlow := λ result,
  match predicate item with
  | Ok true => (Ok Break, Some item)
  | Ok false => (Ok Continue, result)
  | Err e => (Err e, result)
  | Panic => (Panic, result)
  | NoFuel => (NoFuel, result)
  end.

Definition push_to {T} (item : T) : MutRes (list T) VmError ControlFlow :=
  λ vec, (Ok Continue, vec ++ [item]).

(** The value of a variable after an iteration on it, unless the iteration
    fails. *)
Definition run_on {S} (init : S) (m : MutRes S VmError unit) : VmResult S :=
  let (r, s) := m init in let? _ := r in Ok s.

Record StackFrame := {
  frame_start : option Z;
  frame_size : option Z;
  frame_stack_pointer : Z;
  frame_instruction_pointer : Z;
  frame_module : option Z;
}.

(** ** The trait *)

(** The required methods, and the provided methods that an implementation
    overrides (the last four).  [St] is the state of the index of symbols. *)
Record Os (A St : Type) `{ArchTypes A} := {
  os_vcpus : HasVcpus A;
  os_read_virtual_memory : Z → Z → MutRes bytes VmError unit;
  os_try_read_virtual_memory : Z → Z → MutRes bytes VmError unit;
  kernel_pgd : Z;
  for_each_kernel_module : ForEach Z;
  init_process : VmResult Z;
  current_thread : Z → VmResult Z;
  process_is_kernel : Z → VmResult bool;
  process_id : Z → VmResult Z;
  process_name : Z → VmResult string;
  process_pgd : Z → VmResult Z;
  process_path : Z → VmResult (option string);
  process_parent : Z → VmResult Z;
  process_parent_id : Z → VmResult Z;
  process_for_each_child : Z → ForEach Z;
  process_for_each_thread : Z → ForEach Z;
  process_for_each_module : Z → ForEach Z;
  for_each_process : ForEach Z;
  process_for_each_vma : Z → ForEach Z;
  thread_process : Z → VmResult Z;
  thread_id : Z → VmResult Z;
  thread_name : Z → VmResult (option string);
  vma_path : Z → VmResult (option string);
  vma_start : Z → VmResult Z;
  vma_end : Z → VmResult Z;
  vma_flags : Z → VmResult VmaFlags;
  module_span : Z → Z → VmResult (Z * Z);
  module_name : Z → Z → VmResult string;
  module_path : Z → Z → VmResult string;
  module_symbols : Z → Z → MutRes St VmError (option ModuleSymbols);
  read_process_memory : Z → Z → Z → MutRes bytes VmError unit;
  try_read_process_memory : Z → Z → Z → MutRes bytes VmError unit;
  process_find_vma_by_address : Z → Z → VmResult (option Z);
}.
Arguments os_vcpus {A St _}. Arguments os_read_virtual_memory {A St _}.
Arguments os_try_read_virtual_memory {A St _}. Arguments kernel_pgd {A St _}.
Arguments for_each_kernel_module {A St _}. Arguments init_process {A St _}.
Arguments current_thread {A St _}. Arguments process_is_kernel {A St _}.
Arguments process_id {A St _}. Arguments process_name {A St _}.
Arguments process_pgd {A St _}. Arguments process_path {A St _}.
Arguments process_parent {A St _}. Arguments process_parent_id {A St _}.
Arguments process_for_each_child {A St _}. Arguments process_for_each_thread {A St _}.
Arguments process_for_each_module {A St _}. Arguments for_each_process {A St _}.
Arguments process_for_each_vma {A St _}. Arguments thread_process {A St _}.
Arguments thread_id {A St _}. Arguments thread_name {A St _}. Arguments vma_path {A St _}.
Arguments vma_start {A St _}. Arguments vma_end {A St _}. Arguments vma_flags {A St _}.
Arguments module_span {A St _}. Arguments module_name {A St _}. Arguments module_path {A St _}.
Arguments module_symbols {A St _}. Arguments read_process_memory {A St _}.
Arguments try_read_process_memory {A St _}. Arguments process_find_vma_by_address {A St _}.

(** ** Provided methods that are overridden *)

Definition default_read_process_memory (read_virtual_memory : Z → Z → MutRes bytes VmError unit)
    (_proc mmu_addr addr : Z) : MutRes bytes VmError unit :=
  read_virtual_memory mmu_addr addr.

Definition default_vma_contains (vma_start vma_end : Z → VmResult Z) (vma addr : Z) : VmResult bool :=
  let? start := vma_start vma in
  if start <=? addr then let? end_ := vma_end vma in Ok (addr <? end_) else Ok false.

Definition default_find_vma_by_address (process_for_each_vma : Z → ForEach Z)
    (vma_start vma_end : Z → VmResult Z) (proc addr : Z) : VmResult (option Z) :=
  run_on None (process_for_each_vma proc _ (find (λ v, default_vma_contains vma_start vma_end v addr))).

(** ** Provided methods *)

Section os.
Context {bm : Build} {A St : Type} `{ArchTypes A}.
Variable self : Os A St.

Definition read_kernel_memory (addr : Z) : MutRes bytes VmError unit :=
  os_read_virtual_memory self (kernel_pgd self) addr.

Definition current_process (vcpu : Z) : VmResult Z :=
  let? thread := current_thread self vcpu in thread_process self thread.

Definition find_process_by_name (name : string) : VmResult (option Z) :=
  run_on None (for_each_process self _ (find (λ p,
    let? n := process_name self p in Ok (String.eqb n name)))).

Definition find_process_by_id (pid : Z) : VmResult (option Z) :=
  run_on None (for_each_process self _ (find (λ p, let? id := process_id self p in Ok (id =? pid)))).

Definition process_collect_children (proc : Z) : VmResult (list Z) :=
  run_on [] (process_for_each_child self proc _ push_to).

Definition process_collect_threads (proc : Z) : VmResult (list Z) :=
  run_on [] (process_for_each_thread self proc _ push_to).

Definition process_collect_modules (proc : Z) : VmResult (list Z) :=
  run_on [] (process_for_each_module self proc _ push_to).

Definition collect_processes : VmResult (list Z) :=
  run_on [] (for_each_process self _ push_to).

Definition process_collect_vmas (proc : Z) : VmResult (list Z) :=
  run_on [] (process_for_each_vma self proc _ push_to).

Definition vma_contains (vma addr : Z) : VmResult bool :=
  default_vma_contains (vma_start self) (vma_end self) vma addr.

(** The registers of the first vCPU that runs the process. *)
Fixpoint running_registers (proc : Z) (vcpus : list Z) : VmResult (Z * Z * option Z) :=
  match vcpus with
  | [] => Err (vm_error_new (dyn_of_str "Not a running process"))
  | vcpu :: vcpus =>
      let? current := current_process vcpu in
      if current =? proc then
        let? ip := map_err vm_of_vcpu (instruction_pointer (os_vcpus self) vcpu) in
        let? sp := map_err vm_of_vcpu (stack_pointer (os_vcpus self) vcpu) in
        let? bp := map_err vm_of_vcpu (base_pointer (os_vcpus self) vcpu) in
        Ok (ip, sp, bp)
      else running_registers proc vcpus
  end.

(** [process_callstack] passes the registers to the walk of the stack. *)
Definition process_callstack
    (process_callstack_with_regs : Z → Z → Z → option Z → ForEach StackFrame)
    (proc : Z) : ForEach StackFrame := λ S f,
  let! ' (ip, sp, bp) := mut_lift (running_registers proc (vi_items (iter_vcpus (raw_vcpus (os_vcpus self))))) in
  process_callstack_with_regs proc ip sp bp S f.

Definition module_contains (module proc addr : Z) : VmResult bool :=
  let? ' (start, end_) := module_span self module proc in
  Ok ((start <=? addr) && (addr <? end_)).

Definition find_module_by_address (proc addr : Z) : VmResult (option Z) :=
  run_on None
    (if va_is_kernel addr
     then for_each_kernel_module self _ (find (λ m, module_contains m proc addr))
     else process_for_each_module self proc _ (find (λ m, module_contains m proc addr))).

(** The two lookups in the symbols of a module, given the lookup in its table. *)
Definition module_resolve_with {T} (lookup : ModuleSymbols → Z → Res Never (option T))
    (addr proc module : Z) : MutRes St VmError (option T) :=
  let! syms := module_symbols self proc module in
  match syms with
  | None => mut_ret None
  | Some syms =>
      mut_lift (
        let? ' (mod_start, mod_end) := module_span self module proc in
        if negb ((mod_start <=? addr) && (addr <? mod_end))
        then Err (vm_error_new (dyn_of_str "address not in module"))
        else from_never (lookup syms (as_u64 (va_sub addr mod_start))))
  end.

Definition module_resolve_symbol_exact (addr proc module : Z) : MutRes St VmError (option string) :=
  module_resolve_with get_symbol addr proc module.

Definition module_resolve_symbol (addr proc module : Z) : MutRes St VmError (option (string * Z)) :=
  module_resolve_with get_symbol_inexact addr proc module.

Definition resolve_symbol_exact (addr proc : Z) : MutRes St VmError (option string) :=
  let! module := mut_lift (find_module_by_address proc addr) in
  match module with
  | Some module => module_resolve_symbol_exact addr proc module
  | None => mut_ret None
  end.

Definition resolve_symbol (addr proc : Z) : MutRes St VmError (option (string * Z)) :=
  let! module := mut_lift (find_module_by_address proc addr) in
  match module with
  | Some module => module_resolve_symbol addr proc module
  | None => mut_ret None
  end.

(** ** Formatting

    The three demanglers are other crates'; each gives [None] for a symbol it
    does not recognise. *)

Context (rustc_demangle cpp_demangle msvc_demangle : string → option string).

Definition demangle (sym : string) : string :=
  match rustc_demangle sym with
  | Some s => s
  | None => match cpp_demangle sym with
            | Some s => s
            | None => match msvc_demangle sym with Some s => s | None => sym end
            end
  end.

(** [{:#x}] of an address, and of a difference, which is an [i64]. *)
Definition hex_addr (a : Z) : string := format_hex a.
Definition hex_diff (a : Z) : string := format_hex (as_u64 a).

Definition format_in_module (addr : Z) (fun_start : option Z) (symbol : option (string * Z))
    (mod_name : string) (mod_start : Z) (demangle_ : bool) : string :=
  let symbol := (λ so, (if demangle_ then demangle so.1 else so.1, so.2)) <$> symbol in
  (match symbol, fun_start with
   | Some (symbol, 0%Z), _ => mod_name +:+ "!" +:+ symbol
   | Some (symbol, offset), _ => mod_name +:+ "!" +:+ symbol +:+ "+" +:+ hex_addr offset
   | None, Some fun_start =>
       match va_sub addr fun_start with
       | 0%Z => mod_name +:+ "!" +:+ hex_diff (va_sub fun_start mod_start)
       | offset => mod_name +:+ "!" +:+ hex_diff (va_sub fun_start mod_start) +:+ "+" +:+ hex_diff offset
       end
   | None, None => mod_name +:+ "!" +:+ hex_diff (va_sub addr mod_start)
   end)%string.

(** The symbol is looked up from the start of the function when it is known;
    an error is logged and dropped. *)
Definition symbol_in_module (proc module addr : Z) (fun_start : option Z)
  : MutRes St VmError (option (string * Z)) := λ st,
  let (symbol, st) :=
    match fun_start with
    | Some fun_start =>
        (let! s := module_resolve_symbol_exact fun_start proc module in
         mut_ret ((λ s, (s, as_u64 (va_sub addr fun_start))) <$> s)) st
    | None => module_resolve_symbol addr proc module st
    end in
  (match symbol with Err _ => Ok None | symbol => symbol end, st).

Definition format_symbol_with_module (proc module addr : Z) (fun_start : option Z) (demangle_ : bool)
  : MutRes St VmError string :=
  let! ' (mod_start, _) := mut_lift (module_span self module proc) in
  let! mod_name := mut_lift (module_name self module proc) in
  let! symbol := symbol_in_module proc module addr fun_start in
  mut_ret (format_in_module addr fun_start symbol mod_name mod_start demangle_).

(** The [do_format] of [format_symbol_without_module]. *)
Definition format_in_vma (addr : Z) (fun_start vma_start : option Z) : string :=
  let fun_start := (λ start, (start, va_sub addr start)) <$> fun_start in
  (match vma_start, fun_start with
   | Some vma_start, Some (fun_start, offset) =>
       let fun_offset := va_sub vma_start fun_start in
       hex_addr vma_start +:+ "!" +:+ hex_diff fun_offset
       +:+ (match offset with 0%Z => "" | _ => "+" +:+ hex_diff offset end)
   | Some vma_start, None => hex_addr vma_start +:+ "!" +:+ hex_diff (va_sub addr vma_start)
   | None, Some (fun_start, 0%Z) => hex_addr fun_start
   | None, Some (fun_start, offset) => hex_addr fun_start +:+ "+" +:+ hex_diff offset
   | None, None => hex_addr addr
   end)%string.

Definition format_symbol_without_module (proc addr : Z) (fun_start : option Z) : VmResult string :=
  let? vma := process_find_vma_by_address self proc addr in
  let? vma_start := match vma with
                    | Some vma => let? start := vma_start self vma in Ok (Some start)
                    | None => Ok None
                    end in
  Ok (format_in_vma addr fun_start vma_start).

Definition format_symbol (proc addr : Z) (demangle_ : bool) : MutRes St VmError string :=
  let! module := mut_lift (find_module_by_address proc addr) in
  match module with
  | Some module => format_symbol_with_module proc module addr None demangle_
  | None => mut_lift (format_symbol_without_module proc addr None)
  end.

Definition format_stackframe_symbol (proc : Z) (frame : StackFrame) (demangle_ : bool)
  : MutRes St VmError string :=
  let addr := frame_instruction_pointer frame in
  match frame_module frame with
  | Some module => format_symbol_with_module proc module addr (frame_start frame) demangle_
  | None => mut_lift (format_symbol_without_module proc addr (frame_start frame))
  end.
End os.

(** ** The virtual CPUs

    Both operating systems are [HasVcpus] through their backend: every method is
    forwarded, except [register_by_name]. *)

Section forward.
Context {A : Type} `{Architecture A}.

Definition forward_raw_vcpus (v : HasVcpus A) : RawVcpus A := {|
  arch := arch (raw_vcpus v);
  vcpus_count := vcpus_count (raw_vcpus v);
  registers := registers (raw_vcpus v);
  special_registers := special_registers (raw_vcpus v);
  other_registers := other_registers (raw_vcpus v);
|}.

Definition forward_vcpus (v : HasVcpus A) : HasVcpus A := {|
  raw_vcpus := forward_raw_vcpus v;
  register_by_name := arch_register_by_name (arch (raw_vcpus v)) (forward_raw_vcpus v);
  instruction_pointer := instruction_pointer v;
  stack_pointer := stack_pointer v;
  base_pointer := base_pointer v;
  pgd := pgd v;
  kernel_per_cpu := kernel_per_cpu v;
|}.
End forward.
