(* ===== verification/OsSpec.v ===== *)
(** * What the methods of the trait [Os] compute

    [IteratesTo] is the contract of an iteration: it calls its callback on the
    items of a list in order, stops as soon as the callback breaks or fails, and
    ends with its own result when the items are exhausted.  The methods of the
    trait are characterised for every operating system whose iterations keep
    that contract; the files of the operating systems discharge it. *)

From S2P Require Import Prelude Rust Layout Addr Error Mem Text Registers Mmu Arch ArchSpec.
From S2P Require Import Backend Symbols SymbolsSpec Os.

(** ** The contract of an iteration *)

Fixpoint iterate {T S} (f : T → MutRes S VmError ControlFlow) (l : list T) (last : VmResult unit)
  : MutRes S VmError unit :=
  match l with
  | [] => mut_lift last
  | x :: l =>
      let! c := f x in
      if is_break c then mut_ret tt else iterate f l last
  end.

Class IteratesTo {T} (fe : ForEach T) (l : list T) (last : VmResult unit) : Prop :=
  iterates_to : ∀ S f s, fe S f s = iterate f l last s.

Notation Iterates fe l := (IteratesTo fe l (Ok tt)).

(** The first item that satisfies a predicate that may fail. *)
Fixpoint find_first {T} (p : T → VmResult bool) (l : list T) (last : VmResult unit)
  : VmResult (option T) :=
  match l with
  | [] => let? _ := last in Ok None
  | x :: l =>
      let? b := p x in
      if b : bool then Ok (Some x) else find_first p l last
  end.

Lemma iterate_push {T} (l vec : list T) last :
  iterate push_to l last vec = (last, vec ++ l).
Proof.
  revert vec. induction l as [|x l IH]; intros vec; cbn [iterate]; [by rewrite app_nil_r|].
  unfold mut_bind, push_to. cbn. change (λ item vec, (Ok Continue, vec ++ [item])) with (@push_to T).
  rewrite IH. by rewrite <- app_assoc.
Qed.

Lemma collect_iterates {T} (fe : ForEach T) l last :
  IteratesTo fe l last → run_on [] (fe _ push_to) = let? _ := last in Ok l.
Proof. intros Hf. unfold run_on. rewrite Hf, iterate_push. done. Qed.

Lemma run_on_find {T} (p : T → VmResult bool) l last :
  run_on None (iterate (find p) l last) = find_first p l last.
Proof.
  unfold run_on. induction l as [|x l IH]; cbn [iterate find_first]; [by destruct last|].
  unfold mut_bind at 1. unfold find at 1. by destruct (p x) as [[]| | |].
Qed.

Lemma find_iterates {T} (fe : ForEach T) p l last :
  IteratesTo fe l last → run_on None (fe _ (find p)) = find_first p l last.
Proof. intros Hf. rewrite <- run_on_find. unfold run_on. by rewrite Hf. Qed.

(** With a predicate that does not fail on the items, up to the first that
    satisfies it. *)
Lemma find_first_total {T} (p : T → VmResult bool) (b : T → bool) l last :
  (∀ x, x ∈ l → p x = Ok (b x)) →
  find_first p l last = match List.find b l with
                        | Some x => Ok (Some x)
                        | None => let? _ := last in Ok None
                        end.
Proof.
  induction l as [|x l IH]; intros Hp; cbn [find_first List.find]; [done|].
  rewrite Hp by apply list_elem_of_here. cbn [res_bind]. destruct (b x); [done|].
  apply IH. intros y Hy. apply Hp. by apply list_elem_of_further.
Qed.

(** An iteration that skips some items. *)
Lemma iterate_filter {T S} (f : T → MutRes S VmError ControlFlow) (p : T → VmResult bool) (b : T → bool)
    l last s :
  (∀ x, x ∈ l → p x = Ok (b x)) →
  iterate (λ x, let! c := mut_lift (p x) in if c : bool then f x else mut_ret Continue) l last s
  = iterate f (List.filter b l) last s.
Proof.
  revert s. induction l as [|x l IH]; intros s Hp; cbn [iterate List.filter]; [done|].
  assert (Hl : ∀ y, y ∈ l → p y = Ok (b y)) by (intros; apply Hp; by apply list_elem_of_further).
  unfold mut_bind at 1 2, mut_lift at 1. rewrite Hp by apply list_elem_of_here.
  destruct (b x); cbn [is_break mut_ret].
  - cbn [iterate]. unfold mut_bind at 2. destruct (f x s) as [[c| | |] s']; [|done..].
    destruct c; cbn; [by apply IH|done].
  - by apply IH.
Qed.

(** A callback run through a conversion of the items. *)
Lemma iterate_ext {T S} (f g : T → MutRes S VmError ControlFlow) l last s :
  (∀ x s, x ∈ l → f x s = g x s) → iterate f l last s = iterate g l last s.
Proof.
  revert s. induction l as [|x l IH]; intros s Hfg; cbn [iterate]; [done|].
  unfold mut_bind. rewrite Hfg by apply list_elem_of_here.
  destruct (g x s) as [[[]| | |] s']; cbn; [|done..]. apply IH. intros. by apply Hfg, list_elem_of_further.
Qed.

(** ** The methods *)

Definition in_span (span : Z * Z) (addr : Z) : bool := (span.1 <=? addr) && (addr <? span.2).

Section methods.
Context {bm : Build} {A St : Type} `{ArchTypes A}.
Variable self : Os A St.

(** C31. Processes: collecting them gives the items of the iteration, and looking
    one up gives the first with the identifier, without going further; an error
    of the iteration is reported by the first always, by the second only when
    the process comes later. *)
Theorem processes_spec procs last ids pid :
  IteratesTo (for_each_process self) procs last →
  (∀ p, p ∈ procs → process_id self p = Ok (ids p)) →
  collect_processes self = (let? _ := last in Ok procs) ∧
  find_process_by_id self pid =
    match List.find (λ p, ids p =? pid) procs with
    | Some p => Ok (Some p)
    | None => let? _ := last in Ok None
    end.
Proof.
  intros Hi Hid. split; [by apply collect_iterates|].
  unfold find_process_by_id. rewrite (find_iterates _ _ _ _ Hi). apply find_first_total.
  intros p Hp. by rewrite Hid.
Qed.

Definition module_iteration (proc addr : Z) : ForEach Z :=
  if va_is_kernel addr then for_each_kernel_module self else process_for_each_module self proc.

Lemma find_module_holds proc addr modules span :
  Iterates (module_iteration proc addr) modules →
  (∀ m, m ∈ modules → module_span self m proc = Ok (span m)) →
  find_module_by_address self proc addr = Ok (List.find (λ m, in_span (span m) addr) modules).
Proof.
  intros Hi Hs. transitivity (find_first (λ m, module_contains self m proc addr) modules (Ok tt)).
  - rewrite <- (find_iterates _ _ _ _ Hi). unfold find_module_by_address, module_iteration.
    by destruct (va_is_kernel addr).
  - rewrite (find_first_total _ (λ m, in_span (span m) addr)); [by destruct (List.find _ _)|].
    intros m Hm. unfold module_contains. rewrite Hs by done. by destruct (span m).
Qed.

(** The symbols of the modules of a process. *)
Record symbols_hold (proc : Z) (modules : list Z) (span : Z → Z * Z)
    (table : Z → option (list (Z * string))) (st : St) : Prop := {
  sh_span : ∀ m, m ∈ modules → module_span self m proc = Ok (span m);
  sh_small : ∀ m, m ∈ modules → is_u64 (span m).1 ∧ is_u64 (span m).2 ∧ is_i64 ((span m).2 - (span m).1);
  sh_symbols : ∀ m, m ∈ modules →
    match table m with
    | None => ∃ st', module_symbols self proc m st = (Ok None, st')
    | Some l => Forall (λ p, 0 <= p.1 < 2 ^ 63) l ∧
                ∃ ms st', module_symbols self proc m st = (Ok (Some ms), st') ∧ module_holds ms l
    end;
}.

(** C20. Resolving an address: the module is the first one whose span contains
    the address, among those of the kernel or of the process; the result is the
    symbol of that module that is the closest below, with the distance to it,
    and [None] when there is no module, no symbols for it, or no symbol below. *)
Theorem resolve_symbol_spec proc addr modules span table st :
  is_u64 addr →
  Iterates (module_iteration proc addr) modules →
  symbols_hold proc modules span table st →
  ∃ r st', resolve_symbol self addr proc st = (Ok r, st') ∧
  match List.find (λ m, in_span (span m) addr) modules with
  | None => r = None
  | Some m =>
      match table m, r with
      | None, _ => r = None
      | Some l, Some (name, offset) =>
          0 <= offset ∧ (addr - (span m).1 - offset, name) ∈ l ∧
          ∀ p, p ∈ l → p.1 <= addr - (span m).1 → p.1 <= addr - (span m).1 - offset
      | Some l, None => ∀ p, p ∈ l → addr - (span m).1 < p.1
      end
  end.
Proof.
  intros Ha Hi Hs. unfold resolve_symbol, mut_bind at 1, mut_lift at 1.
  rewrite (find_module_holds _ _ modules span Hi (sh_span _ _ _ _ _ Hs)).
  destruct (List.find _ _) as [m|] eqn:Hm; [|by exists None, st].
  apply find_some in Hm as [Hm%list_elem_of_In Hspan]. unfold in_span in Hspan.
  pose proof (sh_symbols _ _ _ _ _ Hs m Hm) as Hsym. destruct (sh_small _ _ _ _ _ Hs m Hm) as (H1 & H2 & H3).
  unfold module_resolve_symbol, module_resolve_with, mut_bind.
  destruct (table m) as [l|].
  - destruct Hsym as (Hl & ms & st' & -> & Hh). unfold mut_lift. rewrite (sh_span _ _ _ _ _ Hs m Hm).
    destruct (span m) as [start end_]. cbn [fst snd res_bind] in *. rewrite Hspan. cbn [negb].
    rewrite va_sub_small by (unfold is_u64, is_i64 in *; lia || done).
    assert (as_u64 (addr - start) = addr - start) as -> by (unfold as_u64, is_u64 in *; lia).
    destruct (get_symbol_inexact_holds ms l Hh (addr - start)) as (r & -> & Hr).
    + unfold is_u64 in *. lia.
    + apply (Forall_impl _ _ _ Hl). intros p. unfold is_u64, is_i64 in *. lia.
    + exists r, st'. split; [done|]. destruct r as [[name offset]|]; done.
  - destruct Hsym as (st' & ->). by exists None, st'.
Qed.

Lemma string_app_empty s : (s +:+ "")%string = s.
Proof. induction s as [|c s IH]; [done|]. change (String.String c (s +:+ "") = String.String c s)%string. by rewrite IH. Qed.

(** The texts of different numbers are different. *)
Lemma format_hex_inj x y : is_u64 x → is_u64 y → format_hex x = format_hex y → x = y.
Proof.
  intros Hx Hy Heq. apply (inj (String.append "0x")) in Heq.
  apply (f_equal str_bytes) in Heq. rewrite !str_bytes_str in Heq.
  pose proof (f_equal (u64_from_str_radix 16) Heq) as Hp.
  rewrite !(parse_format_radix false 16) in Hp; [by injection Hp|done..].
Qed.

(** A function that starts after the start of its VMA is displayed with the
    opposite of its offset, taken modulo [2 ^ 64]. *)
Lemma format_in_vma_opposite start fun_start :
  is_u64 start → is_u64 fun_start → 0 < fun_start - start < 2 ^ 63 →
  format_in_vma fun_start (Some fun_start) (Some start) =
    (hex_addr start +:+ "!" +:+ format_hex (2 ^ 64 - (fun_start - start)))%string ∧
  format_in_vma fun_start (Some fun_start) (Some start) ≠
    (hex_addr start +:+ "!" +:+ hex_diff (va_sub fun_start start))%string.
Proof.
  intros Hs Hf Hd. assert (Hz : va_sub fun_start fun_start = 0)
    by (rewrite va_sub_small by (done || unfold is_i64; lia); lia).
  assert (Hx : as_u64 (va_sub start fun_start) = 2 ^ 64 - (fun_start - start))
    by (rewrite va_sub_small by (done || unfold is_i64; lia); unfold as_u64; lia).
  assert (Heq : format_in_vma fun_start (Some fun_start) (Some start) =
    (hex_addr start +:+ "!" +:+ format_hex (2 ^ 64 - (fun_start - start)))%string).
  { unfold format_in_vma. cbn [fmap option_fmap option_map]. rewrite Hz. unfold hex_diff. rewrite Hx.
    by rewrite string_app_empty. }
  split; [done|]. rewrite Heq. intros Hc%(inj (String.append _))%(inj (String.append "!")).
  unfold hex_diff in Hc. rewrite va_sub_small in Hc by (done || unfold is_i64; lia).
  unfold as_u64, is_u64 in *. apply format_hex_inj in Hc; unfold is_u64; lia.
Qed.
End methods.

(** ** The properties at concrete inputs *)

Section witnesses.
#[local] Existing Instance debug_build.

(** A memory of 64-bit words. *)
Definition word_memory (words : list (Z * Z)) (a : Z) : byte :=
  match List.find (λ w, w.1 =? a - a mod 8) words with
  | Some w => zb (w.2 / 2 ^ (8 * (a mod 8)))
  | None => Byte.x00
  end.

Definition sample_backend (words : list (Z * Z)) : Backend X86_64 := {|
  bk_memory := raw_memory (raw_new []);
  bk_vcpus := sample_has_vcpus;
  bk_read_virtual_memory := λ _ addr buf,
    (Ok tt, (λ i : nat, word_memory words (addr + Z.of_nat i)) <$> seq 0 (length buf));
  bk_virtual_to_physical := λ _ addr, Ok addr;
  bk_find_kernel_pgd := λ _ _, Ok 0;
  bk_find_in_kernel_memory := λ _ _ _, Ok None;
|}.

Definition sample_struct (name : string) (fields : list (string * Z)) : Struct :=
  {| st_size := 0x100; st_name := name;
     st_fields := (λ f, {| sf_name := f.1; sf_offset := f.2; sf_typ := TUnknown |}) <$> fields |}.

Definition sample_module : ModuleSymbols :=
  match build sort_by (builder_extend builder_new sample_symbols) with
  | Ok ms => ms
  | _ => {| ms_buffer := []; ms_symbols := []; ms_addresses := []; ms_types := ∅ |}
  end.

Lemma sample_module_holds : module_holds sample_module sample_symbols.
Proof.
  destruct (build_extend_holds sort_by sample_symbols sample_symbols_utf8) as (ms & Hb & Hh).
  unfold sample_module. by rewrite Hb.
Qed.

(** An operating system with two processes and two modules, of which the first
    has symbols. *)
Definition sample_os : Os X86_64 unit := {|
  os_vcpus := sample_has_vcpus;
  os_read_virtual_memory := λ _ _, mut_lift (Err unsupported);
  os_try_read_virtual_memory := λ _ _, mut_lift (Err unsupported);
  kernel_pgd := 0;
  for_each_kernel_module := λ _ f, iterate f [] (Ok tt);
  init_process := Ok 0x1000;
  current_thread := λ _, Ok 0x1000;
  process_is_kernel := λ _, Ok false;
  process_id := λ p, Ok (p / 0x1000);
  process_name := λ _, Ok "init"%string;
  process_pgd := λ _, Ok 0;
  process_path := λ _, Ok None;
  process_parent := λ p, Ok p;
  process_parent_id := λ p, Ok (p / 0x1000);
  process_for_each_child := λ _ _ f, iterate f [] (Ok tt);
  process_for_each_thread := λ p _ f, iterate f [p] (Ok tt);
  process_for_each_module := λ _ _ f, iterate f [0x400000; 0x500000] (Ok tt);
  for_each_process := λ _ f, iterate f [0x1000; 0x2000] (Err unsupported);
  process_for_each_vma := λ _ _ f, iterate f [] (Ok tt);
  thread_process := λ t, Ok t;
  thread_id := λ t, Ok t;
  thread_name := λ _, Ok None;
  vma_path := λ _, Ok None;
  vma_start := λ v, Ok v;
  vma_end := λ v, Ok v;
  vma_flags := λ _, Ok VMA_READ;
  module_span := λ m _, Ok (m, m + 0x10000);
  module_name := λ _ _, Ok "libc"%string;
  module_path := λ _ _, Ok "libc"%string;
  module_symbols := λ _ m, mut_ret (if m =? 0x400000 then Some sample_module else None);
  read_process_memory := λ _ _ _, mut_lift (Err unsupported);
  try_read_process_memory := λ _ _ _, mut_lift (Err unsupported);
  process_find_vma_by_address := λ _ _, Ok None;
|}.

Lemma processes_spec_witness :
  collect_processes sample_os = Err unsupported ∧
  find_process_by_id sample_os 2 = Ok (Some 0x2000).
Proof.
  apply (processes_spec sample_os [0x1000; 0x2000] (Err unsupported) (λ p, p / 0x1000) 2); [by intros S f s|done].
Defined.

Lemma resolve_symbol_spec_witness :
  ∃ r st', resolve_symbol sample_os 0x40002f 0x1000 tt = (Ok r, st') ∧ r = Some ("main"%string, 15).
Proof.
  destruct (resolve_symbol_spec sample_os 0x1000 0x40002f [0x400000; 0x500000] (λ m, (m, m + 0x10000))
    (λ m, if m =? 0x400000 then Some sample_symbols else None) tt) as (r & st' & Hr & _).
  - by split.
  - by intros S f s.
  - split.
    + done.
    + intros m Hm. assert (m = 0x400000 ∨ m = 0x500000) as [-> | ->] by set_solver; by repeat split.
    + intros m Hm. assert (m = 0x400000 ∨ m = 0x500000) as [-> | ->] by set_solver; cbn; [|by eexists].
      split; [repeat constructor; cbn; lia|]. exists sample_module, tt. split; [done|]. exact sample_module_holds.
  - exists r, st'. split; [exact Hr|]. vm_compute in Hr. by injection Hr.
Defined.
End witnesses.
