(* ===== verification/Pointer.v ===== *)
(** * Typed pointers and builders ([vminer/src/os/pointer.rs], [vminer/src/os/mod.rs])

    A [Pointer] is an address with the address space it is read in.  The type of
    the structure it points to only selects a layout, that is where the fields
    are, so it is an argument of the operations that use it: the projection that
    names the field.  The operating system is an interface, the classes below:
    reading kernel memory, reading the memory of a process, and the layouts. *)

From S2P Require Import Prelude Rust Layout Addr Error Mem Text Symbols Os.

(** ** Fields *)

(** A field of a structure of the kernel: its name, the name of the structure,
    and its offset when the symbols have it. *)
Record Field := { fld_name : string; fld_struct : string; fld_offset : option Z }.

(** [HasOffset::from_layout] and [HasOffset::offset]. *)
Definition from_layout (kernel_name name : string) (layout : Struct) : Field :=
  {| fld_name := name; fld_struct := kernel_name; fld_offset := find_offset layout name |}.

Definition offset (self : Field) : VmResult Z :=
  ok_or (fld_offset self) (missing_field (fld_name self) (fld_struct self)).

(** [HasLayout::get_layout] *)
Class HasLayout (Sys L : Type) := get_layout : Sys → VmResult L.

(** The [get_layout] of the macros of the profiles. *)
Definition layout_or_missing {L} (name : string) (layout : option L) : VmResult L :=
  ok_or layout (missing_symbol name).

(** ** Address spaces *)

Class ReadKernel (Sys : Type) := read_kernel : Sys → Z → MutRes bytes VmError unit.
Class ReadProcess (Sys : Type) := read_process : Sys → Z → Z → Z → MutRes bytes VmError unit.

Inductive KernelSpace := KernelSpace_.
Record ProcSpace := { ps_proc : Z; ps_pgd : Z }.

(** The trait [Context]. *)
Class Space (Sys Ctx : Type) := ctx_read_memory : Ctx → Sys → Z → MutRes bytes VmError unit.

#[export] Instance kernel_space {Sys} `{ReadKernel Sys} : Space Sys KernelSpace :=
  λ _ os addr, read_kernel os addr.

#[export] Instance proc_space {Sys} `{ReadKernel Sys, ReadProcess Sys} : Space Sys ProcSpace :=
  λ self os addr,
    if va_is_kernel addr then read_kernel os addr
    else read_process os (ps_proc self) (ps_pgd self) addr.

(** ** Pointers *)

Record Pointer (Ctx : Type) := Ptr { ptr_addr : Z; ptr_ctx : Ctx }.
Arguments Ptr {Ctx} _ _. Arguments ptr_addr {Ctx} _. Arguments ptr_ctx {Ctx} _.

Definition ptr_eq {Ctx} (self other : Pointer Ctx) : bool := ptr_addr self =? ptr_addr other.

Definition ptr_is_null {Ctx} (self : Pointer Ctx) : bool := va_is_null (ptr_addr self).

Definition map_non_null {Ctx U} (self : Pointer Ctx) (f : Pointer Ctx → VmResult U)
  : VmResult (option U) :=
  if va_is_null (ptr_addr self) then Ok None else let? u := f self in Ok (Some u).

Definition switch_context {Ctx N} (self : Pointer Ctx) (ctx : N) : Pointer N := Ptr (ptr_addr self) ctx.

Section pointer.
Context {bm : Build} {Sys Ctx : Type} `{Space Sys Ctx}.
Variable os : Sys.

(** [Readable::read] for plain data *)
Definition read_at {T} (P : Pod T) (ctx : Ctx) (addr : Z) : VmResult T :=
  let (r, value) := ctx_read_memory ctx os addr (bytes_of P (zeroed P)) in
  let? _ := r in Ok (pod_read P value).

(** [Pointer::read] *)
Definition ptr_read {T} (P : Pod T) (self : Pointer Ctx) : VmResult T :=
  read_at P (ptr_ctx self) (ptr_addr self).

Section layout.
Context {L : Type} `{HasLayout Sys L}.

(** The address of a field: the beginning of [field], [read_field] and
    [read_pointer_field]. *)
Definition field_addr (get_offset : L → Field) (self : Pointer Ctx) : VmResult Z :=
  if va_is_null (ptr_addr self) then Err deref_null_ptr
  else
    let? layout := get_layout os in
    let? off := offset (get_offset layout) in
    va_add_u64 (ptr_addr self) off.

Definition field (get_offset : L → Field) (self : Pointer Ctx) : VmResult (Pointer Ctx) :=
  let? addr := field_addr get_offset self in Ok (Ptr addr (ptr_ctx self)).

Definition read_field {T} (P : Pod T) (get_offset : L → Field) (self : Pointer Ctx) : VmResult T :=
  let? addr := field_addr get_offset self in read_at P (ptr_ctx self) addr.

Definition read_pointer_field (get_offset : L → Field) (self : Pointer Ctx) : VmResult (Pointer Ctx) :=
  let? addr := field_addr get_offset self in
  let? addr := read_at pod_u64 (ptr_ctx self) addr in
  Ok (Ptr addr (ptr_ctx self)).
End layout.

(** [switch_to_userspace], given [Os::process_pgd] *)
Definition switch_to_userspace (process_pgd : Z → VmResult Z) (proc : Z) (self : Pointer Ctx)
  : VmResult (Pointer ProcSpace) :=
  let? pgd := process_pgd proc in
  Ok (switch_context self {| ps_proc := proc; ps_pgd := pgd |}).

(** ** Linked lists

    The loop of both [iterate_list]: [next] reads the link of a node, the list
    is circular and ends at its head [self].  The links of memory that is being
    changed can be anything, so the loop has a bound. *)
Fixpoint list_loop {S} (fuel : nat) (next : Pointer Ctx → VmResult (Pointer Ctx)) (self pos : Pointer Ctx)
    (off : Z) (f : Pointer Ctx → MutRes S VmError ControlFlow) : MutRes S VmError unit :=
  match fuel with
  | O => mut_lift NoFuel
  | Datatypes.S fuel =>
      let! pos := mut_lift (next pos) in
      if ptr_eq pos self then mut_ret tt
      else
        let! addr := mut_lift (va_sub_u64 (ptr_addr pos) off) in
        let! c := f (Ptr addr (ptr_ctx self)) in
        if is_break c then mut_ret tt else list_loop fuel next self pos off f
  end.
End pointer.

(** ** Building an operating system *)

(** The trait [SymbolLoader] *)
Definition SymbolLoader := string → string → VmResult (option ModuleSymbols).

Definition empty_loader : SymbolLoader := λ _ _, Ok None.

Record OsBuilder (M : Type) := {
  ob_symbols : option (SymbolsIndexer M);
  ob_kpgd : option Z;
  ob_kaslr : option Z;
  ob_version : option string;
  ob_loader : option SymbolLoader;
}.
Arguments ob_symbols {M}. Arguments ob_kpgd {M}. Arguments ob_kaslr {M}.
Arguments ob_version {M}. Arguments ob_loader {M}.

Section builder.
Context {M : Type}.

Definition os_builder : OsBuilder M :=
  {| ob_symbols := None; ob_kpgd := None; ob_kaslr := None; ob_version := None; ob_loader := None |}.

Definition with_symbols (self : OsBuilder M) (symbols : SymbolsIndexer M) : OsBuilder M :=
  {| ob_symbols := Some symbols; ob_kpgd := ob_kpgd self; ob_kaslr := ob_kaslr self;
     ob_version := ob_version self; ob_loader := ob_loader self |}.

Definition with_kpgd (self : OsBuilder M) (kpgd : Z) : OsBuilder M :=
  {| ob_symbols := ob_symbols self; ob_kpgd := Some kpgd; ob_kaslr := ob_kaslr self;
     ob_version := ob_version self; ob_loader := ob_loader self |}.

Definition with_kaslr (self : OsBuilder M) (kaslr : Z) : OsBuilder M :=
  {| ob_symbols := ob_symbols self; ob_kpgd := ob_kpgd self; ob_kaslr := Some kaslr;
     ob_version := ob_version self; ob_loader := ob_loader self |}.

Definition with_version (self : OsBuilder M) (version : string) : OsBuilder M :=
  {| ob_symbols := ob_symbols self; ob_kpgd := ob_kpgd self; ob_kaslr := ob_kaslr self;
     ob_version := Some version; ob_loader := ob_loader self |}.
End builder.
