(* ===== verification/PointerSpec.v ===== *)
(** * Linked lists in memory

    What the loop of [iterate_list] does on the nodes that the links lead
    through. *)

From S2P Require Import Prelude Rust Layout Addr Error Mem Text Symbols Os OsSpec Pointer.

(** The nodes from [pos] on: the links lead through [nodes], then back to the
    head, or to a link that cannot be read. *)
Inductive chain {Ctx} (next : Pointer Ctx → VmResult (Pointer Ctx)) (head : Pointer Ctx)
  : Pointer Ctx → list Z → VmResult unit → Prop :=
| chain_head pos p : next pos = Ok p → ptr_addr p = ptr_addr head → chain next head pos [] (Ok tt)
| chain_error pos e : next pos = Err e → chain next head pos [] (Err e)
| chain_node pos p nodes last :
    next pos = Ok p → ptr_addr p ≠ ptr_addr head → chain next head p nodes last →
    chain next head pos (ptr_addr p :: nodes) last.

(** [iterate_list] keeps the contract of an iteration: it calls its callback on
    the elements whose links are the nodes of the chain. *)
Lemma list_loop_iterate {bm : Build} {Ctx S} next (head pos : Pointer Ctx) nodes last fuel off
    (f : Pointer Ctx → MutRes S VmError ControlFlow) s :
  chain next head pos nodes last →
  (length nodes < fuel)%nat →
  (∀ p, p ∈ nodes → is_u64 (p - off)) →
  list_loop fuel next head pos off f s
  = iterate (λ a, f (Ptr a (ptr_ctx head))) ((λ p, p - off) <$> nodes) last s.
Proof.
  intros Hc. revert fuel s.
  induction Hc as [pos p Hp Hh|pos e He|pos p nodes last Hp Hne Hc IH]; intros [|fuel] s Hf Hn;
    [cbn in Hf; lia| |cbn in Hf; lia| |cbn in Hf; lia|]; cbn [list_loop fmap list_fmap iterate];
    unfold mut_bind at 1, mut_lift at 1.
  - rewrite Hp. unfold ptr_eq. by apply Z.eqb_eq in Hh as ->.
  - by rewrite He.
  - rewrite Hp. unfold ptr_eq. apply Z.eqb_neq in Hne as ->.
    pose proof (Hn (ptr_addr p) ltac:(apply list_elem_of_here)) as Hr.
    unfold mut_bind, mut_lift, va_sub_u64. rewrite sub_u64_ok by (unfold is_u64 in Hr; lia).
    destruct (f _ s) as [[[]| | |] s']; cbn [is_break]; [|done..].
    apply IH; [cbn in Hf; lia|]. intros q Hq. apply Hn. by apply list_elem_of_further.
Qed.

(** When the links never come back to the head, the loop only ends by its
    callback. *)
Lemma list_loop_endless {bm : Build} {Ctx S} next (head : Pointer Ctx) (inside : Pointer Ctx → Prop) off
    (f : Pointer Ctx → MutRes S VmError ControlFlow) :
  (∀ p, inside p → ∃ q, next p = Ok q ∧ inside q ∧ ptr_addr q ≠ ptr_addr head ∧ is_u64 (ptr_addr q - off)) →
  (∀ p s, ∃ s', f p s = (Ok Continue, s')) →
  ∀ fuel pos s, inside pos → (list_loop fuel next head pos off f s).1 = NoFuel.
Proof.
  intros Hin Hf. induction fuel as [|fuel IH]; intros pos s Hpos; cbn [list_loop]; [done|].
  destruct (Hin pos Hpos) as (q & Hq & Hiq & Hne & Hu). unfold mut_bind, mut_lift. rewrite Hq.
  unfold ptr_eq. apply Z.eqb_neq in Hne as ->. unfold va_sub_u64.
  rewrite sub_u64_ok by (unfold is_u64 in Hu; lia).
  destruct (Hf (Ptr (ptr_addr q - off) (ptr_ctx head)) s) as [s' ->]. cbn [is_break]. by apply IH.
Qed.
