(* ===== verification/WinProfile.v ===== *)
(** * The profile of a Windows kernel ([vminer/src/os/windows/profile.rs])

    What the macro [define_structs] expands to: a record of fields for every
    structure of the kernel that is read, made from the layout in the symbols,
    and the table of them.  The record fields carry the name of their structure. *)

From S2P Require Import Prelude Rust Layout Addr Error Mem Text Symbols Os Pointer.

Record ClientId := {
  ClientId_UniqueThread : Field;
}.

Definition ClientId_new (layout : Struct) : ClientId :=
  let new name := from_layout "_CLIENT_ID" name layout in {|
    ClientId_UniqueThread := new "UniqueThread";
|}%string.

Record Eprocess := {
  Eprocess_ActiveProcessLinks : Field;
  Eprocess_ImageFileName : Field;
  Eprocess_ImageFilePointer : Field;
  Eprocess_InheritedFromUniqueProcessId : Field;
  Eprocess_Pcb : Field;
  Eprocess_Peb : Field;
  Eprocess_ThreadListHead : Field;
  Eprocess_UniqueProcessId : Field;
  Eprocess_VadRoot : Field;
}.

Definition Eprocess_new (layout : Struct) : Eprocess :=
  let new name := from_layout "_EPROCESS" name layout in {|
    Eprocess_ActiveProcessLinks := new "ActiveProcessLinks";
    Eprocess_ImageFileName := new "ImageFileName";
    Eprocess_ImageFilePointer := new "ImageFilePointer";
    Eprocess_InheritedFromUniqueProcessId := new "InheritedFromUniqueProcessId";
    Eprocess_Pcb := new "Pcb";
    Eprocess_Peb := new "Peb";
    Eprocess_ThreadListHead := new "ThreadListHead";
    Eprocess_UniqueProcessId := new "UniqueProcessId";
    Eprocess_VadRoot := new "VadRoot";
|}%string.

Record Ethread := {
  Ethread_Tcb : Field;
  Ethread_Cid : Field;
  Ethread_ThreadListEntry : Field;
  Ethread_ThreadName : Field;
}.

Definition Ethread_new (layout : Struct) : Ethread :=
  let new name := from_layout "_ETHREAD" name layout in {|
    Ethread_Tcb := new "Tcb";
    Ethread_Cid := new "Cid";
    Ethread_ThreadListEntry := new "ThreadListEntry";
    Ethread_ThreadName := new "ThreadName";
|}%string.

Record FileObject := {
  FileObject_FileName : Field;
}.

Definition FileObject_new (layout : Struct) : FileObject :=
  let new name := from_layout "_FILE_OBJECT" name layout in {|
    FileObject_FileName := new "FileName";
|}%string.

Record Kpcr := {
  Kpcr_Prcb : Field;
}.

Definition Kpcr_new (layout : Struct) : Kpcr :=
  let new name := from_layout "_KPCR" name layout in {|
    Kpcr_Prcb := new "Prcb";
|}%string.

Record Kprcb := {
  Kprcb_CurrentThread : Field;
  Kprcb_KernelDirectoryTableBase : Field;
}.

Definition Kprcb_new (layout : Struct) : Kprcb :=
  let new name := from_layout "_KPRCB" name layout in {|
    Kprcb_CurrentThread := new "CurrentThread";
    Kprcb_KernelDirectoryTableBase := new "KernelDirectoryTableBase";
|}%string.

Record Kprocess := {
  Kprocess_DirectoryTableBase : Field;
  Kprocess_UserDirectoryTableBase : Field;
}.

Definition Kprocess_new (layout : Struct) : Kprocess :=
  let new name := from_layout "_KPROCESS" name layout in {|
    Kprocess_DirectoryTableBase := new "DirectoryTableBase";
    Kprocess_UserDirectoryTableBase := new "UserDirectoryTableBase";
|}%string.

Record Kthread := {
  Kthread_Process : Field;
}.

Definition Kthread_new (layout : Struct) : Kthread :=
  let new name := from_layout "_KTHREAD" name layout in {|
    Kthread_Process := new "Process";
|}%string.

Record KUserSharedData := {
  KUserSharedData_NtMajorVersion : Field;
  KUserSharedData_NtMinorVersion : Field;
}.

Definition KUserSharedData_new (layout : Struct) : KUserSharedData :=
  let new name := from_layout "_KUSER_SHARED_DATA" name layout in {|
    KUserSharedData_NtMajorVersion := new "NtMajorVersion";
    KUserSharedData_NtMinorVersion := new "NtMinorVersion";
|}%string.

Record LdrDataTableEntry := {
  LdrDataTableEntry_BaseDllName : Field;
  LdrDataTableEntry_DllBase : Field;
  LdrDataTableEntry_FullDllName : Field;
  LdrDataTableEntry_InLoadOrderLinks : Field;
  LdrDataTableEntry_SizeOfImage : Field;
}.

Definition LdrDataTableEntry_new (layout : Struct) : LdrDataTableEntry :=
  let new name := from_layout "_LDR_DATA_TABLE_ENTRY" name layout in {|
    LdrDataTableEntry_BaseDllName := new "BaseDllName";
    LdrDataTableEntry_DllBase := new "DllBase";
    LdrDataTableEntry_FullDllName := new "FullDllName";
    LdrDataTableEntry_InLoadOrderLinks := new "InLoadOrderLinks";
    LdrDataTableEntry_SizeOfImage := new "SizeOfImage";
|}%string.

Record ListEntry := {
  ListEntry_Flink : Field;
  ListEntry_Blink : Field;
}.

Definition ListEntry_new (layout : Struct) : ListEntry :=
  let new name := from_layout "_LIST_ENTRY" name layout in {|
    ListEntry_Flink := new "Flink";
    ListEntry_Blink := new "Blink";
|}%string.

Record MmvadShort := {
  MmvadShort_EndingVpn : Field;
  MmvadShort_EndingVpnHigh : Field;
  MmvadShort_StartingVpn : Field;
  MmvadShort_StartingVpnHigh : Field;
  MmvadShort_u : Field;
  MmvadShort_LeftChild : Field;
  MmvadShort_RightChild : Field;
  MmvadShort_VadNode : Field;
}.

Definition MmvadShort_new (layout : Struct) : MmvadShort :=
  let new name := from_layout "_MMVAD_SHORT" name layout in {|
    MmvadShort_EndingVpn := new "EndingVpn";
    MmvadShort_EndingVpnHigh := new "EndingVpnHigh";
    MmvadShort_StartingVpn := new "StartingVpn";
    MmvadShort_StartingVpnHigh := new "StartingVpnHigh";
    MmvadShort_u := new "u";
    MmvadShort_LeftChild := new "LeftChild";
    MmvadShort_RightChild := new "RightChild";
    MmvadShort_VadNode := new "VadNode";
|}%string.

Record Mmvad := {
  Mmvad_FirstPrototypePte : Field;
}.

Definition Mmvad_new (layout : Struct) : Mmvad :=
  let new name := from_layout "_MMVAD" name layout in {|
    Mmvad_FirstPrototypePte := new "FirstPrototypePte";
|}%string.

Record Peb := {
  Peb_Ldr : Field;
}.

Definition Peb_new (layout : Struct) : Peb :=
  let new name := from_layout "_PEB" name layout in {|
    Peb_Ldr := new "Ldr";
|}%string.

Record PebLdrData := {
  PebLdrData_InLoadOrderModuleList : Field;
}.

Definition PebLdrData_new (layout : Struct) : PebLdrData :=
  let new name := from_layout "_PEB_LDR_DATA" name layout in {|
    PebLdrData_InLoadOrderModuleList := new "InLoadOrderModuleList";
|}%string.

Record RtlAvlTree := {
  RtlAvlTree_Root : Field;
}.

Definition RtlAvlTree_new (layout : Struct) : RtlAvlTree :=
  let new name := from_layout "_RTL_AVL_TREE" name layout in {|
    RtlAvlTree_Root := new "Root";
|}%string.

Record RtlBalancedNode := {
  RtlBalancedNode_Left : Field;
  RtlBalancedNode_Right : Field;
}.

Definition RtlBalancedNode_new (layout : Struct) : RtlBalancedNode :=
  let new name := from_layout "_RTL_BALANCED_NODE" name layout in {|
    RtlBalancedNode_Left := new "Left";
    RtlBalancedNode_Right := new "Right";
|}%string.

Record UnicodeString := {
  UnicodeString_Length : Field;
  UnicodeString_Buffer : Field;
}.

Definition UnicodeString_new (layout : Struct) : UnicodeString :=
  let new name := from_layout "_UNICODE_STRING" name layout in {|
    UnicodeString_Length := new "Length";
    UnicodeString_Buffer := new "Buffer";
|}%string.

Record WinLayouts := {
  WinLayouts_ClientId : option ClientId;
  WinLayouts_Eprocess : option Eprocess;
  WinLayouts_Ethread : option Ethread;
  WinLayouts_FileObject : option FileObject;
  WinLayouts_Kpcr : option Kpcr;
  WinLayouts_Kprcb : option Kprcb;
  WinLayouts_Kprocess : option Kprocess;
  WinLayouts_Kthread : option Kthread;
  WinLayouts_KUserSharedData : option KUserSharedData;
  WinLayouts_LdrDataTableEntry : option LdrDataTableEntry;
  WinLayouts_ListEntry : option ListEntry;
  WinLayouts_MmvadShort : option MmvadShort;
  WinLayouts_Mmvad : option Mmvad;
  WinLayouts_Peb : option Peb;
  WinLayouts_PebLdrData : option PebLdrData;
  WinLayouts_RtlAvlTree : option RtlAvlTree;
  WinLayouts_RtlBalancedNode : option RtlBalancedNode;
  WinLayouts_UnicodeString : option UnicodeString;
}.

Definition WinLayouts_new (syms : ModuleSymbols) : WinLayouts := {|
  WinLayouts_ClientId := ClientId_new <$> get_struct syms "_CLIENT_ID";
  WinLayouts_Eprocess := Eprocess_new <$> get_struct syms "_EPROCESS";
  WinLayouts_Ethread := Ethread_new <$> get_struct syms "_ETHREAD";
  WinLayouts_FileObject := FileObject_new <$> get_struct syms "_FILE_OBJECT";
  WinLayouts_Kpcr := Kpcr_new <$> get_struct syms "_KPCR";
  WinLayouts_Kprcb := Kprcb_new <$> get_struct syms "_KPRCB";
  WinLayouts_Kprocess := Kprocess_new <$> get_struct syms "_KPROCESS";
  WinLayouts_Kthread := Kthread_new <$> get_struct syms "_KTHREAD";
  WinLayouts_KUserSharedData := KUserSharedData_new <$> get_struct syms "_KUSER_SHARED_DATA";
  WinLayouts_LdrDataTableEntry := LdrDataTableEntry_new <$> get_struct syms "_LDR_DATA_TABLE_ENTRY";
  WinLayouts_ListEntry := ListEntry_new <$> get_struct syms "_LIST_ENTRY";
  WinLayouts_MmvadShort := MmvadShort_new <$> get_struct syms "_MMVAD_SHORT";
  WinLayouts_Mmvad := Mmvad_new <$> get_struct syms "_MMVAD";
  WinLayouts_Peb := Peb_new <$> get_struct syms "_PEB";
  WinLayouts_PebLdrData := PebLdrData_new <$> get_struct syms "_PEB_LDR_DATA";
  WinLayouts_RtlAvlTree := RtlAvlTree_new <$> get_struct syms "_RTL_AVL_TREE";
  WinLayouts_RtlBalancedNode := RtlBalancedNode_new <$> get_struct syms "_RTL_BALANCED_NODE";
  WinLayouts_UnicodeString := UnicodeString_new <$> get_struct syms "_UNICODE_STRING";
|}%string.

(** An operating system that has this table. *)
Class HasWinLayouts (Sys : Type) := win_layouts : Sys → WinLayouts.

Section has_layout.
Context {Sys : Type} `{HasWinLayouts Sys}.

#[export] Instance has_ClientId : HasLayout Sys ClientId :=
  λ os, layout_or_missing "ClientId" (WinLayouts_ClientId (win_layouts os)).
#[export] Instance has_Eprocess : HasLayout Sys Eprocess :=
  λ os, layout_or_missing "Eprocess" (WinLayouts_Eprocess (win_layouts os)).
#[export] Instance has_Ethread : HasLayout Sys Ethread :=
  λ os, layout_or_missing "Ethread" (WinLayouts_Ethread (win_layouts os)).
#[export] Instance has_FileObject : HasLayout Sys FileObject :=
  λ os, layout_or_missing "FileObject" (WinLayouts_FileObject (win_layouts os)).
#[export] Instance has_Kpcr : HasLayout Sys Kpcr :=
  λ os, layout_or_missing "Kpcr" (WinLayouts_Kpcr (win_layouts os)).
#[export] Instance has_Kprcb : HasLayout Sys Kprcb :=
  λ os, layout_or_missing "Kprcb" (WinLayouts_Kprcb (win_layouts os)).
#[export] Instance has_Kprocess : HasLayout Sys Kprocess :=
  λ os, layout_or_missing "Kprocess" (WinLayouts_Kprocess (win_layouts os)).
#[export] Instance has_Kthread : HasLayout Sys Kthread :=
  λ os, layout_or_missing "Kthread" (WinLayouts_Kthread (win_layouts os)).
#[export] Instance has_KUserSharedData : HasLayout Sys KUserSharedData :=
  λ os, layout_or_missing "KUserSharedData" (WinLayouts_KUserSharedData (win_layouts os)).
#[export] Instance has_LdrDataTableEntry : HasLayout Sys LdrDataTableEntry :=
  λ os, layout_or_missing "LdrDataTableEntry" (WinLayouts_LdrDataTableEntry (win_layouts os)).
#[export] Instance has_ListEntry : HasLayout Sys ListEntry :=
  λ os, layout_or_missing "ListEntry" (WinLayouts_ListEntry (win_layouts os)).
#[export] Instance has_MmvadShort : HasLayout Sys MmvadShort :=
  λ os, layout_or_missing "MmvadShort" (WinLayouts_MmvadShort (win_layouts os)).
#[export] Instance has_Mmvad : HasLayout Sys Mmvad :=
  λ os, layout_or_missing "Mmvad" (WinLayouts_Mmvad (win_layouts os)).
#[export] Instance has_Peb : HasLayout Sys Peb :=
  λ os, layout_or_missing "_Peb" (WinLayouts_Peb (win_layouts os)).
#[export] Instance has_PebLdrData : HasLayout Sys PebLdrData :=
  λ os, layout_or_missing "PebLdrData" (WinLayouts_PebLdrData (win_layouts os)).
#[export] Instance has_RtlAvlTree : HasLayout Sys RtlAvlTree :=
  λ os, layout_or_missing "RtlAvlTree" (WinLayouts_RtlAvlTree (win_layouts os)).
#[export] Instance has_RtlBalancedNode : HasLayout Sys RtlBalancedNode :=
  λ os, layout_or_missing "RtlBalancedNode" (WinLayouts_RtlBalancedNode (win_layouts os)).
#[export] Instance has_UnicodeString : HasLayout Sys UnicodeString :=
  λ os, layout_or_missing "UnicodeString" (WinLayouts_UnicodeString (win_layouts os)).
End has_layout.

(** ** The profile *)

Record WinFastSymbols := {
  KiImplementedPhysicalBits : option Z;
  PsActiveProcessHead : Z;
  PsLoadedModuleList : Z;
}.

(** [Profile] without its index of symbols, which is the state of the operating
    system. *)
Record WinProfile := { win_fast_syms : WinFastSymbols; wp_layouts : WinLayouts }.

Section profile.
Context {bm : Build} {M : Type} `{OnceMap M}.

#[local] Open Scope string_scope.
Definition win_profile_new (syms : SymbolsIndexer M) : VmResult WinProfile :=
  let? kernel := require_module syms "ntoskrnl.exe" in
  let layouts := WinLayouts_new kernel in
  let? bits := from_never (get_address kernel "KiImplementedPhysicalBits") in
  let? head := require_address kernel "PsActiveProcessHead" in
  let? modules := require_address kernel "PsLoadedModuleList" in
  Ok {| win_fast_syms := {| KiImplementedPhysicalBits := bits;
                            PsActiveProcessHead := head;
                            PsLoadedModuleList := modules |};
        wp_layouts := layouts |}.
End profile.
