(* ===== verification/WinMemory.v ===== *)
(** * Windows page table entries ([vminer/src/os/windows/memory.rs])

    When the walk of the page tables meets an entry that is not valid, the page
    may still be in memory: in transition, behind a prototype entry, or filled
    with zeros on demand. *)

From S2P Require Import Prelude Rust Layout Addr Error Mem Text Registers Mmu Arch Backend.
From S2P Require Import Symbols Os Pointer WinProfile.

Definition VAD_MASK : Z := 0xffffffff00000000.

Definition MMPTE_VALID_BIT : Z := Z.shiftl 1 0.
Definition MMPTE_SWIZZLE_BIT : Z := Z.shiftl 1 4.
Definition MMPTE_SOFTWARE_BIT : Z := Z.shiftl 1 10.
Definition MMPTE_TRANSITION_BIT : Z := Z.shiftl 1 11.

(** [MmPte] is a transparent wrapper of [u64]. *)
Notation MmPte := Z (only parsing).

Inductive MmPteKind := Software | Transition | Vad | Zero | Unknown.

#[export] Instance mm_pte_kind_eq_dec : EqDecision MmPteKind.
Proof. solve_decision. Defined.

Definition pte_is_valid (self : MmPte) : bool := negb (Z.land self MMPTE_VALID_BIT =? 0).

Definition classify (pte : MmPte) : MmPteKind :=
  if negb (Z.land pte MMPTE_SOFTWARE_BIT =? 0) then
    if Z.land pte VAD_MASK =? VAD_MASK then Vad else Software
  else if pte =? 0 then Vad
  else if negb (Z.land pte MMPTE_TRANSITION_BIT =? 0) then Transition
  else if Z.shiftr pte 32 =? 0 then Zero
  else Unknown.

(** [Windows<B>]; the index of symbols of its profile is the state of its
    methods. *)
Record Windows (A : Type) `{ArchTypes A} := {
  w_backend : Backend A;
  w_symbols_loader : SymbolLoader;
  w_kpgd : Z;
  w_base_addr : Z;
  w_profile : WinProfile;
  w_unswizzle_mask : Z;
}.
Arguments w_backend {A _}. Arguments w_symbols_loader {A _}. Arguments w_kpgd {A _}.
Arguments w_base_addr {A _}. Arguments w_profile {A _}. Arguments w_unswizzle_mask {A _}.

#[export] Instance windows_layouts {A} `{ArchTypes A} : HasWinLayouts (Windows A) :=
  λ self, wp_layouts (w_profile self).

Section memory.
Context {bm : Build} {A : Type} `{Architecture A}.

Definition transition_page {E} (self : MmPte) : Res E Z :=
  let? m := mask_range 12 40 in Ok (Z.land self m).

Definition unswizzle (self : Windows A) (pte : MmPte) : MmPte :=
  if Z.land pte MMPTE_SWIZZLE_BIT =? 0 then Z.land pte (w_unswizzle_mask self) else pte.

(** [self.backend.read_physical(page + offset, buf)?] *)
Definition read_frame (self : Windows A) (page off : Z) : MutRes bytes TranslationError unit :=
  let! addr := mut_lift (pa_add_u64 page off) in
  mut_map_err trans_of_mem (read_physical (bk_memory (w_backend self)) addr).

(** [buf.fill(0)] *)
Definition fill_zero {E} : MutRes bytes E unit :=
  λ buf, (Ok tt, replicate (length buf) Byte.x00).

Definition read_prototype_pte (self : Windows A) (addr : Z) (pte : MmPte)
  : MutRes bytes TranslationError unit :=
  let! m := mut_lift (mask 12) in
  let off := Z.land addr m in
  if pte_is_valid pte then
    let! m := mut_lift (mask_range 12 48) in
    read_frame self (Z.land pte m) off
  else
    let pte := unswizzle self pte in
    match classify pte with
    | Transition => let! page := mut_lift (transition_page pte) in read_frame self page off
    | Zero => fill_zero
    | _ => mut_lift (Err (TransInvalid pte))
    end.

Section raw.
(** [read_vad_pte], which is only called with a process *)
Variable read_vad_pte : Z → Z → MutRes bytes TranslationError unit.

(** What is done with an entry that is not valid. *)
Definition read_invalid (self : Windows A) (addr : Z) (proc : option Z) (entry : MmPte)
  : MutRes bytes TranslationError unit :=
  let! m := mut_lift (mask 12) in
  let off := Z.land addr m in
  let pte := unswizzle self entry in
  match classify pte with
  | Software =>
      let pte_addr := Z.shiftr pte 16 in
      let! pte := mut_lift (read_value_virtual pod_u64 (w_backend self) (w_kpgd self) pte_addr) in
      read_prototype_pte self addr pte
  | Transition => let! page := mut_lift (transition_page pte) in read_frame self page off
  | Vad =>
      match proc with
      | Some proc => read_vad_pte addr proc
      | None => mut_lift (Err (TransInvalid pte))
      end
  | Zero => fill_zero
  | Unknown => mut_lift (Err (TransInvalid pte))
  end.

(** [read_virtual_memory_raw] *)
Definition win_read_raw (self : Windows A) (mmu_addr addr : Z) (proc : option Z)
  : MutRes bytes TranslationError unit := λ buf,
  match bk_read_virtual_memory (w_backend self) mmu_addr addr buf with
  | (Ok _, buf) => (Ok tt, buf)
  | (Err (TransInvalid entry), buf) => read_invalid self addr proc entry buf
  | (Err (TransMemory err), buf) => (Err (trans_of_mem err), buf)
  | (Panic, buf) => (Panic, buf)
  | (NoFuel, buf) => (NoFuel, buf)
  end.
End raw.
End memory.

(** ** Facts *)

(** Testing a bit by masking. *)
Lemma land_bit_zero x n : 0 <= n → (Z.land x (Z.shiftl 1 n) =? 0) = negb (Z.testbit x n).
Proof.
  intros Hn. destruct (Z.testbit x n) eqn:Hb; cbn [negb].
  - apply Z.eqb_neq. intros Hz. apply (f_equal (λ z, Z.testbit z n)) in Hz.
    rewrite Z.land_spec, Z.shiftl_spec, Z.sub_diag, Hb, Z.bits_0 in Hz by lia. done.
  - apply Z.eqb_eq. apply Z.bits_inj'. intros i Hi. rewrite Z.land_spec, Z.shiftl_spec, Z.bits_0 by lia.
    destruct (decide (i = n)) as [->|Hne]; [by rewrite Hb|].
    replace (Z.testbit 1 (i - n)) with false; [apply andb_false_r|].
    symmetry. destruct (Z.ltb_spec i n); [apply Z.testbit_neg_r; lia|].
    apply (Z.bits_above_log2 1); cbn; lia.
Qed.

Lemma vad_mask_spec pte : is_u64 pte → (Z.land pte VAD_MASK =? VAD_MASK) = (2 ^ 64 - 2 ^ 32 <=? pte).
Proof.
  intros Hp. assert (Z.land pte VAD_MASK = bits_in_place pte 32 64) as ->.
  { by rewrite <- (land_mask_range pte 32 64). }
  unfold bits_in_place, VAD_MASK, is_u64 in *. rewrite Z.mod_small by lia. lia.
Qed.

(** The kinds, in terms of the bits of the entry. *)
Lemma classify_spec pte :
  is_u64 pte →
  classify pte =
    if Z.testbit pte 10 then if 2 ^ 64 - 2 ^ 32 <=? pte then Vad else Software
    else if pte =? 0 then Vad
    else if Z.testbit pte 11 then Transition
    else if pte <? 2 ^ 32 then Zero else Unknown.
Proof.
  intros Hp. unfold classify, MMPTE_SOFTWARE_BIT, MMPTE_TRANSITION_BIT.
  rewrite !land_bit_zero, !negb_involutive, vad_mask_spec by (done || lia).
  assert ((Z.shiftr pte 32 =? 0) = (pte <? 2 ^ 32)) as ->; [|done].
  rewrite Z.shiftr_div_pow2 by lia. unfold is_u64 in Hp. lia.
Qed.

Lemma pte_is_valid_spec pte : pte_is_valid pte = Z.testbit pte 0.
Proof. unfold pte_is_valid, MMPTE_VALID_BIT. rewrite land_bit_zero by lia. by rewrite negb_involutive. Qed.
