(* ===== verification/Windows.v ===== *)
(** * Windows ([vminer/src/os/windows/mod.rs], and [read_vad_pte] of [memory.rs])

    Kernel memory is read without a process, so that [read_vad_pte], which looks
    up the VMAs of a process in kernel memory, is defined after it, and the
    memory of processes last.  [fuel] bounds the length of lists and the height
    of trees in the memory of the guest. *)

From S2P Require Import Prelude Rust Layout Addr Error Mem Text Registers Mmu Arch Pages Backend.
From S2P Require Import Symbols Os Pointer WinProfile WinMemory.

#[local] Open Scope string_scope.
#[local] Open Scope Z_scope.

(** ** Kernel memory *)

Section kernel.
Context {bm : Build} {A : Type} `{Architecture A}.

(** Not reached: without a process, no VMA is looked up. *)
Definition no_vad_pte (_ _ : Z) : MutRes bytes TranslationError unit := mut_lift Panic.

Definition win_read_virtual_memory (self : Windows A) (mmu_addr addr : Z) : MutRes bytes VmError unit :=
  mut_map_err vm_of_trans
    (read_virtual_memory (λ addr, win_read_raw no_vad_pte self mmu_addr addr None) addr).

Definition win_try_read_virtual_memory (self : Windows A) (mmu_addr addr : Z) : MutRes bytes VmError unit :=
  mut_map_err vm_of_mem
    (try_read_virtual_memory addr (λ addr, win_read_raw no_vad_pte self mmu_addr addr None)).

#[export] Instance windows_kernel : ReadKernel (Windows A) :=
  λ self addr, win_read_virtual_memory self (w_kpgd self) addr.

(** [pointer_of] and [has_field] *)
Definition pointer_of (addr : Z) : Pointer KernelSpace := Ptr addr KernelSpace_.

Definition has_field {L} `{HasLayout (Windows A) L} (self : Windows A) (f : L → Field) : bool :=
  match (let? l := get_layout self in offset (f l)) with Ok _ => true | _ => false end.

(** ** Lists and strings *)

Definition win_iterate_list {Ctx L} `{Space (Windows A) Ctx} `{HasLayout (Windows A) L}
    (fuel : nat) (os : Windows A) (self : Pointer Ctx) (get_offset : L → Field)
    (S : Type) (f : Pointer Ctx → MutRes S VmError ControlFlow) : MutRes S VmError unit :=
  let! layout := mut_lift (get_layout os) in
  let! off := mut_lift (offset (get_offset layout)) in
  list_loop fuel (read_pointer_field os ListEntry_Flink) self self off f.

(** The [u16]s of a byte string. *)
Fixpoint utf16_units (bs : bytes) : list Z :=
  match bs with
  | b0 :: b1 :: bs => (bz b0 + 256 * bz b1) :: utf16_units bs
  | _ => []
  end.

Definition read_unicode_string {Ctx} `{Space (Windows A) Ctx} (os : Windows A) (self : Pointer Ctx)
  : VmResult string :=
  let? buffer := read_field os pod_u64 UnicodeString_Buffer self in
  let? len := read_field os pod_u16 UnicodeString_Length self in
  let (r, name) := ctx_read_memory (ptr_ctx self) os buffer
                     (replicate (Z.to_nat (len / 2) * 2) Byte.x00) in
  let? _ := r in
  Ok (bytes_str (from_utf16_lossy (utf16_units name))).

(** ** The tree of VMAs *)

Section vad.
Variable os : Windows A.

Definition left_child (self : Pointer KernelSpace) : VmResult (Pointer KernelSpace) :=
  if has_field os MmvadShort_VadNode then
    let? node := field os MmvadShort_VadNode self in
    read_pointer_field os RtlBalancedNode_Left node
  else read_pointer_field os MmvadShort_LeftChild self.

Definition right_child (self : Pointer KernelSpace) : VmResult (Pointer KernelSpace) :=
  if has_field os MmvadShort_VadNode then
    let? node := field os MmvadShort_VadNode self in
    read_pointer_field os RtlBalancedNode_Right node
  else read_pointer_field os MmvadShort_RightChild self.

Fixpoint iterate_tree {S} (fuel : nat) (self : Pointer KernelSpace)
    (f : Pointer KernelSpace → MutRes S VmError ControlFlow) : MutRes S VmError ControlFlow :=
  match fuel with
  | O => mut_lift NoFuel
  | Datatypes.S fuel =>
      let! lchild := mut_lift (left_child self) in
      let! c := if ptr_is_null lchild then mut_ret Continue else iterate_tree fuel lchild f in
      if is_break c then mut_ret Break
      else
        let! c := f self in
        if is_break c then mut_ret Break
        else
          let! rchild := mut_lift (right_child self) in
          let! c := if ptr_is_null rchild then mut_ret Continue else iterate_tree fuel rchild f in
          if is_break c then mut_ret Break else mut_ret Continue
  end.

Fixpoint find_in_tree (fuel : nat) (self : Pointer KernelSpace)
    (f : Pointer KernelSpace → VmResult comparison) : VmResult (option (Pointer KernelSpace)) :=
  match fuel with
  | O => NoFuel
  | Datatypes.S fuel =>
      let? c := f self in
      match c with
      | Lt =>
          let? rchild := right_child self in
          if ptr_is_null rchild then Ok None else find_in_tree fuel rchild f
      | Eq => Ok (Some self)
      | Gt =>
          let? lchild := left_child self in
          if ptr_is_null lchild then Ok None else find_in_tree fuel lchild f
      end
  end.

Definition vad_root (proc : Z) : VmResult (Pointer KernelSpace) :=
  let? root := field os Eprocess_VadRoot (pointer_of proc) in
  if has_field os RtlAvlTree_Root then read_pointer_field os RtlAvlTree_Root root else Ok root.

(** A bound of a VMA as a page number: the low part, of 32 bits when there is a
    high part. *)
Definition vma_vpn (low high : MmvadShort → Field) (vma : Z) : VmResult Z :=
  let vma := pointer_of vma in
  let? l := read_field os pod_u64 low vma in
  if has_field os high then
    let l := wrap_u32 l in
    let? h := read_field os pod_u8 high vma in
    let? h := shl_u64 h 32 in
    add_u64 h l
  else Ok l.

Definition win_vma_start (vma : Z) : VmResult Z :=
  let? addr := vma_vpn MmvadShort_StartingVpn MmvadShort_StartingVpnHigh vma in
  shl_u64 addr 12.

(** The end is exclusive, the last page number is not. *)
Definition win_vma_end (vma : Z) : VmResult Z :=
  let? vpn := vma_vpn MmvadShort_EndingVpn MmvadShort_EndingVpnHigh vma in
  let? addr := add_u64 vpn 1 in
  shl_u64 addr 12.

Definition win_vma_flags (vma : Z) : VmResult VmaFlags :=
  let? vad_type := read_field os pod_u32 MmvadShort_u (pointer_of vma) in
  let? m := mask 5 in
  match Z.land (Z.shiftr vad_type 7) (wrap_u32 m) with
  | 1 => Ok VMA_READ
  | 24 | 4 | 5 => Ok (flags_or VMA_READ VMA_WRITE)
  | 6 => Ok (flags_or VMA_READ VMA_EXEC)
  | 7 => Ok (flags_or (flags_or VMA_READ VMA_WRITE) VMA_EXEC)
  | _ => Err unimplemented
  end.

(** The comparison of [process_find_vma_by_address]. *)
Definition vma_compare (addr : Z) (mmvad : Pointer KernelSpace) : VmResult comparison :=
  let vma := ptr_addr mmvad in
  let? start := win_vma_start vma in
  if addr <? start then Ok Gt
  else
    let? end_ := win_vma_end vma in
    Ok (if addr <? end_ then Eq else Lt).

Definition win_find_vma_by_address (fuel : nat) (proc addr : Z) : VmResult (option Z) :=
  let? root := vad_root proc in
  let? mmvad := find_in_tree fuel root (vma_compare addr) in
  Ok (ptr_addr <$> mmvad).

Definition win_for_each_vma (fuel : nat) (proc : Z) : ForEach Z := λ S f,
  let! root := mut_lift (vad_root proc) in
  let! _ := iterate_tree fuel root (λ mmvad, f (ptr_addr mmvad)) in
  mut_ret tt.
End vad.

(** ** The memory of processes *)

(** The closure of [read_vad_pte]: the prototype entry of the page. *)
Definition find_vad_pte (fuel : nat) (self : Windows A) (addr proc : Z) : VmResult MmPte :=
  let? vma := win_find_vma_by_address self fuel proc addr in
  let? vma := ok_or vma (vm_of_str "encountered unmapped page") in
  let? vma_start := win_vma_start self vma in
  let? pte := read_pointer_field self Mmvad_FirstPrototypePte (pointer_of vma) in
  let? off := mul_u64 (as_u64 (va_sub addr vma_start) / 0x1000) 8 in
  let? pte_addr := va_add_u64 (ptr_addr pte) off in
  ptr_read self pod_u64 (Ptr pte_addr (ptr_ctx pte)).

Definition read_vad_pte (fuel : nat) (self : Windows A) (addr proc : Z)
  : MutRes bytes TranslationError unit :=
  if va_is_kernel addr then mut_lift (Err (TransInvalid 0))
  else
    match find_vad_pte fuel self addr proc with
    | Ok pte => read_prototype_pte self addr pte
    | Err _ => mut_lift (Err (TransInvalid 0))
    | Panic => mut_lift Panic
    | NoFuel => mut_lift NoFuel
    end.

Definition win_read_process_memory (fuel : nat) (self : Windows A) (proc mmu_addr addr : Z)
  : MutRes bytes VmError unit :=
  mut_map_err vm_of_trans
    (read_virtual_memory
       (λ addr, win_read_raw (read_vad_pte fuel self) self mmu_addr addr (Some proc)) addr).

Definition win_try_read_process_memory (fuel : nat) (self : Windows A) (proc mmu_addr addr : Z)
  : MutRes bytes VmError unit :=
  mut_map_err vm_of_mem
    (try_read_virtual_memory addr
       (λ addr, win_read_raw (read_vad_pte fuel self) self mmu_addr addr (Some proc))).
End kernel.
