(* ===== verification/WinPdb.v ===== *)
(** * Finding the PDB of a module ([Codeview], [pe_get_pdb_guid] and [find_kernel] of
    [vminer/src/os/windows/mod.rs])

    A PE image names its symbols in a CodeView record, which is searched by its
    magic in the pages of the image. *)

From S2P Require Import Prelude Rust Layout Addr Error Mem Text Registers Mmu Arch Pages Backend Os.

#[local] Open Scope string_scope.
#[local] Open Scope Z_scope.

Record Guid := { guid_data1 : Z; guid_data2 : Z; guid_data3 : Z; guid_data4 : bytes }.

Record Codeview := { cv_magic : bytes; cv_guid : Guid; cv_age : Z; cv_name : bytes }.

Definition Guid_pod : Pod Guid :=
  pod_iso (λ x, {| guid_data1 := x.1; guid_data2 := x.2.1; guid_data3 := x.2.2.1; guid_data4 := x.2.2.2 |})
          (λ g, (guid_data1 g, (guid_data2 g, (guid_data3 g, guid_data4 g))))
          (pod_pair pod_u32 (pod_pair pod_u16 (pod_pair pod_u16 (pod_array_u8 8)))).

Definition Codeview_pod : Pod Codeview :=
  pod_iso (λ x, {| cv_magic := x.1; cv_guid := x.2.1; cv_age := x.2.2.1; cv_name := x.2.2.2 |})
          (λ c, (cv_magic c, (cv_guid c, (cv_age c, cv_name c))))
          (pod_pair (pod_array_u8 4) (pod_pair Guid_pod (pod_pair pod_u32 (pod_array_u8 24)))).

#[export] Instance Guid_pod_ok : PodOk Guid_pod.
Proof. apply pod_iso_ok; [by intros []|by intros (?&?&?&?)|apply _]. Qed.

#[export] Instance Codeview_pod_ok : PodOk Codeview_pod.
Proof. apply pod_iso_ok; [by intros []|by intros (?&?&?&?)|apply _]. Qed.

(** [{:0nX}] *)
Definition format_hex_upper (width : nat) (z : Z) : bytes := pad_zeros width (format_radix true 16 z).

Definition pdb_id (self : Codeview) : string :=
  let g := cv_guid self in
  bytes_str (format_hex_upper 8 (guid_data1 g) ++ format_hex_upper 4 (guid_data2 g)
             ++ format_hex_upper 4 (guid_data3 g)
             ++ concat ((λ x, format_hex_upper 2 (bz x)) <$> guid_data4 g)
             ++ format_radix false 10 (cv_age self)).

Section pdb.
Context {bm : Build}.
(** [memchr::memchr], [memchr::memmem], and the [SizeOfImage] that the [object]
    crate reads in the headers of a PE image *)
Variable memchr : byte → bytes → option nat.
Variable new_finder : bytes → Finder.
Variable size_of_image : bytes → VmResult Z.

Definition codeview_name (self : Codeview) : option string :=
  i ← memchr Byte.x00 (cv_name self);
  let name := take i (cv_name self) in
  if utf8_valid name && forallb (λ c, (0x20 <=? bz c) && (bz c <? 0x80)) name
  then Some (bytes_str name) else None.

(** [memmem::find_iter]: the occurrences that do not overlap; the buffer has no
    more of them than bytes. *)
Fixpoint find_iter (fuel : nat) (finder : Finder) (pos : nat) (hay : bytes) : list Z :=
  match fuel with
  | O => []
  | S fuel =>
      match finder_find finder hay with
      | None => []
      | Some i =>
          let skip := (Z.to_nat i + length (needle finder) `max` 1)%nat in
          (Z.of_nat pos + i) :: find_iter fuel finder (pos + skip) (drop skip hay)
      end
  end.

Definition RSDS : bytes := str_bytes "RSDS".

Section guid.
Variable E : Type.
Variable vm_of_error : E → VmError.
Variable try_read_memory : Z → MutRes bytes E unit.

(** The inner loop, over the occurrences of the magic in the buffer. *)
Fixpoint pe_scan (addr off : Z) (buffer : bytes) (indices : list Z) : VmResult (option Codeview) :=
  match indices with
  | [] => Ok None
  | index :: indices =>
      let? end_ := add_u64 index (Z.of_nat (size_of Codeview_pod)) in
      let? codeview :=
        match slice_get buffer index end_ with
        | Some bs => Ok (pod_read Codeview_pod bs)
        | None =>
            let? a := va_add_u64 addr off in
            let? a := va_add_u64 a index in
            let (r, bs) := try_read_memory a (bytes_of Codeview_pod (zeroed Codeview_pod)) in
            let? _ := map_err vm_of_error r in
            Ok (pod_read Codeview_pod bs)
        end in
      match codeview_name codeview with
      | Some _ => Ok (Some codeview)
      | None => pe_scan addr off buffer indices
      end
  end.

(** [try_read_memory(a, &mut buffer[8..])?] *)
Definition pe_fill (a : Z) (buffer : bytes) : VmResult bytes :=
  let (r, buffer) := on_slice 8 (length buffer) (try_read_memory a) buffer in
  let? _ := map_err vm_of_error r in Ok buffer.

(** [buffer.copy_within(0x1000.., 0)] *)
Definition pe_shift (buffer : bytes) : bytes := drop 0x1000 buffer ++ drop (length buffer - 0x1000) buffer.

(** The outer loop, over the offsets of the pages. *)
Fixpoint pe_pages (addr : Z) (buffer : bytes) (offsets : list Z) : VmResult (option Codeview) :=
  match offsets with
  | [] => Ok None
  | off :: offsets =>
      let? found := pe_scan addr off buffer (find_iter (length buffer) (new_finder RSDS) 0 buffer) in
      match found with
      | Some codeview => Ok (Some codeview)
      | None =>
          let? a := va_add_u64 addr off in
          let? buffer := pe_fill a (pe_shift buffer) in
          pe_pages addr buffer offsets
      end
  end.

Definition pe_get_pdb_guid (addr : Z) (size : option Z) : VmResult (option Codeview) :=
  let? buffer := pe_fill addr (replicate 0x1008 Byte.x00) in
  let? size := match size with Some size => Ok size | None => size_of_image (drop 8 buffer) end in
  pe_pages addr buffer (range_step 0 size 0x1000).
End guid.

Definition KERNEL_PDB : bytes := str_bytes "ntkrnlmp.pdb" ++ [Byte.x00].
Definition KERNEL_PDB_STR : string := "ntkrnlmp.pdb".

Context {A : Type} `{Architecture A}.

Definition win_find_kernel_pgd (backend : Backend A) : VmResult Z :=
  result_context DynVm (bk_find_kernel_pgd backend false [0xfffff78000000000]) "could not find kernel PGD".

Definition kernel_codeview (backend : Backend A) (kpgd addr : Z) : VmResult (option Codeview) :=
  pe_get_pdb_guid MemoryAccessError vm_of_mem
    (λ addr, try_read_virtual_memory addr (λ addr, bk_read_virtual_memory backend kpgd addr)) addr None.

(** The loop over the occurrences of [MZ] at the start of a page; it stops at
    the first error of the iterator. *)
Fixpoint find_kernel_loop (fuel : nat) (backend : Backend A) (kpgd : Z) (it : KernelSearchIterator A)
  : VmResult (option (string * Z)) :=
  match fuel with
  | O => NoFuel
  | S fuel =>
      let? item := from_never (ksi_next it) in
      match item with
      | Some (Ok addr, it) =>
          if Z.land addr 0xfff =? 0 then
            match kernel_codeview backend kpgd addr with
            | Ok (Some codeview) =>
                if bool_decide (take (length KERNEL_PDB) (cv_name codeview) = KERNEL_PDB)
                then Ok (Some (pdb_id codeview, addr))
                else find_kernel_loop fuel backend kpgd it
            | Ok None | Err _ => find_kernel_loop fuel backend kpgd it
            | Panic => Panic
            | NoFuel => NoFuel
            end
          else find_kernel_loop fuel backend kpgd it
      | _ => Ok None
      end
  end.

Definition find_kernel (fuel : nat) (backend : Backend A) (kpgd : Z) : VmResult (option (string * Z)) :=
  find_kernel_loop fuel backend kpgd (iter_in_kernel_memory new_finder backend kpgd (str_bytes "MZ")).
End pdb.
