(* ===== verification/WinOs.v ===== *)
(** * Windows as an operating system ([vminer/src/os/windows/mod.rs])

    Building the operating system from a backend, and its implementation of the
    traits [HasVcpus] and [Os]. *)

From S2P Require Import Prelude Rust Layout Addr Error Mem Text Registers Mmu Arch Pages Backend.
From S2P Require Import Symbols Os Pointer WinProfile WinMemory Windows WinPdb.

#[local] Open Scope string_scope.
#[local] Open Scope Z_scope.

Section windows.
Context {bm : Build} {A : Type} `{Architecture A} {M : Type} `{OnceMap M}.
Variable fuel : nat.
Variable memchr : byte → bytes → option nat.
Variable new_finder : bytes → Finder.
Variable size_of_image : bytes → VmResult Z.

#[export] Instance windows_process : ReadProcess (Windows A) := win_read_process_memory fuel.

(** ** Building *)

(** [quick_check]: an error is [None]. *)
Definition win_quick_check (backend : Backend A) : Res Never (option (OsBuilder M)) :=
  match win_find_kernel_pgd backend with
  | Ok kpgd =>
      match find_kernel memchr new_finder size_of_image fuel backend kpgd with
      | Ok (Some (pdb_id, kaslr)) =>
          Ok (Some {| ob_kpgd := Some kpgd; ob_kaslr := Some kaslr; ob_version := Some pdb_id;
                      ob_symbols := None; ob_loader := None |})
      | Ok None | Err _ => Ok None
      | Panic => Panic
      | NoFuel => NoFuel
      end
  | Err _ => Ok None
  | Panic => Panic
  | NoFuel => NoFuel
  end.

(** [KiImplementedPhysicalBits] gives the mask that clears the swizzle bit. *)
Definition unswizzle_mask_of (bits : Z) : VmResult Z :=
  if bits =? 0 then Ok u64_max
  else
    let? n := sub_u64 bits 1 in
    let? bit := shl_u64 1 n in
    Ok (not_u64 bit).

(** The loader made when the builder has none: it creates a directory *)
Variable default_loader : VmResult SymbolLoader.

Definition win_build (backend : Backend A) (builder : OsBuilder M)
  : VmResult (Windows A * SymbolsIndexer M) :=
  let? kpgd := match ob_kpgd builder with
               | Some kpgd => Ok kpgd
               | None => win_find_kernel_pgd backend
               end in
  let? ' (pdb_id, base_addr) :=
    match ob_kaslr builder with
    | Some kaslr =>
        let? pdb_id := option_context (ob_version builder) "missing version" in
        Ok (pdb_id, kaslr)
    | None =>
        let? found := result_context DynVm
          (find_kernel memchr new_finder size_of_image fuel backend kpgd) "failed to find kernel data" in
        option_context found "failed to find kernel data"
    end in
  let? symbols_loader := match ob_loader builder with
                         | Some loader => Ok loader
                         | None => default_loader
                         end in
  let symbols := default indexer_new (ob_symbols builder) in
  let (r, symbols) := load_module "ntoskrnl.exe" (λ _, symbols_loader KERNEL_PDB_STR pdb_id) symbols in
  let? _ := r in
  let? profile := win_profile_new symbols in
  let? bits :=
    match KiImplementedPhysicalBits (win_fast_syms profile) with
    | Some bits =>
        let? addr := va_add_u64 base_addr bits in
        map_err vm_of_trans (read_value_virtual pod_u64 backend kpgd addr)
    | None => Ok 0
    end in
  let? unswizzle_mask := unswizzle_mask_of bits in
  Ok ({| w_backend := backend; w_symbols_loader := symbols_loader; w_kpgd := kpgd;
         w_base_addr := base_addr; w_profile := profile; w_unswizzle_mask := unswizzle_mask |}, symbols).

(** ** The methods *)

Section os.
Variable self : Windows A.

Definition kpcr (vcpu : Z) : VmResult (Pointer KernelSpace) :=
  let? per_cpu := map_err vm_of_vcpu (kernel_per_cpu (bk_vcpus (w_backend self)) vcpu) in
  let? per_cpu := option_context per_cpu "failed to get kernel per cpu" in
  Ok (pointer_of per_cpu).

Definition user_shared_data : Pointer KernelSpace := pointer_of 0xfffff78000000000.

Definition nt_os_version : VmResult (Z * Z) :=
  let? major := read_field self pod_u32 KUserSharedData_NtMajorVersion user_shared_data in
  let? minor := read_field self pod_u32 KUserSharedData_NtMinorVersion user_shared_data in
  Ok (major, minor).

Definition win_for_each_kernel_module : ForEach Z := λ S f,
  let! head := mut_lift (va_add_u64 (w_base_addr self) (PsLoadedModuleList (win_fast_syms (w_profile self)))) in
  win_iterate_list fuel self (pointer_of head) LdrDataTableEntry_InLoadOrderLinks S (λ m, f (ptr_addr m)).

Definition win_current_thread (vcpu : Z) : VmResult Z :=
  let? k := kpcr vcpu in
  let? prcb := field self Kpcr_Prcb k in
  let? thread := read_pointer_field self Kprcb_CurrentThread prcb in
  Ok (ptr_addr thread).

Definition win_process_id (proc : Z) : VmResult Z :=
  read_field self pod_u64 Eprocess_UniqueProcessId (pointer_of proc).

Definition win_process_name (proc : Z) : VmResult string :=
  let? name := read_field self (pod_array_u8 16) Eprocess_ImageFileName (pointer_of proc) in
  let name := match memchr Byte.x00 name with Some i => take i name | None => name end in
  Ok (bytes_str (from_utf8_lossy name)).

Definition win_process_pgd (proc : Z) : VmResult Z :=
  if va_is_null proc then Ok (w_kpgd self)
  else
    let? kproc := field self Eprocess_Pcb (pointer_of proc) in
    let? user := if has_field self Kprocess_UserDirectoryTableBase then
                   let? dtb := read_field self pod_u64 Kprocess_UserDirectoryTableBase kproc in
                   Ok (if negb (dtb =? 0) && negb (dtb =? 1) then Some dtb else None)
                 else Ok None in
    match user with
    | Some dtb => Ok dtb
    | None => read_field self pod_u64 Kprocess_DirectoryTableBase kproc
    end.

Definition win_process_path (proc : Z) : VmResult (option string) :=
  if negb (has_field self Eprocess_ImageFilePointer) then Ok None
  else
    let? path := read_pointer_field self Eprocess_ImageFilePointer (pointer_of proc) in
    map_non_null path (λ path,
      let? name := field self FileObject_FileName path in read_unicode_string self name).

Definition win_process_parent_id (proc : Z) : VmResult Z :=
  read_field self pod_u64 Eprocess_InheritedFromUniqueProcessId (pointer_of proc).

Definition win_for_each_process : ForEach Z := λ S f,
  let! head := mut_lift (va_add_u64 (w_base_addr self) (PsActiveProcessHead (win_fast_syms (w_profile self)))) in
  win_iterate_list fuel self (pointer_of head) Eprocess_ActiveProcessLinks S (λ p, f (ptr_addr p)).

(** It calls [find_process_by_id] of the trait. *)
Definition win_process_parent (proc : Z) : VmResult Z :=
  let? parent_pid := win_process_parent_id proc in
  let? parent := run_on None (win_for_each_process _ (find (λ p,
                   let? id := win_process_id p in Ok (id =? parent_pid)))) in
  Ok (default proc parent).

Definition win_process_for_each_child (proc : Z) : ForEach Z := λ S f,
  let! pid := mut_lift (win_process_id proc) in
  win_for_each_process S (λ proc,
    let! parent := mut_lift (win_process_parent_id proc) in
    if parent =? pid then f proc else mut_ret Continue).

Definition win_process_for_each_thread (proc : Z) : ForEach Z := λ S f,
  let! head := mut_lift (field self Eprocess_ThreadListHead (pointer_of proc)) in
  win_iterate_list fuel self head Ethread_ThreadListEntry S (λ t, f (ptr_addr t)).

Definition win_process_for_each_module (proc : Z) : ForEach Z := λ S f,
  let! peb := mut_lift (read_pointer_field self Eprocess_Peb (pointer_of proc)) in
  if ptr_is_null peb then mut_ret tt
  else
    let! peb := mut_lift (switch_to_userspace win_process_pgd proc peb) in
    let! ldr := mut_lift (read_pointer_field self Peb_Ldr peb) in
    let! head := mut_lift (field self PebLdrData_InLoadOrderModuleList ldr) in
    win_iterate_list fuel self head LdrDataTableEntry_InLoadOrderLinks S (λ m, f (ptr_addr m)).

Definition win_thread_process (thread : Z) : VmResult Z :=
  let? tcb := field self Ethread_Tcb (pointer_of thread) in
  let? proc := read_pointer_field self Kthread_Process tcb in
  Ok (ptr_addr proc).

Definition win_thread_id (thread : Z) : VmResult Z :=
  let? cid := field self Ethread_Cid (pointer_of thread) in
  read_field self pod_u64 ClientId_UniqueThread cid.

Definition win_thread_name (thread : Z) : VmResult (option string) :=
  if negb (has_field self Ethread_ThreadName) then Ok None
  else
    let? name := read_pointer_field self Ethread_ThreadName (pointer_of thread) in
    map_non_null name (read_unicode_string self).

Definition win_module_span (module proc : Z) : VmResult (Z * Z) :=
  let? module := switch_to_userspace win_process_pgd proc (pointer_of module) in
  let? dll_base := read_field self pod_u64 LdrDataTableEntry_DllBase module in
  let? size := read_field self pod_u32 LdrDataTableEntry_SizeOfImage module in
  let? end_ := va_add_u64 dll_base size in
  Ok (dll_base, end_).

Definition win_module_name (module proc : Z) : VmResult string :=
  let? module := switch_to_userspace win_process_pgd proc (pointer_of module) in
  let? name := field self LdrDataTableEntry_BaseDllName module in
  read_unicode_string self name.

Definition win_module_path (module proc : Z) : VmResult string :=
  let? module := switch_to_userspace win_process_pgd proc (pointer_of module) in
  let? name := field self LdrDataTableEntry_FullDllName module in
  read_unicode_string self name.

Definition module_codeview (proc module : Z) : VmResult (option Codeview) :=
  let? ' (mod_start, mod_end) := win_module_span module proc in
  let mod_size := as_u64 (va_sub mod_end mod_start) in
  let? pgd := win_process_pgd proc in
  pe_get_pdb_guid memchr new_finder size_of_image VmError id
    (win_try_read_process_memory fuel self proc pgd) mod_start (Some mod_size).

Definition win_module_symbols (proc module : Z)
  : MutRes (SymbolsIndexer M) VmError (option ModuleSymbols) :=
  let! name := mut_lift (win_module_name module proc) in
  load_module name (λ _,
    let? codeview := module_codeview proc module in
    match codeview with
    | Some codeview =>
        let? name := unwrap (codeview_name memchr codeview) in
        w_symbols_loader self name (pdb_id codeview)
    | None => Ok None
    end).

Definition windows_os : Os A (SymbolsIndexer M) := {|
  os_vcpus := forward_vcpus (bk_vcpus (w_backend self));
  os_read_virtual_memory := win_read_virtual_memory self;
  os_try_read_virtual_memory := win_try_read_virtual_memory self;
  kernel_pgd := w_kpgd self;
  for_each_kernel_module := win_for_each_kernel_module;
  init_process := Err unsupported;
  current_thread := win_current_thread;
  process_is_kernel := λ _, Err unimplemented;
  process_id := win_process_id;
  process_name := win_process_name;
  process_pgd := win_process_pgd;
  process_path := win_process_path;
  process_parent := win_process_parent;
  process_parent_id := win_process_parent_id;
  process_for_each_child := win_process_for_each_child;
  process_for_each_thread := win_process_for_each_thread;
  process_for_each_module := win_process_for_each_module;
  for_each_process := win_for_each_process;
  process_for_each_vma := win_for_each_vma self fuel;
  thread_process := win_thread_process;
  thread_id := win_thread_id;
  thread_name := win_thread_name;
  vma_path := λ _, Err unimplemented;
  vma_start := win_vma_start self;
  vma_end := win_vma_end self;
  vma_flags := win_vma_flags self;
  module_span := win_module_span;
  module_name := win_module_name;
  module_path := win_module_path;
  module_symbols := win_module_symbols;
  read_process_memory := win_read_process_memory fuel self;
  try_read_process_memory := win_try_read_process_memory fuel self;
  process_find_vma_by_address := win_find_vma_by_address self fuel;
|}.
End os.
End windows.
