(* ===== verification/WinVadSpec.v ===== *)
(** * The trees and the lists of the Windows kernel

    The tree of the VMAs of a process in memory, its traversal and its search;
    the lists of processes.  Both searches of a VMA, the one of the trait that
    goes through all of them and the one of Windows that descends the tree,
    agree. *)

From S2P Require Import Prelude Rust Layout Addr Error Mem MemSpec Text Registers Mmu Arch.
From S2P Require Import ArchSpec Pages Backend Symbols Os OsSpec Pointer PointerSpec WinProfile.
From S2P Require Import WinMemory Windows WinPdb WinOs.

(** ** Trees *)

Inductive tree := Leaf | Node (l : tree) (a : Z) (r : tree).

Fixpoint inorder (t : tree) : list Z :=
  match t with Leaf => [] | Node l a r => inorder l ++ a :: inorder r end.

Fixpoint height (t : tree) : nat :=
  match t with Leaf => 0 | Node l _ r => S (height l `max` height r) end.

(** An iteration that says whether its callback broke. *)
Fixpoint iterate_cf {T S} (f : T → MutRes S VmError ControlFlow) (l : list T) : MutRes S VmError ControlFlow :=
  match l with
  | [] => mut_ret Continue
  | x :: l => let! c := f x in if is_break c then mut_ret Break else iterate_cf f l
  end.

Lemma iterate_cf_app {T S} (f : T → MutRes S VmError ControlFlow) l1 l2 s :
  iterate_cf f (l1 ++ l2) s
  = (let! c := iterate_cf f l1 in if is_break c then mut_ret Break else iterate_cf f l2) s.
Proof.
  revert s. induction l1 as [|x l1 IH]; intros s; [done|]. cbn [app iterate_cf]. unfold mut_bind in *.
  destruct (f x s) as [[[]| | |] s']; cbn [is_break]; [apply IH|done..].
Qed.

Lemma iterate_cf_iterate {T S} (f : T → MutRes S VmError ControlFlow) l s :
  (let! _ := iterate_cf f l in mut_ret tt) s = iterate f l (Ok tt) s.
Proof.
  revert s. induction l as [|x l IH]; intros s; [done|]. cbn [iterate_cf iterate]. unfold mut_bind in *.
  destruct (f x s) as [[[]| | |] s']; cbn [is_break]; [apply IH|done..].
Qed.

Section vad.
Context {bm : Build} {A : Type} `{Architecture A}.
Variable os : Windows A.

(** The nodes of the tree at an address, as the code follows them. *)
Inductive tree_at : Z → tree → Prop :=
| tree_null : tree_at 0 Leaf
| tree_node p lp rp l r :
    p ≠ 0 →
    left_child os (pointer_of p) = Ok (pointer_of lp) → tree_at lp l →
    right_child os (pointer_of p) = Ok (pointer_of rp) → tree_at rp r →
    tree_at p (Node l p r).

Lemma iterate_tree_spec {S} fuel p t (f : Pointer KernelSpace → MutRes S VmError ControlFlow) s :
  tree_at p t → p ≠ 0 → (height t <= fuel)%nat →
  iterate_tree os fuel (pointer_of p) f s = iterate_cf (λ a, f (pointer_of a)) (inorder t) s.
Proof.
  intros Ht. revert fuel s. induction Ht as [|p lp rp l r Hp Hl Htl IHl Hr Htr IHr]; intros fuel s Hne Hf; [done|].
  destruct fuel as [|fuel]; [cbn in Hf; lia|]. cbn [height] in Hf. cbn [iterate_tree inorder].
  assert (Hside : ∀ q u s, tree_at q u → (q ≠ 0 → iterate_tree os fuel (pointer_of q) f s
            = iterate_cf (λ a, f (pointer_of a)) (inorder u) s) →
            (if ptr_is_null (pointer_of q) then mut_ret Continue else iterate_tree os fuel (pointer_of q) f) s
            = iterate_cf (λ a, f (pointer_of a)) (inorder u) s).
  { intros q u s0 Hu Hiu. unfold ptr_is_null, va_is_null. cbn [ptr_addr pointer_of].
    destruct (Z.eqb_spec q 0) as [->|Hq]; [by inversion Hu|by apply Hiu]. }
  rewrite iterate_cf_app. cbn [iterate_cf]. unfold mut_bind, mut_lift. rewrite Hl.
  rewrite (Hside lp l) by (done || (intros; apply IHl; [done|lia])).
  destruct (iterate_cf _ (inorder l) s) as [[[]| | |] s1]; cbn [is_break]; [|done..].
  destruct (f (pointer_of p) s1) as [[[]| | |] s2]; cbn [is_break]; [|done..]. rewrite Hr.
  rewrite (Hside rp r) by (done || (intros; apply IHr; [done|lia])).
  by destruct (iterate_cf _ (inorder r) s2) as [[[]| | |] s3].
Qed.

(** A comparison for which the elements come in the order [Lt], at most one
    [Eq], [Gt]. *)
Definition cmp_before (cmp : Z → comparison) (x y : Z) : Prop :=
  (cmp x = Gt → cmp y = Gt) ∧ (cmp y = Lt → cmp x = Lt) ∧ ¬ (cmp x = Eq ∧ cmp y = Eq).

Definition is_eq (c : comparison) : bool := match c with Eq => true | _ => false end.

Lemma find_app {T} (b : T → bool) l1 l2 :
  List.find b (l1 ++ l2) = match List.find b l1 with Some x => Some x | None => List.find b l2 end.
Proof. induction l1 as [|x l1 IH]; cbn; [done|]. by destruct (b x). Qed.

Lemma find_none_all {T} (b : T → bool) l : (∀ x, x ∈ l → b x = false) → List.find b l = None.
Proof.
  induction l as [|x l IH]; intros Hb; cbn; [done|].
  rewrite Hb by apply list_elem_of_here. apply IH. intros. by apply Hb, list_elem_of_further.
Qed.

Lemma strongly_sorted_app {T} (R : T → T → Prop) l1 x l2 :
  StronglySorted R (l1 ++ x :: l2) →
  StronglySorted R l1 ∧ StronglySorted R l2 ∧ (∀ y, y ∈ l1 → R y x) ∧ (∀ y, y ∈ l2 → R x y).
Proof.
  induction l1 as [|z l1 IH]; cbn; intros Hs; apply StronglySorted_inv in Hs as [Hs Hz].
  - split_and!; [constructor|done|intros y Hy; by apply not_elem_of_nil in Hy|]. by apply Forall_forall.
  - destruct (IH Hs) as (H1 & H2 & H3 & H4). apply Forall_app in Hz as [Hz1 Hz2].
    apply Forall_cons in Hz2 as [Hzx _]. split_and!; [by constructor|done| |done].
    intros y [->|Hy]%elem_of_cons; [done|by apply H3].
Qed.

(** Descending the tree finds what going through its elements finds. *)
Lemma find_in_tree_spec fuel p t (f : Pointer KernelSpace → VmResult comparison) cmp :
  tree_at p t → p ≠ 0 → (height t <= fuel)%nat →
  (∀ a, a ∈ inorder t → f (pointer_of a) = Ok (cmp a)) →
  StronglySorted (cmp_before cmp) (inorder t) →
  find_in_tree os fuel (pointer_of p) f = Ok (pointer_of <$> List.find (λ a, is_eq (cmp a)) (inorder t)).
Proof.
  intros Ht. revert fuel. induction Ht as [|p lp rp l r Hp Hl Htl IHl Hr Htr IHr];
    intros fuel Hne Hf Hcmp Hs; [done|].
  destruct fuel as [|fuel]; [cbn in Hf; lia|]. cbn [height] in Hf. cbn [find_in_tree inorder] in *.
  apply strongly_sorted_app in Hs as (Hsl & Hsr & Hlp & Hpr).
  assert (Hinl : ∀ a, a ∈ inorder l → a ∈ inorder l ++ p :: inorder r) by (intros; apply elem_of_app; auto).
  assert (Hinr : ∀ a, a ∈ inorder r → a ∈ inorder l ++ p :: inorder r)
    by (intros; apply elem_of_app; right; by apply list_elem_of_further).
  rewrite Hcmp by (apply elem_of_app; right; apply list_elem_of_here). cbn [res_bind].
  rewrite find_app. cbn [List.find]. destruct (cmp p) eqn:Hc.
  - rewrite (find_none_all _ (inorder l)); [done|].
    intros a Ha. destruct (Hlp a Ha) as (_ & _ & Hn). destruct (cmp a) eqn:E; [tauto|done..].
  - rewrite (find_none_all _ (inorder l)).
    2:{ intros a Ha. destruct (Hlp a Ha) as (_ & HL & _). by rewrite HL. }
    cbn [is_eq]. rewrite Hr. cbn [res_bind]. unfold ptr_is_null, va_is_null. cbn [ptr_addr pointer_of].
    destruct (Z.eqb_spec rp 0) as [->|Hq]; [by inversion Htr|]. apply IHr; [done|lia|auto|done].
  - assert (Hnr : List.find (λ a, is_eq (cmp a)) (inorder r) = None).
    { apply find_none_all. intros a Ha. destruct (Hpr a Ha) as (HG & _). by rewrite HG. }
    cbn [is_eq]. rewrite Hnr, Hl. cbn [res_bind]. unfold ptr_is_null, va_is_null. cbn [ptr_addr pointer_of].
    destruct (Z.eqb_spec lp 0) as [->|Hq]; [by inversion Htl|].
    rewrite (IHl fuel) by (done || lia || auto). by destruct (List.find _ (inorder l)).
Qed.
End vad.

(** ** The operating system *)

Section claims.
Context {bm : Build} {A : Type} `{Architecture A} {M : Type} `{OnceMap M}.
Variables (fuel : nat) (memchr : byte → bytes → option nat) (new_finder : bytes → Finder)
  (size_of_image : bytes → VmResult Z).
Variable self : Windows A.

Notation os := (windows_os (M:=M) fuel memchr new_finder size_of_image self).

Lemma vma_iterates proc p t :
  vad_root self proc = Ok (pointer_of p) → tree_at self p t → p ≠ 0 → (height t <= fuel)%nat →
  Iterates (win_for_each_vma self fuel proc) (inorder t).
Proof.
  intros Hroot Ht Hp Hf S f s. unfold win_for_each_vma. rewrite <- iterate_cf_iterate.
  unfold mut_bind at 1, mut_lift at 1. rewrite Hroot. unfold mut_bind.
  rewrite (iterate_tree_spec self fuel p t) by done. done.
Qed.

(** C19. Looking up the VMA of an address: when the tree of the process has VMAs
    that do not overlap, in order, the descent in the tree that Windows uses
    finds the VMA that contains the address and [None] when there is none, as
    does the search of the trait through all the VMAs, which it replaces; a bound
    on the height of the tree is enough for both. *)
Theorem win_vma_lookup_agree proc p t vs ve addr :
  vad_root self proc = Ok (pointer_of p) → tree_at self p t → p ≠ 0 → (height t <= fuel)%nat →
  (∀ a, a ∈ inorder t → win_vma_start self a = Ok (vs a) ∧ win_vma_end self a = Ok (ve a) ∧ vs a <= ve a) →
  StronglySorted (λ a b, ve a <= vs b) (inorder t) →
  let found := List.find (λ a, in_span (vs a, ve a) addr) (inorder t) in
  process_find_vma_by_address os proc addr = Ok found ∧
  default_find_vma_by_address (process_for_each_vma os) (vma_start os) (vma_end os) proc addr = Ok found.
Proof.
  intros Hroot Ht Hp Hf Hv Hs found. split.
  - set (cmp := λ a, if addr <? vs a then Gt else if addr <? ve a then Eq else Lt).
    cbn [process_find_vma_by_address windows_os]. unfold win_find_vma_by_address. rewrite Hroot. cbn [res_bind].
    rewrite (find_in_tree_spec self fuel p t (vma_compare self addr) cmp); [|done..| |].
    + cbn [res_bind]. do 2 f_equal. unfold found.
      assert (Hext : ∀ l, List.find (λ a, is_eq (cmp a)) l = List.find (λ a, in_span (vs a, ve a) addr) l).
      { induction l as [|a l IH]; cbn [List.find]; [done|]. rewrite <- IH.
        assert (is_eq (cmp a) = in_span (vs a, ve a) addr) as ->; [|done].
        unfold cmp, in_span. cbn [fst snd]. destruct (Z.ltb_spec addr (vs a)).
        - by replace (vs a <=? addr) with false by lia.
        - replace (vs a <=? addr) with true by lia. by destruct (addr <? ve a). }
      rewrite Hext. by destruct (List.find _ _).
    + intros a Ha. destruct (Hv a Ha) as (H1' & H2' & _). unfold vma_compare, cmp. cbn [ptr_addr pointer_of].
      rewrite H1'. cbn [res_bind]. destruct (addr <? vs a); [done|]. rewrite H2'. done.
    + revert Hs Hv. clear -cmp. generalize (inorder t) as l. induction l as [|a l IH]; intros Hs Hv; [constructor|].
      apply StronglySorted_inv in Hs as [Hs Ha]. constructor.
      * apply IH; [done|]. intros b Hb. by apply Hv, list_elem_of_further.
      * rewrite Forall_forall in Ha |- *. intros b Hb. specialize (Ha b Hb).
        destruct (Hv a (list_elem_of_here _ _)) as (_ & _ & ?).
        destruct (Hv b (list_elem_of_further _ _ _ Hb)) as (_ & _ & ?).
        unfold cmp_before, cmp. repeat case_match; split_and!; try done; try lia; intuition (done || lia).
  - unfold default_find_vma_by_address. cbn [process_for_each_vma vma_start vma_end windows_os].
    rewrite (find_iterates _ _ _ _ (vma_iterates proc p t Hroot Ht Hp Hf)).
    rewrite (find_first_total _ (λ a, in_span (vs a, ve a) addr)).
    + unfold found. by destruct (List.find _ _).
    + intros a Ha. destruct (Hv a Ha) as (H1' & H2' & _). unfold default_vma_contains, in_span.
      rewrite H1'. cbn [res_bind fst snd]. destruct (vs a <=? addr); [|done]. by rewrite H2'.
Qed.

(** A list of the kernel: its head, its nodes and the offset of the links. *)
Lemma list_iterates {Ctx L} `{Space (Windows A) Ctx} `{HasLayout (Windows A) L}
    (head : Pointer Ctx) (get_offset : L → Field) layout off nodes last :
  get_layout self = Ok layout → offset (get_offset layout) = Ok off →
  chain (read_pointer_field self ListEntry_Flink) head head nodes last →
  (length nodes < fuel)%nat →
  (∀ p, p ∈ nodes → is_u64 (p - off)) →
  ∀ S (f : Z → MutRes S VmError ControlFlow) s,
  win_iterate_list fuel self head get_offset S (λ p, f (ptr_addr p)) s
  = iterate f ((λ p, p - off) <$> nodes) last s.
Proof.
  intros Hl Ho Hc Hf Hn S f s. unfold win_iterate_list, mut_bind, mut_lift. rewrite Hl, Ho.
  rewrite (list_loop_iterate _ head head nodes last) by done. done.
Qed.

(** C29. Processes of Windows: when the links that start at [PsActiveProcessHead]
    lead through some nodes back to the head, or to a link that cannot be read,
    collecting the processes gives the structures that hold these nodes, in
    order, or the error; the children of a process are those whose parent has
    its identifier.  A bound on the number of nodes is enough. *)
Theorem windows_processes eproc off nodes last proc pid parent :
  let head := w_base_addr self + PsActiveProcessHead (win_fast_syms (w_profile self)) in
  let procs := (λ p, p - off) <$> nodes in
  is_u64 head →
  get_layout self = Ok eproc → offset (Eprocess_ActiveProcessLinks eproc) = Ok off →
  chain (read_pointer_field self ListEntry_Flink) (pointer_of head) (pointer_of head) nodes last →
  (length nodes < fuel)%nat →
  (∀ p, p ∈ nodes → is_u64 (p - off)) →
  win_process_id self proc = Ok pid →
  (∀ p, p ∈ procs → win_process_parent_id self p = Ok (parent p)) →
  collect_processes os = (let? _ := last in Ok procs) ∧
  process_collect_children os proc = (let? _ := last in Ok (List.filter (λ p, parent p =? pid) procs)).
Proof.
  intros head procs Hh Hl Ho Hc Hf Hn Hid Hpar.
  assert (Hi : IteratesTo (win_for_each_process fuel self) procs last).
  { intros S f s. unfold win_for_each_process, mut_bind, mut_lift, va_add_u64.
    rewrite add_u64_ok by (unfold is_u64 in Hh; lia).
    by rewrite (list_iterates _ _ eproc off nodes last). }
  unfold collect_processes, process_collect_children. cbn [for_each_process process_for_each_child windows_os].
  split; [exact (collect_iterates _ _ _ Hi)|]. apply collect_iterates. intros S f s.
  unfold win_process_for_each_child, mut_bind at 1, mut_lift at 1. rewrite Hid, Hi.
  rewrite <- (iterate_filter f (λ p, let? x := win_process_parent_id self p in Ok (x =? pid))).
  - apply iterate_ext. intros p s' Hp. unfold mut_bind, mut_lift. rewrite Hpar by done. cbn [res_bind].
    by destruct (_ =? _).
  - intros p Hp. by rewrite Hpar.
Qed.
End claims.

(** ** The properties at concrete inputs *)

Section witnesses.
#[local] Existing Instance debug_build.

(** Two processes; the tree of the first has two VMAs. *)
Definition sample_windows : Windows X86_64 := {|
  w_backend := sample_backend
    [(0x1010, 0x2008); (0x2008, 0x3008); (0x3008, 0x1010);
     (0x2018, 4); (0x2020, 0); (0x3018, 5); (0x3020, 4);
     (0x2028, 0x4000); (0x2030, 0); (0x2038, 0x400); (0x2040, 0x4ff);
     (0x4000, 0); (0x4008, 0); (0x4010, 0x100); (0x4018, 0x1ff)];
  w_symbols_loader := empty_loader;
  w_kpgd := 0;
  w_base_addr := 0x1000;
  w_profile := {|
    win_fast_syms := {| KiImplementedPhysicalBits := None; PsActiveProcessHead := 0x10; PsLoadedModuleList := 0 |};
    wp_layouts := WinLayouts_new {|
      ms_buffer := []; ms_symbols := []; ms_addresses := [];
      ms_types := list_to_map ((λ s, (st_name s, s)) <$>
        [sample_struct "_EPROCESS" [("ActiveProcessLinks", 8); ("UniqueProcessId", 0x18);
                                    ("InheritedFromUniqueProcessId", 0x20); ("VadRoot", 0x28)];
         sample_struct "_LIST_ENTRY" [("Flink", 0); ("Blink", 8)];
         sample_struct "_MMVAD_SHORT" [("LeftChild", 0); ("RightChild", 8); ("StartingVpn", 0x10);
                                       ("EndingVpn", 0x18)]]%string) |} |};
  w_unswizzle_mask := u64_max;
|}.

Notation sample_windows_os := (windows_os (M:=gmap string (option ModuleSymbols)) 5 find_byte naive_finder
  (λ _, Err unsupported) sample_windows).

Lemma win_vma_lookup_agree_witness :
  process_find_vma_by_address sample_windows_os 0x2000 0x150000 = Ok (Some 0x4000) ∧
  default_find_vma_by_address (process_for_each_vma sample_windows_os) (vma_start sample_windows_os)
    (vma_end sample_windows_os) 0x2000 0x150000 = Ok (Some 0x4000).
Proof.
  refine (win_vma_lookup_agree (M:=gmap string (option ModuleSymbols)) 5 find_byte naive_finder
    (λ _, Err unsupported) sample_windows 0x2000 0x2028 (Node (Node Leaf 0x4000 Leaf) 0x2028 Leaf)
    (λ a, if a =? 0x4000 then 0x100000 else 0x400000) (λ a, if a =? 0x4000 then 0x200000 else 0x500000)
    0x150000 _ _ _ _ _ _).
  - vm_compute. reflexivity.
  - apply (tree_node _ _ 0x4000 0); [done|by vm_compute| |by vm_compute|constructor].
    apply (tree_node _ _ 0 0); [done|by vm_compute|constructor|by vm_compute|constructor].
  - done.
  - cbn. lia.
  - intros a Ha. assert (a = 0x4000 ∨ a = 0x2028) as [-> | ->] by (cbn in Ha; set_solver).
    + split; [by vm_compute|]. split; [by vm_compute|done].
    + split; [by vm_compute|]. split; [by vm_compute|done].
  - repeat constructor; done.
Defined.

Lemma windows_processes_witness :
  collect_processes sample_windows_os = Ok [0x2000; 0x3000] ∧
  process_collect_children sample_windows_os 0x2000 = Ok [0x3000].
Proof.
  refine (windows_processes (M:=gmap string (option ModuleSymbols)) 5 find_byte naive_finder
    (λ _, Err unsupported) sample_windows
    (Eprocess_new (sample_struct "_EPROCESS" [("ActiveProcessLinks", 8); ("UniqueProcessId", 0x18);
                                    ("InheritedFromUniqueProcessId", 0x20); ("VadRoot", 0x28)]%string))
    8 [0x2008; 0x3008] (Ok tt) 0x2000 4 (λ p, if p =? 0x2000 then 0 else 4) _ _ _ _ _ _ _ _).
  - by split.
  - by vm_compute.
  - by vm_compute.
  - apply (chain_node _ _ _ (pointer_of 0x2008)); [by vm_compute|done|].
    apply (chain_node _ _ _ (pointer_of 0x3008)); [by vm_compute|done|].
    apply (chain_head _ _ _ (pointer_of 0x1010)); [by vm_compute|done].
  - cbn. lia.
  - intros p Hp. assert (p = 0x2008 ∨ p = 0x3008) as [-> | ->] by (cbn in Hp; set_solver); by split.
  - by vm_compute.
  - intros p Hp. assert (p = 0x2000 ∨ p = 0x3000) as [-> | ->] by (cbn in Hp; set_solver); by vm_compute.
Defined.
End witnesses.
