(* ===== verification/WinSpec.v ===== *)
(** * What the Windows code computes

    Pages that are not valid but still in memory, the tree of VMAs, and the
    lists of the kernel. *)

From S2P Require Import Prelude Rust Layout Addr Error Mem Text Registers Mmu Arch ArchSpec.
From S2P Require Import Pages Backend Symbols Os OsSpec Pointer PointerSpec WinProfile WinMemory.
From S2P Require Import Windows WinPdb WinOs WinVadSpec.

(** ** Page table entries *)

Section pte.
Context {bm : Build} {A : Type} `{Architecture A}.

Lemma u64_bit_above x i : is_u64 x → 64 <= i → Z.testbit x i = false.
Proof.
  intros Hx Hi. unfold is_u64 in Hx. destruct (decide (x = 0)) as [->|]; [apply Z.bits_0|].
  apply Z.bits_above_log2; [lia|]. apply Z.log2_lt_pow2; [lia|].
  eapply Z.lt_le_trans; [apply Hx|]. apply Z.pow_le_mono_r; lia.
Qed.

Lemma testbit_one_shift n i : 0 <= n → 0 <= i → Z.testbit (Z.shiftl 1 n) i = (i =? n).
Proof. intros. rewrite Z.shiftl_1_l. rewrite Z.pow2_bits_eqb by lia. lia. Qed.

Lemma unswizzle_mask_ok bits :
  0 <= bits <= 64 →
  unswizzle_mask_of bits =
    Ok (if bits =? 0 then u64_max else not_u64 (Z.shiftl 1 (bits - 1))) ∧
  ∀ pte i, is_u64 pte → 0 <= i →
    Z.testbit (Z.land pte (if bits =? 0 then u64_max else not_u64 (Z.shiftl 1 (bits - 1)))) i
    = Z.testbit pte i && negb (i =? bits - 1).
Proof.
  intros Hb. assert (H64 : bits ≠ 0 → is_u64 (Z.shiftl 1 (bits - 1))).
  { intros. rewrite Z.shiftl_1_l. unfold is_u64. pose proof (Z.pow_lt_mono_r 2 (bits - 1) 64). lia. }
  unfold unswizzle_mask_of. destruct (Z.eqb_spec bits 0) as [->|Hne]; split.
  - done.
  - intros pte i Hp Hi. replace (negb (i =? 0 - 1)) with true by lia. rewrite andb_true_r.
    replace u64_max with (Z.ones 64) by done. rewrite Z.land_ones by lia. unfold is_u64 in Hp.
    by rewrite Z.mod_small.
  - rewrite sub_u64_ok by lia. cbn [res_bind]. unfold shl_u64. replace (bits - 1 <? 64) with true by lia.
    cbn [res_bind]. by rewrite wrap_u64_small by auto.
  - intros pte i Hp Hi. rewrite land_not_u64 by auto. rewrite Z.ldiff_spec. f_equal. f_equal.
    apply testbit_one_shift; lia.
Qed.

(** Swizzling: with the mask made for a machine of [bits] physical bits,
    which is computed without a panic for every width up to 64, the bit that
    Windows flips is cleared exactly when the entry does not say that it is not
    swizzled, every other bit is kept, and doing it twice changes nothing more. *)
Theorem unswizzle_spec (self : Windows A) bits pte :
  0 <= bits <= 64 → is_u64 pte →
  ∃ mask, unswizzle_mask_of bits = Ok mask ∧
  (w_unswizzle_mask self = mask →
   (∀ i, 0 <= i → Z.testbit (unswizzle self pte) i =
      Z.testbit pte i && (Z.testbit pte 4 || negb (i =? bits - 1))) ∧
   unswizzle self (unswizzle self pte) = unswizzle self pte).
Proof.
  intros Hb Hp. destruct (unswizzle_mask_ok bits Hb) as [Hok Hland].
  eexists. split; [exact Hok|]. intros Hm.
  assert (Hbits : ∀ i, 0 <= i → Z.testbit (unswizzle self pte) i =
            Z.testbit pte i && (Z.testbit pte 4 || negb (i =? bits - 1))).
  { intros i Hi. unfold unswizzle, MMPTE_SWIZZLE_BIT. rewrite land_bit_zero by lia.
    destruct (Z.testbit pte 4); cbn [negb orb]; [by rewrite andb_true_r|].
    rewrite Hm. by apply Hland. }
  split; [exact Hbits|]. unfold unswizzle at 1, MMPTE_SWIZZLE_BIT. rewrite land_bit_zero, Hbits by lia.
  destruct (Z.testbit pte 4) eqn:H4; cbn [andb orb negb]; [done|].
  rewrite Hm. apply Z.bits_inj'. intros i Hi.
  unfold unswizzle, MMPTE_SWIZZLE_BIT. rewrite land_bit_zero, H4 by lia. cbn [negb].
  rewrite Hm. destruct (bits =? 0); rewrite !Z.land_spec;
    by destruct (Z.testbit pte i), (Z.testbit _ i).
Qed.

(** Where the contents of a page that is not valid are. *)
Inductive PageContents := AtFrame (frame : Z) | Zeros | Absent (entry : Z).

(** What an unswizzled entry says, when nothing else has to be looked up, in
    terms of its bits: bit 10 marks software entries, bit 11 pages in transition,
    whose frame is in bits 12 to 39. *)
Definition hardware_contents (pte : Z) : PageContents :=
  if Z.testbit pte 10 || (pte =? 0) then Absent pte
  else if Z.testbit pte 11 then AtFrame (bits_in_place pte 12 40)
  else if pte <? 2 ^ 32 then Zeros else Absent pte.

(** What a prototype entry says; one that is valid has the frame in bits 12 to
    47. *)
Definition prototype_contents (self : Windows A) (proto : Z) : PageContents :=
  if Z.testbit proto 0 then AtFrame (bits_in_place proto 12 48)
  else hardware_contents (unswizzle self proto).

(** The prototype entry of the page of an address in the table of its VMA: one
    of 8 bytes for each page from the start of the VMA on. *)
Definition vad_prototype (fuel : nat) (self : Windows A) (proc addr : Z) : VmResult Z :=
  let? vma := win_find_vma_by_address self fuel proc addr in
  match vma with
  | None => Err (vm_of_str "no VMA")
  | Some vma =>
      let? start := win_vma_start self vma in
      let? first := read_pointer_field self Mmvad_FirstPrototypePte (pointer_of vma) in
      let? entry_addr := add_u64 (ptr_addr first) (8 * ((addr - start) / 2 ^ 12)) in
      ptr_read self pod_u64 (pointer_of entry_addr)
  end.

(** A page that the VMAs of its process describe: without a process, or when
    there is no prototype entry for it, it is absent, as the entry 0 in a
    process. *)
Definition vad_contents (fuel : nat) (self : Windows A) (addr : Z) (proc : option Z) (pte : Z)
  : TranslationResult PageContents :=
  match proc with
  | None => Ok (Absent pte)
  | Some proc =>
      if va_is_kernel addr then Ok (Absent 0)
      else match vad_prototype fuel self proc addr with
           | Ok proto => Ok (prototype_contents self proto)
           | Err _ => Ok (Absent 0)
           | Panic => Panic
           | NoFuel => NoFuel
           end
  end.

Definition page_contents (fuel : nat) (self : Windows A) (addr : Z) (proc : option Z) (entry : Z)
  : TranslationResult PageContents :=
  let pte := unswizzle self entry in
  if (pte =? 0) || Z.testbit pte 10 && (2 ^ 64 - 2 ^ 32 <=? pte) then vad_contents fuel self addr proc pte
  else if Z.testbit pte 10 then
    let? proto := read_value_virtual pod_u64 (w_backend self) (w_kpgd self) (pte / 2 ^ 16) in
    Ok (prototype_contents self proto)
  else Ok (hardware_contents pte).

Definition read_contents (self : Windows A) (addr : Z) (c : PageContents)
  : MutRes bytes TranslationError unit :=
  match c with
  | AtFrame frame =>
      mut_map_err trans_of_mem (read_physical (bk_memory (w_backend self)) (frame + addr mod 2 ^ 12))
  | Zeros => fill_zero
  | Absent entry => mut_lift (Err (TransInvalid entry))
  end.

Lemma unswizzle_u64 (self : Windows A) pte :
  is_u64 (w_unswizzle_mask self) → is_u64 pte → is_u64 (unswizzle self pte).
Proof.
  intros Hm Hp. unfold unswizzle. destruct (_ =? 0); [|done]. unfold is_u64 in *.
  assert (0 <= Z.land pte (w_unswizzle_mask self)) by (apply Z.land_nonneg; lia).
  split; [done|]. assert (Z.land pte (w_unswizzle_mask self) = Z.land pte (w_unswizzle_mask self) mod 2 ^ 64)
    as ->; [|apply Z.mod_pos_bound; lia].
  rewrite <- Z.land_ones, <- Z.land_assoc, Z.land_ones, Z.mod_small by lia. done.
Qed.

Lemma read_frame_spec (self : Windows A) pte to addr buf :
  12 <= to < 63 →
  read_frame self (bits_in_place pte 12 to) (addr mod 2 ^ 12) buf
  = read_contents self addr (AtFrame (bits_in_place pte 12 to)) buf.
Proof.
  intros Ht. pose proof (bits_in_place_bound pte 12 to).
  assert (2 ^ to <= 2 ^ 62) by (apply Z.pow_le_mono_r; lia).
  unfold read_frame, mut_bind, mut_lift, pa_add_u64. rewrite add_u64_ok; [done|]. lia.
Qed.

Lemma page_offset_mask {E} : mask (E:=E) 12 = Ok (Z.ones 12).
Proof. by rewrite mask_ok by lia. Qed.

Lemma transition_page_ok {E} pte : transition_page (E:=E) pte = Ok (bits_in_place pte 12 40).
Proof.
  unfold transition_page. rewrite mask_range_ok by lia. cbn [res_bind].
  by rewrite land_mask_range by lia.
Qed.

Lemma read_prototype_spec (self : Windows A) addr proto buf :
  is_u64 (w_unswizzle_mask self) → is_u64 proto →
  read_prototype_pte self addr proto buf = read_contents self addr (prototype_contents self proto) buf.
Proof.
  intros Hm Hp. unfold read_prototype_pte, mut_bind at 1, mut_lift at 1.
  rewrite page_offset_mask, Z.land_ones, pte_is_valid_spec by lia.
  unfold prototype_contents. destruct (Z.testbit proto 0).
  - unfold mut_bind, mut_lift. rewrite mask_range_ok by lia. rewrite land_mask_range by lia.
    by apply read_frame_spec.
  - pose proof (unswizzle_u64 self proto Hm Hp) as Hu. rewrite (classify_spec _ Hu). unfold hardware_contents.
    destruct (Z.testbit _ 10); [by destruct (_ <=? _)|]. destruct (_ =? 0); [done|]. cbn [orb].
    destruct (Z.testbit _ 11); [|by destruct (_ <? _)].
    unfold mut_bind, mut_lift. rewrite transition_page_ok. by apply read_frame_spec.
Qed.

Lemma pod_read_u64_range bs : is_u64 (pod_read pod_u64 bs).
Proof.
  cbn [pod_read pod_uint]. pose proof (le_val_range (take 8 bs)) as Hr.
  assert (256 ^ Z.of_nat (length (take 8 bs)) <= 2 ^ 64).
  { change (2 ^ 64) with (256 ^ 8). apply Z.pow_le_mono_r; [lia|]. rewrite length_take. lia. }
  unfold is_u64. lia.
Qed.

Lemma read_value_virtual_u64 (backend : Backend A) mmu_addr addr v :
  read_value_virtual pod_u64 backend mmu_addr addr = Ok v → is_u64 v.
Proof.
  unfold read_value_virtual. destruct (bk_read_virtual_memory _ _ _ _) as [r value]. intros Hv. inv_ok.
  subst v. apply pod_read_u64_range.
Qed.

Lemma ptr_read_u64 (self : Windows A) (p : Pointer KernelSpace) v :
  ptr_read self pod_u64 p = Ok v → is_u64 v.
Proof.
  unfold ptr_read, read_at. destruct (ctx_read_memory _ _ _ _) as [r bs]. intros Hv. inv_ok.
  subst v. apply pod_read_u64_range.
Qed.

(** The tree is searched for a node that compares equal. *)
Lemma find_in_tree_eq (self : Windows A) fuel p f q :
  find_in_tree self fuel p f = Ok (Some q) → f q = Ok Eq.
Proof.
  revert p. induction fuel as [|fuel IH]; intros p; cbn [find_in_tree]; [done|].
  intros Hq. apply res_bind_ok in Hq as (c & Hc & Hq). destruct c.
  - by injection Hq as <-.
  - apply res_bind_ok in Hq as (child & _ & Hq). destruct (ptr_is_null child); [done|by eapply IH].
  - apply res_bind_ok in Hq as (child & _ & Hq). destruct (ptr_is_null child); [done|by eapply IH].
Qed.

Lemma shl_u64_range {E} x n r : shl_u64 (E:=E) x n = Ok r → is_u64 r.
Proof.
  unfold shl_u64. destruct (n <? 64); [intros [= <-]; apply wrap_u64_range|].
  destruct debug_assertions; [done|]. intros [= <-]. apply wrap_u64_range.
Qed.

(** The VMA that is found starts at or below the address. *)
Lemma find_vma_start (self : Windows A) fuel proc addr vma start :
  win_find_vma_by_address self fuel proc addr = Ok (Some vma) → win_vma_start self vma = Ok start →
  0 <= start <= addr.
Proof.
  unfold win_find_vma_by_address. intros Hv Hs.
  apply res_bind_ok in Hv as (root & _ & Hv). apply res_bind_ok in Hv as (node & Hn & Hv).
  destruct node as [q|]; [|done]. injection Hv as <-. apply find_in_tree_eq in Hn.
  unfold vma_compare in Hn. rewrite Hs in Hn. cbn [res_bind] in Hn.
  destruct (Z.ltb_spec addr start); [done|]. split; [|done].
  unfold win_vma_start in Hs. apply res_bind_ok in Hs as (? & _ & Hs). by apply shl_u64_range in Hs as [? _].
Qed.

(** The code computes the index of the page modulo 2^64, which is the same. *)
Lemma find_vad_pte_spec (self : Windows A) fuel proc addr :
  is_u64 addr →
  match find_vad_pte fuel self addr proc, vad_prototype fuel self proc addr with
  | Ok pte, Ok proto => pte = proto
  | Err _, Err _ | Panic, Panic | NoFuel, NoFuel => True
  | _, _ => False
  end.
Proof.
  intros Ha. unfold find_vad_pte, vad_prototype.
  destruct (win_find_vma_by_address self fuel proc addr) as [[vma|]| | |] eqn:Hv; cbn [res_bind ok_or]; [|done..].
  destruct (win_vma_start self vma) as [start| | |] eqn:Hs; cbn [res_bind]; [|done..].
  pose proof (find_vma_start self fuel proc addr vma start Hv Hs) as Hle.
  destruct (read_pointer_field self Mmvad_FirstPrototypePte _) as [first| | |]; cbn [res_bind]; [|done..].
  assert (as_u64 (va_sub addr start) = addr - start) as ->.
  { unfold va_sub. rewrite as_u64_as_i64. unfold wrapping_sub.
    by rewrite !(wrap_u64_small (addr - start)) by (unfold is_u64 in *; lia). }
  unfold mul_u64. rewrite checked_width_ok by (unfold is_u64 in Ha; lia). cbn [res_bind].
  rewrite (Z.mul_comm _ 8). unfold va_add_u64. change 0x1000 with (2 ^ 12).
  destruct first as [first []]. cbn [ptr_addr ptr_ctx].
  destruct (add_u64 _ _) as [e| | |]; cbn [res_bind]; [|done..].
  unfold pointer_of. by destruct (ptr_read self pod_u64 _).
Qed.

Lemma read_vad_spec (self : Windows A) fuel proc addr pte buf :
  is_u64 (w_unswizzle_mask self) → is_u64 addr →
  read_vad_pte fuel self addr proc buf =
  (let! c := mut_lift (vad_contents fuel self addr (Some proc) pte) in read_contents self addr c) buf.
Proof.
  intros Hm Ha. unfold read_vad_pte, vad_contents. destruct (va_is_kernel addr); [done|].
  pose proof (find_vad_pte_spec self fuel proc addr Ha) as Hp.
  destruct (find_vad_pte _ _ _ _) as [p| | |] eqn:Hf; destruct (vad_prototype _ _ _ _) as [proto| | |] eqn:Hv; try done.
  subst p. unfold mut_bind, mut_lift. apply read_prototype_spec; [done|].
  unfold vad_prototype in Hv. apply res_bind_ok in Hv as ([vma|] & _ & Hv); [|done].
  apply res_bind_ok in Hv as (? & _ & Hv). apply res_bind_ok in Hv as (? & _ & Hv).
  apply res_bind_ok in Hv as (? & _ & Hv). by eapply ptr_read_u64.
Qed.

(** What is done with an entry, given that [vad] reads what the VMAs say. *)
Lemma read_invalid_spec (self : Windows A) vad fuel addr proc entry buf :
  is_u64 (w_unswizzle_mask self) → is_u64 entry →
  (∀ p pte, proc = Some p → vad addr p buf =
     (let! c := mut_lift (vad_contents fuel self addr proc pte) in read_contents self addr c) buf) →
  read_invalid vad self addr proc entry buf =
  (let! c := mut_lift (page_contents fuel self addr proc entry) in read_contents self addr c) buf.
Proof.
  intros Hm He Hvad. pose proof (unswizzle_u64 self entry Hm He) as Hu.
  unfold read_invalid, mut_bind at 1, mut_lift at 1. rewrite page_offset_mask, Z.land_ones by lia.
  rewrite (classify_spec _ Hu). unfold page_contents, hardware_contents.
  assert (Hproc : (match proc with Some proc => vad addr proc
                   | None => mut_lift (Err (TransInvalid (unswizzle self entry))) end) buf =
    (let! c := mut_lift (vad_contents fuel self addr proc (unswizzle self entry)) in read_contents self addr c) buf)
    by (destruct proc as [p|]; [by apply Hvad|done]).
  destruct (Z.eqb_spec (unswizzle self entry) 0) as [Hz|Hz]; [rewrite Hz in *; exact Hproc|].
  destruct (Z.testbit _ 10) eqn:H10; cbn [andb orb].
  - destruct (_ <=? _); [exact Hproc|]. rewrite Z.shiftr_div_pow2 by lia.
    unfold mut_bind, mut_lift. destruct (read_value_virtual _ _ _ _) as [proto| | |] eqn:Hv; [|done..].
    cbn [res_bind]. apply read_prototype_spec; [done|]. by eapply read_value_virtual_u64.
  - destruct (Z.testbit _ 11); [|by destruct (_ <? _)].
    unfold mut_bind, mut_lift. rewrite transition_page_ok. by apply read_frame_spec.
Qed.

(** C18. Pages that are not valid: when the walk of the page tables ends at an
    invalid entry, the read gives the bytes of the page where the entry, with the
    bit that Windows flips cleared, says that they are: in a frame in transition,
    behind a prototype entry, or zeros.  When the entry leaves it to the VMAs
    (it is 0 or has all the bits from 32 on), a read of a process goes through
    the prototype entry that the VMA of the address has for that page.  The read
    fails with the last entry that it looked at, cleared of that bit too, when
    this one does not say where the page is; with the entry 0 when the VMAs of
    the process do not describe the address; and without a process with the
    entry that leaves it to the VMAs.  Nothing in the decoding of the entries
    overflows, in either build; what a build does with a table of prototype
    entries that the guest puts at the end of the address space is part of
    [vad_prototype]. *)
Theorem win_read_raw_spec (self : Windows A) mmu_addr addr entry buf buf' :
  is_u64 (w_unswizzle_mask self) → is_u64 entry → is_u64 addr →
  bk_read_virtual_memory (w_backend self) mmu_addr addr buf = (Err (TransInvalid entry), buf') →
  let contents fuel proc :=
    (let! c := mut_lift (page_contents fuel self addr proc entry) in read_contents self addr c) buf' in
  (∀ vad fuel, win_read_raw vad self mmu_addr addr None buf = contents fuel None) ∧
  (∀ fuel proc, win_read_raw (read_vad_pte fuel self) self mmu_addr addr (Some proc) buf = contents fuel (Some proc)).
Proof.
  intros Hm He Ha Hr contents. unfold win_read_raw. rewrite Hr. split; intros; apply read_invalid_spec; try done.
  intros p pte [= <-]. by apply read_vad_spec.
Qed.
End pte.

(** ** The properties at concrete inputs *)

Section witnesses.
#[local] Existing Instance debug_build.

(** A machine of 40 physical bits, whose page tables end at a page in
    transition. *)
Definition sample_transition : Windows X86_64 := {|
  w_backend := {|
    bk_memory := raw_memory (raw_new (replicate (Z.to_nat 0x1008) (zb 1) ++ [zb 7; zb 8]));
    bk_vcpus := sample_has_vcpus;
    bk_read_virtual_memory := λ _ _, mut_lift (Err (TransInvalid (0x1800 + 2 ^ 39)));
    bk_virtual_to_physical := λ _ _, Err (TransInvalid (0x1800 + 2 ^ 39));
    bk_find_kernel_pgd := λ _ _, Ok 0;
    bk_find_in_kernel_memory := λ _ _ _, Ok None;
  |};
  w_symbols_loader := empty_loader;
  w_kpgd := 0;
  w_base_addr := 0;
  w_profile := w_profile sample_windows;
  w_unswizzle_mask := not_u64 (2 ^ 39);
|}.

Lemma unswizzle_spec_witness :
  ∃ mask, unswizzle_mask_of 40 = Ok mask ∧ mask = w_unswizzle_mask sample_transition ∧
    Z.testbit (unswizzle sample_transition (0x1800 + 2 ^ 39)) 39 = false.
Proof.
  destruct (unswizzle_spec sample_transition 40 (0x1800 + 2 ^ 39)) as (mask & Hm & Hspec).
  - lia.
  - by split.
  - exists mask. split; [exact Hm|]. vm_compute in Hm. injection Hm as <-. split; [reflexivity|].
    destruct Hspec as [Hbits _]; [reflexivity|]. rewrite Hbits by lia. reflexivity.
Defined.

(** A process whose VMA of [0x100000] has a table of prototype entries at
    [0x6000]; the one of its page [0x50] is valid. *)
Definition sample_vad_kernel : Backend X86_64 := sample_backend
  [(0x2028, 0x4000); (0x2030, 0); (0x2038, 0x400); (0x2040, 0x4ff);
   (0x4000, 0); (0x4008, 0); (0x4010, 0x100); (0x4018, 0x1ff); (0x4020, 0x6000); (0x6280, 0x1001)].

Definition sample_vad : Windows X86_64 := {|
  w_backend := {|
    bk_memory := bk_memory (w_backend sample_transition);
    bk_vcpus := sample_has_vcpus;
    bk_read_virtual_memory := λ mmu_addr addr,
      if mmu_addr =? 0 then bk_read_virtual_memory sample_vad_kernel mmu_addr addr
      else mut_lift (Err (TransInvalid 0));
    bk_virtual_to_physical := λ _ _, Err (TransInvalid 0);
    bk_find_kernel_pgd := λ _ _, Ok 0;
    bk_find_in_kernel_memory := λ _ _ _, Ok None;
  |};
  w_symbols_loader := empty_loader;
  w_kpgd := 0;
  w_base_addr := 0;
  w_profile := {|
    win_fast_syms := win_fast_syms (w_profile sample_windows);
    wp_layouts := WinLayouts_new {|
      ms_buffer := []; ms_symbols := []; ms_addresses := [];
      ms_types := list_to_map ((λ s, (st_name s, s)) <$>
        [sample_struct "_EPROCESS" [("VadRoot", 0x28)];
         sample_struct "_MMVAD" [("FirstPrototypePte", 0x20)];
         sample_struct "_MMVAD_SHORT" [("LeftChild", 0); ("RightChild", 8); ("StartingVpn", 0x10);
                                       ("EndingVpn", 0x18)]]%string) |} |};
  w_unswizzle_mask := u64_max;
|}.

(** A page in transition, and a page that is found through its VMA. *)
Lemma win_read_raw_spec_witness :
  win_read_raw no_vad_pte sample_transition 0 0x5008 None [Byte.x00; Byte.x00] = (Ok tt, [zb 7; zb 8]) ∧
  win_read_raw (read_vad_pte 5 sample_vad) sample_vad 0x7000 0x150008 (Some 0x2000) [Byte.x00; Byte.x00]
    = (Ok tt, [zb 7; zb 8]).
Proof.
  split.
  - destruct (win_read_raw_spec sample_transition 0 0x5008 (0x1800 + 2 ^ 39) [Byte.x00; Byte.x00]
      [Byte.x00; Byte.x00]) as [Hr _]; [by split..|reflexivity|].
    rewrite (Hr no_vad_pte 0%nat). vm_compute. reflexivity.
  - destruct (win_read_raw_spec sample_vad 0x7000 0x150008 0 [Byte.x00; Byte.x00]
      [Byte.x00; Byte.x00]) as [_ Hr]; [by split..|reflexivity|].
    rewrite Hr. vm_compute. reflexivity.
Defined.
End witnesses.
