(* ===== verification/WinPdbSpec.v ===== *)
(** * PDB identifiers and the search of CodeView records *)

From S2P Require Import Prelude Rust Layout Addr Error Mem MemSpec Text Registers Mmu Arch Pages.
From S2P Require Import Backend Os WinPdb.

(** ** Identifiers *)

Lemma parse_pad_zeros radix limit n bs :
  2 <= radix <= 16 → 0 < limit →
  parse_digits radix limit 0 (replicate n (zb 48) ++ bs) = parse_digits radix limit 0 bs.
Proof.
  intros Hr Hl. induction n as [|n IH]; [done|]. cbn [replicate app parse_digits].
  assert (digit_value radix (zb 48) = Some 0) as ->.
  { apply (digit_value_byte radix false 0); lia. }
  cbn [mbind option_bind]. rewrite Z.mul_0_l, Z.add_0_l. apply Z.ltb_lt in Hl as ->. exact IH.
Qed.

Lemma radix_digits_length fuel upper radix z acc n :
  2 <= radix → 0 <= z < radix ^ Z.of_nat n → (0 < n)%nat →
  (length (radix_digits fuel upper radix z acc) <= n + length acc)%nat.
Proof.
  intros Hr. revert fuel z acc. induction n as [|n IH]; intros fuel z acc Hz Hn; [lia|].
  destruct fuel as [|fuel]; cbn [radix_digits]; [lia|].
  destruct (Z.eqb_spec (z / radix) 0) as [|Hd]; [cbn; lia|].
  rewrite Nat2Z.inj_succ, Z.pow_succ_r in Hz by lia.
  assert (0 <= z / radix < radix ^ Z.of_nat n).
  { split; [apply Z.div_pos; lia|apply Z.div_lt_upper_bound; lia]. }
  destruct n as [|n]; [cbn in *; lia|].
  pose proof (IH fuel (z / radix) (digit_byte upper (z mod radix) :: acc)) as H'. cbn [length] in H'. lia.
Qed.

(** A padded field has its width, and can be read back. *)
Lemma format_hex_upper_length width z :
  (0 < width)%nat → 0 <= z < 16 ^ Z.of_nat width → length (format_hex_upper width z) = width.
Proof.
  intros Hw Hz. unfold format_hex_upper, pad_zeros, format_radix. rewrite length_app, length_replicate.
  pose proof (radix_digits_length 64 true 16 z [] width ltac:(lia) Hz Hw). cbn [length] in *. lia.
Qed.

Lemma parse_format_hex_upper width z :
  is_u64 z → parse_digits 16 (2 ^ 64) 0 (format_hex_upper width z) = Some z.
Proof.
  intros Hz. unfold format_hex_upper, pad_zeros. rewrite parse_pad_zeros by lia.
  unfold format_radix. rewrite parse_radix_digits; [done|lia|apply Hz| |].
  - apply (u64_pow64 16 z); [lia|done].
  - exact (Nat.lt_0_succ 63).
Qed.

Lemma format_hex_upper_inj width x y :
  is_u64 x → is_u64 y → format_hex_upper width x = format_hex_upper width y → x = y.
Proof.
  intros Hx Hy Heq. apply (f_equal (parse_digits 16 (2 ^ 64) 0)) in Heq.
  rewrite !parse_format_hex_upper in Heq by done. by injection Heq.
Qed.

Lemma format_dec_inj x y : is_u64 x → is_u64 y → format_radix false 10 x = format_radix false 10 y → x = y.
Proof.
  intros Hx Hy Heq. apply (f_equal (u64_from_str_radix 10)) in Heq.
  rewrite !(parse_format_radix false 10) in Heq; [by injection Heq|done..].
Qed.

Lemma u64_of_bound z n : (0 <= Z.of_nat n <= 8) → 0 <= z < 256 ^ Z.of_nat n → is_u64 z.
Proof.
  intros Hn Hz. unfold is_u64. change (2 ^ 64) with (256 ^ 8).
  assert (256 ^ Z.of_nat n <= 256 ^ 8) by (apply Z.pow_le_mono_r; lia). lia.
Qed.

Lemma bytes_str_inj x y : bytes_str x = bytes_str y → x = y.
Proof. intros Heq. rewrite <- (str_bytes_str x), Heq. apply str_bytes_str. Qed.

(** Two padded fields at the beginning of equal texts are equal. *)
Lemma padded_field_inj width x y r1 r2 :
  (0 < width)%nat → 0 <= x < 16 ^ Z.of_nat width → 0 <= y < 16 ^ Z.of_nat width →
  is_u64 x → is_u64 y →
  format_hex_upper width x ++ r1 = format_hex_upper width y ++ r2 → x = y ∧ r1 = r2.
Proof.
  intros Hw Hx Hy Ux Uy Heq. apply app_inj_1 in Heq as [Heq ->].
  - split; [|done]. by apply (format_hex_upper_inj width).
  - by rewrite !format_hex_upper_length.
Qed.

Lemma padded_bytes_inj l1 l2 r1 r2 :
  length l1 = length l2 →
  concat ((λ x, format_hex_upper 2 (bz x)) <$> l1) ++ r1 = concat ((λ x, format_hex_upper 2 (bz x)) <$> l2) ++ r2 →
  l1 = l2 ∧ r1 = r2.
Proof.
  revert l2. induction l1 as [|b1 l1 IH]; intros [|b2 l2] Hl Heq; try done.
  cbn [fmap list_fmap concat] in Heq. rewrite <- !app_assoc in Heq.
  apply padded_field_inj in Heq as [Hb Heq];
    [|lia|apply bz_range|apply bz_range|pose proof (bz_range b1); unfold is_u64; lia
     |pose proof (bz_range b2); unfold is_u64; lia].
  apply bz_inj in Hb as ->. apply IH in Heq as [-> ->]; [done|]. by injection Hl.
Qed.

(** The identifier of a PDB, which names the file on a symbol server, is
    unambiguous: two CodeView records with the same one have the same GUID and
    the same age. *)
Theorem pdb_id_injective c1 c2 :
  pod_wf Codeview_pod c1 → pod_wf Codeview_pod c2 →
  pdb_id c1 = pdb_id c2 → cv_guid c1 = cv_guid c2 ∧ cv_age c1 = cv_age c2.
Proof.
  destruct c1 as [m1 [a1 b1 d1 e1] g1 n1], c2 as [m2 [a2 b2 d2 e2] g2 n2].
  intros (_ & (Ha1 & Hb1 & Hd1 & He1) & Hg1 & _) (_ & (Ha2 & Hb2 & Hd2 & He2) & Hg2 & _) Heq.
  unfold pdb_id in Heq. cbn [cv_guid cv_age guid_data1 guid_data2 guid_data3 guid_data4] in *.
  cbn [pod_wf pod_uint pod_array_u8 fst snd] in *.
  apply bytes_str_inj in Heq.
  apply padded_field_inj in Heq as [-> Heq];
    [|lia|exact Ha1|exact Ha2|by apply (u64_of_bound _ 4)|by apply (u64_of_bound _ 4)].
  apply padded_field_inj in Heq as [-> Heq];
    [|lia|exact Hb1|exact Hb2|by apply (u64_of_bound _ 2)|by apply (u64_of_bound _ 2)].
  apply padded_field_inj in Heq as [-> Heq];
    [|lia|exact Hd1|exact Hd2|by apply (u64_of_bound _ 2)|by apply (u64_of_bound _ 2)].
  apply padded_bytes_inj in Heq as [-> Heq]; [|etransitivity; [exact He1|symmetry; exact He2]].
  apply format_dec_inj in Heq as ->; [done|by apply (u64_of_bound _ 4)|by apply (u64_of_bound _ 4)].
Qed.

(** ** The search *)

Section search.
Context {bm : Build}.
Variables (memchr : byte → bytes → option nat) (new_finder : bytes → Finder)
  (size_of_image : bytes → VmResult Z) (E : Type) (vm_of_error : E → VmError)
  (try_read_memory : Z → MutRes bytes E unit).

Lemma pe_scan_named addr off buffer indices c :
  pe_scan memchr E vm_of_error try_read_memory addr off buffer indices = Ok (Some c) →
  is_Some (codeview_name memchr c).
Proof.
  induction indices as [|index indices IH]; cbn [pe_scan]; [done|]. intros Hs.
  apply res_bind_ok in Hs as (end_ & _ & Hs). apply res_bind_ok in Hs as (cv & _ & Hs).
  destruct (codeview_name memchr cv) eqn:Hn; [|by apply IH]. injection Hs as <-. by rewrite Hn.
Qed.

Lemma pe_pages_named addr buffer offsets c :
  pe_pages memchr new_finder E vm_of_error try_read_memory addr buffer offsets = Ok (Some c) →
  is_Some (codeview_name memchr c).
Proof.
  revert buffer. induction offsets as [|off offsets IH]; intros buffer; cbn [pe_pages]; [done|]. intros Hs.
  apply res_bind_ok in Hs as (found & Hscan & Hs). destruct found as [cv|].
  - injection Hs as <-. by eapply pe_scan_named.
  - apply res_bind_ok in Hs as (a & _ & Hs). apply res_bind_ok in Hs as (b & _ & Hs). by apply IH in Hs.
Qed.

(** The record that the search in an image returns has a name, a text of
    printable ASCII that ends before the end of its array, so that the [unwrap]
    of [module_symbols] does not panic; this holds whatever the memory holds. *)
Theorem pe_get_pdb_guid_named `{!MemchrOk memchr} addr size c :
  pe_get_pdb_guid memchr new_finder size_of_image E vm_of_error try_read_memory addr size = Ok (Some c) →
  ∃ name, codeview_name memchr c = Some name ∧
    (∀ b, b ∈ str_bytes name → 0x20 <= bz b < 0x80) ∧
    str_bytes name ++ [Byte.x00] `prefix_of` cv_name c.
Proof.
  unfold pe_get_pdb_guid. intros Hg.
  apply res_bind_ok in Hg as (buffer & _ & Hg). apply res_bind_ok in Hg as (n & _ & Hg).
  apply pe_pages_named in Hg as [name Hn]. exists name. split; [done|].
  unfold codeview_name in Hn. rewrite memchr_find_byte in Hn.
  destruct (find_byte Byte.x00 (cv_name c)) as [i|] eqn:Hi; [|done]. cbn in Hn.
  destruct (_ && _) eqn:Hok; [|done]. injection Hn as <-. rewrite str_bytes_str.
  apply andb_true_iff in Hok as [_ Hall]. rewrite forallb_forall in Hall. split.
  - intros b Hb%list_elem_of_In. specialize (Hall b Hb). lia.
  - apply find_byte_some in Hi as [Hi _]. exists (drop (S i) (cv_name c)). rewrite <- app_assoc.
    cbn. symmetry. by apply take_drop_middle.
Qed.
End search.

(** ** The properties at concrete inputs *)

Section witnesses.
#[local] Existing Instance debug_build.

Definition sample_codeview : Codeview := {|
  cv_magic := RSDS;
  cv_guid := {| guid_data1 := 0x3844dbb9; guid_data2 := 0x2017; guid_data3 := 0x4967;
                guid_data4 := zb <$> [0xbe; 0x7a; 0xa4; 0xa2; 0xc2; 0x04; 0x30; 0xfa] |};
  cv_age := 2;
  cv_name := take 24 (KERNEL_PDB ++ replicate 24 Byte.x00);
|}.

Example sample_pdb_id : pdb_id sample_codeview = "3844DBB920174967BE7AA4A2C20430FA2"%string.
Proof. vm_compute. reflexivity. Qed.

Lemma pdb_id_injective_witness : cv_guid sample_codeview = cv_guid sample_codeview ∧ cv_age sample_codeview = 2.
Proof.
  apply (pdb_id_injective sample_codeview
    {| cv_magic := replicate 4 Byte.x00; cv_guid := cv_guid sample_codeview; cv_age := 2; cv_name := replicate 24 Byte.x00 |}).
  - repeat split; try done; vm_compute; done.
  - repeat split; try done; vm_compute; done.
  - vm_compute. reflexivity.
Defined.

(** An image of two pages, with the record at the offset [off]. *)
Definition sample_image (off : nat) (addr : Z) : MutRes bytes VmError unit := λ buf,
  let image := replicate off Byte.x01 ++ bytes_of Codeview_pod sample_codeview in
  (Ok tt, take (length buf) (drop (Z.to_nat addr) image ++ replicate (length buf) Byte.x00)).

Definition sample_search (off : nat) : VmResult (option Codeview) :=
  pe_get_pdb_guid find_byte naive_finder (λ _, Err unsupported) VmError id (sample_image off) 0 (Some 0x2000).

Lemma pe_get_pdb_guid_named_witness :
  ∃ c name, sample_search 0x100 = Ok (Some c) ∧ codeview_name find_byte c = Some name ∧
    name = KERNEL_PDB_STR.
Proof.
  assert (Hs : sample_search 0x100 = Ok (Some sample_codeview)) by (vm_compute; reflexivity).
  destruct (pe_get_pdb_guid_named find_byte naive_finder (λ _, Err unsupported) VmError id (sample_image 0x100)
    0 (Some 0x2000) sample_codeview Hs) as (name & Hn & _).
  exists sample_codeview, name. split; [exact Hs|]. split; [exact Hn|].
  vm_compute in Hn. by injection Hn.
Defined.

(** The loop reads the first page again instead of the second one, and does not
    search the last page it reads. *)
Theorem pe_last_page_not_searched : sample_search 0x1100 = Ok None.
Proof. vm_compute. reflexivity. Qed.
End witnesses.
