(* ===== verification/LinuxProfile.v ===== *)
(** * The profile of a Linux kernel ([vminer/src/os/linux/profile.rs])

    What the macro [define_kernel_structs] expands to: a record of fields for
    every structure of the kernel that is read, and the table of them. *)

From S2P Require Import Prelude Rust Layout Addr Error Mem Text Symbols Os Pointer.

Record Dentry := {
  Dentry_d_name : Field;
  Dentry_d_parent : Field;
}.

Definition Dentry_new (layout : Struct) : Dentry :=
  let new name := from_layout "dentry" name layout in {|
    Dentry_d_name := new "d_name";
    Dentry_d_parent := new "d_parent";
|}%string.

Record LinuxFile := {
  LinuxFile_f_path : Field;
}.

Definition LinuxFile_new (layout : Struct) : LinuxFile :=
  let new name := from_layout "file" name layout in {|
    LinuxFile_f_path := new "f_path";
|}%string.

Record ListHead := {
  ListHead_next : Field;
  ListHead_prev : Field;
}.

Definition ListHead_new (layout : Struct) : ListHead :=
  let new name := from_layout "list_head" name layout in {|
    ListHead_next := new "next";
    ListHead_prev := new "prev";
|}%string.

Record MmStruct := {
  MmStruct_exe_file : Field;
  MmStruct_mmap : Field;
  MmStruct_pgd : Field;
}.

Definition MmStruct_new (layout : Struct) : MmStruct :=
  let new name := from_layout "mm_struct" name layout in {|
    MmStruct_exe_file := new "exe_file";
    MmStruct_mmap := new "mmap";
    MmStruct_pgd := new "pgd";
|}%string.

Record LinuxPath := {
  LinuxPath_dentry : Field;
}.

Definition LinuxPath_new (layout : Struct) : LinuxPath :=
  let new name := from_layout "path" name layout in {|
    LinuxPath_dentry := new "dentry";
|}%string.

Record Qstr := {
  Qstr_name : Field;
}.

Definition Qstr_new (layout : Struct) : Qstr :=
  let new name := from_layout "qstr" name layout in {|
    Qstr_name := new "name";
|}%string.

Record TaskStruct := {
  TaskStruct_active_mm : Field;
  TaskStruct_children : Field;
  TaskStruct_comm : Field;
  TaskStruct_flags : Field;
  TaskStruct_group_leader : Field;
  TaskStruct_mm : Field;
  TaskStruct_pid : Field;
  TaskStruct_real_parent : Field;
  TaskStruct_sibling : Field;
  TaskStruct_tasks : Field;
  TaskStruct_tgid : Field;
  TaskStruct_thread_group : Field;
}.

Definition TaskStruct_new (layout : Struct) : TaskStruct :=
  let new name := from_layout "task_struct" name layout in {|
    TaskStruct_active_mm := new "active_mm";
    TaskStruct_children := new "children";
    TaskStruct_comm := new "comm";
    TaskStruct_flags := new "flags";
    TaskStruct_group_leader := new "group_leader";
    TaskStruct_mm := new "mm";
    TaskStruct_pid := new "pid";
    TaskStruct_real_parent := new "real_parent";
    TaskStruct_sibling := new "sibling";
    TaskStruct_tasks := new "tasks";
    TaskStruct_tgid := new "tgid";
    TaskStruct_thread_group := new "thread_group";
|}%string.

Record VmAreaStruct := {
  VmAreaStruct_vm_end : Field;
  VmAreaStruct_vm_file : Field;
  VmAreaStruct_vm_flags : Field;
  VmAreaStruct_vm_next : Field;
  VmAreaStruct_vm_start : Field;
  VmAreaStruct_vm_pgoff : Field;
}.

Definition VmAreaStruct_new (layout : Struct) : VmAreaStruct :=
  let new name := from_layout "vm_area_struct" name layout in {|
    VmAreaStruct_vm_end := new "vm_end";
    VmAreaStruct_vm_file := new "vm_file";
    VmAreaStruct_vm_flags := new "vm_flags";
    VmAreaStruct_vm_next := new "vm_next";
    VmAreaStruct_vm_start := new "vm_start";
    VmAreaStruct_vm_pgoff := new "vm_pgoff";
|}%string.

Record LinuxLayouts := {
  LinuxLayouts_Dentry : option Dentry;
  LinuxLayouts_LinuxFile : option LinuxFile;
  LinuxLayouts_ListHead : option ListHead;
  LinuxLayouts_MmStruct : option MmStruct;
  LinuxLayouts_LinuxPath : option LinuxPath;
  LinuxLayouts_Qstr : option Qstr;
  LinuxLayouts_TaskStruct : option TaskStruct;
  LinuxLayouts_VmAreaStruct : option VmAreaStruct;
}.

Definition LinuxLayouts_new (syms : ModuleSymbols) : LinuxLayouts := {|
  LinuxLayouts_Dentry := Dentry_new <$> get_struct syms "dentry";
  LinuxLayouts_LinuxFile := LinuxFile_new <$> get_struct syms "file";
  LinuxLayouts_ListHead := ListHead_new <$> get_struct syms "list_head";
  LinuxLayouts_MmStruct := MmStruct_new <$> get_struct syms "mm_struct";
  LinuxLayouts_LinuxPath := LinuxPath_new <$> get_struct syms "path";
  LinuxLayouts_Qstr := Qstr_new <$> get_struct syms "qstr";
  LinuxLayouts_TaskStruct := TaskStruct_new <$> get_struct syms "task_struct";
  LinuxLayouts_VmAreaStruct := VmAreaStruct_new <$> get_struct syms "vm_area_struct";
|}%string.

(** An operating system that has this table. *)
Class HasLinuxLayouts (Sys : Type) := linux_layouts : Sys → LinuxLayouts.

Section has_layout.
Context {Sys : Type} `{HasLinuxLayouts Sys}.

#[export] Instance has_Dentry : HasLayout Sys Dentry :=
  λ os, layout_or_missing "Dentry" (LinuxLayouts_Dentry (linux_layouts os)).
#[export] Instance has_LinuxFile : HasLayout Sys LinuxFile :=
  λ os, layout_or_missing "File" (LinuxLayouts_LinuxFile (linux_layouts os)).
#[export] Instance has_ListHead : HasLayout Sys ListHead :=
  λ os, layout_or_missing "ListHead" (LinuxLayouts_ListHead (linux_layouts os)).
#[export] Instance has_MmStruct : HasLayout Sys MmStruct :=
  λ os, layout_or_missing "MmStruct" (LinuxLayouts_MmStruct (linux_layouts os)).
#[export] Instance has_LinuxPath : HasLayout Sys LinuxPath :=
  λ os, layout_or_missing "Path" (LinuxLayouts_LinuxPath (linux_layouts os)).
#[export] Instance has_Qstr : HasLayout Sys Qstr :=
  λ os, layout_or_missing "Qstr" (LinuxLayouts_Qstr (linux_layouts os)).
#[export] Instance has_TaskStruct : HasLayout Sys TaskStruct :=
  λ os, layout_or_missing "TaskStruct" (LinuxLayouts_TaskStruct (linux_layouts os)).
#[export] Instance has_VmAreaStruct : HasLayout Sys VmAreaStruct :=
  λ os, layout_or_missing "VmAreaStruct" (LinuxLayouts_VmAreaStruct (linux_layouts os)).
End has_layout.

(** ** The profile *)

Record LinuxFastSymbols := {
  per_cpu_offset : Z;
  current_task : option Z;
  init_task : Z;
  linux_banner : Z;
}.

(** [Profile] without its index of symbols, which is the state of the operating
    system. *)
Record LinuxProfile := { linux_fast_syms : LinuxFastSymbols; lp_layouts : LinuxLayouts }.

Section profile.
Context {bm : Build} {M : Type} `{OnceMap M}.

#[local] Open Scope string_scope.
Definition linux_profile_new (syms : SymbolsIndexer M) : VmResult LinuxProfile :=
  let? symbols := require_module syms "System.map" in
  let? per_cpu_offset_ := require_address symbols "__per_cpu_offset" in
  let? current_task_ := from_never (get_address symbols "current_task") in
  let? init_task_ := require_address symbols "init_task" in
  let? linux_banner_ := require_address symbols "linux_banner" in
  let? types := match require_module syms "vmlinux" with
                | Err _ => require_module syms "module.ko"
                | types => types
                end in
  let layouts := LinuxLayouts_new types in
  Ok {| linux_fast_syms := {| per_cpu_offset := per_cpu_offset_;
                              current_task := current_task_;
                              init_task := init_task_;
                              linux_banner := linux_banner_ |};
        lp_layouts := layouts |}.
End profile.
