(* ===== verification/Linux.v ===== *)
(** * Linux ([vminer/src/os/linux/mod.rs])

    [fuel] bounds the length of lists and of paths in the memory of the guest. *)

From S2P Require Import Prelude Rust Layout Addr Error Mem Text Registers Mmu Arch Pages Backend.
From S2P Require Import Symbols Os Pointer LinuxProfile.

Record Linux (A : Type) `{ArchTypes A} := {
  l_backend : Backend A;
  l_symbols_loader : SymbolLoader;
  l_profile : LinuxProfile;
  l_kpgd : Z;
  l_kaslr : Z;
}.
Arguments l_backend {A _}. Arguments l_symbols_loader {A _}. Arguments l_profile {A _}.
Arguments l_kpgd {A _}. Arguments l_kaslr {A _}.

#[export] Instance linux_has_layouts {A} `{ArchTypes A} : HasLinuxLayouts (Linux A) :=
  λ self, lp_layouts (l_profile self).

(** A pointer to a structure of the kernel. *)
Definition kernel_ptr (addr : Z) : Pointer KernelSpace := Ptr addr KernelSpace_.

Section linux.
Context {bm : Build} {A : Type} `{Architecture A}.
Variable fuel : nat.
(** [memchr::memchr]; the message of an error of [String::from_utf8] *)
Variable memchr : byte → bytes → option nat.
Variable from_utf8_error : bytes → string.

(** ** Memory *)

Definition linux_read_virtual_memory (self : Linux A) (mmu_addr addr : Z) : MutRes bytes VmError unit :=
  mut_map_err vm_of_trans
    (read_virtual_memory (λ addr, bk_read_virtual_memory (l_backend self) mmu_addr addr) addr).

Definition linux_try_read_virtual_memory (self : Linux A) (mmu_addr addr : Z) : MutRes bytes VmError unit :=
  mut_map_err vm_of_mem
    (try_read_virtual_memory addr (λ addr, bk_read_virtual_memory (l_backend self) mmu_addr addr)).

#[export] Instance linux_kernel : ReadKernel (Linux A) :=
  λ self addr, linux_read_virtual_memory self (l_kpgd self) addr.

Definition read_kernel_value {T} (P : Pod T) (self : Linux A) (addr : Z) : VmResult T :=
  let (r, value) := linux_read_virtual_memory self (l_kpgd self) addr (bytes_of P (zeroed P)) in
  let? _ := r in Ok (pod_read P value).

(** ** Lists and paths *)

Definition linux_iterate_list {L} `{HasLayout (Linux A) L} (os : Linux A) (self : Pointer KernelSpace)
    (get_offset : L → Field) (S : Type) (f : Pointer KernelSpace → MutRes S VmError ControlFlow)
  : MutRes S VmError unit :=
  let! layout := mut_lift (get_layout os) in
  let! off := mut_lift (offset (get_offset layout)) in
  list_loop fuel (read_pointer_field os ListHead_next) self self off f.

Notation slash := Byte.x2f.

(** The buffer is a [Vec] that grows; only what it holds after a success is
    used.  A name that does not end within the bytes that are read is the
    [todo!()] of the code. *)
Definition _read_file_name (os : Linux A) (self : Pointer KernelSpace) : MutRes bytes VmError unit := λ buf,
  let r :=
    let? qstr := field os Dentry_d_name self in
    read_field os pod_u64 Qstr_name qstr in
  match r with
  | Ok name =>
      let zeros := replicate 256 Byte.x00 in
      let '(buf, rest) :=
        if match list.last buf with Some c => negb (bool_decide (c = slash)) | None => false end
        then (buf ++ [slash], drop 1 zeros)
        else (buf, zeros) in
      match ctx_read_memory (ptr_ctx self) os name rest with
      | (Ok _, rest) =>
          match memchr Byte.x00 rest with
          | Some i => (Ok tt, buf ++ take i rest)
          | None => (Panic, buf ++ rest)
          end
      | (Err e, rest) => (Err e, buf ++ rest)
      | (Panic, rest) => (Panic, buf ++ rest)
      | (NoFuel, rest) => (NoFuel, buf ++ rest)
      end
  | Err e => (Err e, buf)
  | Panic => (Panic, buf)
  | NoFuel => (NoFuel, buf)
  end.

(** The root is its own parent. *)
Fixpoint build_path (n : nat) (os : Linux A) (self : Pointer KernelSpace) : MutRes bytes VmError unit :=
  match n with
  | O => mut_lift NoFuel
  | Datatypes.S n =>
      let! parent := mut_lift (read_pointer_field os Dentry_d_parent self) in
      let! _ := if negb (ptr_eq parent self) then build_path n os parent else mut_ret tt in
      _read_file_name os self
  end.

(** [String::from_utf8(buf).map_err(VmError::new)] *)
Definition string_from_utf8 (buf : bytes) : VmResult string :=
  if utf8_valid buf then Ok (bytes_str buf)
  else Err (vm_error_new (DynForeign (from_utf8_error buf) [])).

Definition read_file_name (os : Linux A) (self : Pointer KernelSpace) : VmResult string :=
  let? dentry := read_pointer_field os LinuxPath_dentry self in
  let? buf := run_on [] (_read_file_name os dentry) in
  string_from_utf8 buf.

Definition read_file_path (os : Linux A) (self : Pointer KernelSpace) : VmResult string :=
  let? dentry := read_pointer_field os LinuxPath_dentry self in
  let? buf := run_on [] (build_path fuel os dentry) in
  string_from_utf8 buf.

(** ** Building *)

Variable new_finder : bytes → Finder.

Definition get_banner_addr (backend : Backend A) (mmu_addr : Z) : MemoryAccessResult (option Z) :=
  bk_find_in_kernel_memory backend new_finder mmu_addr (str_bytes "Linux version ").

Section build.
Context {M : Type} `{OnceMap M}.

(** [quick_check]: an error is [None]. *)
Definition linux_quick_check (backend : Backend A) : Res Never (option (OsBuilder M)) :=
  match bk_find_kernel_pgd backend true [] with
  | Ok kpgd =>
      match get_banner_addr backend kpgd with
      | Ok (Some kaslr) => Ok (Some (with_kaslr (with_kpgd os_builder kpgd) kaslr))
      | Ok None | Err _ => Ok None
      | Panic => Panic
      | NoFuel => NoFuel
      end
  | Err _ => Ok None
  | Panic => Panic
  | NoFuel => NoFuel
  end.

(** The loader made when the builder has none: it creates a directory *)
Variable default_loader : VmResult SymbolLoader.

Definition linux_build (backend : Backend A) (builder : OsBuilder M)
  : VmResult (Linux A * SymbolsIndexer M) :=
  let? kpgd := match ob_kpgd builder with
               | Some kpgd => Ok kpgd
               | None => result_context DynVm (bk_find_kernel_pgd backend true []) "could not find kernel PGD"
               end in
  let? banner_addr :=
    match ob_kaslr builder with
    | Some kaslr => Ok kaslr
    | None =>
        let? found := result_context DynMemory (get_banner_addr backend kpgd) "could not find banner address" in
        option_context found "could not find banner address"
    end in
  let (r, banner) :=
    read_virtual_memory (λ addr, bk_read_virtual_memory backend kpgd addr) banner_addr
      (replicate 0x1000 Byte.x00) in
  let? _ := map_err vm_of_trans r in
  let? _ := unwrap (memchr Byte.x00 banner) in
  let? symbols_loader := match ob_loader builder with
                         | Some loader => Ok loader
                         | None => default_loader
                         end in
  let symbols := default indexer_new (ob_symbols builder) in
  let? profile := linux_profile_new symbols in
  let base_banner_addr := linux_banner (linux_fast_syms profile) in
  let kaslr := as_i64 (wrapping_sub banner_addr base_banner_addr) in
  Ok ({| l_backend := backend; l_symbols_loader := symbols_loader; l_profile := profile;
         l_kpgd := kpgd; l_kaslr := kaslr |}, symbols).
End build.

(** ** The methods *)

Section os.
Variable self : Linux A.

Definition per_cpu (vcpu : Z) : VmResult Z :=
  let? off := va_add_i64 (per_cpu_offset (linux_fast_syms (l_profile self))) (l_kaslr self) in
  let? i := mul_u64 8 vcpu in
  let? addr := va_add_u64 off i in
  read_kernel_value pod_u64 self addr.

Definition process_mm (proc : Z) : VmResult (option (Pointer KernelSpace)) :=
  let proc := kernel_ptr proc in
  let? mm := read_pointer_field self TaskStruct_mm proc in
  let? mm := if ptr_is_null mm then read_pointer_field self TaskStruct_active_mm proc else Ok mm in
  map_non_null mm Ok.

Definition vma_offset (vma : Z) : VmResult Z :=
  let? off := read_field self pod_u64 VmAreaStruct_vm_pgoff (kernel_ptr vma) in
  mul_u64 off 4096.

Definition linux_init_process : VmResult Z :=
  va_add_i64 (init_task (linux_fast_syms (l_profile self))) (l_kaslr self).

Definition linux_for_each_process : ForEach Z := λ S f,
  let! init := mut_lift linux_init_process in
  let! head := mut_lift (field self TaskStruct_tasks (kernel_ptr init)) in
  linux_iterate_list self head TaskStruct_tasks S (λ p, f (ptr_addr p)).

Definition linux_process_is_kernel (proc : Z) : VmResult bool :=
  let? flags := read_field self pod_u32 TaskStruct_flags (kernel_ptr proc) in
  Ok (negb (Z.land flags 0x200000 =? 0)).

Definition linux_process_id (proc : Z) : VmResult Z :=
  read_field self pod_u32 TaskStruct_tgid (kernel_ptr proc).

Definition linux_process_name (proc : Z) : VmResult string :=
  let? comm := read_field self (pod_array_u8 16) TaskStruct_comm (kernel_ptr proc) in
  let buf := match memchr Byte.x00 comm with Some i => take i comm | None => comm end in
  Ok (bytes_str (from_utf8_lossy buf)).

Definition linux_process_pgd (proc : Z) : VmResult Z :=
  let? mm := process_mm proc in
  match mm with
  | Some mm =>
      let? pgd := read_field self pod_u64 MmStruct_pgd mm in
      map_err vm_of_trans (bk_virtual_to_physical (l_backend self) (l_kpgd self) pgd)
  | None =>
      let? is_kernel := linux_process_is_kernel proc in
      if is_kernel : bool then Ok (l_kpgd self)
      else Err (vm_error_new (dyn_of_str "process has NULL mm"))
  end.

Definition file_path (file : Pointer KernelSpace) : VmResult string :=
  let? path := field self LinuxFile_f_path file in read_file_path self path.

Definition linux_process_path (proc : Z) : VmResult (option string) :=
  let? mm := process_mm proc in
  match mm with
  | Some mm =>
      let? file := read_pointer_field self MmStruct_exe_file mm in
      map_non_null file file_path
  | None => Ok None
  end.

Definition linux_process_parent (proc : Z) : VmResult Z :=
  let? parent := read_pointer_field self TaskStruct_real_parent (kernel_ptr proc) in
  Ok (ptr_addr parent).

Definition linux_process_parent_id (proc : Z) : VmResult Z :=
  let? parent := linux_process_parent proc in linux_process_id parent.

Definition linux_process_for_each_child (proc : Z) : ForEach Z := λ S f,
  let! head := mut_lift (field self TaskStruct_children (kernel_ptr proc)) in
  linux_iterate_list self head TaskStruct_sibling S (λ child, f (ptr_addr child)).

Definition linux_process_for_each_thread (proc : Z) : ForEach Z := λ S f,
  let! head := mut_lift (field self TaskStruct_thread_group (kernel_ptr proc)) in
  linux_iterate_list self head TaskStruct_thread_group S (λ thread, f (ptr_addr thread)).

(** The loop over the VMAs, linked by [vm_next]. *)
Fixpoint vma_loop {S} (n : nat) (cur_vma : Pointer KernelSpace) (f : Z → MutRes S VmError ControlFlow)
  : MutRes S VmError unit :=
  match n with
  | O => mut_lift NoFuel
  | Datatypes.S n =>
      if ptr_is_null cur_vma then mut_ret tt
      else
        let! c := f (ptr_addr cur_vma) in
        if is_break c then mut_ret tt
        else
          let! cur_vma := mut_lift (read_pointer_field self VmAreaStruct_vm_next cur_vma) in
          vma_loop n cur_vma f
  end.

Definition linux_for_each_vma (proc : Z) : ForEach Z := λ S f,
  let! mm := mut_lift (process_mm proc) in
  match mm with
  | None => mut_ret tt
  | Some mm =>
      let! cur_vma := mut_lift (read_pointer_field self MmStruct_mmap mm) in
      vma_loop fuel cur_vma f
  end.

Definition linux_vma_path (vma : Z) : VmResult (option string) :=
  let? file := read_pointer_field self VmAreaStruct_vm_file (kernel_ptr vma) in
  map_non_null file file_path.

(** [self.vma_offset(vma)? == 0 && self.vma_path(vma)?.is_some()] *)
Definition is_module (vma : Z) : VmResult bool :=
  let? off := vma_offset vma in
  if off =? 0 then
    let? path := linux_vma_path vma in
    Ok (match path with Some _ => true | None => false end)
  else Ok false.

Definition linux_process_for_each_module (proc : Z) : ForEach Z := λ S f,
  linux_for_each_vma proc S (λ vma,
    let! c := mut_lift (is_module vma) in
    if c : bool then f vma else mut_ret Continue).

(** The closure of [current_thread]; its state is [current_task]. *)
Definition match_pgd (vcpu_pgd proc : Z) : MutRes (option Z) VmError ControlFlow := λ current_task,
  match linux_process_pgd proc with
  | Ok proc_pgd =>
      if proc_pgd =? vcpu_pgd then (Ok Break, Some proc) else (Ok Continue, current_task)
  | Err e => (Err e, current_task)
  | Panic => (Panic, current_task)
  | NoFuel => (NoFuel, current_task)
  end.

Definition linux_current_thread (vcpu : Z) : VmResult Z :=
  match current_task (linux_fast_syms (l_profile self)) with
  | Some current_task =>
      let? base := per_cpu vcpu in
      let? addr := va_add_u64 base current_task in
      read_kernel_value pod_u64 self addr
  | None =>
      let vcpus := bk_vcpus (l_backend self) in
      let? vcpu_pgd := map_err vm_of_vcpu (pgd vcpus vcpu) in
      let? in_kernel :=
        match into_runtime (arch (raw_vcpus vcpus)) with
        | RtAarch64 _ =>
            let? ip := map_err vm_of_vcpu (instruction_pointer vcpus vcpu) in
            Ok (va_is_kernel ip)
        | RtX86_64 _ => Ok false
        end in
      if in_kernel : bool then
        let? regs := map_err vm_of_vcpu (registers (assume_arm (raw_vcpus vcpus)) vcpu) in
        Ok (sp regs)
      else
        let? found := run_on None (linux_for_each_process _ (match_pgd vcpu_pgd)) in
        ok_or found (vm_error_new (dyn_of_str "cannot find current thread"))
  end.

Definition linux_thread_process (thread : Z) : VmResult Z :=
  let? leader := read_pointer_field self TaskStruct_group_leader (kernel_ptr thread) in
  Ok (ptr_addr leader).

Definition linux_thread_id (thread : Z) : VmResult Z :=
  read_field self pod_u32 TaskStruct_pid (kernel_ptr thread).

Definition linux_vma_start (vma : Z) : VmResult Z :=
  read_field self pod_u64 VmAreaStruct_vm_start (kernel_ptr vma).

Definition linux_vma_end (vma : Z) : VmResult Z :=
  read_field self pod_u64 VmAreaStruct_vm_end (kernel_ptr vma).

Definition linux_vma_flags (vma : Z) : VmResult VmaFlags :=
  read_field self pod_u64 VmAreaStruct_vm_flags (kernel_ptr vma).

(** The loop of [module_span]: the following VMAs of the same file. *)
Fixpoint span_loop (n : nat) (file current : Pointer KernelSpace) : VmResult Z :=
  match n with
  | O => NoFuel
  | Datatypes.S n =>
      let? next := read_pointer_field self VmAreaStruct_vm_next current in
      let? stop :=
        if ptr_is_null next then Ok true
        else
          let? next_file := read_pointer_field self VmAreaStruct_vm_file next in
          Ok (negb (ptr_eq next_file file)) in
      if stop : bool then read_field self pod_u64 VmAreaStruct_vm_end current
      else span_loop n file next
  end.

Definition linux_module_span (module _proc : Z) : VmResult (Z * Z) :=
  let module := kernel_ptr module in
  let? file := read_pointer_field self VmAreaStruct_vm_file module in
  let? start := read_field self pod_u64 VmAreaStruct_vm_start module in
  let? end_ := span_loop fuel file module in
  Ok (start, end_).

Definition linux_module_name (module _proc : Z) : VmResult string :=
  let? file := read_pointer_field self VmAreaStruct_vm_file (kernel_ptr module) in
  let? path := field self LinuxFile_f_path file in
  read_file_name self path.

Definition linux_module_path (module _proc : Z) : VmResult string :=
  let? file := read_pointer_field self VmAreaStruct_vm_file (kernel_ptr module) in
  let? path := field self LinuxFile_f_path file in
  read_file_path self path.

Definition linux_module_symbols {M} `{OnceMap M} (proc module : Z)
  : MutRes (SymbolsIndexer M) VmError (option ModuleSymbols) :=
  let! name := mut_lift (linux_module_name module proc) in
  load_module name (λ name,
    let id := match into_runtime (arch (raw_vcpus (bk_vcpus (l_backend self)))) with
              | RtX86_64 _ => "x86_64"%string
              | RtAarch64 _ => "aarch64"%string
              end in
    l_symbols_loader self name id).

Definition linux_os {M} `{OnceMap M} : Os A (SymbolsIndexer M) := {|
  os_vcpus := forward_vcpus (bk_vcpus (l_backend self));
  os_read_virtual_memory := linux_read_virtual_memory self;
  os_try_read_virtual_memory := linux_try_read_virtual_memory self;
  kernel_pgd := l_kpgd self;
  for_each_kernel_module := λ _ _, mut_ret tt;
  init_process := linux_init_process;
  current_thread := linux_current_thread;
  process_is_kernel := linux_process_is_kernel;
  process_id := linux_process_id;
  process_name := linux_process_name;
  process_pgd := linux_process_pgd;
  process_path := linux_process_path;
  process_parent := linux_process_parent;
  process_parent_id := linux_process_parent_id;
  process_for_each_child := linux_process_for_each_child;
  process_for_each_thread := linux_process_for_each_thread;
  process_for_each_module := linux_process_for_each_module;
  for_each_process := linux_for_each_process;
  process_for_each_vma := linux_for_each_vma;
  thread_process := linux_thread_process;
  thread_id := linux_thread_id;
  thread_name := λ thread, let? name := linux_process_name thread in Ok (Some name);
  vma_path := linux_vma_path;
  vma_start := linux_vma_start;
  vma_end := linux_vma_end;
  vma_flags := linux_vma_flags;
  module_span := linux_module_span;
  module_name := linux_module_name;
  module_path := linux_module_path;
  module_symbols := linux_module_symbols;
  read_process_memory := default_read_process_memory (linux_read_virtual_memory self);
  try_read_process_memory := default_read_process_memory (linux_try_read_virtual_memory self);
  process_find_vma_by_address :=
    default_find_vma_by_address linux_for_each_vma linux_vma_start linux_vma_end;
|}.
End os.
End linux.
