(* ===== verification/LinuxSpec.v ===== *)
(** * What the Linux code computes

    Lists of tasks, the linked list of the VMAs of a process and the modules
    they make up, and the paths of files. *)

From S2P Require Import Prelude Rust Layout Addr Error Mem MemSpec Text Registers Mmu Arch.
From S2P Require Import ArchSpec Pages Backend Symbols SymbolsSpec Os OsSpec Pointer PointerSpec.
From S2P Require Import LinuxProfile Linux.

Notation slash := Byte.x2f.

Section linux.
Context {bm : Build} {A : Type} `{Architecture A} {M : Type} `{OnceMap M}.
Variables (fuel : nat) (memchr : byte → bytes → option nat) (from_utf8_error : bytes → string).
Variable self : Linux A.

Notation os := (linux_os (M:=M) fuel memchr from_utf8_error self).

(** ** Tasks *)

Lemma task_list_iterates {L} `{HasLayout (Linux A) L} (head : Pointer KernelSpace)
    (get_offset : L → Field) layout off nodes last :
  get_layout self = Ok layout → offset (get_offset layout) = Ok off →
  chain (read_pointer_field self ListHead_next) head head nodes last →
  (length nodes < fuel)%nat →
  (∀ p, p ∈ nodes → is_u64 (p - off)) →
  ∀ S (f : Z → MutRes S VmError ControlFlow) s,
  linux_iterate_list fuel self head get_offset S (λ p, f (ptr_addr p)) s
  = iterate f ((λ p, p - off) <$> nodes) last s.
Proof.
  intros Hl Ho Hc Hf Hn S f s. unfold linux_iterate_list, mut_bind, mut_lift. rewrite Hl, Ho.
  rewrite (list_loop_iterate _ head head nodes last) by done. done.
Qed.

(** C32. Processes of Linux: they are the tasks whose list nodes follow that of
    [init_task], relocated by the KASLR offset, which is not one of them; the
    children of a process are the tasks whose [sibling] nodes are in its list. *)
Theorem linux_processes ts init tasks children sibling nodes last proc siblings last' :
  is_u64 (init_task (linux_fast_syms (l_profile self)) + l_kaslr self) →
  init = init_task (linux_fast_syms (l_profile self)) + l_kaslr self → init ≠ 0 → proc ≠ 0 →
  get_layout self = Ok ts → offset (TaskStruct_tasks ts) = Ok tasks →
  offset (TaskStruct_children ts) = Ok children → offset (TaskStruct_sibling ts) = Ok sibling →
  is_u64 (init + tasks) → is_u64 (proc + children) →
  chain (read_pointer_field self ListHead_next) (kernel_ptr (init + tasks)) (kernel_ptr (init + tasks)) nodes last →
  chain (read_pointer_field self ListHead_next) (kernel_ptr (proc + children)) (kernel_ptr (proc + children))
    siblings last' →
  (length nodes < fuel)%nat → (length siblings < fuel)%nat →
  (∀ p, p ∈ nodes → is_u64 (p - tasks)) → (∀ p, p ∈ siblings → is_u64 (p - sibling)) →
  collect_processes os = (let? _ := last in Ok ((λ p, p - tasks) <$> nodes)) ∧
  process_collect_children os proc = (let? _ := last' in Ok ((λ p, p - sibling) <$> siblings)).
Proof.
  intros Hi Hinit Hn0 Hp0 Hl Ht Hc Hs Hu Hu' Hch Hch' Hf Hf' Hn Hn'.
  unfold collect_processes, process_collect_children. cbn [for_each_process process_for_each_child linux_os].
  assert (Hfield : ∀ a (g : TaskStruct → Field) o, a ≠ 0 → offset (g ts) = Ok o → is_u64 (a + o) →
            field self g (kernel_ptr a) = Ok (kernel_ptr (a + o))).
  { intros a g o Ha Ho Hao. unfold field, field_addr, va_is_null. cbn [ptr_addr kernel_ptr].
    apply Z.eqb_neq in Ha as ->. rewrite Hl. cbn [res_bind]. rewrite Ho. cbn [res_bind]. unfold va_add_u64.
    by rewrite add_u64_ok by (unfold is_u64 in Hao; lia). }
  split; apply collect_iterates; intros S f s.
  - unfold linux_for_each_process, linux_init_process, mut_bind, mut_lift, va_add_i64.
    rewrite add_signed_ok by done. rewrite <- Hinit, (Hfield _ _ tasks) by done.
    by rewrite (task_list_iterates _ _ ts tasks nodes last).
  - unfold linux_process_for_each_child, mut_bind, mut_lift. rewrite (Hfield _ _ children) by done.
    by rewrite (task_list_iterates _ _ ts sibling siblings last').
Qed.

(** ** VMAs *)

(** The VMAs from an address on, up to the null link. *)
Inductive vma_chain : Z → list Z → Prop :=
| vma_end_of_list : vma_chain 0 []
| vma_next p q l :
    p ≠ 0 → read_pointer_field self VmAreaStruct_vm_next (kernel_ptr p) = Ok (kernel_ptr q) →
    vma_chain q l → vma_chain p (p :: l).

Lemma vma_loop_iterate {S} p l n (f : Z → MutRes S VmError ControlFlow) s :
  vma_chain p l → (length l < n)%nat → vma_loop self n (kernel_ptr p) f s = iterate f l (Ok tt) s.
Proof.
  intros Hc. revert n s. induction Hc as [|p q l Hp Hq Hc IH]; intros [|n] s Hn; [cbn in Hn; lia|done|cbn in Hn; lia|].
  cbn [vma_loop iterate]. unfold ptr_is_null, va_is_null. cbn [ptr_addr kernel_ptr]. apply Z.eqb_neq in Hp as ->.
  unfold mut_bind, mut_lift. destruct (f p s) as [[[]| | |] s']; cbn [is_break]; [|done..].
  rewrite Hq. apply IH. cbn in Hn. lia.
Qed.

Lemma linux_vma_iterates proc mm p l :
  process_mm self proc = Ok (Some mm) →
  read_pointer_field self MmStruct_mmap mm = Ok (kernel_ptr p) →
  vma_chain p l → (length l < fuel)%nat →
  Iterates (linux_for_each_vma fuel self proc) l.
Proof.
  intros Hm Hmap Hc Hf S f s. unfold linux_for_each_vma, mut_bind, mut_lift. rewrite Hm, Hmap.
  by apply vma_loop_iterate.
Qed.

(** C30. Modules of a Linux process: they are the VMAs that map the beginning of
    a file, in the order of the list, and nothing for a process without a
    memory map. *)
Theorem linux_modules proc mm p l pgoff path :
  process_mm self proc = Ok (Some mm) →
  read_pointer_field self MmStruct_mmap mm = Ok (kernel_ptr p) →
  vma_chain p l → (length l < fuel)%nat →
  (∀ v, v ∈ l → vma_offset self v = Ok (pgoff v) ∧
                (pgoff v = 0 → linux_vma_path fuel memchr from_utf8_error self v = Ok (path v))) →
  process_collect_vmas os proc = Ok l ∧
  process_collect_modules os proc =
    Ok (List.filter (λ v, (pgoff v =? 0) && match path v with Some _ => true | None => false end) l).
Proof.
  intros Hm Hmap Hc Hf Hv. pose proof (linux_vma_iterates proc mm p l Hm Hmap Hc Hf) as Hi.
  unfold process_collect_vmas, process_collect_modules.
  cbn [process_for_each_vma process_for_each_module linux_os]. split; [exact (collect_iterates _ _ _ Hi)|].
  rewrite (collect_iterates (linux_process_for_each_module fuel memchr from_utf8_error self proc)
    (List.filter (λ v, (pgoff v =? 0) && match path v with Some _ => true | None => false end) l) (Ok tt)); [done|].
  intros S f s. unfold linux_process_for_each_module. rewrite Hi. apply iterate_filter.
  intros v Hin. destruct (Hv v Hin) as [Ho Hp]. unfold is_module. rewrite Ho. cbn [res_bind].
  destruct (Z.eqb_spec (pgoff v) 0) as [Hz|]; [|done]. rewrite Hp by done. cbn [res_bind andb]. done.
Qed.

(** The last of the VMAs that follow [v] without interruption and map the same
    file. *)
Fixpoint last_of_file (file : Z → Z) (f v : Z) (l : list Z) : Z :=
  match l with
  | [] => v
  | w :: l => if file w =? f then last_of_file file f w l else v
  end.

Lemma span_loop_spec (file vm_end_ : Z → Z) f p l n :
  vma_chain p (p :: l) → (length l < n)%nat →
  (∀ v, v ∈ l → read_pointer_field self VmAreaStruct_vm_file (kernel_ptr v) = Ok (kernel_ptr (file v))) →
  (∀ v, v ∈ p :: l → read_field self pod_u64 VmAreaStruct_vm_end (kernel_ptr v) = Ok (vm_end_ v)) →
  span_loop self n (kernel_ptr f) (kernel_ptr p) = Ok (vm_end_ (last_of_file file f p l)).
Proof.
  revert p n. induction l as [|w l IH]; intros p n Hc Hn Hfile Hend; (destruct n as [|n]; [lia|]);
    inversion Hc as [|? q ? Hp Hq Hcq]; subst; cbn [span_loop last_of_file]; rewrite Hq; cbn [res_bind];
    unfold ptr_is_null, va_is_null; cbn [ptr_addr kernel_ptr].
  - inversion Hcq; subst. cbn [Z.eqb res_bind]. apply Hend, list_elem_of_here.
  - assert (q = w) as -> by by inversion Hcq. assert (w ≠ 0) as Hw by by inversion Hcq.
    apply Z.eqb_neq in Hw as ->. rewrite Hfile by apply list_elem_of_here. cbn [res_bind].
    unfold ptr_eq. cbn [ptr_addr kernel_ptr]. destruct (file w =? f); cbn [negb].
    + apply IH; [done|cbn in Hn; lia| |].
      * intros v Hv. by apply Hfile, list_elem_of_further.
      * intros v Hv. by apply Hend, list_elem_of_further.
    + apply Hend, list_elem_of_here.
Qed.

(** The span of a Linux module: from the start of its first VMA to the end
    of the last one that follows it in the list with the same file. *)
Theorem linux_module_span_spec m l file start vm_end_ proc :
  vma_chain m (m :: l) → (length l < fuel)%nat →
  (∀ v, v ∈ m :: l → read_pointer_field self VmAreaStruct_vm_file (kernel_ptr v) = Ok (kernel_ptr (file v))) →
  read_field self pod_u64 VmAreaStruct_vm_start (kernel_ptr m) = Ok start →
  (∀ v, v ∈ m :: l → read_field self pod_u64 VmAreaStruct_vm_end (kernel_ptr v) = Ok (vm_end_ v)) →
  module_span os m proc = Ok (start, vm_end_ (last_of_file file (file m) m l)).
Proof.
  intros Hc Hf Hfile Hs He. cbn [module_span linux_os]. unfold linux_module_span.
  rewrite Hfile by apply list_elem_of_here. cbn [res_bind]. rewrite Hs. cbn [res_bind].
  rewrite (span_loop_spec file vm_end_ (file m) m l) by
    (done || (intros; by apply Hfile, list_elem_of_further)). done.
Qed.

(** ** Paths *)

(** The name of a dentry as the code reads it: up to a NUL, within the bytes it
    asks for. *)
Definition dentry_name (d : Z) (name : bytes) : Prop :=
  Byte.x00 ∉ name ∧ ∃ addr,
    (let? qstr := field self Dentry_d_name (kernel_ptr d) in read_field self pod_u64 Qstr_name qstr) = Ok addr ∧
    ∀ n, (n = 255 ∨ n = 256)%nat → ∃ rest,
      read_kernel self addr (replicate n Byte.x00) = (Ok tt, name ++ Byte.x00 :: rest).

(** A dentry, its ancestors, and their names, from the root. *)
Inductive dentry_path : Z → list bytes → Prop :=
| dentry_root d name :
    read_pointer_field self Dentry_d_parent (kernel_ptr d) = Ok (kernel_ptr d) →
    dentry_name d name → dentry_path d [name]
| dentry_child d parent names name :
    read_pointer_field self Dentry_d_parent (kernel_ptr d) = Ok (kernel_ptr parent) → parent ≠ d →
    dentry_path parent names → dentry_name d name → dentry_path d (names ++ [name]).

(** Appending a component to a path. *)
Definition append_component (buf name : bytes) : bytes :=
  match list.last buf with
  | Some c => if bool_decide (c = slash) then buf ++ name else buf ++ slash :: name
  | None => name
  end.

Definition join_path (names : list bytes) : bytes := fold_left append_component names [].

Context `{!MemchrOk memchr}.

Lemma find_byte_before b name rest : b ∉ name → find_byte b (name ++ b :: rest) = Some (length name).
Proof.
  intros Hn. apply find_byte_some. split; [by apply list_lookup_middle|]. by rewrite take_app_length.
Qed.

Lemma read_file_name_spec d name buf :
  dentry_name d name →
  _read_file_name memchr self (kernel_ptr d) buf = (Ok tt, append_component buf name).
Proof.
  intros (Hnul & addr & Haddr & Hread). unfold _read_file_name. rewrite Haddr.
  unfold append_component. cbn [ptr_ctx kernel_ptr].
  assert (Hdrop : drop 1 (replicate 256 Byte.x00) = replicate 255 Byte.x00) by reflexivity.
  destruct (Hread 255%nat ltac:(by left)) as [r1 Hr1]. destruct (Hread 256%nat ltac:(by right)) as [r2 Hr2].
  change (ctx_read_memory KernelSpace_ self addr) with (read_kernel self addr).
  destruct (list.last buf) as [c|] eqn:Hl; [destruct (bool_decide (c = slash)); cbn [negb]|].
  - rewrite Hr2, memchr_find_byte, find_byte_before, take_app_length by done. done.
  - rewrite Hdrop, Hr1, memchr_find_byte, find_byte_before, take_app_length by done. by rewrite <- app_assoc.
  - apply last_None in Hl as ->. rewrite Hr2, memchr_find_byte, find_byte_before, take_app_length by done. done.
Qed.

Lemma build_path_spec d names n buf :
  dentry_path d names → (length names <= n)%nat →
  build_path memchr n self (kernel_ptr d) buf = (Ok tt, fold_left append_component names buf).
Proof.
  intros Hp. revert n buf. induction Hp as [d name Hpar Hn|d parent names name Hpar Hne Hp IH Hn]; intros n buf Hl.
  - destruct n as [|n]; [cbn in Hl; lia|]. cbn [build_path]. unfold mut_bind, mut_lift. rewrite Hpar.
    unfold ptr_eq. rewrite Z.eqb_refl. cbn. by apply read_file_name_spec.
  - rewrite length_app in Hl. cbn [length] in Hl. destruct n as [|n]; [lia|]. cbn [build_path].
    unfold mut_bind, mut_lift. rewrite Hpar. unfold ptr_eq. cbn [ptr_addr kernel_ptr].
    apply Z.eqb_neq in Hne as ->. cbn [negb]. rewrite IH by lia.
    rewrite (read_file_name_spec d name _ Hn). by rewrite fold_left_app.
Qed.

(** A component of a path: not empty, and without a slash. *)
Definition component (name : bytes) : Prop := name ≠ [] ∧ slash ∉ name.

Lemma join_components buf comps :
  list.last buf ≠ Some slash → buf ≠ [] → Forall component comps →
  fold_left append_component comps buf = buf ++ concat ((λ c, slash :: c) <$> comps).
Proof.
  revert buf. induction comps as [|c comps IH]; intros buf Hl Hne Hc; cbn [fold_left fmap list_fmap concat].
  { by rewrite app_nil_r. }
  apply Forall_cons in Hc as [[Hcn Hcs] Hc].
  assert (Happ : append_component buf c = buf ++ slash :: c).
  { unfold append_component. destruct (list.last buf) as [x|] eqn:E; [|by apply last_None in E].
    rewrite bool_decide_eq_false_2; [done|]. intros ->. done. }
  rewrite Happ, IH; [by rewrite <- app_assoc| |by destruct buf|done].
  rewrite last_app_cons, last_cons. destruct (list.last c) as [x|] eqn:E; [|by apply last_None in E].
  intros [= ->]. apply last_Some in E as [l' ->]. apply Hcs, elem_of_app. right. apply list_elem_of_here.
Qed.

Lemma join_path_spec comps :
  Forall component comps → comps ≠ [] →
  join_path ([slash] :: comps) = concat ((λ c, slash :: c) <$> comps).
Proof.
  intros Hc Hne. destruct comps as [|c comps]; [done|]. apply Forall_cons in Hc as [[Hcn Hcs] Hc].
  unfold join_path. cbn [fold_left]. change (append_component [] [slash]) with [slash].
  assert (append_component [slash] c = slash :: c) as -> by reflexivity.
  rewrite join_components; [done| |done|done].
  rewrite last_cons. destruct (list.last c) as [x|] eqn:E; [|by apply last_None in E].
  intros [= ->]. apply last_Some in E as [l' ->]. apply Hcs, elem_of_app. right. apply list_elem_of_here.
Qed.

Lemma utf8_path comps :
  Forall (λ c, utf8_valid c = true) comps → utf8_valid (concat ((λ c, slash :: c) <$> comps)) = true.
Proof.
  induction 1 as [|c comps Hc _ IH]; [done|]. cbn [fmap list_fmap concat].
  apply utf8_app; [|done]. by change (utf8_valid ([slash] ++ c) = true); apply utf8_app.
Qed.

(** C28. Names and paths of Linux modules: the name is the last component of the
    path of the file, and the path is the components from the root, each with
    its slash, as long as every name ends within the bytes that are read. *)
Theorem linux_module_path_spec m file path d comps name proc :
  read_pointer_field self VmAreaStruct_vm_file (kernel_ptr m) = Ok file →
  field self LinuxFile_f_path file = Ok path →
  read_pointer_field self LinuxPath_dentry path = Ok (kernel_ptr d) →
  dentry_path d ([slash] :: comps ++ [name]) → (length comps + 2 <= fuel)%nat →
  Forall component (comps ++ [name]) → Forall (λ c, utf8_valid c = true) (comps ++ [name]) →
  module_path os m proc = Ok (bytes_str (concat ((λ c, slash :: c) <$> (comps ++ [name])))) ∧
  module_name os m proc = Ok (bytes_str name).
Proof.
  intros Hfile Hpath Hd Hp Hf Hc Hu. cbn [module_path module_name linux_os].
  unfold linux_module_path, linux_module_name, read_file_path, read_file_name.
  rewrite Hfile. cbn [res_bind]. rewrite Hpath. cbn [res_bind]. rewrite Hd. cbn [res_bind]. split.
  - unfold run_on. rewrite (build_path_spec d _ fuel [] Hp) by (cbn [length]; rewrite length_app; cbn; lia).
    cbn [res_bind]. change (fold_left append_component ([slash] :: comps ++ [name]) [])
      with (join_path ([slash] :: comps ++ [name])).
    rewrite join_path_spec by (done || by destruct comps). unfold string_from_utf8. by rewrite utf8_path.
  - assert (Hn : dentry_name d name).
    { inversion Hp as [|? parent names n Hpar Hne Hp' Hn]; [by destruct comps|].
      assert (Heq : names ++ [n] = ([slash] :: comps) ++ [name]) by done.
      by apply app_inj_tail in Heq as [_ ->]. }
    unfold run_on. rewrite (read_file_name_spec d name []) by done. cbn [res_bind append_component list.last].
    unfold string_from_utf8. apply Forall_app in Hu as [_ Hu]. apply Forall_cons in Hu as [-> _]. done.
Qed.

(** The longest name that Linux allows, 255 bytes, fills the bytes that are read
    after a slash, and panics. *)
Lemma long_name_panics d addr name buf c :
  (let? qstr := field self Dentry_d_name (kernel_ptr d) in read_field self pod_u64 Qstr_name qstr) = Ok addr →
  list.last buf = Some c → c ≠ slash →
  read_kernel self addr (replicate 255 Byte.x00) = (Ok tt, name) → length name = 255%nat → Byte.x00 ∉ name →
  (_read_file_name memchr self (kernel_ptr d) buf).1 = Panic.
Proof.
  intros Haddr Hl Hc Hread _ Hn. unfold _read_file_name. rewrite Haddr, Hl.
  rewrite bool_decide_eq_false_2 by done. cbn [negb ptr_ctx kernel_ptr].
  change (drop 1 (replicate 256 Byte.x00)) with (replicate 255 Byte.x00).
  change (ctx_read_memory KernelSpace_ self addr) with (read_kernel self addr). rewrite Hread, memchr_find_byte.
  by apply find_byte_none in Hn as ->.
Qed.

End linux.

(** ** Building *)

Section build.
Context {A : Type} `{Architecture A} {M : Type} `{OnceMap M}.
Variable memchr : byte → bytes → option nat.

(** The KASLR offset of a system that was built moves the banner of the
    symbols to the banner that was found in memory, for any two addresses. *)
Theorem linux_build_kaslr new_finder default_loader backend (builder : OsBuilder M) linux syms banner :
  linux_build memchr new_finder default_loader backend builder = Ok (linux, syms) →
  ob_kaslr builder = Some banner → is_u64 banner →
  wrap_u64 (linux_banner (linux_fast_syms (l_profile linux)) + l_kaslr linux) = banner ∧
  is_i64 (l_kaslr linux) ∧ l_backend linux = backend ∧
  (∀ kpgd, ob_kpgd builder = Some kpgd → l_kpgd linux = kpgd).
Proof.
  intros Hb Hk Hu. unfold linux_build in Hb. apply res_bind_ok in Hb as (kpgd & Hkpgd & Hb).
  rewrite Hk in Hb. cbn [res_bind] in Hb.
  destruct (read_virtual_memory _ _ _) as [r page]. apply res_bind_ok in Hb as (_ & _ & Hb).
  apply res_bind_ok in Hb as (_ & _ & Hb). apply res_bind_ok in Hb as (loader & _ & Hb).
  cbv zeta in Hb. apply res_bind_ok in Hb as (profile & _ & Hb). injection Hb as <- <-.
  cbn [l_profile l_kaslr l_backend l_kpgd]. split_and!.
  - rewrite <- (wrap_u64_small banner Hu) at 2. unfold wrap_u64.
    pose proof (as_u64_as_i64 (wrapping_sub banner (linux_banner (linux_fast_syms profile)))) as Hx.
    unfold as_u64, wrapping_sub, wrap_u64 in Hx. unfold wrapping_sub, wrap_u64.
    rewrite <- Zplus_mod_idemp_r, Hx, Zmod_mod, Zplus_mod_idemp_r. f_equal. lia.
  - apply as_i64_range.
  - done.
  - intros k Hkk. rewrite Hkk in Hkpgd. by injection Hkpgd.
Qed.
End build.

(** ** The properties at concrete inputs *)

Section witnesses.
#[local] Existing Instance debug_build.

Definition sample_linux_symbols : ModuleSymbols :=
  match build sort_by (builder_extend builder_new
          [(0x800, "init_task"); (0x900, "linux_banner"); (0xa00, "__per_cpu_offset")])%string with
  | Ok ms => ms
  | _ => sample_module
  end.

Definition sample_task_struct : Struct :=
  sample_struct "task_struct" [("tasks", 8); ("children", 0x10); ("sibling", 0x18); ("mm", 0x20)]%string.

Definition sample_linux_types : ModuleSymbols := {|
  ms_buffer := []; ms_symbols := []; ms_addresses := [];
  ms_types := list_to_map ((λ s, (st_name s, s)) <$>
    [sample_task_struct; sample_struct "list_head" [("next", 0)]; sample_struct "mm_struct" [("mmap", 0)];
     sample_struct "vm_area_struct" [("vm_start", 0); ("vm_end", 8); ("vm_next", 0x10); ("vm_file", 0x18);
                                     ("vm_pgoff", 0x20)];
     sample_struct "file" [("f_path", 0)]; sample_struct "path" [("dentry", 8)];
     sample_struct "dentry" [("d_parent", 0); ("d_name", 8)]; sample_struct "qstr" [("name", 8)]]%string)
|}.

Definition sample_linux_words : list (Z * Z) :=
  [(0x1008, 0x2008); (0x2008, 0x3008); (0x3008, 0x1008); (0x2010, 0x3018); (0x3018, 0x2010);
   (0x2020, 0x4000); (0x4000, 0x5000);
   (0x5000, 0x400000); (0x5008, 0x401000); (0x5010, 0x5100); (0x5018, 0x6000); (0x5020, 0);
   (0x5100, 0x401000); (0x5108, 0x405000); (0x5110, 0x5200); (0x5118, 0x6000); (0x5120, 1);
   (0x5200, 0x700000); (0x5208, 0x701000); (0x5210, 0); (0x5218, 0); (0x5220, 0);
   (0x6008, 0x7000); (0x7000, 0x7100); (0x7010, 0x8000); (0x7100, 0x7200); (0x7110, 0x8100);
   (0x7200, 0x7200); (0x7210, 0x8200); (0x8000, 0x6362696c); (0x8100, 0x62696c); (0x8200, 0x2f)].

Definition sample_linux_builder : OsBuilder (gmap string (option ModuleSymbols)) :=
  with_kaslr (with_kpgd (with_symbols os_builder {| si_modules :=
    <["System.map"%string := Some sample_linux_symbols]> (<["vmlinux"%string := Some sample_linux_types]> ∅) |})
    0) 0x1100.

Definition sample_linux_build :=
  linux_build find_byte naive_finder (Ok empty_loader) (sample_backend sample_linux_words) sample_linux_builder.

Definition sample_linux : Linux X86_64 :=
  match sample_linux_build with
  | Ok (linux, _) => linux
  | _ => {|
      l_backend := sample_backend []; l_symbols_loader := empty_loader; l_kpgd := 0; l_kaslr := 0;
      l_profile := {| linux_fast_syms := {| per_cpu_offset := 0; current_task := None; init_task := 0;
                                            linux_banner := 0 |};
                      lp_layouts := LinuxLayouts_new sample_linux_types |} |}
  end.

Lemma sample_linux_built : ∃ syms, sample_linux_build = Ok (sample_linux, syms).
Proof.
  assert (Hok : match sample_linux_build with Ok _ => true | _ => false end = true) by (vm_compute; reflexivity).
  unfold sample_linux. destruct sample_linux_build as [[linux syms]| | |]; [by exists syms|done..].
Qed.

Lemma linux_build_kaslr_witness :
  wrap_u64 (0x900 + l_kaslr sample_linux) = 0x1100 ∧ l_kpgd sample_linux = 0.
Proof.
  destruct sample_linux_built as [syms Hb].
  destruct (linux_build_kaslr find_byte naive_finder (Ok empty_loader) (sample_backend sample_linux_words)
    sample_linux_builder sample_linux syms 0x1100 Hb) as (Hk & _ & _ & Hp); [reflexivity|by split|].
  split; [exact Hk|]. by apply Hp.
Defined.

Notation sample_linux_os := (linux_os (M:=gmap string (option ModuleSymbols)) 10 find_byte (λ _, EmptyString) sample_linux).

Lemma linux_processes_witness :
  collect_processes sample_linux_os = Ok [0x2000; 0x3000] ∧
  process_collect_children sample_linux_os 0x2000 = Ok [0x3000].
Proof.
  refine (linux_processes (M:=gmap string (option ModuleSymbols)) 10 find_byte (λ _, EmptyString) sample_linux
    (TaskStruct_new sample_task_struct) 0x1000 8 0x10 0x18 [0x2008; 0x3008] (Ok tt) 0x2000 [0x3018] (Ok tt)
    _ _ _ _ _ _ _ _ _ _ _ _ _ _ _ _).
  - vm_compute. by split.
  - vm_compute. reflexivity.
  - discriminate.
  - discriminate.
  - vm_compute. reflexivity.
  - vm_compute. reflexivity.
  - vm_compute. reflexivity.
  - vm_compute. reflexivity.
  - by split.
  - by split.
  - apply (chain_node _ _ _ (kernel_ptr 0x2008)); [by vm_compute|done|].
    apply (chain_node _ _ _ (kernel_ptr 0x3008)); [by vm_compute|done|].
    apply (chain_head _ _ _ (kernel_ptr 0x1008)); [by vm_compute|done].
  - apply (chain_node _ _ _ (kernel_ptr 0x3018)); [by vm_compute|done|].
    apply (chain_head _ _ _ (kernel_ptr 0x2010)); [by vm_compute|done].
  - cbn. lia.
  - cbn. lia.
  - intros p Hp. assert (p = 0x2008 ∨ p = 0x3008) as [-> | ->] by (cbn in Hp; set_solver); by split.
  - intros p Hp. assert (p = 0x3018) as -> by (cbn in Hp; set_solver); by split.
Defined.

Lemma sample_vmas : vma_chain sample_linux 0x5000 [0x5000; 0x5100; 0x5200].
Proof.
  apply (vma_next _ _ 0x5100); [done|by vm_compute|]. apply (vma_next _ _ 0x5200); [done|by vm_compute|].
  apply (vma_next _ _ 0); [done|by vm_compute|]. constructor.
Qed.

Lemma linux_modules_witness :
  process_collect_vmas sample_linux_os 0x2000 = Ok [0x5000; 0x5100; 0x5200] ∧
  process_collect_modules sample_linux_os 0x2000 = Ok [0x5000].
Proof.
  refine (linux_modules (M:=gmap string (option ModuleSymbols)) 10 find_byte (λ _, EmptyString) sample_linux 0x2000
    (kernel_ptr 0x4000) 0x5000 [0x5000; 0x5100; 0x5200] (λ v, if v =? 0x5100 then 0x1000 else 0)
    (λ v, if v =? 0x5000 then Some "/lib/libc"%string else None) _ _ sample_vmas _ _).
  - by vm_compute.
  - by vm_compute.
  - cbn. lia.
  - intros v Hv. assert (v = 0x5000 ∨ v = 0x5100 ∨ v = 0x5200) as [-> | [-> | ->]] by (cbn in Hv; set_solver);
      (split; [by vm_compute|]; intros; by vm_compute).
Defined.

Lemma linux_module_span_spec_witness : module_span sample_linux_os 0x5000 0 = Ok (0x400000, 0x405000).
Proof.
  refine (linux_module_span_spec (M:=gmap string (option ModuleSymbols)) 10 find_byte (λ _, EmptyString) sample_linux
    0x5000 [0x5100; 0x5200] (λ v, if v =? 0x5200 then 0 else 0x6000) 0x400000
    (λ v, if v =? 0x5000 then 0x401000 else if v =? 0x5100 then 0x405000 else 0x701000) 0 sample_vmas _ _ _ _).
  - cbn. lia.
  - intros v Hv. assert (v = 0x5000 ∨ v = 0x5100 ∨ v = 0x5200) as [-> | [-> | ->]] by (cbn in Hv; set_solver);
      by vm_compute.
  - by vm_compute.
  - intros v Hv. assert (v = 0x5000 ∨ v = 0x5100 ∨ v = 0x5200) as [-> | [-> | ->]] by (cbn in Hv; set_solver);
      by vm_compute.
Defined.

Lemma sample_dentry d addr name :
  (let? qstr := field sample_linux Dentry_d_name (kernel_ptr d) in
   read_field sample_linux pod_u64 Qstr_name qstr) = Ok addr →
  Byte.x00 ∉ name →
  (∀ n, (n = 255 ∨ n = 256)%nat →
    bool_decide (take (S (length name)) (read_kernel sample_linux addr (replicate n Byte.x00)).2
                 = name ++ [Byte.x00]) = true ∧
    (read_kernel sample_linux addr (replicate n Byte.x00)).1 = Ok tt) →
  dentry_name sample_linux d name.
Proof.
  intros Ha Hn Hr. split; [done|]. exists addr. split; [done|]. intros n Hn'.
  destruct (Hr n Hn') as [Ht%bool_decide_eq_true Hok].
  destruct (read_kernel sample_linux addr (replicate n Byte.x00)) as [r bs]. cbn [fst snd] in *. subst r.
  exists (drop (S (length name)) bs). f_equal. rewrite <- (take_drop (S (length name)) bs) at 1.
  by rewrite Ht, <- app_assoc.
Qed.

Lemma sample_dentry_path :
  dentry_path sample_linux 0x7000 [[slash]; str_bytes "lib"; str_bytes "libc"].
Proof.
  assert (Hin : ∀ b (bs : bytes), bool_decide (b ∈ bs) = false → b ∉ bs)
    by (intros b bs H; by apply bool_decide_eq_false in H).
  apply (dentry_child _ 0x7000 0x7100 [[slash]; str_bytes "lib"]); [by vm_compute|done| |].
  - apply (dentry_child _ 0x7100 0x7200 [[slash]]); [by vm_compute|done| |].
    + apply dentry_root; [by vm_compute|].
      apply (sample_dentry _ 0x8200); [by vm_compute|by apply Hin|]. intros n [-> | ->]; by vm_compute.
    + apply (sample_dentry _ 0x8100); [by vm_compute|by apply Hin|]. intros n [-> | ->]; by vm_compute.
  - apply (sample_dentry _ 0x8000); [by vm_compute|by apply Hin|]. intros n [-> | ->]; by vm_compute.
Qed.

Lemma linux_module_path_spec_witness :
  module_path sample_linux_os 0x5000 0 = Ok "/lib/libc"%string ∧
  module_name sample_linux_os 0x5000 0 = Ok "libc"%string.
Proof.
  refine (linux_module_path_spec (M:=gmap string (option ModuleSymbols)) 10 find_byte (λ _, EmptyString) sample_linux
    0x5000 (kernel_ptr 0x6000) (kernel_ptr 0x6000) 0x7000 [str_bytes "lib"] (str_bytes "libc") 0
    _ _ _ sample_dentry_path _ _ _).
  - by vm_compute.
  - by vm_compute.
  - by vm_compute.
  - cbn. lia.
  - assert (Hin : ∀ (bs : bytes), bool_decide (slash ∈ bs) = false → slash ∉ bs)
      by (intros bs H; by apply bool_decide_eq_false in H).
    repeat constructor; try done; by apply Hin.
  - repeat constructor.
Defined.
End witnesses.
