(* ===== verification/Intervals.v ===== *)
(** * Lookups in sorted intervals

    Modules and functions are found by the binary search of the start of their
    interval; when the intervals are sorted and disjoint the search finds the
    one that holds an address. *)

From S2P Require Import Prelude Rust.

Section intervals.
Context {A : Type}.
Variables start end_ : A → Z.

Definition holds_addr (addr : Z) (x : A) : bool := (start x <=? addr) && (addr <? end_ x).

Definition interval_at (l : list A) (addr : Z) : option A := List.find (holds_addr addr) l.

Record disjoint_intervals (l : list A) : Prop := {
  di_nonempty : Forall (λ x, start x < end_ x) l;
  di_order : StronglySorted (λ x y, end_ x <= start y) l;
}.

Lemma disjoint_cons x l :
  disjoint_intervals (x :: l) →
  start x < end_ x ∧ (∀ y, y ∈ l → end_ x <= start y) ∧ disjoint_intervals l.
Proof.
  intros [H1 H2]. inversion H1; inversion H2; subst. split_and!; [done| |by split]. by apply Forall_forall.
Qed.

Lemma interval_at_here x l addr : start x <= addr < end_ x → interval_at (x :: l) addr = Some x.
Proof.
  intros H. unfold interval_at. cbn [List.find]. unfold holds_addr at 1. by replace (_ && _) with true by lia.
Qed.

Lemma interval_at_skip x l addr : ¬ (start x <= addr < end_ x) → interval_at (x :: l) addr = interval_at l addr.
Proof.
  intros H. unfold interval_at. cbn [List.find]. unfold holds_addr at 1. by replace (_ && _) with false by lia.
Qed.

Lemma interval_at_elem l addr x : interval_at l addr = Some x → x ∈ l ∧ start x <= addr < end_ x.
Proof.
  unfold interval_at, holds_addr. intros [Hin Hc]%List.find_some. split; [by apply list_elem_of_In|lia].
Qed.

Lemma interval_at_none l addr : (∀ x, x ∈ l → ¬ (start x <= addr < end_ x)) → interval_at l addr = None.
Proof.
  intros H. destruct (interval_at l addr) as [x|] eqn:E; [|done].
  apply interval_at_elem in E as [Hin Hc]. by destruct (H x Hin).
Qed.

Lemma interval_at_lookup l addr i x :
  disjoint_intervals l → l !! i = Some x → start x <= addr < end_ x → interval_at l addr = Some x.
Proof.
  intros Hl Hi Hx. revert i Hi. induction l as [|y l IH]; intros i Hi; [done|].
  apply disjoint_cons in Hl as (Hlt & Ho & Hl). destruct i as [|i].
  - injection Hi as ->. by apply interval_at_here.
  - cbn in Hi. pose proof (Ho x ltac:(by eapply list_elem_of_lookup_2)).
    rewrite interval_at_skip by lia. by eapply IH.
Qed.

Lemma disjoint_key_sorted l : disjoint_intervals l → key_sorted start l.
Proof.
  intros [Hlt Ho] i j x y Hij Hi Hj. destruct (decide (i = j)) as [->|]; [simplify_eq; lia|].
  assert (i < j)%nat as Hlt' by lia. pose proof (sorted_lookup _ _ _ _ _ _ Ho Hlt' Hi Hj). cbn in *.
  rewrite Forall_forall in Hlt. pose proof (Hlt x ltac:(by eapply list_elem_of_lookup_2)). lia.
Qed.

(** The interval before the place of an address is the only one that may hold
    it. *)
Lemma interval_before l addr i x :
  disjoint_intervals l → l !! i = Some x → start x <= addr →
  (∀ j y, (i < j)%nat → l !! j = Some y → addr < start y) →
  interval_at l addr = if holds_addr addr x then Some x else None.
Proof.
  intros Hl Hi Hlo Hhi. unfold holds_addr at 1. destruct (Z.ltb_spec addr (end_ x)).
  - replace (_ <=? _) with true by lia. by rewrite (interval_at_lookup l addr i x) by (done || lia).
  - rewrite andb_false_r. apply interval_at_none.
    intros y [j Hj]%list_elem_of_lookup_1. destruct (Nat.lt_trichotomy j i) as [Hji|[->|Hij]].
    + pose proof (sorted_lookup _ _ _ _ _ _ (di_order _ Hl) Hji Hj Hi). cbn in *. lia.
    + simplify_eq. lia.
    + pose proof (Hhi j y Hij Hj). lia.
Qed.

(** An interval that starts at the address holds it. *)
Lemma interval_exact l addr i x :
  disjoint_intervals l → l !! i = Some x → start x = addr → interval_at l addr = Some x.
Proof.
  intros Hl Hi Hx. apply (interval_at_lookup l addr i); [done|done|].
  pose proof (di_nonempty _ Hl) as Hne. rewrite Forall_forall in Hne.
  pose proof (Hne x ltac:(by eapply list_elem_of_lookup_2)). lia.
Qed.

Lemma interval_search l addr :
  disjoint_intervals l →
  match binary_search_by_key addr start l with
  | inl i => ∃ x, l !! i = Some x ∧ interval_at l addr = Some x
  | inr O => interval_at l addr = None
  | inr (S i) => ∃ x, l !! i = Some x ∧ interval_at l addr = if holds_addr addr x then Some x else None
  end.
Proof.
  intros Hl. pose proof (binary_search_by_key_spec start addr l (disjoint_key_sorted l Hl)) as H.
  destruct (binary_search_by_key addr start l) as [i|[|i]].
  - destruct H as (x & Hi & Hx). exists x. split; [done|by eapply interval_exact].
  - destruct H as (_ & _ & H). apply interval_at_none. intros x [j Hj]%list_elem_of_lookup_1.
    pose proof (H j x ltac:(lia) Hj). lia.
  - destruct H as (Hi & Hlo & Hhi). destruct (lookup_lt_is_Some_2 l i) as [x Hx]; [lia|]. exists x. split; [done|].
    apply (interval_before l addr i); [done|done| |].
    + pose proof (Hlo i x ltac:(lia) Hx). lia.
    + intros j y Hj. apply Hhi. lia.
Qed.
End intervals.
