(* ===== verification/WinUnwind.v ===== *)
(** * Unwind data of Windows x86_64 ([vminer/src/os/windows/callstack.rs])

    The unwind codes of a function, the table of functions of a module, the
    emulation of epilogs, and the frame that called a function.  Logging is left
    out. *)

From S2P Require Import Prelude Rust Layout Addr Error Os.

(** ** Readers *)

(** A reader of a [&mut &[u8]]: it may leave the slice shorter also when it
    fails. *)
Definition Reader (A : Type) : Type := bytes → option A * bytes.

Definition rd_bind {A B} (m : Reader A) (k : A → Reader B) : Reader B := λ s,
  match m s with
  | (Some a, s) => k a s
  | (None, s) => (None, s)
  end.

Definition rd_ret {A} (a : A) : Reader A := λ s, (Some a, s).
Definition rd_fail {A} : Reader A := λ s, (None, s).

Notation "'let&' x ':=' m 'in' k" := (rd_bind m (λ x, k))
  (at level 10, x binder, m at level 200, k at level 200) : rust_scope.

Definition read_u8 : Reader Z := λ codes,
  match codes with
  | first :: rest => (Some (bz first), rest)
  | [] => (None, [])
  end.

Definition rd_u16 : Reader Z := λ codes,
  match codes with
  | a :: b :: rest => (Some (le_val [a; b]), rest)
  | _ => (None, codes)
  end.

Definition rd_u32 : Reader Z := λ codes,
  match codes with
  | a :: b :: c :: d :: rest => (Some (le_val [a; b; c; d]), rest)
  | _ => (None, codes)
  end.

Definition read_slice (len : nat) : Reader bytes := λ codes,
  if (len <=? length codes)%nat then (Some (take len codes), drop len codes) else (None, codes).

(** ** Unwind codes *)

(** [Reg] and [XmmReg] are transparent wrappers of [u8]. *)
Definition RBP : Z := 5.

Inductive UnwindOp :=
| Push (r : Z)
| Alloc (size : Z)
| SetFpReg
| Save (r off : Z)
| Epilog
| SaveXmm128 (r off : Z)
| PushMachFrame (error : bool).

#[export] Instance unwind_op_eq_dec : EqDecision UnwindOp.
Proof. solve_decision. Defined.

(** The operation after its offset. *)
Definition read_op (version : Z) : Reader UnwindOp :=
  let& op := read_u8 in
  let op_code := Z.land op 0xf in
  let op_info := Z.shiftr op 4 in
  match op_code with
  | 0 => rd_ret (Push op_info)
  | 1 =>
      match op_info with
      | 0 => let& n := rd_u16 in rd_ret (Alloc (n * 8))
      | 1 => let& n := rd_u32 in rd_ret (Alloc n)
      | _ => rd_fail
      end
  | 2 => rd_ret (Alloc (op_info * 8 + 8))
  | 3 => rd_ret SetFpReg
  | 4 => let& n := rd_u16 in rd_ret (Save op_info (n * 8))
  | 5 => let& n := rd_u32 in rd_ret (Save op_info n)
  | 6 => if version =? 2 then let& _ := rd_u16 in rd_ret Epilog else rd_fail
  | 8 => let& n := rd_u16 in rd_ret (SaveXmm128 op_info (n * 16))
  | 9 => let& n := rd_u32 in rd_ret (SaveXmm128 op_info n)
  | 10 =>
      match op_info with
      | 0 => rd_ret (PushMachFrame false)
      | 1 => rd_ret (PushMachFrame true)
      | _ => rd_fail
      end
  | _ => rd_fail
  end.

(** [UnwindOpIterator::next]: the items are [None] for a code that is not
    valid. *)
Definition unwind_next (version : Z) : Reader (option (Z * UnwindOp)) := λ codes,
  match read_u8 codes with
  | (None, codes) => (None, codes)
  | (Some op_offset, codes) =>
      let (op, codes) := read_op version codes in
      (Some ((λ op, (op_offset, op)) <$> op), codes)
  end.

(** ** Functions of a module *)

Record RuntimeFunction := { rf_start : Z; rf_end : Z; rf_ptr : Z }.

Definition RuntimeFunction_pod : Pod RuntimeFunction :=
  pod_iso (λ x, {| rf_start := x.1; rf_end := x.2.1; rf_ptr := x.2.2 |})
          (λ r, (rf_start r, (rf_end r, rf_ptr r)))
          (pod_pair pod_u32 (pod_pair pod_u32 pod_u32)).

#[export] Instance RuntimeFunction_pod_ok : PodOk RuntimeFunction_pod.
Proof. apply pod_iso_ok; [by intros []|by intros (?&?&?)|apply _]. Qed.

Definition rf_contains (self : RuntimeFunction) (addr : Z) : bool :=
  (rf_start self <=? addr) && (addr <? rf_end self).

Definition rf_is_valid (self : RuntimeFunction) : bool :=
  negb (rf_start self =? 0) && negb (rf_end self =? 0) && negb (rf_ptr self =? 0).

Record FunctionEntry := {
  fe_mother : option RuntimeFunction;
  fe_version : Z;
  fe_frame_register_offset : option Z;
  fe_unwind_codes : bytes;
}.

Record UnwindData := { ud_offset : Z; ud_content : bytes; ud_directory_range : Z * Z }.

(** The key of the binary search; the state is [corrupted]. *)
Definition cmp_function (off : Z) (rt : RuntimeFunction) (corrupted : bool) : comparison * bool :=
  if rf_is_valid rt then (rf_start rt ?= off, corrupted) else (off ?= off, true).

(** The loop of the linear search. *)
Fixpoint linear_search (off : Z) (last_valid : option RuntimeFunction) (functions : list RuntimeFunction)
  : VmResult (option RuntimeFunction) :=
  let stop := match last_valid with
              | Some _ => Ok None
              | None => Err (vm_of_str "unmapped unwind data")
              end in
  match functions with
  | [] => stop
  | function :: functions =>
      if negb (rf_is_valid function) then linear_search off None functions
      else if off <? rf_start function then stop
      else if off <? rf_end function then Ok (Some function)
      else linear_search off (Some function) functions
  end.

Definition find_runtime_function (functions : list RuntimeFunction) (off : Z)
  : VmResult (option RuntimeFunction) :=
  let (pos, corrupted) := binary_search_st (cmp_function off) functions false in
  if corrupted then linear_search off None functions
  else
    match pos with
    | inl i => let? fun_ := unwrap (functions !! i) in Ok (Some fun_)
    | inr O => Ok None
    | inr (S i) =>
        let? fun_ := unwrap (functions !! i) in
        Ok (if rf_contains fun_ off then Some fun_ else None)
    end.

(** [parse_function], on the bytes from the pointer of the function on. *)
Definition read_function : Reader FunctionEntry :=
  let& version_flags := read_u8 in
  let version := Z.land version_flags 0x7 in
  if negb ((1 <=? version) && (version <=? 2)) then rd_fail
  else
    let is_chained := negb (Z.land version_flags 0x20 =? 0) in
    let& _ := read_u8 in
    let& unwind_code_count := read_u8 in
    let& frame_infos := read_u8 in
    let frame_register := Z.land frame_infos 0x0f in
    let frame_register_offset :=
      if negb (frame_register =? 0) then Some (Z.land frame_infos 0xf0) else None in
    let& unwind_codes := read_slice (2 * Z.to_nat unwind_code_count) in
    let& mother :=
      if is_chained then
        let& mother := read_slice (size_of RuntimeFunction_pod) in
        rd_ret (Some (pod_read RuntimeFunction_pod mother))
      else rd_ret None in
    rd_ret {| fe_mother := mother; fe_version := version;
              fe_frame_register_offset := frame_register_offset; fe_unwind_codes := unwind_codes |}.

Definition parse_function (self : UnwindData) (runtime_function : RuntimeFunction) : option FunctionEntry :=
  unwind_data ← slice_get_from (ud_content self) (rf_ptr runtime_function);
  (read_function unwind_data).1.

(** [bytemuck::cast_slice], once the alignment and the size are checked. *)
Fixpoint cast_functions (n : nat) (bs : bytes) : list RuntimeFunction :=
  match n with
  | O => []
  | S n => pod_read RuntimeFunction_pod (take 12 bs) :: cast_functions n (drop 12 bs)
  end.

(** [bytemuck::cast_slice] panics when the data is not aligned for [u32] or when
    its size is not a multiple of the one of [RuntimeFunction].  The content is
    the buffer of an allocation, which is aligned. *)
Definition check_cast {E} (start : Z) (len : nat) : Res E unit :=
  if (start mod 4 =? 0) && (len mod 12 =? 0)%nat then Ok tt else Panic.

Definition find_by_offset (self : UnwindData) (off : Z) : VmResult (option RuntimeFunction) :=
  let '(start, end_) := ud_directory_range self in
  let? bs := slice_range (ud_content self) start end_ in
  let? _ := check_cast start (length bs) in
  find_runtime_function (cast_functions (length bs / 12) bs) off.

(** ** Frames *)

Inductive NextSp := SpValue (sp : Z) | SpAddr (addr : Z).

Record UnwindResult := {
  next_sp : NextSp;
  next_ip_addr : Z;
  next_bp_addr : option Z;
  fun_start : option Z;
}.

Inductive UnwindStep := MachInst (off : Z) | SpOffset (off : Z).

Section unwind.
Context {bm : Build}.

(** The loop of [read_epilog]: the stack pointer at the return address, and
    where the base pointer was saved.  Every round reads a byte of the code. *)
Fixpoint epilog_loop (fuel : nat) (code : bytes) (sp : Z) (bp_addr : option Z)
  : Res Never (option (Z * option Z)) :=
  match fuel with
  | O => NoFuel
  | S fuel =>
      match read_u8 code with
      | (None, _) => Ok None
      | (Some op, code) =>
          if op =? 0x41 then
            match read_u8 code with
            | (Some r, code) =>
                if (0x58 <=? r) && (r <=? 0x5f)
                then let? sp := va_add_u64 sp 8 in epilog_loop fuel code sp bp_addr
                else Ok None
            | (None, _) => Ok None
            end
          else if op =? 0x48 then
            match (let& op := read_u8 in let& modrm := read_u8 in rd_ret (op, modrm)) code with
            | (Some (op, modrm), code) =>
                if negb (modrm =? 0xc4) then Ok None
                else
                  match (if op =? 0x81 then rd_u32 else if op =? 0x83 then read_u8 else rd_fail) code with
                  | (Some n, code) => let? sp := va_add_u64 sp n in epilog_loop fuel code sp bp_addr
                  | (None, _) => Ok None
                  end
            | (None, _) => Ok None
            end
          else if op =? 0x5c then Ok None
          else if op =? 0x5d then
            let? sp' := va_add_u64 sp 8 in epilog_loop fuel code sp' (Some sp)
          else if ((0x58 <=? op) && (op <=? 0x5f)) || (op =? 0x9d) then
            let? sp := va_add_u64 sp 8 in epilog_loop fuel code sp bp_addr
          else if op =? 0xc3 then Ok (Some (sp, bp_addr))
          else Ok None
      end
  end.

(** The start of the function that a chain of unwind data belongs to; the chain
    is in the memory of the guest, so its length is bounded. *)
Fixpoint mother_start (fuel : nat) (unwind_data : UnwindData) (runtime_function : RuntimeFunction)
  : Res Never (option Z) :=
  match fuel with
  | O => NoFuel
  | S fuel =>
      match parse_function unwind_data runtime_function with
      | None => Ok None
      | Some function =>
          match fe_mother function with
          | Some mother => mother_start fuel unwind_data mother
          | None =>
              let? start := va_add_u32 (ud_offset unwind_data) (rf_start runtime_function) in Ok (Some start)
          end
      end
  end.

(** [(frame.instruction_pointer - unwind_data.offset) as u32] *)
Definition offset_in_module (unwind_data : UnwindData) (frame : StackFrame) : Z :=
  wrap_u32 (va_sub (frame_instruction_pointer frame) (ud_offset unwind_data)).

Definition read_epilog (fuel : nat) (unwind_data : UnwindData) (frame : StackFrame)
  : Res Never (option UnwindResult) :=
  let off := offset_in_module unwind_data frame in
  match slice_get_from (ud_content unwind_data) off with
  | None => Ok None
  | Some code =>
      let? r := epilog_loop (S (length code)) code (frame_stack_pointer frame) None in
      match r with
      | None => Ok None
      | Some (sp, bp_addr) =>
          let? start :=
            match find_by_offset unwind_data off with
            | Ok (Some runtime_function) => mother_start fuel unwind_data runtime_function
            | Ok None | Err _ => Ok None
            | Panic => Panic
            | NoFuel => NoFuel
            end in
          let? sp' := va_add_i32 sp 8 in
          Ok (Some {| next_sp := SpValue sp'; next_ip_addr := sp; next_bp_addr := bp_addr; fun_start := start |})
      end
  end.

(** The loop of [read_unwind_codes]. *)
Fixpoint codes_loop (fuel : nat) (has_mother : bool) (version : Z) (off : option Z) (codes : bytes)
    (sp_offset : Z) (bp_addr : option Z) : VmResult (option Z * UnwindStep) :=
  match fuel with
  | O => NoFuel
  | S fuel =>
      match unwind_next version codes with
      | (None, _) => Ok (bp_addr, SpOffset sp_offset)
      | (Some uwop, codes) =>
          let? ' (op_offset, op) := option_context uwop "invalid unwind code" in
          if match off with Some off => off <? op_offset | None => false end
          then codes_loop fuel has_mother version off codes sp_offset bp_addr
          else
            match op with
            | Push reg =>
                let bp_addr := if reg =? RBP then Some sp_offset else bp_addr in
                let? sp_offset := add_u32 sp_offset 8 in
                codes_loop fuel has_mother version off codes sp_offset bp_addr
            | Alloc size =>
                let? sp_offset := add_u32 sp_offset size in
                codes_loop fuel has_mother version off codes sp_offset bp_addr
            | PushMachFrame error =>
                match (unwind_next version codes).1 with
                | Some _ => Err (vm_of_str "unsupported UWOP_MACHFRAME in the middle of unwind ops")
                | None =>
                    if has_mother then Err (vm_of_str "unsupported UWOP_MACHFRAME with mother")
                    else
                      let? sp_offset := add_u32 sp_offset (if error : bool then 8 else 0) in
                      Ok (bp_addr, MachInst sp_offset)
                end
            | Save reg o =>
                codes_loop fuel has_mother version off codes sp_offset
                  (if reg =? RBP then Some o else bp_addr)
            | _ => codes_loop fuel has_mother version off codes sp_offset bp_addr
            end
      end
  end.

Definition read_unwind_codes (function : FunctionEntry) (off : option Z) : VmResult (option Z * UnwindStep) :=
  codes_loop (S (length (fe_unwind_codes function)))
    (match fe_mother function with Some _ => true | None => false end)
    (fe_version function) off (fe_unwind_codes function) 0 None.

(** The loop of [unwind_with_infos] over the chain of functions. *)
Fixpoint unwind_chain (fuel : nat) (unwind_data : UnwindData) (function : FunctionEntry)
    (ip_offset : option Z) (sp : Z) (bp_addr start : option Z) : VmResult UnwindResult :=
  match fuel with
  | O => NoFuel
  | S fuel =>
      let? ' (bp_offset, step) := read_unwind_codes function ip_offset in
      let? bp_addr := match bp_offset with
                      | Some o => let? a := va_add_u32 sp o in Ok (Some a)
                      | None => Ok bp_addr
                      end in
      match step with
      | MachInst o =>
          let? ip_addr := va_add_u32 sp o in
          let? sp_addr := va_add_i32 ip_addr 0x18 in
          Ok {| next_sp := SpAddr sp_addr; next_ip_addr := ip_addr; next_bp_addr := bp_addr; fun_start := start |}
      | SpOffset o =>
          let? sp := va_add_u64 sp o in
          match fe_mother function with
          | Some mother =>
              let? function := option_context (parse_function unwind_data mother) "failed to parse unwind data" in
              let? start := va_add_u32 (ud_offset unwind_data) (rf_start mother) in
              unwind_chain fuel unwind_data function None sp bp_addr (Some start)
          | None =>
              let? sp' := va_add_u64 sp 8 in
              Ok {| next_ip_addr := sp; next_sp := SpValue sp'; next_bp_addr := bp_addr; fun_start := start |}
          end
      end
  end.

Definition unwind_with_infos (fuel : nat) (unwind_data : UnwindData) (runtime_function : RuntimeFunction)
    (frame : StackFrame) (base_pointer : option Z) : VmResult UnwindResult :=
  let? ip_offset := sub_u32 (offset_in_module unwind_data frame) (rf_start runtime_function) in
  let? function := option_context (parse_function unwind_data runtime_function) "failed to parse unwind data" in
  let? start := va_add_u32 (ud_offset unwind_data) (rf_start runtime_function) in
  let? frame_pointer :=
    match fe_frame_register_offset function with
    | None => Ok (frame_stack_pointer frame)
    | Some o =>
        if ip_offset =? 0 then Ok (frame_stack_pointer frame)
        else
          let? bp := option_context base_pointer "missing required frame pointer" in
          va_sub_u64 bp o
    end in
  unwind_chain fuel unwind_data function (Some ip_offset) frame_pointer None (Some start).

(** [unwind_function], once the unwind data of the module is known. *)
Definition unwind_in_module (fuel : nat) (unwind_data : UnwindData) (frame : StackFrame)
    (base_pointer : option Z) : VmResult UnwindResult :=
  let? epilog := from_never (read_epilog fuel unwind_data frame) in
  match epilog with
  | Some result => Ok result
  | None =>
      let? function := find_by_offset unwind_data (offset_in_module unwind_data frame) in
      match function with
      | Some function => unwind_with_infos fuel unwind_data function frame base_pointer
      | None =>
          let? sp := va_add_u64 (frame_stack_pointer frame) 8 in
          Ok {| next_ip_addr := frame_stack_pointer frame; next_sp := SpValue sp;
                next_bp_addr := None; fun_start := None |}
      end
  end.
End unwind.
