(* ===== verification/WinUnwindSpec.v ===== *)
(** * Specification of the unwinding of Windows x86_64

    The unwind codes against the grammar of their format, the search in the
    table of functions when parts of it could not be read, and the frame that
    called a function against the execution of its prolog or of its epilog. *)

From S2P Require Import Prelude Rust Layout Addr Error Os Intervals WinUnwind.

(** ** The format of unwind codes *)

(** The byte that holds the code of an operation and its info. *)
Definition op_byte (code info : Z) : byte := zb (info * 16 + code).

Inductive op_bytes (version : Z) : UnwindOp → bytes → Prop :=
| OpPush r : 0 <= r < 16 → op_bytes version (Push r) [op_byte 0 r]
| OpAllocLarge n : 0 <= n < 2 ^ 16 → op_bytes version (Alloc (n * 8)) (op_byte 1 0 :: le_bytes 2 n)
| OpAllocHuge n : 0 <= n < 2 ^ 32 → op_bytes version (Alloc n) (op_byte 1 1 :: le_bytes 4 n)
| OpAllocSmall n : 0 <= n < 16 → op_bytes version (Alloc (n * 8 + 8)) [op_byte 2 n]
| OpSetFpReg i : 0 <= i < 16 → op_bytes version SetFpReg [op_byte 3 i]
| OpSave r n : 0 <= r < 16 → 0 <= n < 2 ^ 16 →
    op_bytes version (Save r (n * 8)) (op_byte 4 r :: le_bytes 2 n)
| OpSaveFar r n : 0 <= r < 16 → 0 <= n < 2 ^ 32 → op_bytes version (Save r n) (op_byte 5 r :: le_bytes 4 n)
| OpEpilog i n : version = 2 → 0 <= i < 16 → 0 <= n < 2 ^ 16 →
    op_bytes version Epilog (op_byte 6 i :: le_bytes 2 n)
| OpSaveXmm128 r n : 0 <= r < 16 → 0 <= n < 2 ^ 16 →
    op_bytes version (SaveXmm128 r (n * 16)) (op_byte 8 r :: le_bytes 2 n)
| OpSaveXmm128Far r n : 0 <= r < 16 → 0 <= n < 2 ^ 32 →
    op_bytes version (SaveXmm128 r n) (op_byte 9 r :: le_bytes 4 n)
| OpPushMachFrame (error : bool) :
    op_bytes version (PushMachFrame error) [op_byte 10 (if error then 1 else 0)].

(** An operation with the offset in the prolog of the instruction that follows
    it. *)
Definition code_bytes (version : Z) (c : Z * UnwindOp) (bs : bytes) : Prop :=
  ∃ ops, 0 <= c.1 < 256 ∧ op_bytes version c.2 ops ∧ bs = zb c.1 :: ops.

Definition codes_bytes (version : Z) (l : list (Z * UnwindOp)) (bs : bytes) : Prop :=
  ∃ bss, Forall2 (code_bytes version) l bss ∧ bs = concat bss.

Lemma op_byte_code c i : 0 <= c < 16 → 0 <= i < 16 → Z.land (bz (op_byte c i)) 0xf = c.
Proof.
  intros. change 0xf with (Z.ones 4). unfold op_byte. rewrite bz_zb, Z.land_ones by lia. lia.
Qed.

Lemma op_byte_info c i : 0 <= c < 16 → 0 <= i < 16 → Z.shiftr (bz (op_byte c i)) 4 = i.
Proof. intros. unfold op_byte. rewrite bz_zb, Z.shiftr_div_pow2 by lia. lia. Qed.

Lemma op_byte_split b :
  ∃ c i, b = op_byte c i ∧ 0 <= c < 16 ∧ 0 <= i < 16 ∧ Z.land (bz b) 0xf = c ∧ Z.shiftr (bz b) 4 = i.
Proof.
  pose proof (bz_range b). exists (bz b mod 16), (bz b / 16). split_and!; try lia.
  - apply bz_inj. unfold op_byte. rewrite bz_zb. lia.
  - change 0xf with (Z.ones 4). rewrite Z.land_ones by lia. done.
  - rewrite Z.shiftr_div_pow2 by lia. done.
Qed.

Lemma rd_u16_spec bs n rest :
  rd_u16 bs = (Some n, rest) ↔ 0 <= n < 2 ^ 16 ∧ bs = le_bytes 2 n ++ rest.
Proof.
  split.
  - destruct bs as [|a [|b bs]]; cbn [rd_u16]; [done..|]. intros H.
    assert (n = le_val [a; b] ∧ rest = bs) as [-> ->] by (split; congruence). clear H.
    pose proof (le_val_range [a; b]). pose proof (le_bytes_le_val [a; b]) as E.
    split; [done|]. cbn [length] in E. by rewrite E.
  - intros [Hn ->]. cbn [le_bytes app rd_u16].
    pose proof (le_val_le_bytes 2 n) as E. cbn [le_bytes] in E. rewrite E. rewrite Z.mod_small; [done|lia].
Qed.

Lemma rd_u32_spec bs n rest :
  rd_u32 bs = (Some n, rest) ↔ 0 <= n < 2 ^ 32 ∧ bs = le_bytes 4 n ++ rest.
Proof.
  split.
  - destruct bs as [|a [|b [|c [|d bs]]]]; cbn [rd_u32]; [done..|]. intros H.
    assert (n = le_val [a; b; c; d] ∧ rest = bs) as [-> ->] by (split; congruence). clear H.
    pose proof (le_val_range [a; b; c; d]). pose proof (le_bytes_le_val [a; b; c; d]) as E.
    split; [done|]. cbn [length] in E. by rewrite E.
  - intros [Hn ->]. cbn [le_bytes app rd_u32].
    pose proof (le_val_le_bytes 4 n) as E. cbn [le_bytes] in E. rewrite E. rewrite Z.mod_small; [done|lia].
Qed.

Lemma rd_bind_some {A B} (m : Reader A) (k : A → Reader B) bs b rest :
  rd_bind m k bs = (Some b, rest) ↔ ∃ a bs', m bs = (Some a, bs') ∧ k a bs' = (Some b, rest).
Proof.
  unfold rd_bind. split.
  - destruct (m bs) as [[a|] bs']; [by eauto|done].
  - by intros (a & bs' & -> & ?).
Qed.

Lemma read_op_byte version c i bs :
  0 <= c < 16 → 0 <= i < 16 →
  read_op version (op_byte c i :: bs) =
  match c with
  | 0 => rd_ret (Push i)
  | 1 =>
      match i with
      | 0 => let& n := rd_u16 in rd_ret (Alloc (n * 8))
      | 1 => let& n := rd_u32 in rd_ret (Alloc n)
      | _ => rd_fail
      end
  | 2 => rd_ret (Alloc (i * 8 + 8))
  | 3 => rd_ret SetFpReg
  | 4 => let& n := rd_u16 in rd_ret (Save i (n * 8))
  | 5 => let& n := rd_u32 in rd_ret (Save i n)
  | 6 => if version =? 2 then let& _ := rd_u16 in rd_ret Epilog else rd_fail
  | 8 => let& n := rd_u16 in rd_ret (SaveXmm128 i (n * 16))
  | 9 => let& n := rd_u32 in rd_ret (SaveXmm128 i n)
  | 10 =>
      match i with
      | 0 => rd_ret (PushMachFrame false)
      | 1 => rd_ret (PushMachFrame true)
      | _ => rd_fail
      end
  | _ => rd_fail
  end bs.
Proof.
  intros Hc Hi. unfold read_op. unfold rd_bind at 1. cbn [read_u8].
  by rewrite op_byte_code, op_byte_info.
Qed.

Lemma read_op_sound version bs op rest :
  read_op version bs = (Some op, rest) → ∃ ops, op_bytes version op ops ∧ bs = ops ++ rest.
Proof.
  destruct bs as [|b bs]; [done|].
  destruct (op_byte_split b) as (c & i & Hb & Hc & Hi & ? & ?). subst b. rewrite read_op_byte by done.
  assert (Hs : ∀ {A} (r : Reader A) (enc : A → bytes) (P : A → Prop) (f : A → UnwindOp),
    (∀ bs n rest, r bs = (Some n, rest) ↔ P n ∧ bs = enc n ++ rest) →
    (∀ n, P n → op_bytes version (f n) (op_byte c i :: enc n)) →
    rd_bind r (λ n, rd_ret (f n)) bs = (Some op, rest) →
    ∃ ops, op_bytes version op ops ∧ op_byte c i :: bs = ops ++ rest).
  { intros A r enc P f Hr Hop Hb. apply rd_bind_some in Hb as (n & bs' & Hn & Hb).
    unfold rd_ret in Hb. injection Hb as Ho Hbs'. subst op bs'. apply Hr in Hn as [HP ->]. eexists. split; [by apply Hop|done]. }
  assert (H1 : ∀ o, op_bytes version o [op_byte c i] → rd_ret o bs = (Some op, rest) →
    ∃ ops, op_bytes version op ops ∧ op_byte c i :: bs = ops ++ rest).
  { intros o Ho Hr. unfold rd_ret in Hr. injection Hr as Ho' Hbs. subst op bs. eexists. split; [done|done]. }
  assert (Hcs : c = 0 ∨ c = 1 ∨ c = 2 ∨ c = 3 ∨ c = 4 ∨ c = 5 ∨ c = 6 ∨ c = 7 ∨ c = 8 ∨ c = 9 ∨ c = 10 ∨
                11 <= c) by lia.
  destruct_or! Hcs; subst.
  - apply H1. by constructor.
  - destruct i as [|[]|]; try done.
    + eapply Hs; [apply rd_u16_spec|]. by constructor.
    + eapply Hs; [apply rd_u32_spec|]. by constructor.
  - apply H1. by constructor.
  - apply H1. by constructor.
  - eapply Hs; [apply rd_u16_spec|]. by constructor.
  - eapply Hs; [apply rd_u32_spec|]. by constructor.
  - destruct (Z.eqb_spec version 2) as [->|]; [|done].
    eapply (Hs _ _ _ _ (λ _, Epilog)); [apply rd_u16_spec|]. by constructor.
  - done.
  - eapply Hs; [apply rd_u16_spec|]. by constructor.
  - eapply Hs; [apply rd_u32_spec|]. by constructor.
  - destruct i as [|[]|]; try done; apply H1; [apply (OpPushMachFrame _ false)|apply (OpPushMachFrame _ true)].
  - destruct c as [|[[[[]|[]|]|[[]|[]|]|]|[[[]|[]|]|[[]|[]|]|]|]|]; try done; lia.
Qed.

Lemma read_op_complete version ops op rest :
  op_bytes version op ops → read_op version (ops ++ rest) = (Some op, rest).
Proof.
  assert (H16 : ∀ f n, 0 <= n < 2 ^ 16 →
    rd_bind rd_u16 (λ n, rd_ret (f n)) (le_bytes 2 n ++ rest) = (Some (f n : UnwindOp), rest)).
  { intros f n Hn. apply rd_bind_some. exists n, rest. by rewrite rd_u16_spec. }
  assert (H32 : ∀ f n, 0 <= n < 2 ^ 32 →
    rd_bind rd_u32 (λ n, rd_ret (f n)) (le_bytes 4 n ++ rest) = (Some (f n : UnwindOp), rest)).
  { intros f n Hn. apply rd_bind_some. exists n, rest. by rewrite rd_u32_spec. }
  destruct 1 as [| | | | | | |? ? ->| | |[]]; cbn [app]; rewrite read_op_byte by lia; try done.
  - by apply (H16 (λ n, Alloc (n * 8))).
  - by apply (H32 Alloc).
  - by apply (H16 (λ n, Save r (n * 8))).
  - by apply (H32 (Save r)).
  - by apply (H16 (λ n, SaveXmm128 r (n * 16))).
  - by apply (H32 (SaveXmm128 r)).
Qed.

Lemma unwind_next_spec version bs c rest :
  unwind_next version bs = (Some (Some c), rest) ↔ ∃ cs, code_bytes version c cs ∧ bs = cs ++ rest.
Proof.
  destruct c as [off op]. unfold unwind_next, code_bytes. cbn [fst snd]. split.
  - destruct bs as [|b bs]; [done|]. cbn [read_u8].
    destruct (read_op version bs) as [[o|] bs'] eqn:Hop; cbn; [|by intros]. intros [= <- <- <-].
    apply read_op_sound in Hop as (ops & Hops & ->). exists (b :: ops). split; [|done].
    exists ops. split; [apply bz_range|]. by rewrite zb_bz.
  - intros (cs & (ops & Hoff & Hops & ->) & ->). cbn [read_u8 app].
    rewrite (read_op_complete version ops op rest Hops). rewrite bz_zb, Z.mod_small by lia. done.
Qed.

(** ** The table of functions *)

#[export] Instance runtime_function_eq_dec : EqDecision RuntimeFunction.
Proof. solve_decision. Defined.

(** What the linker writes: functions in order, without overlap. *)
Record function_table (functions : list RuntimeFunction) : Prop := {
  ft_valid : Forall (λ f, rf_is_valid f = true) functions;
  ft_disjoint : disjoint_intervals rf_start rf_end functions;
}.

(** What is read of an entry: the parts that are not mapped are left at zero. *)
Definition read_entry (f f' : RuntimeFunction) : Prop := f' = f ∨ rf_is_valid f' = false.

(** The function that holds an offset. *)
Definition function_at : list RuntimeFunction → Z → option RuntimeFunction := interval_at rf_start rf_end.

Definition unmapped_error : VmError := vm_of_str "unmapped unwind data".

(** What a search may answer when the table [T] was read as [T']. *)
Definition found (T T' : list RuntimeFunction) (off : Z) (r : VmResult (option RuntimeFunction)) : Prop :=
  match function_at T off with
  | Some f => r = if decide (f ∈ T') then Ok (Some f) else Err unmapped_error
  | None => r = Ok None ∨ r = Err unmapped_error
  end.

Lemma function_table_cons f T :
  function_table (f :: T) →
  rf_is_valid f = true ∧ rf_start f < rf_end f ∧ (∀ g, g ∈ T → rf_end f <= rf_start g) ∧ function_table T.
Proof. intros [H1 (? & ? & ?)%disjoint_cons]. inversion H1. by split_and!. Qed.

Lemma read_entries_elem T T' f :
  Forall2 read_entry T T' → f ∈ T' → rf_is_valid f = true → f ∈ T.
Proof.
  intros HF Hin Hv. apply list_elem_of_lookup_1 in Hin as [i Hi].
  destruct (Forall2_lookup_r _ _ _ _ _ HF Hi) as (g & Hg & [->|]); [by eapply list_elem_of_lookup_2|congruence].
Qed.

Lemma linear_search_above off T' :
  (∀ f, f ∈ T' → rf_is_valid f = true → off < rf_start f) → linear_search off None T' = Err unmapped_error.
Proof.
  induction T' as [|f T' IH]; intros H; cbn [linear_search]; [done|].
  destruct (rf_is_valid f) eqn:Hv; cbn [negb].
  - pose proof (H f (list_elem_of_here _ _) Hv). by replace (_ <? _) with true by lia.
  - apply IH. intros g Hg. apply H. by apply list_elem_of_further.
Qed.

Lemma linear_search_found off T T' lv :
  function_table T → Forall2 read_entry T T' → found T T' off (linear_search off lv T').
Proof.
  intros HT HF. revert lv HT. induction HF as [|f f' T T' Hf HF IH]; intros lv HT; cbn [linear_search].
  { unfold found. cbn. destruct lv; by auto. }
  apply function_table_cons in HT as (Hv & Hlt & Ho & HT).
  assert (Hout : ¬ (rf_start f <= off < rf_end f) → (∀ g, f' = g → rf_is_valid g = true → g = f) →
    found T T' off (linear_search off (if rf_is_valid f' then Some f' else None) T') →
    found (f :: T) (f' :: T') off (linear_search off (if rf_is_valid f' then Some f' else None) T')).
  { intros Hn Hf'. unfold found, function_at. rewrite interval_at_skip by done. fold function_at.
    destruct (function_at T off) as [g|] eqn:Hg; [|done]. intros ->.
    pose proof (interval_at_elem _ _ _ _ _ Hg) as [Hgin Hgc].
    assert (g ∈ f' :: T' ↔ g ∈ T') as Hiff.
    { rewrite elem_of_cons. split; [|by right]. intros [->|]; [|done]. exfalso.
      rewrite <- (Hf' f') in Hn by (try done; destruct HT as [HV _]; rewrite Forall_forall in HV; by apply HV).
      done. }
    destruct (decide (g ∈ T')), (decide (g ∈ f' :: T')); (done || tauto). }
  destruct (rf_is_valid f') eqn:Hv'; cbn [negb].
  - destruct Hf as [->|]; [|congruence]. destruct (Z.ltb_spec off (rf_start f)).
    { unfold found. unfold function_at; rewrite interval_at_none; [destruct lv; by auto|].
      intros g [->|Hg]%elem_of_cons; [lia|]. pose proof (Ho g Hg). lia. }
    destruct (Z.ltb_spec off (rf_end f)); [|apply Hout; [lia|by intros|by apply IH]].
    unfold found, function_at. rewrite interval_at_here by lia.
    by rewrite decide_True by apply list_elem_of_here.
  - destruct (decide (rf_start f <= off < rf_end f)) as [Hin|Hn]; [|apply Hout; [done|congruence|by apply IH]].
    unfold found, function_at. rewrite interval_at_here by lia.
    assert (Hrest : ∀ g, g ∈ T' → rf_is_valid g = true → off < rf_start g).
    { intros g Hg Hgv. pose proof (Ho g ltac:(by eapply read_entries_elem)). lia. }
    rewrite decide_False; [by apply linear_search_above|].
    intros [->|Hg]%elem_of_cons; [congruence|]. pose proof (Hrest f Hg Hv). lia.
Qed.

(** A binary search that met no hole is the search of the table itself. *)
Lemma narrow_uncorrupted off T T' fuel base size s b :
  Forall2 read_entry T T' →
  bs_narrow (cmp_function off) fuel T' base size s = (b, false) →
  s = false ∧ bs_narrow (λ x _, (rf_start x ?= off, tt)) fuel T base size tt = (b, tt).
Proof.
  intros HF. revert base size s. induction fuel as [|fuel IH]; intros base size s; cbn [bs_narrow].
  { by intros [= -> ->]. }
  destruct (_ <=? _)%nat; [by intros [= -> ->]|].
  destruct (T' !! _) as [x'|] eqn:Hx'.
  - destruct (Forall2_lookup_r _ _ _ _ _ HF Hx') as (x & Hx & Hread). rewrite Hx.
    unfold cmp_function at 1. destruct (rf_is_valid x') eqn:Hv.
    + destruct Hread as [->|]; [|congruence]. intros H. by apply IH in H.
    + intros H. by apply IH in H as [].
  - intros [= -> ->]. rewrite (proj2 (lookup_ge_None T _)); [done|].
    rewrite (Forall2_length _ _ _ HF). by apply lookup_ge_None.
Qed.

Lemma search_uncorrupted off T T' r :
  function_table T → Forall2 read_entry T T' →
  binary_search_st (cmp_function off) T' false = (r, false) →
  match r with
  | inl i => ∃ f, T' !! i = Some f ∧ T !! i = Some f ∧ rf_start f = off
  | inr i =>
      (∀ j f, (i <= j)%nat → T !! j = Some f → off < rf_start f) ∧
      ∀ k, i = S k → ∃ f, T' !! k = Some f ∧ T !! k = Some f ∧ rf_start f < off
  end.
Proof.
  intros HT HF. unfold binary_search_st. rewrite <- (Forall2_length _ _ _ HF).
  destruct (length T) as [|n] eqn:Hn.
  { apply nil_length_inv in Hn. subst. intros [= <-]. split; [intros ???; by rewrite lookup_nil|done]. }
  rewrite <- Hn. pose proof (bs_narrow_spec (λ x _, (rf_start x ?= off, tt)) (λ x, rf_start x ?= off) (λ x s, eq_refl)
    (length T) T 0 (length T) tt (key_sorted_bs _ _ off (disjoint_key_sorted _ _ T (ft_disjoint T HT)))) as Hspec.
  do 3 (forward Hspec; [lia|]).
  forward Hspec; [intros ? ? ? Hl%lookup_lt_Some; lia|].
  forward Hspec; [intros ? ? ? Hl; lia|].
  forward Hspec; [by left|].
  destruct (bs_narrow (cmp_function off) _ _ _ _ _) as [b s] eqn:Hb.
  destruct (T' !! b) as [f'|] eqn:Hf'.
  2:{ intros [= <- ->]. apply (narrow_uncorrupted _ _ _ _ _ _ _ _ HF) in Hb as [_ Hb]. rewrite Hb in Hspec.
      destruct Hspec as [Hlt _]. apply lookup_ge_None in Hf'. rewrite <- (Forall2_length _ _ _ HF) in Hf'.
      cbn in Hlt. lia. }
  destruct (Forall2_lookup_r _ _ _ _ _ HF Hf') as (f & Hf & Hread).
  unfold cmp_function at 1. destruct (rf_is_valid f') eqn:Hv; [|done].
  destruct Hread as [->|]; [|congruence]. intros [= <- ->].
  apply (narrow_uncorrupted _ _ _ _ _ _ _ _ HF) in Hb as [_ Hb]. rewrite Hb in Hspec. cbn [fst] in Hspec.
  destruct Hspec as (_ & Hgt & H0). destruct (Z.compare_spec (rf_start f) off) as [Heq|Hlt|Hg].
  - by exists f.
  - split; [|intros k [= <-]; by exists f]. intros j g Hj Hg. by apply Z.compare_gt_iff, (Hgt j).
  - destruct H0 as [->|(g & Hg' & Hc)]; [|simplify_eq; rewrite Z.compare_gt_iff in Hc; lia].
    split; [|done]. intros j g Hj Hg'. destruct j as [|j]; [by simplify_eq|].
    apply Z.compare_gt_iff, (Hgt (S j)); [lia|done].
Qed.

(** C22. The search for the function of an offset, in a table of functions whose
    entries could be read only in part, is sound and as complete as can be: it
    gives the function that holds the offset whenever its entry was read; when
    that entry is a hole the result is an error, never "no function" and never
    another function; and when no function holds the offset it does not give
    one.  A table without holes gives no error. *)
Theorem find_runtime_function_found T T' off :
  function_table T → Forall2 read_entry T T' →
  found T T' off (find_runtime_function T' off) ∧
  (T' = T → find_runtime_function T' off = Ok (function_at T off)).
Proof.
  intros HT HF. unfold find_runtime_function.
  pose proof (binary_search_st_state (cmp_function off) (λ c, c = true → T' ≠ T) T' false) as Hc.
  destruct (binary_search_st _ _ _) as [pos corrupted] eqn:Hs. cbn [snd] in Hc.
  forward Hc.
  { intros x c Hx Hn. unfold cmp_function. destruct (rf_is_valid x) eqn:Hv; [done|]. cbn. intros _ ->.
    destruct HT as [HV _]. rewrite Forall_forall in HV. rewrite (HV x Hx) in Hv. done. }
  forward Hc; [done|].
  destruct corrupted.
  { split; [by apply linear_search_found|]. intros ->. by destruct (Hc eq_refl). }
  clear Hc. apply (search_uncorrupted _ _ _ _ HT HF) in Hs.
  assert (Hok : ∀ i f r, T' !! i = Some f → function_at T off = r → (r = Some f ∨ r = None) → found T T' off (Ok r)).
  { intros i f r Hf' Hr Hc. unfold found. rewrite Hr. destruct Hc as [-> | ->]; [|by auto].
    by rewrite decide_True by by eapply list_elem_of_lookup_2. }
  destruct pos as [i|[|i]].
  - destruct Hs as (f & Hf' & Hf & Hoff). rewrite Hf'. cbn [unwrap res_bind].
    assert (function_at T off = Some f) as Hat by (eapply interval_exact; [apply HT|done|done]).
    split; [by eapply Hok; eauto|by rewrite Hat].
  - destruct Hs as [Hs _]. assert (function_at T off = None) as Hat.
    { apply interval_at_none. intros g [j Hj]%list_elem_of_lookup_1. pose proof (Hs j g ltac:(lia) Hj). lia. }
    split; [|by rewrite Hat]. unfold found. rewrite Hat. by auto.
  - destruct Hs as [Hs Hk]. destruct (Hk i eq_refl) as (f & Hf' & Hf & Hlt). rewrite Hf'. cbn [unwrap res_bind].
    assert (function_at T off = if rf_contains f off then Some f else None) as Hat.
    { apply (interval_before _ _ T off i); [apply HT|done|lia|]. intros j g Hj. apply Hs. lia. }
    split; [|by rewrite Hat]. apply (Hok i f); [done|done|]. destruct (rf_contains f off); by auto.
Qed.

(** ** A module *)

(** A table of two functions in which the second one is a part of the first. *)
Definition sample_first : RuntimeFunction := {| rf_start := 72; rf_end := 88; rf_ptr := 40 |}.
Definition sample_second : RuntimeFunction := {| rf_start := 88; rf_end := 104; rf_ptr := 48 |}.
Definition sample_hole : RuntimeFunction := {| rf_start := 0; rf_end := 0; rf_ptr := 0 |}.

(** [push rbp; sub rsp, 0x28], then [push rsi; sub rsp, 8] in the second part. *)
Definition sample_unwind_infos : bytes :=
  zb <$> [0x01; 5; 2; 0; 5; 0x42; 1; 0x50;
          0x21; 4; 2; 0; 4; 0x02; 2; 0x60] ++ (bz <$> bytes_of RuntimeFunction_pod sample_first).

(** The first part ends with [add rsp, 0x28; pop rbp; ret]. *)
Definition sample_code : bytes :=
  zb <$> replicate 10 0x90 ++ [0x48; 0x83; 0xc4; 0x28; 0x5d; 0xc3] ++ replicate 16 0x90.

Definition sample_unwind_data : UnwindData := {|
  ud_offset := 0x7ff000000000;
  ud_content := replicate 16 Byte.x00 ++ bytes_of RuntimeFunction_pod sample_first ++
                bytes_of RuntimeFunction_pod sample_second ++ sample_unwind_infos ++
                replicate 4 Byte.x00 ++ sample_code;
  ud_directory_range := (16, 40);
|}.

Lemma sample_table : function_table [sample_first; sample_second].
Proof. split; repeat constructor; cbn; lia. Qed.

Lemma find_runtime_function_found_witness :
  find_runtime_function [sample_hole; sample_second] 92 = Ok (Some sample_second) ∧
  find_runtime_function [sample_hole; sample_second] 80 = Err unmapped_error ∧
  found [sample_first; sample_second] [sample_hole; sample_second] 80
    (find_runtime_function [sample_hole; sample_second] 80).
Proof.
  split; [vm_compute; reflexivity|]. split; [vm_compute; reflexivity|].
  refine (proj1 (find_runtime_function_found [sample_first; sample_second] [sample_hole; sample_second] 80
    sample_table _)).
  apply Forall2_cons; split; [by right|]. apply Forall2_cons; split; [by left|]. constructor.
Defined.
