(* ===== verification/WinFrameSpec.v ===== *)
(** * The frame that called a function of Windows x86_64

    The execution of a prolog described by unwind codes, and of an epilog; the
    unwinding gives back the stack pointer at the entry of the function and
    where the base pointer was saved. *)

From S2P Require Import Prelude Rust Layout Addr Error Os WinUnwind WinUnwindSpec.

(** ** Execution of a prolog *)

(** The stack pointer, and where the base pointer of the caller was saved: the
    first time it is, as the function may change it afterwards. *)
Record PrologState := { ps_sp : Z; ps_saved : option Z }.

Definition first_saved (saved : option Z) (addr : Z) : option Z :=
  match saved with Some a => Some a | None => Some addr end.

(** The instruction that an operation describes. *)
Definition exec_op (st : PrologState) (op : UnwindOp) : PrologState :=
  match op with
  | Push r =>
      let sp := ps_sp st - 8 in
      {| ps_sp := sp; ps_saved := if r =? RBP then first_saved (ps_saved st) sp else ps_saved st |}
  | Alloc n => {| ps_sp := ps_sp st - n; ps_saved := ps_saved st |}
  | Save r o =>
      {| ps_sp := ps_sp st;
         ps_saved := if r =? RBP then first_saved (ps_saved st) (ps_sp st + o) else ps_saved st |}
  | _ => st
  end.

Definition exec (st : PrologState) (ops : list UnwindOp) : PrologState := foldl exec_op st ops.

(** The operations of a prolog, in order of execution, that are done when the
    instruction pointer is at [off]. *)
Definition is_executed (off : option Z) (c : Z * UnwindOp) : bool :=
  match off with Some off => c.1 <=? off | None => true end.

Definition executed (off : option Z) (prolog : list (Z * UnwindOp)) : list UnwindOp :=
  snd <$> List.filter (is_executed off) prolog.

Definition moves_sp (op : UnwindOp) : bool :=
  match op with Push _ | Alloc _ => true | _ => false end.

Definition is_save (op : UnwindOp) : bool :=
  match op with Save _ _ => true | _ => false end.

Definition is_mach_frame (op : UnwindOp) : bool :=
  match op with PushMachFrame _ => true | _ => false end.

(** Registers are saved in the frame once it has its size, which is what their
    offset is relative to. *)
Fixpoint saves_last (ops : list UnwindOp) : Prop :=
  match ops with
  | [] => True
  | op :: ops => (is_save op = true → Forall (λ op, moves_sp op = false) ops) ∧ saves_last ops
  end.

(** ** Undoing a prolog *)

(** One round of the loop over the codes: the offset of the stack pointer and
    of the saved base pointer. *)
Definition undo_op (st : Z * option Z) (op : UnwindOp) : Z * option Z :=
  match op with
  | Push r => (st.1 + 8, if r =? RBP then Some st.1 else st.2)
  | Alloc n => (st.1 + n, st.2)
  | Save r o => (st.1, if r =? RBP then Some o else st.2)
  | _ => st
  end.

Definition undo (ops : list UnwindOp) : Z * option Z := foldl undo_op (0, None) (rev ops).

Lemma exec_still ops st : Forall (λ op, moves_sp op = false) ops → ps_sp (exec st ops) = ps_sp st.
Proof.
  intros H. revert st. induction H as [|op ops Hop _ IH]; intros st; [done|]. cbn. fold (exec (exec_op st op) ops).
  rewrite IH. by destruct op.
Qed.

(** Undoing a prolog gives the size of what it put on the stack and the place,
    relative to the stack pointer after it, of the base pointer it saved. *)
Lemma undo_exec ops st :
  saves_last ops →
  let st' := exec st ops in
  (undo ops).1 = ps_sp st - ps_sp st' ∧
  ps_saved st' = match ps_saved st with
                 | Some a => Some a
                 | None => (λ o, ps_sp st' + o) <$> (undo ops).2
                 end.
Proof.
  revert st. induction ops as [|op ops IH]; intros st Hs.
  { cbn. split; [lia|]. by destruct (ps_saved st). }
  destruct Hs as [Hsave Hs]. cbn [exec foldl]. fold (exec (exec_op st op) ops).
  destruct (IH (exec_op st op) Hs) as [H1 H2]. unfold undo in *. cbn [rev]. rewrite foldl_app. cbn [foldl].
  set (u := foldl undo_op (0, None) (rev ops)) in *. destruct u as [o b]. cbn [fst snd] in *.
  assert (Hstill : is_save op = true → ps_sp (exec (exec_op st op) ops) = ps_sp (exec_op st op))
    by (intros Ho; apply exec_still, Hsave, Ho).
  rewrite H2. set (st' := exec (exec_op st op) ops) in *.
  destruct op; cbn in *; try (split; [lia|done]).
  - destruct (_ =? RBP); cbn in *; (split; [lia|]); [|done].
    destruct (ps_saved st); cbn; [done|]. f_equal. lia.
  - destruct (_ =? RBP); cbn in *; (split; [lia|]); [|done].
    rewrite Hstill by done. by destruct (ps_saved st).
Qed.

(** The codes of a function are those of its prolog, last instruction first. *)
Definition prolog_of (function : FunctionEntry) (prolog : list (Z * UnwindOp)) : Prop :=
  codes_bytes (fe_version function) (rev prolog) (fe_unwind_codes function).

(** What the encoding says of the operands. *)
Definition op_sized (op : UnwindOp) : Prop :=
  match op with Alloc n => 0 <= n < 2 ^ 32 | Save _ o => 0 <= o < 2 ^ 32 | _ => True end.

Lemma op_bytes_sized version op bs : op_bytes version op bs → op_sized op.
Proof. destruct 1; cbn; lia. Qed.

Lemma codes_bytes_sized version l bs : codes_bytes version l bs → Forall op_sized (snd <$> l).
Proof.
  intros (bss & HF & _). induction HF as [|c cs l bss (ops & ? & Hops & _) _ IH]; constructor; [|done].
  by eapply op_bytes_sized.
Qed.

Lemma filter_sized (P : UnwindOp → Prop) f (l : list (Z * UnwindOp)) :
  Forall P (snd <$> l) → Forall P (snd <$> List.filter f l).
Proof.
  induction l as [|c l IH]; [done|]. cbn. intros [Hc Hl]%Forall_cons. destruct (f c); [|by apply IH].
  constructor; [done|by apply IH].
Qed.

Lemma undo_mono st ops : Forall op_sized ops → st.1 <= (foldl undo_op st ops).1.
Proof.
  intros H. revert st. induction H as [|op ops Hop _ IH]; intros st; [done|]. cbn.
  pose proof (IH (undo_op st op)). destruct op; cbn in *; lia.
Qed.

Section frames.
Context {bm : Build}.

Lemma codes_loop_undo fuel mother version off l bs o b :
  codes_bytes version l bs → (length l < fuel)%nat → Forall (λ c, is_mach_frame c.2 = false) l →
  0 <= o →
  let u := foldl undo_op (o, b) (snd <$> List.filter (is_executed off) l) in
  u.1 < 2 ^ 32 →
  codes_loop fuel mother version off bs o b = Ok (u.2, SpOffset u.1).
Proof.
  intros Henc. pose proof (codes_bytes_sized _ _ _ Henc) as Hsz. destruct Henc as (bss & HF & ->).
  revert fuel o b Hsz. induction HF as [|c cs l bss Hc HF IH]; intros fuel o b Hsz Hfuel Hm Ho u Hu.
  { destruct fuel as [|fuel]; [cbn in Hfuel; lia|]. done. }
  destruct fuel as [|fuel]; [cbn in Hfuel; lia|]. cbn in Hfuel. cbn [codes_loop concat].
  apply Forall_cons in Hsz as [Hop Hsz]. apply Forall_cons in Hm as [Hmc Hm].
  rewrite (proj2 (unwind_next_spec version (cs ++ concat bss) c (concat bss))) by eauto.
  destruct c as [op_offset op]. cbn [option_context from_option res_bind snd fst] in *.
  cbn [List.filter] in u.
  assert (Hlet : option_context (Some (op_offset, op)) "invalid unwind code" = Ok (op_offset, op)) by done.
  rewrite Hlet. cbn [res_bind].
  assert (Hsk : match off with Some off => off <? op_offset | None => false end =
                negb (is_executed off (op_offset, op))) by (unfold is_executed; destruct off; cbn; [lia|done]).
  rewrite Hsk. destruct (is_executed off (op_offset, op)); cbn [negb].
  2:{ apply IH; (done || lia). }
  cbn [fmap list_fmap foldl snd] in u.
  pose proof (undo_mono (undo_op (o, b) op) _ (filter_sized _ (is_executed off) _ Hsz)) as Hle. fold u in Hle.
  destruct op; cbn [undo_op fst snd] in Hle, u; cbn in Hop; try done; try (apply IH; (done || lia)).
  - rewrite add_u32_ok by lia. cbn [res_bind]. apply IH; (done || lia).
  - rewrite add_u32_ok by lia. cbn [res_bind]. apply IH; (done || lia).
Qed.
Lemma codes_bytes_length version l bs : codes_bytes version l bs → (length l <= length bs)%nat.
Proof.
  intros (bss & HF & ->). induction HF as [|c cs l bss (ops & ? & Hops & ->) _ IH]; [done|].
  cbn. rewrite length_app. lia.
Qed.

(** Undoing the codes of a function undoes what its prolog did. *)
Lemma read_unwind_codes_undo function prolog off st :
  prolog_of function prolog → Forall (λ c, is_mach_frame c.2 = false) prolog →
  saves_last (executed off prolog) →
  let st' := exec st (executed off prolog) in
  ps_sp st - ps_sp st' < 2 ^ 32 →
  ∃ bp, read_unwind_codes function off = Ok (bp, SpOffset (ps_sp st - ps_sp st')) ∧
    0 <= ps_sp st - ps_sp st' ∧
    match bp with Some o => 0 <= o < 2 ^ 32 | None => True end ∧
    ps_saved st' = match ps_saved st with Some a => Some a | None => (λ o, ps_sp st' + o) <$> bp end.
Proof.
  intros Henc Hm Hlast st' Hlt. destruct (undo_exec _ st Hlast) as [H1 H2]. fold st' in H1, H2.
  assert (Hrev : snd <$> List.filter (is_executed off) (rev prolog) = rev (executed off prolog)).
  { unfold executed. rewrite List.filter_rev. apply List.map_rev. }
  pose proof (filter_sized _ (is_executed off) _ (codes_bytes_sized _ _ _ Henc)) as Hsz. rewrite Hrev in Hsz.
  pose proof (undo_mono (0, None) _ Hsz) as Hmono. fold (undo (executed off prolog)) in Hmono.
  exists (undo (executed off prolog)).2. split_and!; [|cbn in Hmono; lia| |done].
  - unfold read_unwind_codes.
    rewrite (codes_loop_undo _ _ _ off (rev prolog)); [| | |by apply Forall_rev|done|].
    + rewrite Hrev. fold (undo (executed off prolog)). by rewrite H1.
    + done.
    + pose proof (codes_bytes_length _ _ _ Henc). lia.
    + rewrite Hrev. fold (undo (executed off prolog)). lia.
  - assert (Hb : ∀ st ops, Forall op_sized ops →
      match st.2 with Some o => 0 <= o <= st.1 ∨ 0 <= o < 2 ^ 32 | None => True end → 0 <= st.1 →
      match (foldl undo_op st ops).2 with
      | Some o => 0 <= o <= (foldl undo_op st ops).1 ∨ 0 <= o < 2 ^ 32
      | None => True
      end).
    { intros u ops Hops. revert u. induction Hops as [|op ops Hop _ IH]; intros u Hu H0; [done|]. cbn [foldl].
      apply IH; destruct op; cbn in *; repeat case_match; simplify_eq; (done || lia). }
    pose proof (Hb (0, None) _ Hsz I (Z.le_refl 0)) as Hb'. fold (undo (executed off prolog)) in Hb'.
    destruct (undo (executed off prolog)).2 as [o|]; [lia|done].
Qed.

(** ** Functions made of several parts *)

(** The prologs of a function and of the parts it is chained to, with the
    address of the first part, which is the last of the chain. *)
Inductive prologs (unwind_data : UnwindData)
  : RuntimeFunction → list (list (Z * UnwindOp)) → RuntimeFunction → Prop :=
| PrologsLast rf function p :
    parse_function unwind_data rf = Some function → prolog_of function p →
    fe_mother function = None → prologs unwind_data rf [p] rf
| PrologsChained rf function p mother ps start :
    parse_function unwind_data rf = Some function → prolog_of function p →
    fe_mother function = Some mother → prologs unwind_data mother ps start →
    prologs unwind_data rf (p :: ps) start.

(** The prologs of the parts were executed, the first part first; the last one
    only up to an offset. *)
Fixpoint exec_prologs (st : PrologState) (off : option Z) (ps : list (list (Z * UnwindOp))) : PrologState :=
  match ps with
  | [] => st
  | p :: ps => exec (exec_prologs st None ps) (executed off p)
  end.

Definition frame_limit : Z := 2 ^ 64 - 2 ^ 32.

(** Every part is of the shape that compilers emit, and its frame has less than
    4 GB. *)
Fixpoint regular (st : PrologState) (off : option Z) (ps : list (list (Z * UnwindOp))) : Prop :=
  match ps with
  | [] => ps_sp st <= frame_limit
  | p :: ps =>
      let st1 := exec_prologs st None ps in
      Forall (λ c, is_mach_frame c.2 = false) p ∧ saves_last (executed off p) ∧
      ps_sp st1 - ps_sp (exec st1 (executed off p)) < 2 ^ 32 ∧ regular st None ps
  end.

Lemma parse_function_mother unwind_data rf function mother :
  parse_function unwind_data rf = Some function → fe_mother function = Some mother →
  0 <= rf_start mother < 2 ^ 32.
Proof.
  unfold parse_function. destruct (slice_get_from _ _) as [bs|]; [|done]. cbn [mbind option_bind].
  intros H Hm. destruct (read_function bs) as [o rest] eqn:Hr. cbn [fst] in H. subst o. unfold read_function in Hr.
  apply rd_bind_some in Hr as (flags & bs1 & _ & Hr). cbn zeta in Hr.
  destruct (negb _); [done|].
  do 4 (apply rd_bind_some in Hr as (? & ? & _ & Hr); cbn zeta in Hr).
  apply rd_bind_some in Hr as (m & bs2 & Hmother & Hr). injection Hr as <- _. cbn in Hm. subst m.
  destruct (negb _); [|done].
  apply rd_bind_some in Hmother as (mbs & bs3 & Hslice & Hmother). injection Hmother as <- _.
  assert (Hl : length mbs = size_of RuntimeFunction_pod).
  { unfold read_slice in Hslice. destruct (Nat.leb_spec (size_of RuntimeFunction_pod) (length x6)); [|done].
    injection Hslice as <- _. by rewrite length_take, Nat.min_l. }
  pose proof (pod_read_wf (P:=RuntimeFunction_pod) mbs Hl) as Hwf. destruct Hwf as [[Hlo Hhi] _].
  split; [exact Hlo|exact Hhi].
Qed.

Lemma exec_prologs_below unwind_data rf ps start st off :
  prologs unwind_data rf ps start → regular st off ps → ps_sp (exec_prologs st off ps) <= frame_limit.
Proof.
  intros Hps. revert off. induction Hps as [rf f p Hparse Hp Hm|rf f p m ps start Hparse Hp Hm Hps IH];
    intros off; cbn [regular exec_prologs]; intros (Hmf & Hlast & Hlt & Hreg);
    destruct (read_unwind_codes_undo f p off _ Hp Hmf Hlast Hlt) as (b & _ & Hge & _ & _).
  - lia.
  - pose proof (IH None Hreg). lia.
Qed.

(** One round of the chain. *)
Lemma unwind_chain_step unwind_data function p off fuel st1 bp start :
  prolog_of function p → Forall (λ c, is_mach_frame c.2 = false) p → saves_last (executed off p) →
  let st' := exec st1 (executed off p) in
  ps_sp st1 - ps_sp st' < 2 ^ 32 → 0 <= ps_sp st' → ps_sp st1 <= frame_limit →
  ∃ bp', unwind_chain (S fuel) unwind_data function off (ps_sp st') bp start =
    match fe_mother function with
    | Some mother =>
        let? function := option_context (parse_function unwind_data mother) "failed to parse unwind data" in
        let? start := va_add_u32 (ud_offset unwind_data) (rf_start mother) in
        unwind_chain fuel unwind_data function None (ps_sp st1) bp' (Some start)
    | None =>
        Ok {| next_ip_addr := ps_sp st1; next_sp := SpValue (ps_sp st1 + 8); next_bp_addr := bp';
              fun_start := start |}
    end ∧
    0 <= ps_sp st1 ∧
    match ps_saved st' with Some a => Some a | None => bp end =
    match ps_saved st1 with Some a => Some a | None => bp' end.
Proof.
  intros Hp Hmf Hlast st' Hlt H0 Hlim. unfold frame_limit in Hlim.
  destruct (read_unwind_codes_undo function p off _ Hp Hmf Hlast Hlt) as (b & Hcodes & Hge & Hb & Hsaved).
  fold st' in Hcodes, Hge, Hsaved. exists (match b with Some o => Some (ps_sp st' + o) | None => bp end).
  cbn [unwind_chain]. rewrite Hcodes. cbn [res_bind]. split_and!.
  - replace (match b with Some o => _ | None => _ end)
      with (Ok (E:=VmError) (match b with Some o => Some (ps_sp st' + o) | None => bp end)).
    2:{ destruct b as [o|]; [|done]. unfold va_add_u32. by rewrite add_u64_ok by lia. }
    cbn [res_bind]. unfold va_add_u64. rewrite add_u64_ok by lia. cbn [res_bind].
    replace (ps_sp st' + (ps_sp st1 - ps_sp st')) with (ps_sp st1) by lia.
    destruct (fe_mother function); [done|]. rewrite add_u64_ok by lia. done.
  - lia.
  - rewrite Hsaved. destruct (ps_saved st1), b; done.
Qed.

Lemma unwind_chain_undo unwind_data rf function ps start off sp0 bp fuel :
  prologs unwind_data rf ps start → parse_function unwind_data rf = Some function →
  (length ps <= fuel)%nat →
  let st := {| ps_sp := sp0; ps_saved := None |} in
  let st' := exec_prologs st off ps in
  regular st off ps → 0 <= ps_sp st' →
  0 <= ud_offset unwind_data → ud_offset unwind_data + 2 ^ 32 <= 2 ^ 64 →
  unwind_chain fuel unwind_data function off (ps_sp st') bp (Some (ud_offset unwind_data + rf_start rf)) =
    Ok {| next_sp := SpValue (sp0 + 8); next_ip_addr := sp0;
          next_bp_addr := match ps_saved st' with Some a => Some a | None => bp end;
          fun_start := Some (ud_offset unwind_data + rf_start start) |}.
Proof.
  intros Hps. revert function off bp fuel. induction Hps as [rf f p Hparse Hp Hm|rf f p m ps start Hparse Hp Hm Hps IH];
    intros function off bp fuel Hf Hfuel st st' Hreg H0 Hud Hud'; rewrite Hparse in Hf; injection Hf as <-;
    (destruct fuel as [|fuel]; [cbn in Hfuel; lia|]);
    cbn [regular exec_prologs] in Hreg; destruct Hreg as (Hmf & Hlast & Hlt & Hreg).
  - destruct (unwind_chain_step unwind_data f p off fuel st bp (Some (ud_offset unwind_data + rf_start rf)))
      as (bp' & Hstep & _ & Hbp); [done..|]. cbn [exec_prologs] in st'. fold st' in Hbp, Hstep.
    rewrite Hstep, Hm, Hbp. done.
  - destruct (unwind_chain_step unwind_data f p off fuel (exec_prologs st None ps) bp
      (Some (ud_offset unwind_data + rf_start rf))) as (bp' & Hstep & Hpos & Hbp);
      [done..|by eapply exec_prologs_below|].
    cbn [exec_prologs] in st'. fold st' in Hbp, Hstep. rewrite Hstep, Hm, Hbp. clear Hstep.
    pose proof (parse_function_mother _ _ _ _ Hparse Hm).
    assert (∃ f', parse_function unwind_data m = Some f') as [f' Hf'] by (inversion Hps; eauto).
    rewrite Hf'. cbn [option_context res_bind].
    unfold va_add_u32. rewrite add_u64_ok by lia. cbn [res_bind]. cbn in Hfuel.
    apply IH; (done || lia).
Qed.

(** ** The format of the unwind information *)

(** The information on a function: its version and flags, the size of its prolog,
    the number of its codes, the frame register (none when it is 0) with its
    distance in units of 16 bytes, the codes, last instruction first, and for a
    part of a function, after padding to an even number of codes, the part
    that comes before it. *)
Definition unwind_info (bs : bytes) (count : nat) (prolog : list (Z * UnwindOp)) (fp : option (Z * Z))
    (mother : option RuntimeFunction) : Prop :=
  ∃ version flags size reg dist codes rest,
    (version = 1 ∨ version = 2) ∧ 0 <= flags < 32 ∧ 0 <= reg < 16 ∧ 0 <= dist < 16 ∧
    (count < 256)%nat ∧ length codes = (2 * count)%nat ∧ codes_bytes version (rev prolog) codes ∧
    bs = zb (version + 8 * flags) :: size :: zb (Z.of_nat count) :: zb (reg + 16 * dist) :: codes ++ rest ∧
    fp = (if reg =? 0 then None else Some (reg, 16 * dist)) ∧
    match mother with
    | None => Z.testbit flags 2 = false
    | Some m => Z.testbit flags 2 = true ∧ pod_wf RuntimeFunction_pod m ∧
        ∃ padding rest', rest = padding ++ bytes_of RuntimeFunction_pod m ++ rest' ∧
          length padding = (2 * (count mod 2))%nat
    end.

(** The bytes that [rf] points to. *)
Definition info_at (unwind_data : UnwindData) (rf : RuntimeFunction) (bs : bytes) : Prop :=
  slice_get_from (ud_content unwind_data) (rf_ptr rf) = Some bs.

(** The prologs of a function and of the parts before it, with the frame register
    of the function and the first part.  A part that has one before it has an
    even number of codes: the code does not skip the padding after an odd one
    ([odd_chained_misread]). *)
Inductive function_parts (unwind_data : UnwindData)
  : RuntimeFunction → option (Z * Z) → list (list (Z * UnwindOp)) → RuntimeFunction → Prop :=
| FirstPart rf bs count p fp :
    info_at unwind_data rf bs → unwind_info bs count p fp None → function_parts unwind_data rf fp [p] rf
| NextPart rf bs count p fp mother fp' ps start :
    info_at unwind_data rf bs → unwind_info bs count p fp (Some mother) → (count mod 2 = 0)%nat →
    function_parts unwind_data mother fp' ps start → function_parts unwind_data rf fp (p :: ps) start.

Lemma land_mod x y n : 0 <= n → 0 <= y < 2 ^ n → Z.land (y + 2 ^ n * x) (Z.ones n) = y.
Proof. intros Hn Hy. rewrite Z.land_ones by done. rewrite Z.mul_comm, Z.mod_add by lia. by apply Z.mod_small. Qed.

Lemma land_f0 reg dist : 0 <= reg < 16 → 0 <= dist < 16 → Z.land (reg + 16 * dist) 0xf0 = 16 * dist.
Proof.
  intros Hr Hd. pose proof (land_mask_range (reg + 16 * dist) 4 8 ltac:(lia)) as H.
  change (Z.land (reg + 16 * dist) 0xf0 = bits_in_place (reg + 16 * dist) 4 8) in H. rewrite H.
  unfold bits_in_place. rewrite (Z.mod_small (reg + 16 * dist)) by lia.
  replace ((reg + 16 * dist) / 2 ^ 4) with dist; [lia|]. change (2 ^ 4) with 16.
  rewrite (Z.mul_comm 16), Z.div_add by lia. rewrite Z.div_small by lia. lia.
Qed.

Lemma land_chained version flags :
  0 <= version < 8 → 0 <= flags →
  (Z.land (version + 8 * flags) 0x20 =? 0) = negb (Z.testbit flags 2).
Proof.
  intros Hv Hf. assert (Z.testbit (version + 8 * flags) 5 = Z.testbit flags 2) as <-.
  { change 5 with (2 + 3). rewrite <- Z.div_pow2_bits by lia. change (2 ^ 3) with 8.
    rewrite (Z.mul_comm 8), Z.div_add by lia. by rewrite Z.div_small by lia. }
  destruct (Z.testbit (version + 8 * flags) 5) eqn:Hb; cbn [negb].
  - apply Z.eqb_neq. intros Hz. apply (f_equal (λ z, Z.testbit z 5)) in Hz.
    rewrite Z.land_spec, Hb, Z.bits_0 in Hz. done.
  - apply Z.eqb_eq. apply Z.bits_inj'. intros i Hi. rewrite Z.land_spec, Z.bits_0.
    change 0x20 with (2 ^ 5). rewrite Z.pow2_bits_eqb by lia.
    destruct (Z.eqb_spec 5 i) as [<-|]; [by rewrite Hb|apply andb_false_r].
Qed.

Lemma read_slice_app bs rest : read_slice (length bs) (bs ++ rest) = (Some bs, rest).
Proof.
  unfold read_slice. rewrite length_app. replace (_ <=? _)%nat with true by lia.
  by rewrite take_app_length, drop_app_length.
Qed.

(** The parser reads the format, when no padding is to be skipped. *)
Lemma read_function_info bs count p fp mother :
  unwind_info bs count p fp mother → mother = None ∨ (count mod 2 = 0)%nat →
  ∃ function rest, read_function bs = (Some function, rest) ∧
    fe_mother function = mother ∧ fe_frame_register_offset function = snd <$> fp ∧ prolog_of function p.
Proof.
  intros (version & flags & size & reg & dist & codes & rest & Hv & Hf & Hr & Hd & Hc & Hlen & Hcodes & -> & -> & Hm) Heven.
  assert (Hversion : Z.land (version + 8 * flags) 0x7 = version) by (apply (land_mod flags version 3); lia).
  assert (Hreg : Z.land (reg + 16 * dist) 0x0f = reg) by (apply (land_mod dist reg 4); lia).
  unfold read_function. unfold rd_bind at 1. cbn [read_u8]. rewrite (bz_zb (version + 8 * flags)), Z.mod_small by lia.
  rewrite Hversion. replace (_ && _) with true by lia. cbn [negb].
  do 3 (unfold rd_bind at 1; cbn [read_u8]). rewrite (bz_zb (Z.of_nat count)), (bz_zb (reg + 16 * dist)), !Z.mod_small by lia.
  rewrite Hreg, land_f0, land_chained, Nat2Z.id, <- Hlen by lia.
  unfold rd_bind at 1. rewrite read_slice_app. destruct mother as [m|].
  - destruct Hm as (Hb & Hwf & padding & rest' & -> & Hpad). destruct Heven as [|Heven]; [done|].
    rewrite Heven in Hpad. destruct padding; [|done]. rewrite Hb. cbn [negb app].
    unfold rd_bind at 1 2. rewrite <- (pod_length (P:=RuntimeFunction_pod) m), read_slice_app.
    unfold rd_ret. rewrite pod_read_bytes_of by done. do 2 eexists. split; [reflexivity|]. cbn.
    split_and!; [done|by destruct (reg =? 0)|done].
  - rewrite Hm. cbn [negb]. unfold rd_bind, rd_ret. do 2 eexists. split; [reflexivity|]. cbn.
    split_and!; [done|by destruct (reg =? 0)|done].
Qed.

Lemma parse_function_info unwind_data rf bs count p fp mother :
  info_at unwind_data rf bs → unwind_info bs count p fp mother → mother = None ∨ (count mod 2 = 0)%nat →
  ∃ function, parse_function unwind_data rf = Some function ∧
    fe_mother function = mother ∧ fe_frame_register_offset function = snd <$> fp ∧ prolog_of function p.
Proof.
  intros Hat Hinfo Heven. destruct (read_function_info _ _ _ _ _ Hinfo Heven) as (function & rest & Hr & Hf).
  exists function. split; [|exact Hf]. unfold parse_function. rewrite Hat. cbn. by rewrite Hr.
Qed.

(** The code follows the parts. *)
Lemma function_parts_prologs unwind_data rf fp ps start :
  function_parts unwind_data rf fp ps start →
  prologs unwind_data rf ps start ∧
  ∃ function, parse_function unwind_data rf = Some function ∧ fe_frame_register_offset function = snd <$> fp.
Proof.
  intros H. induction H as [rf bs count p fp Hat Hinfo|rf bs count p fp mother fp' ps start Hat Hinfo Heven _ [IH _]].
  - destruct (parse_function_info _ _ _ _ _ _ _ Hat Hinfo) as (function & Hp & Hm & Hfr & Hpr); [by left|].
    split; [by eapply PrologsLast|by exists function].
  - destruct (parse_function_info _ _ _ _ _ _ _ Hat Hinfo) as (function & Hp & Hm & Hfr & Hpr); [by right|].
    split; [by eapply PrologsChained|by exists function].
Qed.

(** ** The registers in a frame *)

(** The operations of all the parts, in order of execution. *)
Fixpoint all_executed (off : option Z) (ps : list (list (Z * UnwindOp))) : list UnwindOp :=
  match ps with
  | [] => []
  | p :: ps => all_executed None ps ++ executed off p
  end.

Lemma exec_prologs_all st off ps : exec_prologs st off ps = exec st (all_executed off ps).
Proof.
  revert off. induction ps as [|p ps IH]; intros off; [done|]. cbn [exec_prologs all_executed].
  rewrite IH. unfold exec. by rewrite foldl_app.
Qed.

(** What the instruction that sets the frame register puts in it. *)
Fixpoint frame_pointer (dist : Z) (st : PrologState) (ops : list UnwindOp) : option Z :=
  match ops with
  | [] => None
  | op :: ops =>
      match frame_pointer dist (exec_op st op) ops with
      | Some fp => Some fp
      | None => match op with SetFpReg => Some (ps_sp st + dist) | _ => None end
      end
  end.

(** Registers are saved, but nothing more is put on the stack by the prolog, once
    the frame register is set. *)
Fixpoint fixed_once_set (ops : list UnwindOp) : Prop :=
  match ops with
  | [] => True
  | op :: ops => (op = SetFpReg → Forall (λ op, moves_sp op = false) ops) ∧ fixed_once_set ops
  end.

Lemma frame_pointer_value dist st ops fp :
  fixed_once_set ops → frame_pointer dist st ops = Some fp → fp = ps_sp (exec st ops) + dist.
Proof.
  revert st. induction ops as [|op ops IH]; intros st Hfix; [done|]. destruct Hfix as [Hop Hops].
  cbn [frame_pointer]. cbn [exec foldl]. fold (exec (exec_op st op) ops).
  destruct (frame_pointer dist (exec_op st op) ops) as [fp'|] eqn:Hfp.
  - intros [= <-]. by apply IH.
  - destruct op; try done. intros [= <-]. by rewrite exec_still by by apply Hop.
Qed.

(** The registers of a frame, after some operations of a function: the stack
    pointer is the one the operations leave as long as no frame pointer is set;
    once it is, the base pointer is what was set, and the stack pointer may have
    been moved.

    What is left out is where the code does not find the frame: a frame register
    that is not [rbp]; the part of the prolog after the first instruction and
    before the frame pointer is set ([frame_pointer_not_set]); the first
    instruction of a later part, unless the stack pointer is the one the
    operations leave. *)
Definition frame_registers (fp : option (Z * Z)) (off : Z) (st : PrologState) (ops : list UnwindOp)
    (frame : StackFrame) (base_pointer : option Z) : Prop :=
  let at_sp := frame_stack_pointer frame = ps_sp (exec st ops) in
  match fp with
  | None => at_sp
  | Some (reg, dist) =>
      reg = RBP ∧ fixed_once_set ops ∧
      match frame_pointer dist st ops with
      | None => at_sp ∧ off = 0
      | Some fp => base_pointer = Some fp ∧ (off = 0 → at_sp)
      end
  end.

(** The code starts from the stack pointer of the prolog. *)
Lemma frame_pointer_found function fp off st ops frame base_pointer :
  fe_frame_register_offset function = snd <$> fp →
  frame_registers fp off st ops frame base_pointer →
  0 <= ps_sp (exec st ops) → ps_sp (exec st ops) < 2 ^ 64 →
  match fe_frame_register_offset function with
  | None => Ok (frame_stack_pointer frame)
  | Some o =>
      if off =? 0 then Ok (frame_stack_pointer frame)
      else let? bp := option_context base_pointer "missing required frame pointer" in va_sub_u64 bp o
  end = Ok (E:=VmError) (ps_sp (exec st ops)).
Proof.
  intros -> Hregs H0 Hlt. unfold frame_registers in Hregs. destruct fp as [[reg dist]|]; cbn [fmap option_fmap option_map snd].
  2: by rewrite Hregs.
  destruct Hregs as (_ & Hfixed & Hregs).
  destruct (frame_pointer dist st ops) as [fp|] eqn:Hfp.
  - destruct Hregs as [-> Hsp]. destruct (Z.eqb_spec off 0) as [H|]; [by rewrite Hsp|].
    rewrite (frame_pointer_value _ _ _ _ Hfixed Hfp).
    change (option_context (Some ?v) _) with (Ok (E:=VmError) v). cbn [res_bind].
    unfold va_sub_u64. rewrite sub_u64_ok by lia. f_equal. lia.
  - destruct Hregs as [Hsp ->]. by rewrite Hsp.
Qed.

(** C21. Unwinding undoes the prolog, anywhere in a function but in the epilogs
    and, when it uses a frame pointer, in the part of the prolog where this is
    not set yet, and through the parts that the function is made of: if the
    instructions of the prolog up to there were executed from a stack pointer
    [sp0], the return address is found at [sp0], the stack pointer of the caller
    is [sp0 + 8], the base pointer of the caller is found where the prolog saved
    it first (it is unchanged if it was not saved), and the function starts where
    the first part starts.  The unwind information is in the format of Windows
    ([function_parts]): version 1 or 2, without machine frames, with [rbp] as the
    frame register if any, and an even number of codes in the parts after the
    first; the code finds another frame, or another part, when the last two do
    not hold. *)
Theorem unwind_undoes_prolog fuel unwind_data frame base_pointer rf fp ps start off sp0 :
  read_epilog fuel unwind_data frame = Ok None →
  find_by_offset unwind_data (offset_in_module unwind_data frame) = Ok (Some rf) →
  offset_in_module unwind_data frame = rf_start rf + off → 0 <= off < 2 ^ 32 → 0 <= rf_start rf < 2 ^ 32 →
  function_parts unwind_data rf fp ps start → (length ps <= fuel)%nat →
  let st := {| ps_sp := sp0; ps_saved := None |} in
  let st' := exec_prologs st (Some off) ps in
  regular st (Some off) ps → 0 <= ps_sp st' →
  0 <= ud_offset unwind_data → ud_offset unwind_data + 2 ^ 32 <= 2 ^ 64 →
  frame_registers fp off st (all_executed (Some off) ps) frame base_pointer →
  unwind_in_module fuel unwind_data frame base_pointer =
    Ok {| next_sp := SpValue (sp0 + 8); next_ip_addr := sp0; next_bp_addr := ps_saved st';
          fun_start := Some (ud_offset unwind_data + rf_start start) |}.
Proof.
  intros Hep Hfind Hoff Hrange Hrf Hparts Hfuel st st' Hreg H0 Hud Hud' Hregs.
  destruct (function_parts_prologs _ _ _ _ _ Hparts) as (Hps & function & Hparse & Hframe).
  pose proof (exec_prologs_below _ _ _ _ _ _ Hps Hreg) as Hlim. unfold frame_limit in Hlim. fold st' in Hlim.
  unfold unwind_in_module. rewrite Hep. cbn [from_never map_err res_bind]. rewrite Hfind. cbn [res_bind].
  unfold unwind_with_infos. rewrite Hoff, sub_u32_ok by lia. cbn [res_bind].
  replace (rf_start rf + off - rf_start rf) with off by lia.
  rewrite Hparse. change (option_context (Some function) _) with (Ok (E:=VmError) function). cbn [res_bind].
  unfold va_add_u32. rewrite add_u64_ok by lia. cbn [res_bind].
  rewrite (frame_pointer_found function fp off st (all_executed (Some off) ps)); rewrite <- ?exec_prologs_all; fold st';
    [|done|exact Hregs|exact H0|lia].
  cbn [res_bind].
  pose proof (unwind_chain_undo unwind_data rf function ps start (Some off) sp0 None fuel) as H.
  cbn zeta in H. fold st in H. fold st' in H. rewrite H by done. by destruct (ps_saved st').
Qed.

(** ** Execution of an epilog *)

Inductive EpilogInstr := EPop (r : Z) | EAdd (n : Z) | EPopf.

(** The encodings; [pop rsp] is not an instruction of an epilog. *)
Inductive epilog_bytes : EpilogInstr → bytes → Prop :=
| EpPop r : 0 <= r < 8 → r ≠ 4 → epilog_bytes (EPop r) [zb (0x58 + r)]
| EpPopExt r : 8 <= r < 16 → epilog_bytes (EPop r) [zb 0x41; zb (0x50 + r)]
| EpAdd8 n : 0 <= n < 2 ^ 7 → epilog_bytes (EAdd n) [zb 0x48; zb 0x83; zb 0xc4; zb n]
| EpAdd32 n : 0 <= n < 2 ^ 31 → epilog_bytes (EAdd n) (zb 0x48 :: zb 0x81 :: zb 0xc4 :: le_bytes 4 n)
| EpPopf : epilog_bytes EPopf [zb 0x9d].

(** The stack pointer and where the base pointer is taken from. *)
Definition exec_epilog_instr (st : Z * option Z) (i : EpilogInstr) : Z * option Z :=
  match i with
  | EPop r => (st.1 + 8, if r =? RBP then Some st.1 else st.2)
  | EAdd n => (st.1 + n, st.2)
  | EPopf => (st.1 + 8, st.2)
  end.

Definition exec_epilog (st : Z * option Z) (l : list EpilogInstr) : Z * option Z := foldl exec_epilog_instr st l.

Lemma exec_epilog_mono l bss st : Forall2 epilog_bytes l bss → st.1 <= (exec_epilog st l).1.
Proof.
  intros HF. revert st. induction HF as [|i bs l bss Hi _ IH]; intros st; [done|].
  cbn. pose proof (IH (exec_epilog_instr st i)). destruct Hi; cbn in *; unfold exec_epilog in *; lia.
Qed.

Lemma epilog_loop_instr fuel i bs rest sp bp :
  epilog_bytes i bs → 0 <= sp → (exec_epilog_instr (sp, bp) i).1 < 2 ^ 64 →
  epilog_loop (S fuel) (bs ++ rest) sp bp =
    epilog_loop fuel rest (exec_epilog_instr (sp, bp) i).1 (exec_epilog_instr (sp, bp) i).2.
Proof.
  intros Hi Hsp Hlt. destruct Hi as [r Hr Hr4|r Hr|n Hn|n Hn|]; cbn [exec_epilog_instr fst snd] in *;
    cbn [epilog_loop app read_u8].
  - rewrite bz_zb, Z.mod_small by lia. unfold va_add_u64. rewrite add_u64_ok by lia. cbn [res_bind].
    unfold RBP. destruct (Z.eqb_spec r 5) as [->|]; [done|].
    replace (_ =? 0x41) with false by lia. replace (_ =? 0x48) with false by lia.
    replace (_ =? 0x5c) with false by lia. replace (_ =? 0x5d) with false by lia.
    by replace (_ || _) with true by lia.
  - rewrite !bz_zb. rewrite (Z.mod_small (80 + r)) by lia. change (65 mod 256 =? 65) with true. cbn match.
    replace (_ && _) with true by lia. unfold va_add_u64, RBP. rewrite add_u64_ok by lia. cbn [res_bind].
    by replace (r =? 5) with false by lia.
  - unfold rd_bind, rd_ret. cbn [read_u8]. rewrite !bz_zb.
    change (72 mod 256) with 72. change (131 mod 256) with 131. change (196 mod 256) with 196. cbn.
    by rewrite bz_zb, Z.mod_small, add_u64_ok by lia.
  - unfold rd_bind, rd_ret. cbn [read_u8]. rewrite !bz_zb.
    change (72 mod 256) with 72. change (129 mod 256) with 129. change (196 mod 256) with 196. cbn -[rd_u32 le_bytes].
    rewrite (proj2 (rd_u32_spec _ n rest)) by (split; [lia|done]). unfold va_add_u64. by rewrite add_u64_ok by lia.
  - rewrite bz_zb. change (157 mod 256) with 157. cbn. by rewrite add_u64_ok by lia.
Qed.

Lemma epilog_loop_exec fuel l bss rest sp bp :
  Forall2 epilog_bytes l bss → (length l < fuel)%nat → 0 <= sp → (exec_epilog (sp, bp) l).1 < 2 ^ 64 →
  epilog_loop fuel (concat bss ++ zb 0xc3 :: rest) sp bp = Ok (Some (exec_epilog (sp, bp) l)).
Proof.
  intros HF. revert fuel sp bp. induction HF as [|i bs l bss Hi HF IH]; intros fuel sp bp Hfuel Hsp Hlt;
    (destruct fuel as [|fuel]; [cbn in Hfuel; lia|]).
  - cbn. rewrite bz_zb. done.
  - cbn [concat exec_epilog foldl] in *. rewrite <- app_assoc.
    fold (exec_epilog (exec_epilog_instr (sp, bp) i) l) in *.
    pose proof (exec_epilog_mono l bss (exec_epilog_instr (sp, bp) i) HF).
    assert (0 <= (exec_epilog_instr (sp, bp) i).1) by (destruct Hi; cbn; lia).
    rewrite (epilog_loop_instr fuel i) by (done || lia). cbn in Hfuel.
    destruct (exec_epilog_instr (sp, bp) i) as [sp' bp'] eqn:E. cbn [fst snd] in *. by apply IH; [lia|..].
Qed.

Lemma mother_start_chain fuel unwind_data rf ps start :
  prologs unwind_data rf ps start → (length ps <= fuel)%nat →
  0 <= rf_start rf < 2 ^ 32 → 0 <= ud_offset unwind_data → ud_offset unwind_data + 2 ^ 32 <= 2 ^ 64 →
  mother_start fuel unwind_data rf = Ok (Some (ud_offset unwind_data + rf_start start)).
Proof.
  intros Hps. revert fuel. induction Hps as [rf f p Hparse Hp Hm|rf f p m ps start Hparse Hp Hm Hps IH];
    intros fuel Hfuel Hrf Hud Hud'; (destruct fuel as [|fuel]; [cbn in Hfuel; lia|]);
    cbn [mother_start]; rewrite Hparse, Hm.
  - unfold va_add_u32. by rewrite add_u64_ok by lia.
  - cbn in Hfuel. pose proof (parse_function_mother _ _ _ _ Hparse Hm). apply IH; (done || lia).
Qed.

(** C23. In an epilog (additions to the stack pointer, pops, and the return), the
    frame is found by emulating it, whatever the unwind codes say: the return
    address, the stack pointer of the caller and the place its base pointer is
    popped from are those of the execution of the instructions that are left. *)
Theorem unwind_emulates_epilog fuel unwind_data frame base_pointer rf ps start l bss rest sp bp :
  slice_get_from (ud_content unwind_data) (offset_in_module unwind_data frame) = Some (concat bss ++ zb 0xc3 :: rest) →
  Forall2 epilog_bytes l bss →
  exec_epilog (frame_stack_pointer frame, None) l = (sp, bp) →
  0 <= frame_stack_pointer frame → sp + 8 < 2 ^ 64 →
  find_by_offset unwind_data (offset_in_module unwind_data frame) = Ok (Some rf) →
  prologs unwind_data rf ps start → (length ps <= fuel)%nat → 0 <= rf_start rf < 2 ^ 32 →
  0 <= ud_offset unwind_data → ud_offset unwind_data + 2 ^ 32 <= 2 ^ 64 →
  unwind_in_module fuel unwind_data frame base_pointer =
    Ok {| next_sp := SpValue (sp + 8); next_ip_addr := sp; next_bp_addr := bp;
          fun_start := Some (ud_offset unwind_data + rf_start start) |}.
Proof.
  intros Hcode HF Hexec H0 Hlt Hfind Hps Hfuel Hrf Hud Hud'.
  unfold unwind_in_module, read_epilog. rewrite Hcode.
  pose proof (exec_epilog_mono _ _ (frame_stack_pointer frame, None) HF) as Hmono. rewrite Hexec in Hmono. cbn in Hmono.
  rewrite (epilog_loop_exec _ l); [|done| |done|rewrite Hexec; cbn; lia].
  2:{ rewrite length_app. enough (length l <= length (concat bss))%nat by (cbn; lia). clear -HF.
      induction HF as [|i bs l bss Hi _ IH]; [done|]. cbn. rewrite length_app. destruct Hi; cbn; lia. }
  rewrite Hexec, Hfind. cbn [res_bind]. rewrite (mother_start_chain _ _ _ _ _ Hps Hfuel Hrf Hud Hud').
  cbn [res_bind]. unfold va_add_i32, va_add_i64. rewrite add_signed_ok by (unfold is_u64; lia). done.
Qed.

(** A function that has no unwind data does not move the stack pointer. *)
Lemma unwind_leaf fuel unwind_data frame base_pointer :
  read_epilog fuel unwind_data frame = Ok None →
  find_by_offset unwind_data (offset_in_module unwind_data frame) = Ok None →
  0 <= frame_stack_pointer frame < 2 ^ 64 - 8 →
  unwind_in_module fuel unwind_data frame base_pointer =
    Ok {| next_sp := SpValue (frame_stack_pointer frame + 8); next_ip_addr := frame_stack_pointer frame;
          next_bp_addr := None; fun_start := None |}.
Proof.
  intros Hep Hfind Hsp. unfold unwind_in_module. rewrite Hep. cbn [from_never map_err res_bind]. rewrite Hfind.
  cbn [res_bind]. unfold va_add_u64. by rewrite add_u64_ok by lia.
Qed.
End frames.

(** ** Frames of the sample module *)

Definition sample_frame (ip sp : Z) : StackFrame := {|
  frame_start := None; frame_size := None; frame_stack_pointer := sp;
  frame_instruction_pointer := ip; frame_module := None;
|}.

Definition sample_prolog : list (Z * UnwindOp) := [(1, Push 5); (5, Alloc 0x28)].
Definition sample_second_prolog : list (Z * UnwindOp) := [(2, Push 6); (4, Alloc 8)].

Definition sample_first_entry : FunctionEntry := {|
  fe_mother := None; fe_version := 1; fe_frame_register_offset := None;
  fe_unwind_codes := zb <$> [5; 0x42; 1; 0x50];
|}.
Definition sample_second_entry : FunctionEntry := {|
  fe_mother := Some sample_first; fe_version := 1; fe_frame_register_offset := None;
  fe_unwind_codes := zb <$> [4; 0x02; 2; 0x60];
|}.

Lemma sample_first_chain : prologs sample_unwind_data sample_first [sample_prolog] sample_first.
Proof.
  apply (PrologsLast _ _ sample_first_entry); [reflexivity| |reflexivity].
  exists [zb <$> [5; 0x42]; zb <$> [1; 0x50]]. split; [|reflexivity]. repeat constructor.
  - eexists. split; [cbn; lia|]. split; [apply (OpAllocSmall _ 4); lia|reflexivity].
  - eexists. split; [cbn; lia|]. split; [apply (OpPush _ 5); lia|reflexivity].
Qed.

Lemma sample_chain :
  prologs sample_unwind_data sample_second [sample_second_prolog; sample_prolog] sample_first.
Proof.
  apply (PrologsChained _ _ sample_second_entry _ sample_first); [reflexivity| |reflexivity|exact sample_first_chain].
  exists [zb <$> [4; 0x02]; zb <$> [2; 0x60]]. split; [|reflexivity]. repeat constructor.
  - eexists. split; [cbn; lia|]. split; [apply (OpAllocSmall _ 0); lia|reflexivity].
  - eexists. split; [cbn; lia|]. split; [apply (OpPush _ 6); lia|reflexivity].
Qed.

(** [unwind_info] of bytes that are known; the codes are given byte by byte. *)
Ltac known_info version flags reg dist codes :=
  eexists version, flags, _, reg, dist, (zb <$> codes), _;
  split; [lia|]; split; [lia|]; split; [lia|]; split; [lia|]; split; [lia|]; split; [reflexivity|].

Lemma sample_parts :
  function_parts sample_unwind_data sample_second None [sample_second_prolog; sample_prolog] sample_first.
Proof.
  eapply (NextPart _ _ _ 2); [reflexivity| |reflexivity|eapply (FirstPart _ _ _ 2); [reflexivity|]].
  - known_info 1 4 0 0 [4; 0x02; 2; 0x60]. split; [|split; [reflexivity|]].
    { exists [zb <$> [4; 0x02]; zb <$> [2; 0x60]]. split; [|reflexivity]. repeat constructor.
      - eexists. split; [cbn; lia|]. split; [apply (OpAllocSmall _ 0); lia|reflexivity].
      - eexists. split; [cbn; lia|]. split; [apply (OpPush _ 6); lia|reflexivity]. }
    split; [reflexivity|]. split; [reflexivity|]. split; [by repeat split|].
    exists [], (drop 12 (bytes_of RuntimeFunction_pod sample_first) ++ replicate 4 Byte.x00 ++ sample_code).
    split; reflexivity.
  - known_info 1 0 0 0 [5; 0x42; 1; 0x50]. split; [|split; [reflexivity|]].
    { exists [zb <$> [5; 0x42]; zb <$> [1; 0x50]]. split; [|reflexivity]. repeat constructor.
      - eexists. split; [cbn; lia|]. split; [apply (OpAllocSmall _ 4); lia|reflexivity].
      - eexists. split; [cbn; lia|]. split; [apply (OpPush _ 5); lia|reflexivity]. }
    split; reflexivity.
Qed.

(** [push rbp; mov rbp, rsp] *)
Definition frame_pointer_function : RuntimeFunction := {| rf_start := 24; rf_end := 40; rf_ptr := 4 |}.

Definition frame_pointer_data : UnwindData := {|
  ud_offset := 0;
  ud_content := zb <$> [0; 0; 0; 0; 1; 4; 2; 5; 4; 0x03; 1; 0x50] ++ (bz <$> bytes_of RuntimeFunction_pod frame_pointer_function)
                  ++ replicate 16 0x90;
  ud_directory_range := (12, 24);
|}.

Definition frame_pointer_prolog : list (Z * UnwindOp) := [(1, Push 5); (4, SetFpReg)].

Lemma frame_pointer_parts :
  function_parts frame_pointer_data frame_pointer_function (Some (RBP, 0)) [frame_pointer_prolog] frame_pointer_function.
Proof.
  eapply (FirstPart _ _ _ 2); [reflexivity|].
  known_info 1 0 5 0 [4; 0x03; 1; 0x50]. split; [|split; [reflexivity|]].
  { exists [zb <$> [4; 0x03]; zb <$> [1; 0x50]]. split; [|reflexivity]. repeat constructor.
    - eexists. split; [cbn; lia|]. split; [apply (OpSetFpReg _ 0); lia|reflexivity].
    - eexists. split; [cbn; lia|]. split; [apply (OpPush _ 5); lia|reflexivity]. }
  split; reflexivity.
Qed.

Section witness.
#[local] Existing Instance debug_build.

(** The instruction pointer is in the second part, after [push rsi]; and in the
    body of a function that has moved its stack pointer and has a frame
    pointer. *)
Lemma unwind_undoes_prolog_witness :
  unwind_in_module 2 sample_unwind_data (sample_frame (0x7ff000000000 + 90) (0x10000 - 0x38)) None =
    Ok {| next_sp := SpValue (0x10000 + 8); next_ip_addr := 0x10000; next_bp_addr := Some (0x10000 - 8);
          fun_start := Some (0x7ff000000000 + 72) |} ∧
  unwind_in_module 1 frame_pointer_data (sample_frame 34 0x4000) (Some (0x10000 - 8)) =
    Ok {| next_sp := SpValue (0x10000 + 8); next_ip_addr := 0x10000; next_bp_addr := Some (0x10000 - 8);
          fun_start := Some 24 |}.
Proof.
  split.
  - refine (unwind_undoes_prolog 2 sample_unwind_data (sample_frame (0x7ff000000000 + 90) (0x10000 - 0x38)) None
      sample_second None _ sample_first 2 0x10000 _ _ _ _ _ sample_parts _ _ _ _ _ _);
      try (vm_compute; reflexivity); try (cbn; lia).
    split; [repeat constructor|]. split; [cbn; repeat (split; [done|]); done|]. split; [vm_compute; reflexivity|].
    split; [repeat constructor|]. split; [cbn; repeat (split; [done|]); done|]. split; [vm_compute; reflexivity|].
    vm_compute. done.
  - refine (unwind_undoes_prolog 1 frame_pointer_data (sample_frame 34 0x4000) (Some (0x10000 - 8))
      frame_pointer_function (Some (RBP, 0)) _ frame_pointer_function 10 0x10000 _ _ _ _ _ frame_pointer_parts _ _ _ _ _ _);
      try (vm_compute; reflexivity); try (cbn; lia).
    + split; [repeat constructor|]. split; [cbn; repeat (split; [done|]); done|]. split; [vm_compute; reflexivity|].
      vm_compute. done.
    + split; [done|]. split; [split; [done|split; [intros _; constructor|done]]|]. by split.
Defined.

Lemma unwind_emulates_epilog_witness :
  unwind_in_module 2 sample_unwind_data (sample_frame (0x7ff000000000 + 82) (0x10000 - 0x30)) None =
    Ok {| next_sp := SpValue (0x10000 + 8); next_ip_addr := 0x10000; next_bp_addr := Some (0x10000 - 8);
          fun_start := Some (0x7ff000000000 + 72) |}.
Proof.
  refine (unwind_emulates_epilog 2 sample_unwind_data (sample_frame (0x7ff000000000 + 82) (0x10000 - 0x30)) None
    sample_first _ sample_first [EAdd 0x28; EPop 5] [zb <$> [0x48; 0x83; 0xc4; 0x28]; zb <$> [0x5d]]
    (zb <$> replicate 16 0x90) 0x10000 (Some (0x10000 - 8)) _ _ _ _ _ _ sample_first_chain _ _ _ _);
    try (vm_compute; reflexivity); try (cbn; lia).
  apply Forall2_cons; split; [apply (EpAdd8 0x28); lia|].
  apply Forall2_cons; split; [apply (EpPop 5); lia|constructor].
Defined.
End witness.

(** ** Limits of the code *)

Section limits.
Context {bm : Build}.

(** The chain of a function is read from the guest; the loop of [read_epilog]
    never ends when the chain comes back to its start. *)
Lemma mother_start_cycle fuel unwind_data rf function :
  parse_function unwind_data rf = Some function → fe_mother function = Some rf →
  mother_start fuel unwind_data rf = NoFuel.
Proof.
  intros Hp Hm. induction fuel as [|fuel IH]; [done|]. cbn [mother_start]. by rewrite Hp, Hm.
Qed.
End limits.

Section examples.
#[local] Existing Instance debug_build.

(** The unwind information that follows an odd number of codes comes after two
    bytes of padding, which [parse_function] does not skip. *)
Definition odd_chained : UnwindData := {|
  ud_offset := 0;
  ud_content := zb <$> [0x21; 1; 1; 0; 1; 0x60; 0; 0] ++ (bz <$> bytes_of RuntimeFunction_pod sample_first);
  ud_directory_range := (0, 0);
|}.

Lemma odd_chained_misread :
  fe_mother <$> parse_function odd_chained {| rf_start := 88; rf_end := 104; rf_ptr := 0 |} =
    Some (Some {| rf_start := 72 * 2 ^ 16; rf_end := 88 * 2 ^ 16; rf_ptr := 40 * 2 ^ 16 |}).
Proof. vm_compute. reflexivity. Qed.

(** [push rbp; mov rbp, rsp]: between the two instructions the base pointer is
    still the one of the caller, and the frame that is found is another one. *)
Lemma frame_pointer_not_set :
  next_ip_addr <$> (match unwind_with_infos 1 frame_pointer_data frame_pointer_function
                            (sample_frame 25 (0x10000 - 8)) (Some 0x20000) with
                    | Ok r => Some r
                    | _ => None
                    end) = Some (0x20000 + 8).
Proof. vm_compute. reflexivity. Qed.
End examples.
