(* ===== verification/WinStack.v ===== *)
(** * The walk of the stack on Windows ([vminer/src/os/windows/callstack.rs])

    The modules of a process with their unwind data, read when a frame needs
    it, and the iteration over the frames. *)

From S2P Require Import Prelude Rust Layout Addr Error Mem Text Registers Mmu Arch Backend.
From S2P Require Import Symbols Os Pointer WinProfile WinMemory Windows WinPdb WinOs WinUnwind.

#[local] Open Scope string_scope.
#[local] Open Scope Z_scope.

(** The struct [Module]. *)
Record StackModule := {
  sm_start : Z;
  sm_end : Z;
  sm_module : Z;
  sm_unwind_data : option UnwindData;
}.

Definition sm_contains (self : StackModule) (addr : Z) : bool :=
  (sm_start self <=? addr) && (addr <? sm_end self).

(** [AllModules::find_by_address]: the index of the module. *)
Definition all_find_by_address {E} (self : list StackModule) (addr : Z) : Res E (option nat) :=
  match binary_search_by_key addr sm_start self with
  | inl i => Ok (Some i)
  | inr O => Ok None
  | inr (S i) =>
      let? vma := unwrap (self !! i) in
      Ok (if sm_contains vma addr then Some i else None)
  end.

Section stack.
Context {bm : Build} {A : Type} `{Architecture A}.
Variable fuel : nat.
Variable self : Windows A.

(** The PE parser of [object]. *)
Context {Pe : Type}.
Variable pe_parse : bytes → Res DynError Pe.
Variable pe_exception_directory : Pe → option (Z * Z).

(** [slice::sort_unstable_by_key] *)
Variable sort_unstable_by : (StackModule → StackModule → comparison) → list StackModule → list StackModule.

(** ** [AllModules::collect] *)

Definition push_module (proc : Z) (module : Z) : MutRes (list StackModule) VmError ControlFlow :=
  let! ' (start, end_) := mut_lift (win_module_span fuel self module proc) in
  λ modules,
    (Ok Continue,
     (modules ++ [{| sm_start := start; sm_end := end_; sm_module := module; sm_unwind_data := None |}])%list).

Definition all_modules (proc : Z) : VmResult (list StackModule) :=
  let? modules := run_on []
    (let! _ := win_process_for_each_module fuel self proc _ (push_module proc) in
     win_for_each_kernel_module fuel self _ (push_module proc)) in
  Ok (sort_unstable_by (λ x y, sm_start x ?= sm_start y) modules).

(** ** [Context] *)

(** The fields [proc] and [pgd]; [windows] is [self]. *)
Record StackContext := { ctx_proc : Z; ctx_pgd : Z }.

Definition context_new (proc : Z) : VmResult StackContext :=
  let? pgd := win_process_pgd self proc in
  Ok {| ctx_proc := proc; ctx_pgd := pgd |}.

Definition pgd_for (ctx : StackContext) (addr : Z) : Z :=
  if va_is_kernel addr then w_kpgd self else ctx_pgd ctx.

Definition ctx_read_value {T} (P : Pod T) (ctx : StackContext) (addr : Z) : VmResult T :=
  let (r, value) := win_read_process_memory fuel self (ctx_proc ctx) (pgd_for ctx addr) addr
                      (bytes_of P (zeroed P)) in
  let? _ := r in Ok (pod_read P value).

Definition init_unwind_data (ctx : StackContext) (module : StackModule) : VmResult UnwindData :=
  let? content := vec_zeroed (as_u64 (va_sub (sm_end module) (sm_start module))) in
  let pgd := pgd_for ctx (sm_start module) in
  let (r, content) := win_try_read_process_memory fuel self (ctx_proc ctx) pgd (sm_start module) content in
  let? _ := r in
  let? pe := result_context id (pe_parse content) "failed to parse PE" in
  let? ' (start, size) := option_context (pe_exception_directory pe) "failed to get debug directory" in
  let directory_end := start + size in
  if (Z.of_nat (length content) <? directory_end) || negb (size mod 12 =? 0)
  then Err (vm_error_new (dyn_of_str "invalid exception directory size"))
  else Ok {| ud_offset := sm_start module; ud_content := content; ud_directory_range := (start, directory_end) |}.

Definition get_unwind_data (ctx : StackContext) : MutRes StackModule VmError UnwindData := λ module,
  match sm_unwind_data module with
  | Some data => (Ok data, module)
  | None =>
      match init_unwind_data ctx module with
      | Ok data =>
          (Ok data, {| sm_start := sm_start module; sm_end := sm_end module; sm_module := sm_module module;
                       sm_unwind_data := Some data |})
      | Err e => (Err e, module)
      | Panic => (Panic, module)
      | NoFuel => (NoFuel, module)
      end
  end.

Definition unwind_function (ctx : StackContext) (frame : StackFrame) (base_pointer : option Z)
  : MutRes StackModule VmError UnwindResult :=
  let! unwind_data := mut_map_err (λ err, vm_error_with_context "cannot get unwind data" (DynVm err))
                        (get_unwind_data ctx) in
  mut_lift (unwind_in_module fuel unwind_data frame base_pointer).

(** ** The iteration *)

(** Whether there is a VMA at an address; an error is logged. *)
Definition address_is_valid (proc addr : Z) : Res Never bool :=
  match win_find_vma_by_address self fuel proc addr with
  | Ok (Some _) => Ok true
  | Ok None | Err _ => Ok false
  | Panic => Panic
  | NoFuel => NoFuel
  end.

Definition invalid_ip (frame : StackFrame) : VmError :=
  vm_error_with_context
    ("invalid instruction pointer: 0x" +:+ format_hex (frame_instruction_pointer frame))
    (dyn_of_str "this is probably a bug").

Section iter.
Context {St : Type}.
Variable f : StackFrame → MutRes St VmError ControlFlow.

(** [match f(frame)?] with an error for the frames that would follow. *)
Definition last_frame (frame : StackFrame) (err : VmError) : MutRes St VmError unit :=
  let! c := f frame in
  match c with
  | Continue => mut_lift (Err err)
  | Break => mut_ret tt
  end.

Definition handle_invalid_address (proc : Z) (frame : StackFrame) : MutRes St VmError unit :=
  let! valid := mut_lift (from_never
    (let? ip := address_is_valid proc (frame_instruction_pointer frame) in
     if ip : bool then address_is_valid proc (frame_stack_pointer frame) else Ok false)) in
  if valid : bool then
    last_frame {| frame_start := None; frame_size := frame_size frame;
                  frame_stack_pointer := frame_stack_pointer frame;
                  frame_instruction_pointer := frame_instruction_pointer frame; frame_module := None |}
      (vm_of_str "unwinding through JIT is unsupported")
  else mut_lift (Err (invalid_ip frame)).

(** The registers of the next frame. *)
Definition next_registers (ctx : StackContext) (infos : UnwindResult) (base_pointer : option Z)
  : VmResult (Z * Z * option Z) :=
  let? ip := ctx_read_value pod_u64 ctx (next_ip_addr infos) in
  let? sp := match next_sp infos with
             | SpAddr addr => ctx_read_value pod_u64 ctx addr
             | SpValue addr => Ok addr
             end in
  let? bp := match next_bp_addr infos with
             | Some addr => let? bp := ctx_read_value pod_u64 ctx addr in Ok (Some bp)
             | None => Ok base_pointer
             end in
  Ok (ip, sp, bp).

(** The loop of [iter_callstack]; every round sends a frame to the callback. *)
Fixpoint callstack_loop (n : nat) (ctx : StackContext) (modules : list StackModule) (frame : StackFrame)
    (base_pointer : option Z) : MutRes St VmError unit :=
  match n with
  | O => mut_lift NoFuel
  | S n =>
      let! i := mut_lift (all_find_by_address modules (frame_instruction_pointer frame)) in
      match i with
      | None => handle_invalid_address (ctx_proc ctx) frame
      | Some i =>
          let! module := mut_lift (unwrap (modules !! i)) in
          let with_start start := {| frame_start := start; frame_size := frame_size frame;
            frame_stack_pointer := frame_stack_pointer frame;
            frame_instruction_pointer := frame_instruction_pointer frame;
            frame_module := Some (sm_module module) |} in
          let (unwind_result, module) :=
            unwind_function ctx (with_start (frame_start frame)) base_pointer module in
          let modules := <[i := module]> modules in
          match unwind_result with
          | Ok infos =>
              let frame := with_start (fun_start infos) in
              let! c := f frame in
              if is_break c then mut_ret tt
              else
                let! ' (ip, sp, bp) := mut_lift (next_registers ctx infos base_pointer) in
                if va_is_null ip then mut_ret tt
                else
                  callstack_loop n ctx modules
                    {| frame_start := frame_start frame; frame_size := frame_size frame;
                       frame_stack_pointer := sp; frame_instruction_pointer := ip;
                       frame_module := frame_module frame |} bp
          | Err err => last_frame (with_start None) err
          | Panic => mut_lift Panic
          | NoFuel => mut_lift NoFuel
          end
      end
  end.

Definition iter_callstack (n : nat) (proc ip sp : Z) (bp : option Z) : MutRes St VmError unit :=
  let! ctx := mut_lift (context_new proc) in
  let! modules := mut_lift (all_modules proc) in
  callstack_loop n ctx modules
    {| frame_start := None; frame_size := None; frame_stack_pointer := sp; frame_instruction_pointer := ip;
       frame_module := None |} bp.
End iter.

(** [process_callstack_with_regs] of the trait. *)
Definition win_process_callstack_with_regs (n : nat) (proc ip sp : Z) (bp : option Z) : ForEach StackFrame :=
  λ _ f, iter_callstack f n proc ip sp bp.
End stack.
