(* ===== verification/WinStackSpec.v ===== *)
(** * The frames of a stack on Windows

    The frames of a stack as a relation, with the unwind data of a module read
    anew for each frame; the iteration of the code, which keeps what it has
    read, visits these frames. *)

From S2P Require Import Prelude Rust Layout Addr Error Mem Text Registers Mmu Arch ArchSpec Backend Symbols SymbolsSpec Os OsSpec.
From S2P Require Import Pointer WinProfile WinMemory Windows WinPdb WinOs WinVadSpec Intervals WinUnwind WinUnwindSpec WinFrameSpec WinStack.

Lemma all_find_by_address_spec {E} modules addr :
  disjoint_intervals sm_start sm_end modules →
  match interval_at sm_start sm_end modules addr with
  | Some m => ∃ i, all_find_by_address (E:=E) modules addr = Ok (Some i) ∧ modules !! i = Some m
  | None => all_find_by_address (E:=E) modules addr = Ok None
  end.
Proof.
  intros Hd. pose proof (interval_search sm_start sm_end modules addr Hd) as Hs.
  unfold all_find_by_address. destruct (binary_search_by_key _ _ _) as [i|[|i]].
  - destruct Hs as (x & Hi & ->). by exists i.
  - by rewrite Hs.
  - destruct Hs as (x & Hi & Hat). rewrite Hi. cbn [unwrap res_bind].
    change (sm_contains x addr) with (holds_addr sm_start sm_end addr x). rewrite Hat.
    destruct (holds_addr _ _ _ _); [by exists i|done].
Qed.

(** The module without what is cached. *)
Definition fresh (m : StackModule) : StackModule :=
  {| sm_start := sm_start m; sm_end := sm_end m; sm_module := sm_module m; sm_unwind_data := None |}.

Section walk.
Context {bm : Build} {A : Type} `{Architecture A}.
Variable fuel : nat.
Variable self : Windows A.
Context {Pe : Type}.
Variable pe_parse : bytes → Res DynError Pe.
Variable pe_exception_directory : Pe → option (Z * Z).
Variable sort_unstable_by : (StackModule → StackModule → comparison) → list StackModule → list StackModule.

Notation init_unwind_data := (init_unwind_data fuel self pe_parse pe_exception_directory).
Notation unwind_function := (unwind_function fuel self pe_parse pe_exception_directory).
Notation iter_callstack := (iter_callstack fuel self pe_parse pe_exception_directory sort_unstable_by).
Notation callstack_loop := (callstack_loop fuel self pe_parse pe_exception_directory).
Notation all_modules := (all_modules fuel self sort_unstable_by).

(** ** The frames of a stack *)

Definition frame_in (frame : StackFrame) (m : StackModule) (start : option Z) : StackFrame := {|
  frame_start := start; frame_size := frame_size frame; frame_stack_pointer := frame_stack_pointer frame;
  frame_instruction_pointer := frame_instruction_pointer frame; frame_module := Some (sm_module m);
|}.

Definition jit_frame (frame : StackFrame) : StackFrame := {|
  frame_start := None; frame_size := frame_size frame; frame_stack_pointer := frame_stack_pointer frame;
  frame_instruction_pointer := frame_instruction_pointer frame; frame_module := None;
|}.

Definition caller_frame (frame : StackFrame) (ip sp : Z) : StackFrame := {|
  frame_start := frame_start frame; frame_size := frame_size frame; frame_stack_pointer := sp;
  frame_instruction_pointer := ip; frame_module := frame_module frame;
|}.

(** Whether both pointers of a frame are in a VMA. *)
Definition both_valid (proc : Z) (frame : StackFrame) : Res Never bool :=
  let? ip := address_is_valid fuel self proc (frame_instruction_pointer frame) in
  if ip : bool then address_is_valid fuel self proc (frame_stack_pointer frame) else Ok false.

(** Unwinding a frame of a module whose unwind data was not read yet. *)
Definition unwind_fresh (ctx : StackContext) (m : StackModule) (frame : StackFrame) (bp : option Z)
  : VmResult UnwindResult :=
  (unwind_function ctx (frame_in frame m (frame_start frame)) bp (fresh m)).1.

(** [Walk frame bp l last]: the frames that start with the registers of [frame]
    are [l], and the walk ends with [last]. *)
Inductive Walk (ctx : StackContext) (modules : list StackModule)
  : StackFrame → option Z → list StackFrame → VmResult unit → Prop :=
| WalkInvalid frame bp :
    interval_at sm_start sm_end modules (frame_instruction_pointer frame) = None →
    both_valid (ctx_proc ctx) frame = Ok false →
    Walk ctx modules frame bp [] (Err (invalid_ip frame))
| WalkJit frame bp :
    interval_at sm_start sm_end modules (frame_instruction_pointer frame) = None →
    both_valid (ctx_proc ctx) frame = Ok true →
    Walk ctx modules frame bp [jit_frame frame] (Err (vm_of_str "unwinding through JIT is unsupported"))
| WalkNoUnwind frame bp m err :
    interval_at sm_start sm_end modules (frame_instruction_pointer frame) = Some m →
    unwind_fresh ctx m frame bp = Err err →
    Walk ctx modules frame bp [frame_in frame m None] (Err err)
| WalkUnreadable frame bp m infos err :
    interval_at sm_start sm_end modules (frame_instruction_pointer frame) = Some m →
    unwind_fresh ctx m frame bp = Ok infos →
    next_registers fuel self ctx infos bp = Err err →
    Walk ctx modules frame bp [frame_in frame m (fun_start infos)] (Err err)
| WalkOutermost frame bp m infos sp bp' :
    interval_at sm_start sm_end modules (frame_instruction_pointer frame) = Some m →
    unwind_fresh ctx m frame bp = Ok infos →
    next_registers fuel self ctx infos bp = Ok (0, sp, bp') →
    Walk ctx modules frame bp [frame_in frame m (fun_start infos)] (Ok tt)
| WalkCaller frame bp m infos ip sp bp' l last :
    interval_at sm_start sm_end modules (frame_instruction_pointer frame) = Some m →
    unwind_fresh ctx m frame bp = Ok infos →
    next_registers fuel self ctx infos bp = Ok (ip, sp, bp') → ip ≠ 0 →
    Walk ctx modules (caller_frame (frame_in frame m (fun_start infos)) ip sp) bp' l last →
    Walk ctx modules frame bp (frame_in frame m (fun_start infos) :: l) last.

(** ** The cache *)

(** The modules during the walk: the data that is kept is what would be read. *)
Definition cached (ctx : StackContext) (m m' : StackModule) : Prop :=
  fresh m' = fresh m ∧
  match sm_unwind_data m' with
  | Some data => init_unwind_data ctx m' = Ok data
  | None => True
  end.

Lemma init_unwind_data_fresh ctx m : init_unwind_data ctx (fresh m) = init_unwind_data ctx m.
Proof. done. Qed.

Lemma unwind_function_cached ctx m m' frame bp :
  cached ctx m m' →
  (unwind_function ctx frame bp m').1 = (unwind_function ctx frame bp (fresh m)).1 ∧
  cached ctx m (unwind_function ctx frame bp m').2.
Proof.
  intros [Hf Hc]. assert (Hinit : init_unwind_data ctx (fresh m) = init_unwind_data ctx m')
    by (by rewrite <- Hf, init_unwind_data_fresh).
  unfold WinStack.unwind_function, mut_bind, mut_map_err, mut_lift, get_unwind_data.
  cbn [sm_unwind_data fresh]. rewrite Hinit.
  destruct (sm_unwind_data m') as [data|] eqn:Hd.
  - rewrite Hc. cbn [map_err fst snd]. split; [done|]. split; [done|]. by rewrite Hd.
  - destruct (init_unwind_data ctx m') as [data| | |] eqn:Hi; cbn [map_err fst snd];
      (split; [done|]); (split; [done|]); cbn [sm_unwind_data]; [exact Hi|by rewrite Hd..].
Qed.

Lemma cached_insert ctx modules modules' i m m' :
  Forall2 (cached ctx) modules modules' → modules !! i = Some m → cached ctx m m' →
  Forall2 (cached ctx) modules (<[i := m']> modules').
Proof. intros HF Hi Hc. rewrite <- (list_insert_id modules i m) by done. by apply Forall2_insert. Qed.

Lemma find_by_address_cached {E} ctx modules modules' addr :
  Forall2 (cached ctx) modules modules' →
  all_find_by_address (E:=E) modules' addr = all_find_by_address modules addr.
Proof.
  intros HF. unfold all_find_by_address, binary_search_by_key.
  rewrite (binary_search_by_Forall2 (λ x, sm_start x ?= addr) (λ x, sm_start x ?= addr) modules' modules).
  2:{ apply Forall2_flip. eapply Forall2_impl; [exact HF|]. intros m m' [Hf _]. cbn.
      change (sm_start m') with (sm_start (fresh m')). by rewrite Hf. }
  destruct (binary_search_by _ _) as [i|[|i]]; [done|done|].
  destruct (modules !! i) as [m|] eqn:Hm.
  - destruct (Forall2_lookup_l _ _ _ _ _ HF Hm) as (m' & -> & [Hf _]). cbn [unwrap res_bind].
    change (sm_contains m' addr) with (sm_contains (fresh m') addr). by rewrite Hf.
  - assert (modules' !! i = None) as ->; [|done].
    apply lookup_ge_None. rewrite <- (Forall2_length _ _ _ HF). by apply lookup_ge_None.
Qed.

(** Where the loop finds the module of a frame, whatever is cached. *)
Lemma find_module_cached {E} ctx modules modules' addr :
  disjoint_intervals sm_start sm_end modules → Forall2 (cached ctx) modules modules' →
  match interval_at sm_start sm_end modules addr with
  | Some m => ∃ i m', all_find_by_address (E:=E) modules' addr = Ok (Some i) ∧
                      modules !! i = Some m ∧ modules' !! i = Some m' ∧ cached ctx m m'
  | None => all_find_by_address (E:=E) modules' addr = Ok None
  end.
Proof.
  intros Hd HF. rewrite (find_by_address_cached _ _ _ _ HF).
  pose proof (all_find_by_address_spec (E:=E) modules addr Hd) as Hs.
  destruct (interval_at _ _ _ _) as [m|]; [|done]. destruct Hs as (i & Hs & Hi).
  destruct (Forall2_lookup_l _ _ _ _ _ HF Hi) as (m' & Hi' & Hc). by exists i, m'.
Qed.

(** ** The iteration *)

Section iter.
Context {St : Type} (f : StackFrame → MutRes St VmError ControlFlow).

Lemma last_frame_iterate frame err s : last_frame f frame err s = iterate f [frame] (Err err) s.
Proof. unfold last_frame. cbn [iterate]. unfold mut_bind. by destruct (f frame s) as [[[]| | |] s']. Qed.

(** A round of the loop in a module. *)
Lemma callstack_loop_module n ctx modules modules' frame bp s m :
  disjoint_intervals sm_start sm_end modules → Forall2 (cached ctx) modules modules' →
  interval_at sm_start sm_end modules (frame_instruction_pointer frame) = Some m →
  ∃ modules'', Forall2 (cached ctx) modules modules'' ∧
    callstack_loop f (S n) ctx modules' frame bp s =
      match unwind_fresh ctx m frame bp with
      | Ok infos =>
          (let! c := f (frame_in frame m (fun_start infos)) in
           if is_break c then mut_ret tt
           else
             let! ' (ip, sp, bp) := mut_lift (next_registers fuel self ctx infos bp) in
             if va_is_null ip then mut_ret tt
             else callstack_loop f n ctx modules'' (caller_frame (frame_in frame m (fun_start infos)) ip sp) bp) s
      | Err err => last_frame f (frame_in frame m None) err s
      | Panic => (Panic, s)
      | NoFuel => (NoFuel, s)
      end.
Proof.
  intros Hd HF Hat.
  pose proof (find_module_cached (E:=VmError) ctx modules modules' (frame_instruction_pointer frame) Hd HF) as Hfind.
  rewrite Hat in Hfind. destruct Hfind as (i & m' & Hfind & Hi & Hi' & Hc).
  assert (sm_module m' = sm_module m) as Hmod by (change (sm_module m') with (sm_module (fresh m')); by rewrite (proj1 Hc)).
  destruct (unwind_function_cached ctx m m' (frame_in frame m (frame_start frame)) bp Hc) as [Hr Hc'].
  exists (<[i := (unwind_function ctx (frame_in frame m (frame_start frame)) bp m').2]> modules').
  split; [by eapply cached_insert|].
  cbn [WinStack.callstack_loop]. unfold mut_bind at 1, mut_lift at 1. rewrite Hfind.
  unfold mut_bind at 1, mut_lift at 1. rewrite Hi'. cbn [unwrap]. rewrite Hmod.
  change {| frame_start := frame_start frame; frame_size := frame_size frame;
            frame_stack_pointer := frame_stack_pointer frame;
            frame_instruction_pointer := frame_instruction_pointer frame;
            frame_module := Some (sm_module m) |} with (frame_in frame m (frame_start frame)).
  unfold unwind_fresh. rewrite <- Hr.
  destruct (unwind_function ctx (frame_in frame m (frame_start frame)) bp m') as [r m'']. cbn [fst snd].
  by destruct r.
Qed.

Lemma callstack_loop_walk ctx modules frame bp l last :
  disjoint_intervals sm_start sm_end modules →
  Walk ctx modules frame bp l last →
  ∀ n modules' s, Forall2 (cached ctx) modules modules' → (length l < n)%nat →
  callstack_loop f n ctx modules' frame bp s = iterate f l last s.
Proof.
  intros Hd. induction 1 as [frame bp Hat Hv|frame bp Hat Hv|frame bp m err Hat Hu|frame bp m infos err Hat Hu Hr
    |frame bp m infos sp bp' Hat Hu Hr|frame bp m infos ip sp bp' l last Hat Hu Hr Hip Hw IH];
    intros n modules' s HF Hn; (destruct n as [|n]; [cbn in Hn; lia|]).
  1, 2: pose proof (find_module_cached (E:=VmError) ctx modules modules' (frame_instruction_pointer frame) Hd HF)
      as Hfind; rewrite Hat in Hfind; cbn [WinStack.callstack_loop];
      unfold mut_bind at 1, mut_lift at 1; rewrite Hfind; unfold handle_invalid_address, mut_bind at 1, mut_lift at 1;
      fold (both_valid (ctx_proc ctx) frame); rewrite Hv; cbn [from_never map_err].
  1: done.
  1: by rewrite <- last_frame_iterate.
  all: destruct (callstack_loop_module n ctx modules modules' frame bp s m Hd HF Hat) as (modules'' & HF' & ->);
    rewrite Hu.
  1: by rewrite <- last_frame_iterate.
  all: cbn [iterate]; unfold mut_bind at 1 3; destruct (f (frame_in frame m (fun_start infos)) s) as [[c| | |] s'];
    [|done..]; destruct (is_break c); [done|]; unfold mut_bind, mut_lift; rewrite Hr.
  1, 2: done.
  unfold va_is_null. replace (ip =? 0) with false by lia. apply IH; [done|cbn in Hn; lia].
Qed.
End iter.

(** C24. The walk of the stack visits exactly the frames of the stack, from the
    innermost to the outermost, whose return address is null, or up to the
    frame that cannot be unwound, which is visited as well when it is in a
    module, and then fails with the reason; keeping the unwind data of the
    modules does not change what is visited.  One round per frame and one more
    are enough. *)
Theorem iter_callstack_walk n proc ip sp bp ctx modules l last :
  context_new self proc = Ok ctx → all_modules proc = Ok modules →
  disjoint_intervals sm_start sm_end modules → Forall (λ m, sm_unwind_data m = None) modules →
  Walk ctx modules {| frame_start := None; frame_size := None; frame_stack_pointer := sp;
                      frame_instruction_pointer := ip; frame_module := None |} bp l last →
  (length l < n)%nat →
  IteratesTo (win_process_callstack_with_regs fuel self pe_parse pe_exception_directory sort_unstable_by n proc ip sp bp)
    l last.
Proof.
  intros Hctx Hmod Hd Hfresh Hw Hn St f s. unfold win_process_callstack_with_regs, WinStack.iter_callstack.
  unfold mut_bind, mut_lift. rewrite Hctx, Hmod. apply (callstack_loop_walk f ctx modules); [done|done| |done].
  clear -Hfresh. induction Hfresh as [|m modules Hm _ IH]; constructor; [|done]. split; [done|]. by rewrite Hm.
Qed.
End walk.

(** ** A stack *)

Section witness.
#[local] Existing Instance debug_build.

Fixpoint words_of (n : nat) (addr : Z) (bs : bytes) : list (Z * Z) :=
  match n with
  | O => []
  | S n => (addr, le_val (take 8 bs)) :: words_of n (addr + 8) (drop 8 bs)
  end.

(** A kernel module that holds the sample unwind data, and a stack where a
    function of it calls another one. *)
Definition stack_windows : Windows X86_64 := {|
  w_backend := sample_backend
    ([(0x1020, 0x5000); (0x5000, 0x1020); (0x5030, 0x10000); (0x5040, 104);
      (0x20100, 0x1004c); (0x20110, 0)] ++ words_of 13 0x10000 (ud_content sample_unwind_data));
  w_symbols_loader := empty_loader;
  w_kpgd := 0;
  w_base_addr := 0x1000;
  w_profile := {|
    win_fast_syms := {| KiImplementedPhysicalBits := None; PsActiveProcessHead := 0x10; PsLoadedModuleList := 0x20 |};
    wp_layouts := WinLayouts_new {|
      ms_buffer := []; ms_symbols := []; ms_addresses := [];
      ms_types := list_to_map ((λ s, (st_name s, s)) <$>
        [sample_struct "_EPROCESS" [("Pcb", 0); ("Peb", 0x30)];
         sample_struct "_KPROCESS" [("DirectoryTableBase", 0x28)];
         sample_struct "_LIST_ENTRY" [("Flink", 0); ("Blink", 8)];
         sample_struct "_LDR_DATA_TABLE_ENTRY" [("InLoadOrderLinks", 0); ("DllBase", 0x30);
                                                ("SizeOfImage", 0x40)]]%string) |} |};
  w_unswizzle_mask := u64_max;
|}.

Definition sample_stack_module : StackModule :=
  {| sm_start := 0x10000; sm_end := 0x10068; sm_module := 0x5000; sm_unwind_data := None |}.

Definition stack_frame (start module : option Z) (ip sp : Z) : StackFrame := {|
  frame_start := start; frame_size := None; frame_stack_pointer := sp; frame_instruction_pointer := ip;
  frame_module := module;
|}.

Definition sample_stack : list StackFrame :=
  [stack_frame (Some 0x10048) (Some 0x5000) 0x1005a 0x200c8; stack_frame (Some 0x10048) (Some 0x5000) 0x1004c 0x20108].

(** The address of the return address and the stack pointer of the caller. *)
Definition sample_result (ip_addr bp_addr : Z) : UnwindResult := {|
  next_sp := SpValue (ip_addr + 8); next_ip_addr := ip_addr; next_bp_addr := Some bp_addr;
  fun_start := Some 0x10048;
|}.

Lemma iter_callstack_walk_witness :
  IteratesTo (win_process_callstack_with_regs 5 stack_windows (λ _, Ok tt) (λ _, Some (16, 24)) sort_by 3 0x2000
    0x1005a 0x200c8 None) sample_stack (Ok tt).
Proof.
  refine (iter_callstack_walk 5 stack_windows (λ _, Ok tt) (λ _, Some (16, 24)) sort_by 3 0x2000 0x1005a 0x200c8 None
    {| ctx_proc := 0x2000; ctx_pgd := 0 |} [sample_stack_module] sample_stack (Ok tt) _ _ _ _ _ _).
  - vm_compute. reflexivity.
  - vm_compute. reflexivity.
  - split; repeat constructor.
  - repeat constructor.
  - apply (WalkCaller 5 stack_windows (λ _, Ok tt) (λ _, Some (16, 24)) _ _ (stack_frame None None 0x1005a 0x200c8) None
      sample_stack_module (sample_result 0x20100 0x200f8) 0x1004c 0x20108 (Some 0)).
    + vm_compute. reflexivity.
    + vm_compute. reflexivity.
    + vm_compute. reflexivity.
    + done.
    + apply (WalkOutermost 5 stack_windows (λ _, Ok tt) (λ _, Some (16, 24)) _ _
        (stack_frame (Some 0x10048) (Some 0x5000) 0x1004c 0x20108) (Some 0)
        sample_stack_module (sample_result 0x20110 0x20108) 0x20118 (Some 0)).
      * vm_compute. reflexivity.
      * vm_compute. reflexivity.
      * vm_compute. reflexivity.
  - cbn. lia.
Defined.
End witness.
