(* ===== verification/LinuxStack.v ===== *)
(** * The walk of the stack on Linux ([vminer/src/os/linux/callstack.rs])

    The tables of [.eh_frame] are decoded by the [gimli] crate, which is a
    parameter; the model has the search for these tables in the memory of a
    module, and the computation of the registers of the next frame. *)

From S2P Require Import Prelude Rust Layout Addr Endian Error Mem Text Registers Mmu Arch Backend.
From S2P Require Import Symbols Os Pointer LinuxProfile Linux.

#[local] Open Scope string_scope.
#[local] Open Scope Z_scope.

(** ** [gimli] *)

(** The enumerations of [gimli] that the code matches on. *)
Inductive GimliPointer := Direct (addr : Z) | Indirect (addr : Z).

Inductive CfaRule := RegisterAndOffset (register offset : Z) | CfaExpression.

(** [RuleOther] stands for the rules that the code does not name. *)
Inductive RegisterRule :=
| RuleUndefined
| RuleSameValue
| RuleOffset (offset : Z)
| RuleValOffset (offset : Z)
| RuleRegister (register : Z)
| RuleOther.

(** [BaseAddresses]: the addresses of [.eh_frame_hdr] and of [.eh_frame]. *)
Record BaseAddresses := { base_eh_frame_hdr : Z; base_eh_frame : option Z }.

(** The functions of [gimli]; [unwind_info_for_address] is the one of the
    description of a function ([FrameDescriptionEntry]). *)
Class Gimli := {
  GimliError : Type;
  Fde : Type;
  Row : Type;
  eh_frame_ptr : bytes → RuntimeEndian → BaseAddresses → Res GimliError GimliPointer;
  fde_for_address : bytes → RuntimeEndian → BaseAddresses → Z → Res GimliError Fde;
  initial_address : Fde → Z;
  fde_len : Fde → Z;
  unwind_info_for_address : Fde → bytes → RuntimeEndian → BaseAddresses → Z → Res GimliError Row;
  row_cfa : Row → CfaRule;
  row_register : Row → Z → RegisterRule;
  X86_64_RA : Z; X86_64_RSP : Z; X86_64_RBP : Z;
  AArch64_X30 : Z; AArch64_SP : Z;
}.

(** ** Modules *)

Record LinuxModule := { lm_start : Z; lm_end : Z; lm_module : Z }.

Definition lm_contains (self : LinuxModule) (addr : Z) : bool :=
  (lm_start self <=? addr) && (addr <? lm_end self).

Record LinuxUnwindData := {
  lud_bases : BaseAddresses;
  lud_endian : RuntimeEndian;
  lud_segment : bytes;
  lud_eh_frame : Z;
}.

(** [&self.segment[self.eh_frame..]] *)
Definition slice_from_z {E} (s : bytes) (lo : Z) : Res E bytes :=
  if (0 <=? lo) && (lo <=? Z.of_nat (length s)) then Ok (drop (Z.to_nat lo) s) else Panic.

Definition eh_frame {E} (self : LinuxUnwindData) : Res E bytes :=
  slice_from_z (lud_segment self) (lud_eh_frame self).

(** A [HashMap] of [OnceCell]s: [None] is a cell that is not initialised. *)
Notation EhFrames := (gmap Z (option LinuxUnwindData)).

(** The fields of [Context] that do not change; [linux] is [self]. *)
Record LinuxContext := { lc_proc : Z; lc_pgd : Z; lc_modules : list LinuxModule }.

Record DwarfRegisters := { dr_ip : Z; dr_sp : Z; dr_bp : option Z }.

Definition dwarf_registers {A} `{Architecture A} `{Gimli} (arch : A) : DwarfRegisters :=
  match into_runtime arch with
  | RtX86_64 _ => {| dr_ip := X86_64_RA; dr_sp := X86_64_RSP; dr_bp := Some X86_64_RBP |}
  | RtAarch64 _ => {| dr_ip := AArch64_X30; dr_sp := AArch64_SP; dr_bp := None |}
  end.

(** [Context::find_module_by_address] *)
Definition lc_find_module_by_address {E} (self : LinuxContext) (addr : Z) : Res E (option LinuxModule) :=
  match binary_search_by_key addr lm_start (lc_modules self) with
  | inl i => let? m := unwrap (lc_modules self !! i) in Ok (Some m)
  | inr O => Ok None
  | inr (S i) =>
      let? module := unwrap (lc_modules self !! i) in
      Ok (if lm_contains module addr then Some module else None)
  end.

Section stack.
Context {bm : Build} {A : Type} `{Architecture A} `{Gimli}.
Variable fuel : nat.
Variable memchr : byte → bytes → option nat.
Variable from_utf8_error : bytes → string.
(** [memchr::memmem::find_iter] *)
Variable find_iter : bytes → bytes → list nat.
(** Whether messages of the level [Debug] are logged. *)
Variable log_debug : bool.
Variable self : Linux A.

(** ** [Context] *)

Definition push_linux_module (proc module : Z) : MutRes (list LinuxModule) VmError ControlFlow :=
  let! ' (start, end_) := mut_lift (linux_module_span fuel self module proc) in
  λ modules, (Ok Continue, (modules ++ [{| lm_start := start; lm_end := end_; lm_module := module |}])%list).

Definition linux_context_new (proc : Z) : VmResult (LinuxContext * EhFrames) :=
  let? pgd := linux_process_pgd self proc in
  let? modules := run_on [] (linux_process_for_each_module fuel memchr from_utf8_error self proc _
                               (push_linux_module proc)) in
  Ok ({| lc_proc := proc; lc_pgd := pgd; lc_modules := modules |},
      list_to_map ((λ m, (lm_module m, None)) <$> modules)).

Definition lc_read_value {T} (P : Pod T) (ctx : LinuxContext) (addr : Z) : VmResult T :=
  let (r, value) := linux_read_virtual_memory self (lc_pgd ctx) addr (bytes_of P (zeroed P)) in
  let? _ := r in Ok (pod_read P value).

(** ** Finding [.eh_frame] *)

(** A round of the loop of [discover_sections] for a byte [\x01] at [i];
    [None] goes on with the next one. *)
Definition try_header (ctx : LinuxContext) (module : LinuxModule) (ip : Z) (endian : RuntimeEndian)
    (vma_data : bytes) (i : nat) : VmResult (option LinuxUnwindData) :=
  let? header := slice_from_z vma_data (Z.of_nat i) in
  let? eh_frame_hdr := va_add_u64 (lm_start module) (Z.of_nat i) in
  let bases := {| base_eh_frame_hdr := eh_frame_hdr; base_eh_frame := None |} in
  let? eh_frame_addr :=
    match eh_frame_ptr header endian bases with
    | Ok (Direct addr) => Ok (Some addr)
    | Ok (Indirect addr) =>
        match lc_read_value pod_u64 ctx addr with
        | Ok addr => Ok (Some addr)
        | Err _ => Ok None
        | Panic => Panic
        | NoFuel => NoFuel
        end
    | Err _ => Ok None
    | Panic => Panic
    | NoFuel => NoFuel
    end in
  match eh_frame_addr with
  | None => Ok None
  | Some eh_frame_addr =>
      if negb (lm_contains module eh_frame_addr) then Ok None
      else
        let eh_frame_offset := as_u64 (va_sub eh_frame_addr (lm_start module)) in
        let bases := {| base_eh_frame_hdr := eh_frame_hdr; base_eh_frame := Some eh_frame_addr |} in
        let? eh_frame := slice_from_z vma_data eh_frame_offset in
        match fde_for_address eh_frame endian bases ip with
        | Ok _ =>
            Ok (Some {| lud_bases := bases; lud_endian := endian; lud_segment := vma_data;
                        lud_eh_frame := eh_frame_offset |})
        | Err _ => Ok None
        | Panic => Panic
        | NoFuel => NoFuel
        end
  end.

Fixpoint try_headers (ctx : LinuxContext) (module : LinuxModule) (ip : Z) (endian : RuntimeEndian)
    (vma_data : bytes) (positions : list nat) : VmResult LinuxUnwindData :=
  match positions with
  | [] => Err (vm_error_new (dyn_of_str "Unable to find .eh_frame section"))
  | i :: positions =>
      let? data := try_header ctx module ip endian vma_data i in
      match data with
      | Some data => Ok data
      | None => try_headers ctx module ip endian vma_data positions
      end
  end.

Definition discover_sections (ctx : LinuxContext) (module : LinuxModule) (ip : Z) : VmResult LinuxUnwindData :=
  let? _ := if log_debug
            then let? _ := linux_module_path fuel memchr from_utf8_error self (lm_module module) (lc_proc ctx) in Ok tt
            else Ok tt in
  let endian := arch_endianness (arch (raw_vcpus (bk_vcpus (l_backend self)))) in
  let? vma_data := vec_zeroed (as_u64 (va_sub (lm_end module) (lm_start module))) in
  let (r, vma_data) := linux_try_read_virtual_memory self (lc_pgd ctx) (lm_start module) vma_data in
  let? _ := r in
  try_headers ctx module ip endian vma_data (find_iter vma_data [Byte.x01]).

(** [OnceCell::get_or_try_init] on the cell of the module. *)
Definition linux_get_unwind_data (ctx : LinuxContext) (module : LinuxModule) (ip : Z)
  : MutRes EhFrames VmError LinuxUnwindData := λ eh_frames,
  match eh_frames !! lm_module module with
  | None => (Err (vm_error_new (dyn_of_str "unknown file")), eh_frames)
  | Some (Some data) => (Ok data, eh_frames)
  | Some None =>
      match discover_sections ctx module ip with
      | Ok data => (Ok data, <[lm_module module := Some data]> eh_frames)
      | Err e => (Err e, eh_frames)
      | Panic => (Panic, eh_frames)
      | NoFuel => (NoFuel, eh_frames)
      end
  end.

(** ** The next frame *)

Definition get_base_pointer (bp : option Z) : VmResult Z :=
  ok_or bp (vm_error_new (dyn_of_str "missing required register rpb")).

Definition unsupported_register (n : Z) (missing : string) : VmError :=
  vm_error_new (dyn_of_str ("getting " +:+ missing +:+ " requires unsupported register " +:+ format_dec n)).

(** The value of a register that [Register] rules may name. *)
Definition known_register (registers : DwarfRegisters) (register ip sp : Z) (bp : option Z) (missing : string)
  : VmResult Z :=
  if register =? dr_sp registers then Ok sp
  else if register =? dr_ip registers then Ok ip
  else if bool_decide (Some register = dr_bp registers) then get_base_pointer bp
  else Err (unsupported_register register missing).

Definition canonical_frame (registers : DwarfRegisters) (row : Row) (sp : Z) (bp : option Z) : VmResult Z :=
  match row_cfa row with
  | RegisterAndOffset reg offset =>
      if reg =? dr_sp registers then va_add_i64 sp offset
      else if bool_decide (Some reg = dr_bp registers) then
        let? bp := get_base_pointer bp in va_add_i64 bp offset
      else Err (unsupported_register reg "CFA")
  | CfaExpression => Err (vm_error_new (dyn_of_str "unsupported DWARF expression"))
  end.

Definition next_base_pointer (registers : DwarfRegisters) (ctx : LinuxContext) (row : Row) (cfa ip sp : Z)
    (bp : option Z) : VmResult (option Z) :=
  match dr_bp registers with
  | None => Ok None
  | Some bp_reg =>
      match row_register row bp_reg with
      | RuleSameValue => let? v := get_base_pointer bp in Ok (Some v)
      | RuleOffset offset =>
          let? addr := va_add_i64 cfa offset in
          let? v := lc_read_value pod_u64 ctx addr in Ok (Some v)
      | RuleValOffset offset => let? v := va_add_i64 cfa offset in Ok (Some v)
      | RuleRegister register =>
          let? v := known_register registers register ip sp bp "base pointer" in Ok (Some v)
      | RuleUndefined | RuleOther => Ok None
      end
  end.

(** [None] is the end of the stack. *)
Definition next_instruction_pointer (registers : DwarfRegisters) (ctx : LinuxContext) (row : Row)
    (cfa ip sp : Z) (bp : option Z) : VmResult (option Z) :=
  match row_register row (dr_ip registers) with
  | RuleUndefined => Ok None
  | RuleSameValue => Ok (Some ip)
  | RuleOffset offset =>
      let? addr := va_add_i64 cfa offset in
      let? v := lc_read_value pod_u64 ctx addr in Ok (Some v)
  | RuleValOffset offset => let? v := va_add_i64 cfa offset in Ok (Some v)
  | RuleRegister register =>
      let? v := known_register registers register ip sp bp "instruction pointer" in Ok (Some v)
  | RuleOther => Err (vm_error_new (dyn_of_str "cannot retrieve instruction pointer"))
  end.

(** The registers of the caller: the instruction pointer, the stack pointer,
    which is the canonical frame address, and the base pointer. *)
Definition linux_next_registers (registers : DwarfRegisters) (ctx : LinuxContext) (row : Row) (ip sp : Z)
    (bp : option Z) : VmResult (option (Z * Z * option Z)) :=
  let? cfa := canonical_frame registers row sp bp in
  let? next_bp := next_base_pointer registers ctx row cfa ip sp bp in
  let? next_ip := next_instruction_pointer registers ctx row cfa ip sp bp in
  Ok ((λ ip, (ip, cfa, next_bp)) <$> next_ip).

(** ** The iteration *)

(** The checks of [handle_invalid_address]: errors are logged. *)
Definition or_false (r : VmResult bool) : Res Never bool :=
  match r with
  | Ok b => Ok b
  | Err _ => Ok false
  | Panic => Panic
  | NoFuel => NoFuel
  end.

Definition find_vma (proc addr : Z) : VmResult (option Z) :=
  default_find_vma_by_address (linux_for_each_vma fuel self) (linux_vma_start self) (linux_vma_end self) proc addr.

Definition sp_is_valid (proc : Z) (frame : StackFrame) : Res Never bool :=
  or_false (let? vma := find_vma proc (frame_stack_pointer frame) in
            Ok (match vma with Some _ => true | None => false end)).

Definition ip_is_valid (proc : Z) (frame : StackFrame) : Res Never bool :=
  or_false (let? vma := find_vma proc (frame_instruction_pointer frame) in
            match vma with
            | Some vma => let? flags := linux_vma_flags self vma in Ok (is_exec flags)
            | None => Ok false
            end).

Definition with_frame (frame : StackFrame) (start size module : option Z) : StackFrame := {|
  frame_start := start; frame_size := size; frame_stack_pointer := frame_stack_pointer frame;
  frame_instruction_pointer := frame_instruction_pointer frame; frame_module := module;
|}.

Section iter.
Context {St : Type}.
Variable f : StackFrame → MutRes St VmError ControlFlow.

(** [match f(frame)?] with an error for the frames that would follow. *)
Definition frame_then (frame : StackFrame) (err : VmError) : MutRes St VmError unit :=
  let! c := f frame in
  match c with
  | Continue => mut_lift (Err err)
  | Break => mut_ret tt
  end.

Definition linux_handle_invalid_address (proc : Z) (frame : StackFrame) : MutRes St VmError unit :=
  if va_is_kernel (frame_instruction_pointer frame)
  then frame_then frame (vm_of_str "kernel unwinding is not supported")
  else
    let! sp_valid := mut_lift (from_never (sp_is_valid proc frame)) in
    let! ip_valid := mut_lift (from_never (ip_is_valid proc frame)) in
    if sp_valid && ip_valid : bool
    then frame_then (with_frame frame None None None) (vm_of_str "unwinding through JIT is unsupported")
    else
      mut_lift (Err (vm_error_with_context
        ("invalid instruction pointer: 0x" +:+ format_hex (frame_instruction_pointer frame))
        (dyn_of_str "this is probably a bug"))).

(** The loop of [iter].  The cache of the common information entries is only
    passed to [gimli]. *)
Fixpoint iter_loop (n : nat) (registers : DwarfRegisters) (ctx : LinuxContext) (eh_frames : EhFrames)
    (frame : StackFrame) (base_pointer : option Z) : MutRes St VmError unit :=
  match n with
  | O => mut_lift NoFuel
  | S n =>
      let! found := mut_lift (lc_find_module_by_address ctx (frame_instruction_pointer frame)) in
      match found with
      | None => linux_handle_invalid_address (lc_proc ctx) frame
      | Some module =>
          let ip := frame_instruction_pointer frame in
          let (data, eh_frames) := linux_get_unwind_data ctx module ip eh_frames in
          let! data := mut_lift data in
          let! eh_frame := mut_lift (eh_frame data) in
          match fde_for_address eh_frame (lud_endian data) (lud_bases data) ip with
          | Ok fde =>
              let frame := with_frame frame (Some (initial_address fde)) (Some (fde_len fde))
                             (Some (lm_module module)) in
              let! c := f frame in
              if is_break c then mut_ret tt
              else
                (* [unwrap] *)
                match unwind_info_for_address fde eh_frame (lud_endian data) (lud_bases data) ip with
                | Ok row =>
                    let! next := mut_lift (linux_next_registers registers ctx row ip
                                             (frame_stack_pointer frame) base_pointer) in
                    match next with
                    | None => mut_ret tt
                    | Some (ip, sp, bp) =>
                        iter_loop n registers ctx eh_frames
                          {| frame_start := frame_start frame; frame_size := frame_size frame;
                             frame_stack_pointer := sp; frame_instruction_pointer := ip;
                             frame_module := frame_module frame |} bp
                    end
                | Err _ | Panic => mut_lift Panic
                | NoFuel => mut_lift NoFuel
                end
          | Err _ =>
              let! _ := f (with_frame frame None None (Some (lm_module module))) in mut_ret tt
          | Panic => mut_lift Panic
          | NoFuel => mut_lift NoFuel
          end
      end
  end.

Definition callstack_iter (n : nat) (proc ip sp : Z) (bp : option Z) : MutRes St VmError unit :=
  let! ' (ctx, eh_frames) := mut_lift (linux_context_new proc) in
  iter_loop n (dwarf_registers (arch (raw_vcpus (bk_vcpus (l_backend self))))) ctx eh_frames
    {| frame_start := None; frame_size := None; frame_stack_pointer := sp; frame_instruction_pointer := ip;
       frame_module := None |} bp.
End iter.

(** [process_callstack_with_regs] of the trait. *)
Definition linux_process_callstack_with_regs (n : nat) (proc ip sp : Z) (bp : option Z) : ForEach StackFrame :=
  λ _ f, callstack_iter f n proc ip sp bp.
End stack.
