(* ===== verification/LinuxStackSpec.v ===== *)
(** * The frames of a stack on Linux

    What the search for [.eh_frame] guarantees, and the frames of a stack as a
    relation, with the unwind data that is known of the modules of the frames
    before; the iteration of the code visits these frames. *)

From S2P Require Import Prelude Rust Layout Addr Endian Error Mem Text Registers Mmu Arch ArchSpec Backend Symbols SymbolsSpec.
From S2P Require Import Os OsSpec Pointer LinuxProfile Linux LinuxSpec Intervals LinuxStack.

Lemma lc_find_module_by_address_spec {E} ctx addr :
  disjoint_intervals lm_start lm_end (lc_modules ctx) →
  lc_find_module_by_address (E:=E) ctx addr = Ok (interval_at lm_start lm_end (lc_modules ctx) addr).
Proof.
  intros Hd. pose proof (interval_search lm_start lm_end (lc_modules ctx) addr Hd) as Hs.
  unfold lc_find_module_by_address. destruct (binary_search_by_key _ _ _) as [i|[|i]].
  - destruct Hs as (x & -> & ->). done.
  - by rewrite Hs.
  - destruct Hs as (x & -> & ->). done.
Qed.

Section walk.
Context {bm : Build} {A : Type} `{Architecture A} `{Gimli}.
Variable fuel : nat.
Variable memchr : byte → bytes → option nat.
Variable from_utf8_error : bytes → string.
Variable find_iter : bytes → bytes → list nat.
Variable log_debug : bool.
Variable self : Linux A.

Notation discover_sections := (discover_sections fuel memchr from_utf8_error find_iter log_debug self).
Notation linux_get_unwind_data := (linux_get_unwind_data fuel memchr from_utf8_error find_iter log_debug self).
Notation iter_loop := (iter_loop fuel memchr from_utf8_error find_iter log_debug self).
Notation linux_context_new := (linux_context_new fuel memchr from_utf8_error self).

(** ** The search for [.eh_frame] *)

(** What is found lies in the module and describes the function at [ip]. *)
Definition describes (module : LinuxModule) (ip : Z) (data : LinuxUnwindData) : Prop :=
  ∃ section addr fde, eh_frame (E:=VmError) data = Ok section ∧
    base_eh_frame (lud_bases data) = Some addr ∧ lm_start module <= addr < lm_end module ∧
    fde_for_address section (lud_endian data) (lud_bases data) ip = Ok fde.

Lemma try_header_describes ctx module ip endian vma_data i data :
  try_header self ctx module ip endian vma_data i = Ok (Some data) → describes module ip data.
Proof.
  unfold try_header. intros Ht. inv_ok. destruct v1 as [addr|]; [|done].
  destruct (lm_contains module addr) eqn:Hc; [|done]. cbn [negb] in Ht. inv_ok.
  destruct (fde_for_address _ _ _ _) as [fde| | |] eqn:Hf; [|done..]. inv_ok. subst data.
  eexists _, addr, fde. cbn. split; [exact Hv2|]. split; [done|]. split; [|exact Hf].
  unfold lm_contains in Hc. lia.
Qed.

Lemma try_headers_describes ctx module ip endian vma_data positions data :
  try_headers self ctx module ip endian vma_data positions = Ok data → describes module ip data.
Proof.
  induction positions as [|i positions IH]; cbn [try_headers]; [done|]. intros Ht. inv_ok.
  destruct v as [d|]; [|by apply IH]. inv_ok. subst d. by eapply try_header_describes.
Qed.

Lemma discover_sections_describes ctx module ip data :
  discover_sections ctx module ip = Ok data → describes module ip data.
Proof.
  unfold LinuxStack.discover_sections. intros Hd. inv_ok.
  destruct (linux_try_read_virtual_memory _ _ _ _) as [r vma_data]. inv_ok. by eapply try_headers_describes.
Qed.

(** ** The frames of a stack *)

Definition linux_caller (frame : StackFrame) (ip sp : Z) : StackFrame := {|
  frame_start := frame_start frame; frame_size := frame_size frame; frame_stack_pointer := sp;
  frame_instruction_pointer := ip; frame_module := frame_module frame;
|}.

Definition described (frame : StackFrame) (m : LinuxModule) (fde : Fde) : StackFrame :=
  with_frame frame (Some (initial_address fde)) (Some (fde_len fde)) (Some (lm_module m)).

Notation module_at ctx frame :=
  (interval_at lm_start lm_end (lc_modules ctx) (frame_instruction_pointer frame)).

(** The unwind data of a module for a frame: what was found for a frame of the
    module before, if any, else what the search for this frame finds. *)
Definition module_data (ctx : LinuxContext) (known : gmap Z LinuxUnwindData) (m : LinuxModule) (ip : Z)
  : VmResult LinuxUnwindData :=
  match known !! lm_module m with
  | Some data => Ok data
  | None => discover_sections ctx m ip
  end.

(** The unwind data of the frame and the section in it. *)
Inductive frame_data (ctx : LinuxContext) (known : gmap Z LinuxUnwindData) (frame : StackFrame) (m : LinuxModule)
    (data : LinuxUnwindData) (section : bytes) : Prop :=
| FrameData :
    module_at ctx frame = Some m →
    module_data ctx known m (frame_instruction_pointer frame) = Ok data →
    eh_frame (E:=VmError) data = Ok section →
    frame_data ctx known frame m data section.

Notation frame_fde data section frame :=
  (fde_for_address section (lud_endian data) (lud_bases data) (frame_instruction_pointer frame)).
Notation frame_info fde data section frame :=
  (unwind_info_for_address fde section (lud_endian data) (lud_bases data) (frame_instruction_pointer frame)).

(** What unwinding the frame gives: the description of its function and its
    row. *)
Inductive frame_row (ctx : LinuxContext) (known : gmap Z LinuxUnwindData) (frame : StackFrame) (m : LinuxModule)
    (data : LinuxUnwindData) (fde : Fde) (row : Row) : Prop :=
| FrameRow section :
    frame_data ctx known frame m data section → frame_fde data section frame = Ok fde →
    frame_info fde data section frame = Ok row →
    frame_row ctx known frame m data fde row.

(** The frames of the stack from [frame] on, and how the walk ends, when the
    unwind data of some modules is known from the frames before. *)
Inductive LinuxWalk (registers : DwarfRegisters) (ctx : LinuxContext)
  : gmap Z LinuxUnwindData → StackFrame → option Z → list StackFrame → VmResult unit → Prop :=
| LinuxWalkKernel known frame bp :
    module_at ctx frame = None → va_is_kernel (frame_instruction_pointer frame) = true →
    LinuxWalk registers ctx known frame bp [frame] (Err (vm_of_str "kernel unwinding is not supported"))
| LinuxWalkJit known frame bp :
    module_at ctx frame = None → va_is_kernel (frame_instruction_pointer frame) = false →
    sp_is_valid fuel self (lc_proc ctx) frame = Ok true → ip_is_valid fuel self (lc_proc ctx) frame = Ok true →
    LinuxWalk registers ctx known frame bp [with_frame frame None None None]
      (Err (vm_of_str "unwinding through JIT is unsupported"))
| LinuxWalkInvalid known frame bp sp_valid ip_valid :
    module_at ctx frame = None → va_is_kernel (frame_instruction_pointer frame) = false →
    sp_is_valid fuel self (lc_proc ctx) frame = Ok sp_valid → ip_is_valid fuel self (lc_proc ctx) frame = Ok ip_valid →
    sp_valid && ip_valid = false →
    LinuxWalk registers ctx known frame bp []
      (Err (vm_error_with_context
         ("invalid instruction pointer: 0x" +:+ format_hex (frame_instruction_pointer frame))
         (dyn_of_str "this is probably a bug")))
| LinuxWalkNoSection known frame bp m err :
    module_at ctx frame = Some m →
    module_data ctx known m (frame_instruction_pointer frame) = Err err →
    LinuxWalk registers ctx known frame bp [] (Err err)
| LinuxWalkNoFde known frame bp m data section err :
    frame_data ctx known frame m data section → frame_fde data section frame = Err err →
    LinuxWalk registers ctx known frame bp [with_frame frame None None (Some (lm_module m))] (Ok tt)
| LinuxWalkNoRow known frame bp m data section fde err :
    frame_data ctx known frame m data section → frame_fde data section frame = Ok fde →
    frame_info fde data section frame = Err err →
    LinuxWalk registers ctx known frame bp [described frame m fde] Panic
| LinuxWalkUnsupported known frame bp m data fde row err :
    frame_row ctx known frame m data fde row →
    linux_next_registers self registers ctx row (frame_instruction_pointer frame) (frame_stack_pointer frame) bp = Err err →
    LinuxWalk registers ctx known frame bp [described frame m fde] (Err err)
| LinuxWalkOutermost known frame bp m data fde row :
    frame_row ctx known frame m data fde row →
    linux_next_registers self registers ctx row (frame_instruction_pointer frame) (frame_stack_pointer frame) bp = Ok None →
    LinuxWalk registers ctx known frame bp [described frame m fde] (Ok tt)
| LinuxWalkCaller known frame bp m data fde row ip sp bp' l last :
    frame_row ctx known frame m data fde row →
    linux_next_registers self registers ctx row (frame_instruction_pointer frame) (frame_stack_pointer frame) bp
      = Ok (Some (ip, sp, bp')) →
    LinuxWalk registers ctx (<[lm_module m := data]> known) (linux_caller (described frame m fde) ip sp) bp' l last →
    LinuxWalk registers ctx known frame bp (described frame m fde :: l) last.

(** ** The cells *)

(** Every module has a cell, which holds what is known of it. *)
Definition cells_ok (ctx : LinuxContext) (known : gmap Z LinuxUnwindData) (eh_frames : EhFrames) : Prop :=
  ∀ m, m ∈ lc_modules ctx → eh_frames !! lm_module m = Some (known !! lm_module m).

Lemma linux_get_unwind_data_spec ctx known eh_frames m ip :
  cells_ok ctx known eh_frames → m ∈ lc_modules ctx →
  (linux_get_unwind_data ctx m ip eh_frames).1 = module_data ctx known m ip ∧
  ∀ data, module_data ctx known m ip = Ok data →
    cells_ok ctx (<[lm_module m := data]> known) (linux_get_unwind_data ctx m ip eh_frames).2.
Proof.
  intros Hc Hm. unfold LinuxStack.linux_get_unwind_data, module_data. rewrite (Hc m Hm).
  destruct (known !! lm_module m) as [data'|] eqn:Hk; cbn [fst snd].
  - split; [done|]. intros data [= <-]. by rewrite insert_id.
  - destruct (discover_sections ctx m ip) as [data| | |]; cbn [fst snd]; (split; [done|]); [|done..].
    intros data' [= <-] m' Hm'. destruct (decide (lm_module m' = lm_module m)) as [->|Hne].
    + by rewrite !lookup_insert_eq.
    + rewrite !lookup_insert_ne by done. by apply Hc.
Qed.

Lemma module_at_in ctx frame m : module_at ctx frame = Some m → m ∈ lc_modules ctx.
Proof. by intros [? _]%interval_at_elem. Qed.

(** ** The iteration *)

Section iter.
Context {St : Type} (f : StackFrame → MutRes St VmError ControlFlow).

Lemma frame_then_iterate frame err s : frame_then f frame err s = iterate f [frame] (Err err) s.
Proof. unfold frame_then. cbn [iterate]. unfold mut_bind. by destruct (f frame s) as [[[]| | |] s']. Qed.

(** A round of the loop in a module that has unwind data. *)
Lemma iter_loop_data n registers ctx known eh_frames frame bp s m data section :
  disjoint_intervals lm_start lm_end (lc_modules ctx) → cells_ok ctx known eh_frames →
  frame_data ctx known frame m data section →
  ∃ eh_frames', cells_ok ctx (<[lm_module m := data]> known) eh_frames' ∧
    iter_loop f (S n) registers ctx eh_frames frame bp s =
    match frame_fde data section frame with
    | Ok fde =>
        (let! c := f (described frame m fde) in
         if is_break c then mut_ret tt
         else
           match frame_info fde data section frame with
           | Ok row =>
               let! next := mut_lift (linux_next_registers self registers ctx row (frame_instruction_pointer frame)
                                        (frame_stack_pointer frame) bp) in
               match next with
               | None => mut_ret tt
               | Some (ip, sp, bp) =>
                   iter_loop f n registers ctx eh_frames' (linux_caller (described frame m fde) ip sp) bp
               end
           | Err _ | Panic => mut_lift Panic
           | NoFuel => mut_lift NoFuel
           end) s
    | Err _ => (let! _ := f (with_frame frame None None (Some (lm_module m))) in mut_ret tt) s
    | Panic => (Panic, s)
    | NoFuel => (NoFuel, s)
    end.
Proof.
  intros Hd Hc [Hat Hdata Hsec].
  destruct (linux_get_unwind_data_spec ctx known eh_frames m (frame_instruction_pointer frame) Hc (module_at_in _ _ _ Hat))
    as [Hg Hcells].
  exists (linux_get_unwind_data ctx m (frame_instruction_pointer frame) eh_frames).2. split; [by apply Hcells|].
  cbn [LinuxStack.iter_loop]. unfold mut_bind at 1, mut_lift at 1.
  rewrite lc_find_module_by_address_spec, Hat by done.
  destruct (linux_get_unwind_data ctx m (frame_instruction_pointer frame) eh_frames) as [r cells]. cbn [fst snd] in *.
  rewrite Hg, Hdata. unfold mut_bind at 1, mut_lift at 1. unfold mut_bind at 1, mut_lift at 1. rewrite Hsec.
  by destruct (frame_fde data section frame).
Qed.

Lemma iter_loop_row n registers ctx known eh_frames frame bp s m data fde row :
  disjoint_intervals lm_start lm_end (lc_modules ctx) → cells_ok ctx known eh_frames →
  frame_row ctx known frame m data fde row →
  ∃ eh_frames', cells_ok ctx (<[lm_module m := data]> known) eh_frames' ∧
    iter_loop f (S n) registers ctx eh_frames frame bp s =
    (let! c := f (described frame m fde) in
     if is_break c then mut_ret tt
     else
       let! next := mut_lift (linux_next_registers self registers ctx row (frame_instruction_pointer frame)
                                (frame_stack_pointer frame) bp) in
       match next with
       | None => mut_ret tt
       | Some (ip, sp, bp) => iter_loop f n registers ctx eh_frames' (linux_caller (described frame m fde) ip sp) bp
       end) s.
Proof.
  intros Hd Hc [section Hdata Hfde Hinfo].
  destruct (iter_loop_data n registers ctx known eh_frames frame bp s m data section Hd Hc Hdata) as (cells & Hcells & Heq).
  exists cells. split; [done|]. by rewrite Heq, Hfde, Hinfo.
Qed.

(** A round in which the instruction pointer is in no module. *)
Lemma iter_loop_invalid n registers ctx eh_frames frame bp s :
  disjoint_intervals lm_start lm_end (lc_modules ctx) → module_at ctx frame = None →
  iter_loop f (S n) registers ctx eh_frames frame bp s = linux_handle_invalid_address fuel self f (lc_proc ctx) frame s.
Proof.
  intros Hd Hat. cbn [LinuxStack.iter_loop]. unfold mut_bind at 1, mut_lift at 1.
  by rewrite lc_find_module_by_address_spec, Hat by done.
Qed.

Lemma iter_loop_walk registers ctx known frame bp l last :
  disjoint_intervals lm_start lm_end (lc_modules ctx) →
  LinuxWalk registers ctx known frame bp l last →
  ∀ n eh_frames s, cells_ok ctx known eh_frames → (length l < n)%nat →
  iter_loop f n registers ctx eh_frames frame bp s = iterate f l last s.
Proof.
  intros Hd. induction 1 as [known frame bp Hat Hk|known frame bp Hat Hk Hsp Hip|known frame bp sv iv Hat Hk Hsp Hip Hv
    |known frame bp m err Hat He|known frame bp m data section err Hdata Hfde
    |known frame bp m data section fde err Hdata Hfde Hinfo|known frame bp m data fde row err Hr Hn
    |known frame bp m data fde row Hr Hn|known frame bp m data fde row ip sp bp' l last Hr Hn Hw IH];
    intros n eh_frames s Hc Hlen; (destruct n as [|n]; [cbn in Hlen; lia|]).
  1, 2, 3: rewrite iter_loop_invalid by done; unfold linux_handle_invalid_address; rewrite Hk.
  - by rewrite <- frame_then_iterate.
  - unfold mut_bind, mut_lift. rewrite Hsp, Hip. cbn [from_never map_err andb]. by rewrite <- frame_then_iterate.
  - unfold mut_bind, mut_lift. rewrite Hsp, Hip. cbn [from_never map_err]. by rewrite Hv.
  - cbn [LinuxStack.iter_loop]. unfold mut_bind at 1, mut_lift at 1. rewrite lc_find_module_by_address_spec, Hat by done.
    destruct (linux_get_unwind_data_spec ctx known eh_frames m (frame_instruction_pointer frame) Hc (module_at_in _ _ _ Hat))
      as [Hg _].
    destruct (linux_get_unwind_data _ _ _ _) as [r cells]. cbn [fst] in Hg. by rewrite Hg, He.
  - destruct (iter_loop_data n registers ctx known eh_frames frame bp s m data section Hd Hc Hdata) as (cells & _ & ->).
    rewrite Hfde. cbn [iterate]. unfold mut_bind. by destruct (f _ s) as [[[]| | |] s'].
  - destruct (iter_loop_data n registers ctx known eh_frames frame bp s m data section Hd Hc Hdata) as (cells & _ & ->).
    rewrite Hfde. cbn [iterate]. unfold mut_bind. destruct (f _ s) as [[c| | |] s']; [|done..].
    destruct (is_break c); [done|]. by rewrite Hinfo.
  - destruct (iter_loop_row n registers ctx known eh_frames frame bp s m data fde row Hd Hc Hr) as (cells & _ & ->).
    cbn [iterate]. unfold mut_bind at 1 3. destruct (f _ s) as [[c| | |] s']; [|done..].
    destruct (is_break c); [done|]. unfold mut_bind, mut_lift. by rewrite Hn.
  - destruct (iter_loop_row n registers ctx known eh_frames frame bp s m data fde row Hd Hc Hr) as (cells & _ & ->).
    cbn [iterate]. unfold mut_bind at 1 3. destruct (f _ s) as [[c| | |] s']; [|done..].
    destruct (is_break c); [done|]. unfold mut_bind, mut_lift. by rewrite Hn.
  - destruct (iter_loop_row n registers ctx known eh_frames frame bp s m data fde row Hd Hc Hr) as (cells & Hcells & ->).
    cbn [iterate]. unfold mut_bind at 1 3. destruct (f _ s) as [[c| | |] s']; [|done..].
    destruct (is_break c); [done|]. unfold mut_bind, mut_lift. rewrite Hn. apply IH; [done|]. cbn in Hlen. lia.
Qed.
End iter.

Lemma context_new_cells proc ctx eh_frames :
  linux_context_new proc = Ok (ctx, eh_frames) → cells_ok ctx ∅ eh_frames.
Proof.
  unfold LinuxStack.linux_context_new. intros Hn. inv_ok. subst ctx eh_frames. intros m Hm. cbn [lc_modules] in *.
  rewrite lookup_empty. clear Hv0. induction v0 as [|x l IH]; [by apply elem_of_nil in Hm|].
  cbn. destruct (decide (lm_module m = lm_module x)) as [->|Hne]; [by rewrite lookup_insert_eq|].
  rewrite lookup_insert_ne by done. apply IH. apply elem_of_cons in Hm as [->|]; done.
Qed.

(** C25. The walk of the stack of a Linux process visits the frames of the stack,
    from the innermost to the one whose return address is undefined, or up to
    the frame that cannot be unwound, and fails with the reason.  The unwind data
    of a module is the one that the search finds for the first of its frames, and
    no other search is made in the module: a later frame whose function this data
    does not describe, where a search could find other data or fail, is visited
    without the bounds of its function, and ends the walk without an error.  An
    instruction pointer in no module ends it with an error, after the frame when
    it is in the kernel, or in code and with a valid stack pointer.  One round per
    frame and one more are enough. *)
Theorem linux_callstack_walk n proc ip sp bp ctx eh_frames l last :
  linux_context_new proc = Ok (ctx, eh_frames) →
  disjoint_intervals lm_start lm_end (lc_modules ctx) →
  LinuxWalk (dwarf_registers (arch (raw_vcpus (bk_vcpus (l_backend self))))) ctx ∅
    {| frame_start := None; frame_size := None; frame_stack_pointer := sp; frame_instruction_pointer := ip;
       frame_module := None |} bp l last →
  (length l < n)%nat →
  IteratesTo (linux_process_callstack_with_regs fuel memchr from_utf8_error find_iter log_debug self n proc ip sp bp)
    l last.
Proof.
  intros Hctx Hd Hw Hn St f s. unfold linux_process_callstack_with_regs, callstack_iter.
  unfold mut_bind at 1, mut_lift at 1. rewrite Hctx.
  by apply (iter_loop_walk f _ ctx ∅ _ bp l last Hd Hw); [eapply context_new_cells|].
Qed.
End walk.

(** ** A stack *)

Section witness.
#[local] Existing Instance debug_build.

(** A description of two functions of 16 bytes, the first of which is the
    outermost; both have a frame of 16 bytes, and an address of the second one is
    not described. *)
#[local] Instance sample_gimli : Gimli := {|
  GimliError := unit; Fde := Z; Row := Z;
  eh_frame_ptr := λ _ _ bases, Ok (Direct (base_eh_frame_hdr bases + 8));
  fde_for_address := λ _ _ _ ip, if ip =? 0x40001c then Err tt else Ok (ip - ip mod 16);
  initial_address := id;
  fde_len := λ _, 16;
  unwind_info_for_address := λ fde _ _ _ _, Ok fde;
  row_cfa := λ _, RegisterAndOffset 7 16;
  row_register := λ row register,
    if register =? 16 then if row =? 0x400000 then RuleUndefined else RuleOffset (-8) else RuleSameValue;
  X86_64_RA := 16; X86_64_RSP := 7; X86_64_RBP := 6; AArch64_X30 := 30; AArch64_SP := 31;
|}.

(** The positions of the first byte of the needle. *)
Definition sample_find_iter (hay needle : bytes) : list nat :=
  snd <$> List.filter (λ p : byte * nat, bool_decide (Some p.1 = head needle)) (zip hay (seq 0 (length hay))).

Definition linux_stack : Linux X86_64 := {|
  l_backend := sample_backend
    ([(0x2020, 0x4000); (0x4000, 0x5000); (0x5000, 0x400000); (0x5008, 0x400020); (0x5018, 0x6000);
      (0x400000, 1); (0x9008, 0x400004); (0x9108, 0x40001c);
      (0x6008, 0x7000); (0x7000, 0x7100); (0x7010, 0x8000); (0x7100, 0x7200); (0x7110, 0x8100);
      (0x7200, 0x7200); (0x7210, 0x8200); (0x8000, 0x6362696c); (0x8100, 0x62696c); (0x8200, 0x2f)]);
  l_symbols_loader := empty_loader; l_kpgd := 0; l_kaslr := 0;
  l_profile := {| linux_fast_syms := {| per_cpu_offset := 0; current_task := None; init_task := 0; linux_banner := 0 |};
                  lp_layouts := LinuxLayouts_new {|
                    ms_buffer := []; ms_symbols := []; ms_addresses := [];
                    ms_types := <["mm_struct"%string := sample_struct "mm_struct" [("mmap", 0); ("pgd", 8)]%string]>
                                  (ms_types sample_linux_types) |} |};
|}.

Definition linux_stack_module : LinuxModule := {| lm_start := 0x400000; lm_end := 0x400020; lm_module := 0x5000 |}.

Definition linux_stack_context : LinuxContext :=
  {| lc_proc := 0x2000; lc_pgd := 0; lc_modules := [linux_stack_module] |}.

Definition linux_stack_data : LinuxUnwindData := {|
  lud_bases := {| base_eh_frame_hdr := 0x400000; base_eh_frame := Some 0x400008 |};
  lud_endian := Little; lud_segment := Byte.x01 :: replicate 31 Byte.x00; lud_eh_frame := 8;
|}.

Notation linux_stack_discover := (discover_sections 10 find_byte (λ _, EmptyString) sample_find_iter true linux_stack).

Lemma linux_stack_discovered :
  linux_stack_discover linux_stack_context linux_stack_module 0x400014 = Ok linux_stack_data.
Proof. vm_compute. reflexivity. Qed.

Definition linux_stack_frame (start module size : option Z) (ip sp : Z) : StackFrame := {|
  frame_start := start; frame_size := size; frame_stack_pointer := sp; frame_instruction_pointer := ip;
  frame_module := module;
|}.

Lemma linux_stack_first start module size sp :
  frame_data 10 find_byte (λ _, EmptyString) sample_find_iter true linux_stack linux_stack_context ∅
    (linux_stack_frame start module size 0x400014 sp) linux_stack_module linux_stack_data
    (drop 8 (lud_segment linux_stack_data)).
Proof. constructor; [vm_compute; reflexivity| |reflexivity]. exact linux_stack_discovered. Qed.

Lemma linux_stack_later start module size ip sp :
  0x400000 <= ip < 0x400020 →
  frame_data 10 find_byte (λ _, EmptyString) sample_find_iter true linux_stack linux_stack_context
    (<[0x5000 := linux_stack_data]> ∅) (linux_stack_frame start module size ip sp) linux_stack_module linux_stack_data
    (drop 8 (lud_segment linux_stack_data)).
Proof.
  intros Hip. constructor; [|by unfold module_data; rewrite lookup_insert_eq|reflexivity].
  unfold interval_at. cbn. unfold holds_addr. cbn. by replace (_ && _) with true by lia.
Qed.

(** A stack of two frames, and one whose second frame is not described by the
    data found for the first. *)
Lemma linux_callstack_walk_witness :
  IteratesTo (linux_process_callstack_with_regs 10 find_byte (λ _, EmptyString) sample_find_iter true linux_stack 3
                0x2000 0x400014 0x9000 (Some 0))
    [linux_stack_frame (Some 0x400010) (Some 0x5000) (Some 16) 0x400014 0x9000;
     linux_stack_frame (Some 0x400000) (Some 0x5000) (Some 16) 0x400004 0x9010] (Ok tt) ∧
  IteratesTo (linux_process_callstack_with_regs 10 find_byte (λ _, EmptyString) sample_find_iter true linux_stack 3
                0x2000 0x400014 0x9100 (Some 0))
    [linux_stack_frame (Some 0x400010) (Some 0x5000) (Some 16) 0x400014 0x9100;
     linux_stack_frame None (Some 0x5000) None 0x40001c 0x9110] (Ok tt).
Proof.
  assert (Hctx : linux_context_new 10 find_byte (λ _, EmptyString) linux_stack 0x2000
                 = Ok (linux_stack_context, <[0x5000 := None]> ∅)) by (vm_compute; reflexivity).
  split.
  - refine (linux_callstack_walk 10 find_byte (λ _, EmptyString) sample_find_iter true linux_stack 3 0x2000 0x400014 0x9000
      (Some 0) linux_stack_context (<[0x5000 := None]> ∅) _ (Ok tt) Hctx _ _ _).
    + split; repeat constructor.
    + refine (LinuxWalkCaller 10 find_byte (λ _, EmptyString) sample_find_iter true linux_stack _ linux_stack_context _
        (linux_stack_frame None None None 0x400014 0x9000) (Some 0) linux_stack_module linux_stack_data 0x400010 0x400010
        0x400004 0x9010 (Some 0) _ _ _ _ _).
      { eapply FrameRow; [exact (linux_stack_first _ _ _ 0x9000)|reflexivity|reflexivity]. }
      { vm_compute. reflexivity. }
      refine (LinuxWalkOutermost 10 find_byte (λ _, EmptyString) sample_find_iter true linux_stack _ linux_stack_context _
        (linux_stack_frame (Some 0x400010) (Some 0x5000) (Some 16) 0x400004 0x9010) (Some 0) linux_stack_module
        linux_stack_data 0x400000 0x400000 _ _).
      { eapply FrameRow; [exact (linux_stack_later _ _ _ 0x400004 0x9010 ltac:(lia))|reflexivity|reflexivity]. }
      vm_compute. reflexivity.
    + cbn. lia.
  - refine (linux_callstack_walk 10 find_byte (λ _, EmptyString) sample_find_iter true linux_stack 3 0x2000 0x400014 0x9100
      (Some 0) linux_stack_context (<[0x5000 := None]> ∅) _ (Ok tt) Hctx _ _ _).
    + split; repeat constructor.
    + refine (LinuxWalkCaller 10 find_byte (λ _, EmptyString) sample_find_iter true linux_stack _ linux_stack_context _
        (linux_stack_frame None None None 0x400014 0x9100) (Some 0) linux_stack_module linux_stack_data 0x400010 0x400010
        0x40001c 0x9110 (Some 0) _ _ _ _ _).
      { eapply FrameRow; [exact (linux_stack_first _ _ _ 0x9100)|reflexivity|reflexivity]. }
      { vm_compute. reflexivity. }
      refine (LinuxWalkNoFde 10 find_byte (λ _, EmptyString) sample_find_iter true linux_stack _ linux_stack_context _
        (linux_stack_frame (Some 0x400010) (Some 0x5000) (Some 16) 0x40001c 0x9110) (Some 0) linux_stack_module
        linux_stack_data (drop 8 (lud_segment linux_stack_data)) tt _ _).
      { exact (linux_stack_later _ _ _ 0x40001c 0x9110 ltac:(lia)). }
      reflexivity.
    + cbn. lia.
Defined.
End witness.
