(* ===== verification/Dwarf.v ===== *)
(** * Types of DWARF ([vminer-core/src/symbols/dwarf/mod.rs])

    The entries of a unit are decoded by the [gimli] crate, which is a
    parameter; the model reads types from the entries, resolves them, and
    collects the fields of structures.  Logging is left out. *)

From S2P Require Import Prelude Rust Layout Addr Error Text Symbols.

(** ** [gimli] *)

(** The constants that the code names; [TagOther] stands for the other tags. *)
Inductive DwTag :=
| TagTypedef | TagBaseType | TagPointerType | TagStructureType | TagUnionType | TagArrayType
| TagSubroutineType | TagSubprogram | TagVariable | TagSubrangeType | TagOther (tag : Z).

Inductive DwAt :=
| AtType | AtByteSize | AtDataMemberLocation | AtDataBitOffset | AtEncoding | AtDeclaration
| AtUpperBound | AtCount | AtName.

#[export] Instance dw_tag_eq_dec : EqDecision DwTag.
Proof. solve_decision. Defined.

Inductive DwAte := AteSigned | AteSignedChar | AteOther (ate : Z).

(** [AttributeValue]: the variants that the code matches on, and the methods it
    calls; [string_value] is followed by [to_string]. *)
Class GimliAttr := {
  GError : Type;
  AttributeValue : Type;
  unit_ref : AttributeValue → option Z;
  udata_value : AttributeValue → option Z;
  sdata_value : AttributeValue → option Z;
  encoding_value : AttributeValue → option DwAte;
  flag_value : AttributeValue → option bool;
  string_value : AttributeValue → option (Res GError string);
}.

Section dwarf.
Context {bm : Build} `{GimliAttr}.

(** [DebuggingInformationEntry] *)
Record DwarfEntry := {
  de_offset : Z;
  de_tag : DwTag;
  attr_value : DwAt → Res GError (option AttributeValue);
}.

(** [EntriesTreeNode]: the iteration over the children ends, or fails. *)
Record DwarfNode := { dn_entry : DwarfEntry; dn_children : list DwarfEntry; dn_end : Res GError unit }.

(** ** Errors and attributes *)

Inductive ResolveTypeError := ResolveGimli (err : GError) | MissingAttr (attr : DwAt) | WrongAttrType.

Definition ResolveTypeResult := Res ResolveTypeError.

(** The trait [DwarfAttribute]. *)
Record DwarfAttribute (T : Type) := { DW_AT : DwAt; da_convert : AttributeValue → option T }.
Arguments DW_AT {T}. Arguments da_convert {T}.

Definition DwAtType : DwarfAttribute Z := {| DW_AT := AtType; da_convert := unit_ref |}.
Definition DwAtByteSize : DwarfAttribute Z := {| DW_AT := AtByteSize; da_convert := udata_value |}.
Definition DwAtDataMemberLocation : DwarfAttribute Z :=
  {| DW_AT := AtDataMemberLocation; da_convert := udata_value |}.
Definition DwAtDataBitOffset : DwarfAttribute Z := {| DW_AT := AtDataBitOffset; da_convert := udata_value |}.
Definition DwAtEncoding : DwarfAttribute DwAte := {| DW_AT := AtEncoding; da_convert := encoding_value |}.
Definition DwAtDeclaration : DwarfAttribute bool := {| DW_AT := AtDeclaration; da_convert := flag_value |}.
Definition DwAtUpperBound : DwarfAttribute Z := {| DW_AT := AtUpperBound; da_convert := sdata_value |}.
Definition DwAtCount : DwarfAttribute Z := {| DW_AT := AtCount; da_convert := udata_value |}.

Record BaseType := { bt_len : Z; bt_signed : bool }.

Definition to_primitive (self : BaseType) : TypeKind :=
  match bt_len self, bt_signed self with
  | 1, true => TPrimitive I8
  | 1, false => TPrimitive U8
  | 2, true => TPrimitive I16
  | 2, false => TPrimitive U16
  | 4, true => TPrimitive I32
  | 4, false => TPrimitive U32
  | 8, true => TPrimitive I64
  | 8, false => TPrimitive U64
  | _, _ => TUnknown
  end.

Inductive FieldOffset := FieldBytes (offset : Z) | FieldBits (offset : Z).

Notation DwarfField := (FieldOffset * option string * Z)%type.

Section entry.
Variable self : DwarfEntry.

Definition try_read_attr (name : DwAt) : ResolveTypeResult (option AttributeValue) :=
  map_err ResolveGimli (attr_value self name).

Definition read_attr (name : DwAt) : ResolveTypeResult AttributeValue :=
  let? value := try_read_attr name in ok_or value (MissingAttr name).

Definition de_read {T} (A : DwarfAttribute T) : ResolveTypeResult T :=
  let? value := read_attr (DW_AT A) in ok_or (da_convert A value) WrongAttrType.

Definition try_read {T} (A : DwarfAttribute T) : ResolveTypeResult (option T) :=
  let? value := try_read_attr (DW_AT A) in
  match value with
  | Some value =>
      match da_convert A value with
      | Some value => Ok (Some value)
      | None => Err WrongAttrType
      end
  | None => Ok None
  end.

Definition try_read_name : ResolveTypeResult (option string) :=
  let? value := try_read_attr AtName in
  match value with
  | Some value =>
      let? name := ok_or (string_value value) WrongAttrType in
      let? name := map_err ResolveGimli name in
      Ok (Some name)
  | None => Ok None
  end.

(** ** Reading types *)

Definition read_base_type : ResolveTypeResult BaseType :=
  let? len := de_read DwAtByteSize in
  let? ate := de_read DwAtEncoding in
  Ok {| bt_len := len; bt_signed := match ate with AteSigned | AteSignedChar => true | AteOther _ => false end |}.

Definition read_struct_member : ResolveTypeResult DwarfField :=
  let? location := try_read DwAtDataMemberLocation in
  let? field_offset := match location with
                       | Some offset => Ok (FieldBytes offset)
                       | None => let? offset := de_read DwAtDataBitOffset in Ok (FieldBits offset)
                       end in
  let? name := try_read_name in
  let? typ_offset := de_read DwAtType in
  Ok (field_offset, name, typ_offset).

Definition read_union_member : ResolveTypeResult (option string * Z) :=
  let? name := try_read_name in
  let? typ_offset := de_read DwAtType in
  Ok (name, typ_offset).
End entry.

Record DwarfStruct := { ds_size : Z; ds_fields : list DwarfField }.

Inductive DwarfType :=
| DwPrimitive (p : BaseType)
| DwStruct (s : DwarfStruct)
| DwStructDeclaration
| DwUnion (s : DwarfStruct)
| DwPtr (offset : option Z)
| DwTypedef (offset : Z)
| DwArray (offset size : Z)
| DwFunction.

(** [while let Some(node) = children.next()?] *)
Fixpoint for_children {T} (f : DwarfEntry → ResolveTypeResult T) (children : list DwarfEntry)
    (last : Res GError unit) : ResolveTypeResult (list T) :=
  match children with
  | [] => let? _ := map_err ResolveGimli last in Ok []
  | child :: children =>
      let? x := f child in
      let? l := for_children f children last in
      Ok (x :: l)
  end.

Section node.
Variable self : DwarfNode.

Definition read_struct : ResolveTypeResult (option DwarfStruct) :=
  let? declaration := try_read (dn_entry self) DwAtDeclaration in
  match declaration with
  | Some true => Ok None
  | _ =>
      let? size := try_read (dn_entry self) DwAtByteSize in
      let? fields := for_children read_struct_member (dn_children self) (dn_end self) in
      Ok (Some {| ds_size := default 0 size; ds_fields := fields |})
  end.

Definition read_union : ResolveTypeResult DwarfStruct :=
  let? size := try_read (dn_entry self) DwAtByteSize in
  let? fields := for_children (λ child, let? ' (name, ty) := read_union_member child in
                                        Ok (FieldBytes 0, name, ty)) (dn_children self) (dn_end self) in
  Ok {| ds_size := default 0 size; ds_fields := fields |}.

(** The number of elements that a subrange gives. *)
Definition read_subrange (child : DwarfEntry) : ResolveTypeResult Z :=
  if decide (de_tag child = TagSubrangeType) then
    let? bound := try_read child DwAtUpperBound in
    match bound with
    | Some bound => Ok (if bound <? 0 then 0 else bound + 1)
    | None => let? count := try_read child DwAtCount in Ok (default 0 count)
    end
  else Err WrongAttrType.

Fixpoint array_dim (dim : Z) (children : list DwarfEntry) : ResolveTypeResult Z :=
  match children with
  | [] => let? _ := map_err ResolveGimli (dn_end self) in Ok dim
  | child :: children =>
      let? size := read_subrange child in
      let? dim := checked_width 32 (dim * wrap_u32 size) in
      array_dim dim children
  end.

Definition read_array : ResolveTypeResult (Z * Z) :=
  let? typ := de_read (dn_entry self) DwAtType in
  let? dim := array_dim 1 (dn_children self) in
  Ok (typ, dim).

Definition read_type : ResolveTypeResult (option (option string * DwarfType)) :=
  let entry := dn_entry self in
  let? name := try_read_name entry in
  let? typ :=
    match de_tag entry with
    | TagTypedef => let? offset := de_read entry DwAtType in Ok (Some (DwTypedef offset))
    | TagBaseType => let? p := read_base_type entry in Ok (Some (DwPrimitive p))
    | TagPointerType => let? offset := try_read entry DwAtType in Ok (Some (DwPtr offset))
    | TagStructureType =>
        let? s := read_struct in
        Ok (Some match s with Some s => DwStruct s | None => DwStructDeclaration end)
    | TagUnionType => let? s := read_union in Ok (Some (DwUnion s))
    | TagArrayType => let? ' (typ, size) := read_array in Ok (Some (DwArray typ size))
    | TagSubroutineType => Ok (Some DwFunction)
    | TagSubprogram | TagVariable | _ => Ok None
    end in
  Ok ((λ typ, (name, typ)) <$> typ).
End node.

(** ** Resolving types *)

(** The field [typ] is a [Cell], which [get_type] fills. *)
Record TypeEntry := {
  te_offset : Z;
  te_name : option string;
  te_dwarf_type : DwarfType;
  te_typ : option TypeKind;
}.

Notation TypeList := (list TypeEntry).

Definition set_typ (ty : TypeKind) (self : TypeEntry) : TypeEntry :=
  {| te_offset := te_offset self; te_name := te_name self; te_dwarf_type := te_dwarf_type self;
     te_typ := Some ty |}.

(** The index of the entry. *)
Definition find_by_offset (self : TypeList) (offset : Z) : option nat :=
  match binary_search_by_key offset te_offset self with
  | inl index => if self !! index then Some index else None
  | inr _ => None
  end.

(** [classify_type], with the function [get_type] that it calls. *)
Definition classify_type (get_type : Z → MutRes TypeList Never (option TypeKind)) (typ : TypeEntry)
  : MutRes TypeList Never (option TypeKind) :=
  let name := te_name typ in
  match te_dwarf_type typ with
  | DwPrimitive p => mut_ret (Some (to_primitive p))
  | DwStruct _ | DwStructDeclaration => mut_ret (TStruct <$> name)
  | DwUnion _ => mut_ret (TUnion <$> name)
  | DwPtr None => mut_ret (Some (TPointer TUnknown))
  | DwPtr (Some offset) =>
      let! inner := get_type offset in mut_ret (Some (TPointer (default TUnknown inner)))
  | DwTypedef offset => get_type offset
  | DwArray offset size => let! inner := get_type offset in mut_ret ((λ inner, TArray inner size) <$> inner)
  | DwFunction => mut_ret (Some TFunction)
  end.

(** The recursion follows the references between the types. *)
Fixpoint get_type (fuel : nat) (offset : Z) : MutRes TypeList Never (option TypeKind) := λ types,
  match fuel with
  | O => (NoFuel, types)
  | S fuel =>
      match (i ← find_by_offset types offset; typ ← types !! i; Some (i, typ)) with
      | None => (Ok None, types)
      | Some (i, typ) =>
          match te_typ typ with
          | Some ty => (Ok (Some ty), types)
          | None =>
              match classify_type (get_type fuel) typ types with
              | (Ok (Some ty), types) => (Ok (Some ty), alter (set_typ ty) i types)
              | (r, types) => (r, types)
              end
          end
      end
  end.

(** ** Fields of structures *)

Section fields.
Variable fuel : nat.

(** [collect_fields_into]; [n] bounds the nesting of anonymous fields. *)
Fixpoint collect_fields_into (n : nat) (base_offset : Z) (s : list DwarfField) (fields : list StructField)
  : MutRes TypeList Never (list StructField) :=
  match n with
  | O => mut_lift NoFuel
  | S n =>
      (fix go (s : list DwarfField) (fields : list StructField) : MutRes TypeList Never (list StructField) :=
         match s with
         | [] => mut_ret fields
         | (FieldBits _, _, _) :: s => go s fields
         | (FieldBytes offset, name, typ_offset) :: s =>
             let! offset := mut_lift (add_u64 base_offset offset) in
             let! fields :=
               match name with
               | Some name =>
                   let! typ := get_type fuel typ_offset in
                   mut_ret (fields ++ [{| sf_name := name; sf_offset := offset; sf_typ := default TUnknown typ |}])
               | None => λ types,
                   match (i ← find_by_offset types typ_offset; types !! i) with
                   | Some ty =>
                       match te_dwarf_type ty with
                       | DwStruct s | DwUnion s => collect_fields_into n offset (ds_fields s) fields types
                       | _ => (Ok fields, types)
                       end
                   | None => (Ok fields, types)
                   end
               end in
             go s fields
         end) s fields
  end.

Definition collect_fields (n : nat) (s : DwarfStruct) : MutRes TypeList Never (list StructField) :=
  collect_fields_into n 0 (ds_fields s) [].

(** ** Units *)

(** The first pass of [fill]: the types of the unit. *)
Fixpoint read_types (nodes : list DwarfNode) (last : Res GError unit) : Res GError TypeList :=
  match nodes with
  | [] => let? _ := last in Ok []
  | node :: nodes =>
      match read_type node with
      | Ok (Some (name, dwarf_type)) =>
          let? types := read_types nodes last in
          Ok ({| te_offset := de_offset (dn_entry node); te_name := name; te_dwarf_type := dwarf_type;
                 te_typ := None |} :: types)
      | Ok None => read_types nodes last
      | Err (ResolveGimli err) => Err err
      | Err _ => read_types nodes last
      | Panic => Panic
      | NoFuel => NoFuel
      end
  end.

(** The structures with a name, in order. *)
Fixpoint unit_structs (n : nat) (entries : list TypeEntry) : MutRes TypeList Never (list Struct) :=
  match entries with
  | [] => mut_ret []
  | typ :: entries =>
      match te_name typ, te_dwarf_type typ with
      | Some name, DwStruct s =>
          let! fields := collect_fields n s in
          let! structs := unit_structs n entries in
          mut_ret ({| st_size := ds_size s; st_name := name; st_fields := fields |} :: structs)
      | _, _ => unit_structs n entries
      end
  end.

(** The children of the root of a unit, and how their iteration ends. *)
Record DwarfUnit := { du_nodes : list DwarfNode; du_end : Res GError unit }.

Definition fill (n : nat) (unit : DwarfUnit) (symbols : ModuleSymbolsBuilder) : Res GError ModuleSymbolsBuilder :=
  let? types := read_types (du_nodes unit) (du_end unit) in
  let? structs := from_never (unit_structs n types types).1 in
  Ok (builder_extend_types symbols structs).

(** The units, each of which may not be readable, and how their iteration
    ends.  The types of the units before an error stay in [symbols]. *)
Fixpoint load_types_from_dwarf (n : nat) (units : list (Res GError DwarfUnit)) (last : Res GError unit)
  : MutRes ModuleSymbolsBuilder GError unit := λ symbols,
  match units with
  | [] => (last, symbols)
  | unit :: units =>
      match (let? unit := unit in fill n unit symbols) with
      | Ok symbols => load_types_from_dwarf n units last symbols
      | Err e => (Err e, symbols)
      | Panic => (Panic, symbols)
      | NoFuel => (NoFuel, symbols)
      end
  end.
End fields.
End dwarf.
