(* ===== verification/PdbTypes.v ===== *)
(** * Types and symbols of PDB files ([vminer-core/src/symbols/pdb/mod.rs])

    The streams of the file are decoded by the [pdb] crate: the model takes the
    records that its iterators give.  Logging is left out. *)

From S2P Require Import Prelude Rust Layout Addr Error Text Symbols.

(** ** The [pdb] crate *)

Inductive ClassKind := ClassKindStruct | ClassKindOther.

(** [TypeData], with the fields that are used. *)
Inductive TypeData :=
| PdbArray (element_type : Z) (dimensions : list Z)
| PdbBitfield
| PdbClass (kind : ClassKind) (name : bytes) (fields : option Z) (size : Z)
| PdbEnumeration (underlying_type : Z)
| PdbModifier (underlying_type : Z)
| PdbProcedure
| PdbPointer (underlying_type : Z)
| PdbUnion (name : bytes)
| PdbFieldList (fields : list TypeData)
| PdbMember (field_type : Z) (name : bytes) (offset : Z)
| PdbOtherType.

(** [SymbolData]; [rva] is the result of [to_rva]. *)
Inductive SymbolData :=
| PdbPublic (rva : option Z) (name : bytes)
| PdbOtherSymbol.

(** [core::str::from_utf8(name).ok()] *)
Definition utf8_name (name : bytes) : option string :=
  if utf8_valid name then Some (bytes_str name) else None.

(** ** Primitive types *)

Definition ptr_of (p : Primitive) : TypeKind := TPointer (TPrimitive p).

Definition classify_primitive {E} (ty : Z) : Res E (option TypeKind) :=
  if negb (ty <? 0x1000) then Panic
  else
    Ok match ty with
       | 0x03 => Some (TPrimitive Void)
       | 0x603 => Some (ptr_of Void)
       | 0x10 | 0x68 => Some (TPrimitive I8)
       | 0x610 | 0x668 => Some (ptr_of I8)
       | 0x20 | 0x69 => Some (TPrimitive U8)
       | 0x620 | 0x669 => Some (ptr_of U8)
       | 0x11 | 0x72 => Some (TPrimitive I16)
       | 0x611 | 0x672 => Some (ptr_of I16)
       | 0x21 | 0x73 => Some (TPrimitive U16)
       | 0x621 | 0x673 => Some (ptr_of U16)
       | 0x12 | 0x74 => Some (TPrimitive I32)
       | 0x612 | 0x674 => Some (ptr_of I32)
       | 0x22 | 0x75 => Some (TPrimitive U32)
       | 0x622 | 0x675 => Some (ptr_of U32)
       | 0x13 | 0x76 => Some (TPrimitive I64)
       | 0x613 | 0x676 => Some (ptr_of I64)
       | 0x23 | 0x77 => Some (TPrimitive U64)
       | 0x623 | 0x677 => Some (ptr_of U64)
       | _ => None
       end.

(** ** Resolving types *)

Section types.
Context {bm : Build}.

(** [types] is a vector of pairs of the type and of a [Cell]. *)
Record PdbTypeList := { ptl_offset : Z; ptl_types : list (TypeData * option TypeKind) }.

(** [self.types.get(index.0 as usize - self.offset)]: the position and the pair. *)
Definition ptl_lookup (self : PdbTypeList) (index : Z)
  : Res Never (option (nat * (TypeData * option TypeKind))) :=
  let? i := sub_u64 index (ptl_offset self) in
  Ok (if i <? Z.of_nat (length (ptl_types self))
      then (λ ty, (Z.to_nat i, ty)) <$> ptl_types self !! Z.to_nat i
      else None).

Definition ptl_get (self : PdbTypeList) (index : Z) : Res Never (option TypeData) :=
  let? ty := ptl_lookup self index in Ok ((λ ty, ty.2.1) <$> ty).

Definition set_cell (i : nat) (ty : option TypeKind) (self : PdbTypeList) : PdbTypeList :=
  {| ptl_offset := ptl_offset self; ptl_types := alter (λ p, (p.1, ty)) i (ptl_types self) |}.

Definition mul_all (l : list Z) : Res Never Z :=
  foldl (λ acc x, let? acc := acc in checked_width 32 (acc * x)) (Ok 1) l.

(** [classify_type], with the function [get_type] that it calls. *)
Definition pdb_classify_type (get_type : Z → MutRes PdbTypeList Never (option TypeKind)) (typ : TypeData)
  : MutRes PdbTypeList Never (option TypeKind) :=
  match typ with
  | PdbArray element_type dimensions =>
      let! typ := get_type element_type in
      match typ with
      | Some typ => let! dim := mut_lift (mul_all dimensions) in mut_ret (Some (TArray typ dim))
      | None => mut_ret None
      end
  | PdbBitfield => mut_ret (Some TBitfield)
  | PdbClass _ name _ _ => mut_ret (TStruct <$> utf8_name name)
  | PdbEnumeration underlying_type => get_type underlying_type
  | PdbModifier underlying_type => get_type underlying_type
  | PdbProcedure => mut_ret (Some TFunction)
  | PdbPointer underlying_type =>
      let! typ := get_type underlying_type in mut_ret (TPointer <$> typ)
  | PdbUnion name => mut_ret (TUnion <$> utf8_name name)
  | _ => mut_ret None
  end.

(** The recursion follows the references between the types. *)
Fixpoint pdb_get_type (fuel : nat) (index : Z) : MutRes PdbTypeList Never (option TypeKind) := λ types,
  match fuel with
  | O => (NoFuel, types)
  | S fuel =>
      if index <? 0x1000 then (classify_primitive index, types)
      else
        match ptl_lookup types index with
        | Ok None => (Ok None, types)
        | Ok (Some (i, (type_data, cell))) =>
            match cell with
            | Some typ => (Ok (Some typ), types)
            | None =>
                match pdb_classify_type (pdb_get_type fuel) type_data types with
                | (Ok resolved_type, types) => (Ok resolved_type, set_cell i resolved_type types)
                | (r, types) => (r, types)
                end
            end
        | Err e => (Err e, types)
        | Panic => (Panic, types)
        | NoFuel => (NoFuel, types)
        end
  end.

Section load.
Variable fuel : nat.

(** ** Fields of structures *)

Fixpoint pdb_collect_fields (fields : list TypeData) : MutRes PdbTypeList Never (list StructField) :=
  match fields with
  | [] => mut_ret []
  | PdbMember field_type name offset :: fields =>
      let! typ := pdb_get_type fuel field_type in
      let! l := pdb_collect_fields fields in
      mut_ret match utf8_name name with
              | Some name => {| sf_name := name; sf_offset := offset; sf_typ := default TUnknown typ |} :: l
              | None => l
              end
  | _ :: fields => pdb_collect_fields fields
  end.

(** The structure that a type gives, if it does. *)
Definition pdb_struct (item : TypeData) : MutRes PdbTypeList Never (option Struct) :=
  match item with
  | PdbClass kind name fields size =>
      match utf8_name name, fields with
      | Some name, Some fields => λ types,
          match ptl_get types fields with
          | Ok (Some members) =>
              match kind, members with
              | ClassKindStruct, PdbFieldList fields =>
                  (let! fields := pdb_collect_fields fields in
                   mut_ret (Some {| st_size := size; st_name := name; st_fields := fields |})) types
              | _, _ => (Ok None, types)
              end
          | Ok None => (Ok None, types)
          | Err e => (Err e, types)
          | Panic => (Panic, types)
          | NoFuel => (NoFuel, types)
          end
      | _, _ => mut_ret None
      end
  | _ => mut_ret None
  end.

Fixpoint pdb_structs (items : list TypeData) : MutRes PdbTypeList Never (list Struct) :=
  match items with
  | [] => mut_ret []
  | item :: items =>
      let! s := pdb_struct item in
      let! structs := pdb_structs items in
      mut_ret match s with Some s => s :: structs | None => structs end
  end.

(** ** Loading *)

Section error.
Context {PdbError : Type}.

(** The items of the type stream, with their index, and how it ends.  [i] is
    the position and [offset] the index of the first item. *)
Fixpoint read_stream (i : Z) (offset : option Z) (items : list (Z * Res PdbError TypeData))
    (last : Res PdbError unit) : Res PdbError (option Z * list (TypeData * option TypeKind)) :=
  match items with
  | [] => let? _ := last in Ok (offset, [])
  | (index, ty) :: items =>
      let first := default index offset in
      if negb (index =? first + i) then Panic
      else
        let? ty := ty in
        let? ' (offset, types) := read_stream (i + 1) (Some first) items last in
        Ok (offset, (ty, None) :: types)
  end.

Definition pdb_load_types (type_information : Res PdbError (list (Z * Res PdbError TypeData) * Res PdbError unit))
    (module : ModuleSymbolsBuilder) : Res PdbError ModuleSymbolsBuilder :=
  let? ' (items, last) := type_information in
  let? ' (offset, types) := read_stream 0 None items last in
  let type_list := {| ptl_offset := default 0x1000 offset; ptl_types := types |} in
  let? structs := from_never (pdb_structs (fst <$> types) type_list).1 in
  Ok (builder_extend_types module structs).

(** The closure of [load_syms]. *)
Definition push_public (module : ModuleSymbolsBuilder) (sym : SymbolData) : ModuleSymbolsBuilder :=
  match sym with
  | PdbPublic (Some addr) name =>
      match utf8_name name with
      | Some name => builder_push module addr name
      | None => module
      end
  | _ => module
  end.

(** The symbols before an error stay in [module]. *)
Fixpoint push_symbols (items : list (Res PdbError SymbolData)) (last : Res PdbError unit)
  : MutRes ModuleSymbolsBuilder PdbError unit := λ module,
  match items with
  | [] => (last, module)
  | Ok sym :: items => push_symbols items last (push_public module sym)
  | Err e :: _ => (Err e, module)
  | Panic :: _ => (Panic, module)
  | NoFuel :: _ => (NoFuel, module)
  end.

Definition load_syms (global_symbols : Res PdbError (list (Res PdbError SymbolData) * Res PdbError unit))
    (address_map : Res PdbError unit) : MutRes ModuleSymbolsBuilder PdbError unit :=
  let! ' (symbols, last) := mut_lift global_symbols in
  let! _ := mut_lift address_map in
  push_symbols symbols last.
End error.
End load.
End types.
