(* ===== verification/TypeGraph.v ===== *)
(** * Resolution of types with a cache

    The types of DWARF and of PDB files refer to each other; both readers follow
    the references and keep what they have resolved.  [resolve] follows the
    references without keeping anything; an implementation of [TypeMemo] computes
    the same. *)

From S2P Require Import Prelude Rust Symbols.

(** What a type is: known, or made from the type it refers to. *)
Inductive TypeShape :=
| Value (t : option TypeKind)
| Through (next : Z) (f : option TypeKind → option TypeKind).

(** The types by key; [None] is where the code panics. *)
Notation TypeGraph := (Z → option TypeShape).

(** The type after at most [n] references. *)
Fixpoint resolve (n : nat) (graph : TypeGraph) (k : Z) : option (option TypeKind) :=
  match n with
  | O => None
  | S n =>
      match graph k with
      | Some (Value t) => Some t
      | Some (Through next f) => f <$> resolve n graph next
      | None => None
      end
  end.

Lemma resolve_mono n m graph k r : (n <= m)%nat → resolve n graph k = Some r → resolve m graph k = Some r.
Proof.
  revert m k r. induction n as [|n IH]; intros m k r Hm; [done|]. destruct m as [|m]; [lia|]. cbn [resolve].
  destruct (graph k) as [[t|next f]|]; [done| |done].
  destruct (resolve n graph next) as [r'|] eqn:Hr; [|done]. by rewrite (IH m next r') by (lia || done).
Qed.

Lemma resolve_agree n m graph k r r' : resolve n graph k = Some r → resolve m graph k = Some r' → r = r'.
Proof.
  intros Hn Hm. destruct (Nat.le_ge_cases n m) as [Hle|Hle].
  - rewrite (resolve_mono n m graph k r Hle Hn) in Hm. congruence.
  - rewrite (resolve_mono m n graph k r' Hle Hm) in Hn. congruence.
Qed.

(** A reader of types that keeps what it resolves in a state: [memo_cell] is what
    it has kept for a key.  Only types are kept, not failures. *)
Class TypeMemo (St : Type) := {
  memo_graph : TypeGraph;
  memo_valid : St → Prop;
  memo_cell : St → Z → option TypeKind;
  memo_store : Z → option TypeKind → St → St;
  memo_get : nat → Z → MutRes St Never (option TypeKind);
}.

Class TypeMemoLaws (St : Type) `{TypeMemo St} : Prop := {
  memo_store_valid : ∀ k t s, memo_valid s → memo_valid (memo_store k t s);
  memo_store_cell : ∀ k t s k' t', memo_valid s →
    memo_cell (memo_store k t s) k' = Some t' → memo_cell s k' = Some t' ∨ k' = k ∧ t = Some t';
  memo_get_cached : ∀ n k s t, memo_valid s → memo_cell s k = Some t → memo_get (S n) k s = (Ok (Some t), s);
  memo_get_value : ∀ n k s t, memo_valid s → memo_cell s k = None → memo_graph k = Some (Value t) →
    memo_get (S n) k s = (Ok t, memo_store k t s);
  memo_get_through : ∀ n k s next f r s', memo_valid s → memo_cell s k = None →
    memo_graph k = Some (Through next f) → memo_get n next s = (Ok r, s') →
    memo_get (S n) k s = (Ok (f r), memo_store k (f r) s');
}.

Section memo.
Context {St : Type} `{TypeMemoLaws St}.

(** What is kept is right. *)
Definition memo_ok (s : St) : Prop :=
  memo_valid s ∧ ∀ k t, memo_cell s k = Some t → ∃ n, resolve n memo_graph k = Some (Some t).

Lemma memo_store_ok k r s n :
  memo_ok s → resolve n memo_graph k = Some r → memo_ok (memo_store k r s).
Proof.
  intros [Hv Hc] Hr. split; [by apply memo_store_valid|]. intros k' t' Hk'.
  apply memo_store_cell in Hk' as [Hk'|[-> ->]]; [by apply Hc|by exists n|done].
Qed.

(** Reading with the cache computes what following the references computes. *)
Lemma memo_get_resolve n k r s :
  resolve n memo_graph k = Some r → memo_ok s → ∃ s', memo_get n k s = (Ok r, s') ∧ memo_ok s'.
Proof.
  revert k r s. induction n as [|n IH]; intros k r s Hr Hs; [done|].
  destruct (memo_cell s k) as [t|] eqn:Hc.
  - exists s. rewrite (memo_get_cached n k s t) by (done || apply Hs). split; [|done].
    destruct (proj2 Hs k t Hc) as [m Hm]. by rewrite (resolve_agree _ _ _ _ _ _ Hr Hm).
  - pose proof Hr as Hr'. cbn [resolve] in Hr'. destruct (memo_graph k) as [[t|next f]|] eqn:Hg; [| |done].
    + injection Hr' as ->. rewrite (memo_get_value n k s r) by (done || apply Hs).
      eexists. split; [done|]. by eapply memo_store_ok.
    + destruct (resolve n memo_graph next) as [r'|] eqn:Hn; [|done]. injection Hr' as <-.
      destruct (IH next r' s Hn Hs) as (s' & Hget & Hs').
      rewrite (memo_get_through n k s next f r' s') by (done || apply Hs).
      eexists. split; [done|]. by eapply memo_store_ok.
Qed.
End memo.
