(* ===== verification/DwarfSpec.v ===== *)
(** * The types read from DWARF

    What [fill] adds to the symbols of a module, against a reference that
    follows the references between types without a cache and flattens anonymous
    fields. *)

From S2P Require Import Prelude Rust Layout Addr Error Text Symbols Dwarf TypeGraph.

(** The entries of a unit are read in the order of their offsets. *)
Definition offsets_sorted (types : list TypeEntry) : Prop := StronglySorted Z.lt (te_offset <$> types).

Definition entry_at (types : list TypeEntry) (offset : Z) : option TypeEntry :=
  List.find (λ e, te_offset e =? offset) types.

(** ** Lookups *)

Lemma offsets_sorted_inj types i j x y :
  offsets_sorted types → types !! i = Some x → types !! j = Some y → te_offset x = te_offset y → i = j.
Proof.
  intros Hs Hi Hj He. assert (∀ i x, types !! i = Some x → (te_offset <$> types) !! i = Some (te_offset x)) as Hl
    by (intros ?? E; by rewrite list_lookup_fmap, E).
  destruct (Nat.lt_trichotomy i j) as [Hij|[Hij|Hij]]; [|done|].
  - pose proof (sorted_lookup _ _ _ _ _ _ Hs Hij (Hl _ _ Hi) (Hl _ _ Hj)). lia.
  - pose proof (sorted_lookup _ _ _ _ _ _ Hs Hij (Hl _ _ Hj) (Hl _ _ Hi)). lia.
Qed.

Lemma entry_at_lookup types i e offset :
  offsets_sorted types → types !! i = Some e → te_offset e = offset → entry_at types offset = Some e.
Proof.
  intros Hs Hi He. unfold entry_at. destruct (List.find _ types) as [e'|] eqn:Hf.
  - apply List.find_some in Hf as [Hin Ho]. apply list_elem_of_In, list_elem_of_lookup_1 in Hin as [j Hj].
    assert (i = j) as -> by (eapply offsets_sorted_inj; eauto; lia). congruence.
  - apply List.find_none with (x:=e) in Hf; [lia|]. apply list_elem_of_In. by eapply list_elem_of_lookup_2.
Qed.

Lemma find_by_offset_spec types offset :
  offsets_sorted types →
  match find_by_offset types offset with
  | Some i => ∃ e, types !! i = Some e ∧ te_offset e = offset ∧ entry_at types offset = Some e
  | None => entry_at types offset = None
  end.
Proof.
  intros Hs. assert (Hk : key_sorted te_offset types).
  { intros i j x y Hij Hi Hj. destruct (decide (i = j)) as [->|]; [simplify_eq; lia|]. assert (i < j)%nat as Hlt by lia.
    pose proof (sorted_lookup _ (te_offset <$> types) i j (te_offset x) (te_offset y) Hs Hlt) as Hl.
    rewrite !list_lookup_fmap, Hi, Hj in Hl. specialize (Hl eq_refl eq_refl). lia. }
  pose proof (binary_search_by_key_spec te_offset offset types Hk) as Hb. unfold find_by_offset.
  destruct (binary_search_by_key _ _ _) as [i|i].
  - destruct Hb as (e & Hi & He). rewrite Hi. exists e. split_and!; [done|done|by eapply entry_at_lookup].
  - destruct Hb as (_ & Hlo & Hhi). unfold entry_at. destruct (List.find _ types) as [e|] eqn:Hf; [|done].
    apply List.find_some in Hf as [Hin Ho]. apply list_elem_of_In, list_elem_of_lookup_1 in Hin as [j Hj].
    destruct (Nat.lt_ge_cases j i) as [Hji|Hji]; [pose proof (Hlo j e Hji Hj)|pose proof (Hhi j e Hji Hj)]; lia.
Qed.

(** ** The reference *)

(** The type of an entry, from the type it refers to. *)
Definition dwarf_shape (e : TypeEntry) : TypeShape :=
  match te_dwarf_type e with
  | DwPrimitive p => Value (Some (to_primitive p))
  | DwStruct _ | DwStructDeclaration => Value (TStruct <$> te_name e)
  | DwUnion _ => Value (TUnion <$> te_name e)
  | DwPtr None => Value (Some (TPointer TUnknown))
  | DwPtr (Some offset) => Through offset (λ r, Some (TPointer (default TUnknown r)))
  | DwTypedef offset => Through offset id
  | DwArray offset size => Through offset (fmap (λ t, TArray t size))
  | DwFunction => Value (Some TFunction)
  end.

Definition dwarf_graph (types : list TypeEntry) : TypeGraph := λ offset,
  Some match entry_at types offset with Some e => dwarf_shape e | None => Value None end.

(** The fields of a structure, with those of its anonymous fields at their
    place; [None] when the nesting is deeper than [n] or when an offset does not
    fit. *)
Fixpoint flat_fields (fuel n : nat) (types : list TypeEntry) (base : Z) (s : list (FieldOffset * option string * Z))
  : option (list StructField) :=
  match n with
  | O => None
  | S n =>
      (fix go (s : list (FieldOffset * option string * Z)) : option (list StructField) :=
         match s with
         | [] => Some []
         | (FieldBits _, _, _) :: s => go s
         | (FieldBytes offset, name, typ) :: s =>
             here ←
               (if (0 <=? base + offset) && (base + offset <? 2 ^ 64) then
                  match name with
                  | Some name =>
                      r ← resolve fuel (dwarf_graph types) typ;
                      Some [{| sf_name := name; sf_offset := base + offset; sf_typ := default TUnknown r |}]
                  | None =>
                      match te_dwarf_type <$> entry_at types typ with
                      | Some (DwStruct s | DwUnion s) => flat_fields fuel n types (base + offset) (ds_fields s)
                      | _ => Some []
                      end
                  end
                else None);
             rest ← go s;
             Some (here ++ rest)
         end) s
  end.

(** The structures of a unit that have a name. *)
Fixpoint flat_structs (fuel n : nat) (types entries : list TypeEntry) : option (list Struct) :=
  match entries with
  | [] => Some []
  | e :: entries =>
      match te_name e, te_dwarf_type e with
      | Some name, DwStruct s =>
          fields ← flat_fields fuel n types 0 (ds_fields s);
          rest ← flat_structs fuel n types entries;
          Some ({| st_size := ds_size s; st_name := name; st_fields := fields |} :: rest)
      | _, _ => flat_structs fuel n types entries
      end
  end.

(** ** The cache *)

Section memo.
Variable base : list TypeEntry.
Hypothesis base_sorted : offsets_sorted base.

(** An entry without what is kept in it. *)
Definition bare (e : TypeEntry) : TypeEntry :=
  {| te_offset := te_offset e; te_name := te_name e; te_dwarf_type := te_dwarf_type e; te_typ := None |}.

Definition dwarf_store (offset : Z) (t : option TypeKind) (types : list TypeEntry) : list TypeEntry :=
  match t with
  | Some t => (λ e, if te_offset e =? offset then set_typ t e else e) <$> types
  | None => types
  end.

#[export] Instance dwarf_memo : TypeMemo (list TypeEntry) := {|
  memo_graph := dwarf_graph base;
  memo_valid := λ types, bare <$> types = bare <$> base;
  memo_cell := λ types offset, e ← entry_at types offset; te_typ e;
  memo_store := dwarf_store;
  memo_get := get_type;
|}.

Lemma valid_offsets types : bare <$> types = bare <$> base → te_offset <$> types = te_offset <$> base.
Proof.
  intros Hv. assert (∀ l, te_offset <$> l = te_offset <$> (bare <$> l)) as Hb by (intros l; by rewrite <- list_fmap_compose).
  by rewrite Hb, Hv, <- Hb.
Qed.

Lemma valid_sorted types : bare <$> types = bare <$> base → offsets_sorted types.
Proof. intros Hv. unfold offsets_sorted. by rewrite valid_offsets. Qed.

Lemma valid_entry types i e :
  bare <$> types = bare <$> base → types !! i = Some e → ∃ e', base !! i = Some e' ∧ bare e = bare e'.
Proof.
  intros Hv Hi. assert ((bare <$> types) !! i = Some (bare e)) as Hb by (by rewrite list_lookup_fmap, Hi).
  rewrite Hv, list_lookup_fmap in Hb. destruct (base !! i) as [e'|]; [|done]. exists e'. split; [done|].
  apply (inj Some). symmetry. exact Hb.
Qed.

Lemma bare_shape e e' : bare e = bare e' → dwarf_shape e = dwarf_shape e'.
Proof. intros [= H1 H2 H3]. unfold dwarf_shape. by rewrite H2, H3. Qed.

Lemma entry_at_valid types offset :
  bare <$> types = bare <$> base → bare <$> entry_at types offset = bare <$> entry_at base offset.
Proof.
  intros Hv. pose proof (find_by_offset_spec types offset (valid_sorted types Hv)) as Hs.
  destruct (find_by_offset types offset) as [i|].
  - destruct Hs as (e & Hi & Ho & ->). destruct (valid_entry types i e Hv Hi) as (e' & Hi' & Hb).
    rewrite (entry_at_lookup base i e' offset) by (done || (injection Hb; congruence)). cbn. by rewrite Hb.
  - rewrite Hs. destruct (entry_at base offset) as [e|] eqn:He; [|done].
    apply List.find_some in He as [Hin Ho]. apply list_elem_of_In, list_elem_of_lookup_1 in Hin as [i Hi].
    destruct (valid_entry base i e) as (e' & _ & _); [done|done|].
    assert ((bare <$> types) !! i = Some (bare e)) as Hb by (by rewrite Hv, list_lookup_fmap, Hi).
    rewrite list_lookup_fmap in Hb. destruct (types !! i) as [e2|] eqn:Hi2; [|done]. injection Hb as Hb1 _ _.
    rewrite (entry_at_lookup types i e2 offset) in Hs; [done|by apply valid_sorted|done|lia].
Qed.

(** What [get_type] does with an entry that it finds. *)
Lemma get_type_entry n types offset i e :
  find_by_offset types offset = Some i → types !! i = Some e →
  get_type (S n) offset types =
  match te_typ e with
  | Some ty => (Ok (Some ty), types)
  | None =>
      match classify_type (get_type n) e types with
      | (Ok (Some ty), types) => (Ok (Some ty), alter (set_typ ty) i types)
      | (r, types) => (r, types)
      end
  end.
Proof. intros Hf Hi. cbn [get_type]. rewrite Hf. cbn. by rewrite Hi. Qed.

(** Filling the cell of the entry that was found. *)
Lemma alter_store types i e t :
  bare <$> types = bare <$> base → base !! i = Some e →
  alter (set_typ t) i types = dwarf_store (te_offset e) (Some t) types.
Proof.
  intros Hv Hi. apply list_eq. intros j. unfold dwarf_store. rewrite list_lookup_fmap.
  destruct (types !! j) as [x|] eqn:Hj; [|apply lookup_ge_None; rewrite length_alter; by apply lookup_ge_None in Hj].
  destruct (valid_entry types j x Hv Hj) as (x' & Hj' & Hb). injection Hb as Hb _ _.
  destruct (decide (i = j)) as [->|Hne].
  - rewrite list_lookup_alter, decide_True, Hj by done. cbn. simplify_eq. by replace (te_offset x =? te_offset e) with true by lia.
  - rewrite list_lookup_alter_ne, Hj by done. cbn. destruct (Z.eqb_spec (te_offset x) (te_offset e)) as [He|]; [|done].
    destruct Hne. eapply (offsets_sorted_inj base); eauto. congruence.
Qed.

Lemma find_by_offset_valid types offset :
  bare <$> types = bare <$> base →
  match entry_at types offset with
  | Some e => ∃ i e', find_by_offset types offset = Some i ∧ types !! i = Some e ∧ te_offset e = offset ∧
                      base !! i = Some e' ∧ bare e = bare e' ∧ entry_at base offset = Some e'
  | None => find_by_offset types offset = None ∧ entry_at base offset = None
  end.
Proof.
  intros Hv. pose proof (find_by_offset_spec types offset (valid_sorted types Hv)) as Hs.
  destruct (find_by_offset types offset) as [i|].
  - destruct Hs as (e & Hi & Ho & ->). destruct (valid_entry types i e Hv Hi) as (e' & Hi' & Hb).
    exists i, e'. split_and!; try done. eapply entry_at_lookup; [done|done|]. injection Hb. congruence.
  - rewrite Hs. split; [done|]. pose proof (entry_at_valid types offset Hv) as He. rewrite Hs in He.
    by destruct (entry_at base offset).
Qed.

Lemma dwarf_store_valid offset t types :
  bare <$> types = bare <$> base → bare <$> dwarf_store offset t types = bare <$> base.
Proof.
  intros <-. destruct t as [t|]; [|done]. cbn. rewrite <- list_fmap_compose. apply list_fmap_ext.
  intros _ e _. cbn. by destruct (_ =? _).
Qed.

Lemma entry_at_store offset t types offset' :
  entry_at (dwarf_store offset (Some t) types) offset' =
  (λ e, if te_offset e =? offset then set_typ t e else e) <$> entry_at types offset'.
Proof.
  unfold entry_at. cbn [dwarf_store]. induction types as [|e types IH]; [done|]. cbn.
  assert (te_offset (if te_offset e =? offset then set_typ t e else e) = te_offset e) as -> by (by destruct (_ =? _)).
  by destruct (te_offset e =? offset').
Qed.

(** The two cases of [get_type] for an entry that is not resolved. *)
Lemma get_type_shape n offset types e :
  bare <$> types = bare <$> base → entry_at types offset = Some e → te_typ e = None →
  get_type (S n) offset types =
  match dwarf_shape e with
  | Value t => (Ok t, dwarf_store offset t types)
  | Through next f =>
      match get_type n next types with
      | (Ok r, types') =>
          (Ok (f r), match f r with
                     | Some ty => match find_by_offset types offset with Some i => alter (set_typ ty) i types' | None => types' end
                     | None => types'
                     end)
      | (r, types') => (r, types')
      end
  end.
Proof.
  intros Hv He Ht. pose proof (find_by_offset_valid types offset Hv) as Hf. rewrite He in Hf.
  destruct Hf as (i & e' & Hf & Hi & Ho & Hi' & Hb & _). rewrite (get_type_entry n types offset i e Hf Hi), Ht, Hf.
  assert (Halter : ∀ t, alter (set_typ t) i types = dwarf_store offset (Some t) types).
  { intros t. rewrite (alter_store types i e') by done. f_equal. injection Hb. congruence. }
  unfold classify_type, dwarf_shape, mut_ret, mut_bind.
  destruct (te_dwarf_type e) as [p|s| |s|[o|]|o|o z|]; try (by rewrite <- Halter);
    try (destruct (te_name e) as [name|]; cbn [fmap option_fmap option_map]; [by rewrite <- Halter|done]).
  - destruct (get_type n o types) as [[r| | |] types']; done.
  - destruct (get_type n o types) as [[[r|]| | |] types']; done.
  - destruct (get_type n o types) as [[[r|]| | |] types']; done.
Qed.

(** [get_type] only changes the cells. *)
Lemma get_type_valid n offset types :
  bare <$> types = bare <$> base → bare <$> (get_type n offset types).2 = bare <$> base.
Proof.
  revert offset types. induction n as [|n IH]; intros offset types Hv; [done|].
  pose proof (find_by_offset_valid types offset Hv) as Hf.
  destruct (entry_at types offset) as [e|] eqn:He; [|destruct Hf as [Hf _]; cbn [get_type]; by rewrite Hf].
  destruct Hf as (i & e' & Hf & Hi & Ho & Hi' & Hb & _).
  destruct (te_typ e) as [t|] eqn:Ht; [by rewrite (get_type_entry n types offset i e Hf Hi), Ht|].
  rewrite (get_type_shape n offset types e Hv He Ht), Hf. destruct (dwarf_shape e) as [t|next f].
  { by apply dwarf_store_valid. }
  pose proof (IH next types Hv) as Hn. destruct (get_type n next types) as [[r| | |] types']; cbn in *; try done.
  destruct (f r) as [ty|]; [|done]. rewrite (alter_store types' i e') by done. by apply dwarf_store_valid.
Qed.

#[export] Instance dwarf_memo_laws : TypeMemoLaws (list TypeEntry).
Proof.
  split; cbn [memo_graph memo_valid memo_cell memo_store memo_get dwarf_memo].
  - intros k t s. apply dwarf_store_valid.
  - intros k [t|] s k' t' Hv; [|by left]. rewrite entry_at_store. destruct (entry_at s k') as [e|] eqn:He; [|done]. cbn.
    destruct (Z.eqb_spec (te_offset e) k) as [Hk|]; [|by left]. intros [= <-]. right. split; [|done].
    apply List.find_some in He as [_ Ho]. lia.
  - intros n k s t Hv Hc. pose proof (find_by_offset_valid s k Hv) as Hf.
    destruct (entry_at s k) as [e|]; [|done]. destruct Hf as (i & _ & Hf & Hi & _). cbn in Hc.
    rewrite (get_type_entry n s k i e Hf Hi). by rewrite Hc.
  - intros n k s t Hv Hc Hg. pose proof (find_by_offset_valid s k Hv) as Hf. unfold dwarf_graph in Hg.
    destruct (entry_at s k) as [e|] eqn:He; cbn in Hc.
    + destruct Hf as (i & e' & Hf & Hi & _ & _ & Hb & He'). rewrite He', <- (bare_shape e e' Hb) in Hg.
      rewrite (get_type_shape n k s e Hv He Hc). by injection Hg as ->.
    + destruct Hf as [Hf He']. rewrite He' in Hg. injection Hg as <-. cbn [get_type]. by rewrite Hf.
  - intros n k s next f r s' Hv Hc Hg Hr. pose proof (find_by_offset_valid s k Hv) as Hf. unfold dwarf_graph in Hg.
    destruct (entry_at s k) as [e|] eqn:He; cbn in Hc; [|destruct Hf as [_ He']; by rewrite He' in Hg].
    destruct Hf as (i & e' & Hf & Hi & Ho & Hi' & Hb & He'). rewrite He', <- (bare_shape e e' Hb) in Hg.
    rewrite (get_type_shape n k s e Hv He Hc), Hf. injection Hg as ->. rewrite Hr. f_equal.
    destruct (f r) as [ty|]; [|done]. pose proof (get_type_valid n next s Hv) as Hv'. rewrite Hr in Hv'. cbn in Hv'.
    rewrite (alter_store s' i e') by done. f_equal. injection Hb. congruence.
Qed.

(** ** Fields *)

Section fields.
Context {bm : Build}.
Variable fuel : nat.

Lemma get_type_ok k r types :
  resolve fuel (dwarf_graph base) k = Some r → memo_ok types →
  ∃ types', get_type fuel k types = (Ok r, types') ∧ memo_ok types'.
Proof. exact (@memo_get_resolve _ dwarf_memo dwarf_memo_laws fuel k r types). Qed.

Lemma anonymous_entry types typ :
  memo_ok types →
  match (i ← find_by_offset types typ; types !! i) with Some ty => Some (te_dwarf_type ty) | None => None end
  = te_dwarf_type <$> entry_at base typ.
Proof.
  intros [Hv _]. cbn in Hv. pose proof (find_by_offset_valid types typ Hv) as Hf.
  destruct (entry_at types typ) as [e|].
  - destruct Hf as (i & e' & -> & Hi & _ & _ & Hb & ->). cbn. rewrite Hi. injection Hb as _ _ Hd. by rewrite Hd.
  - destruct Hf as [-> ->]. done.
Qed.

Lemma collect_fields_flat n b s fields types l :
  flat_fields fuel n base b s = Some l → memo_ok types →
  ∃ types', collect_fields_into fuel n b s fields types = (Ok (fields ++ l), types') ∧ memo_ok types'.
Proof.
  revert b s fields types l. induction n as [|n IH]; intros b s fields types l; [done|].
  cbn [flat_fields collect_fields_into]. revert fields types l.
  induction s as [|[[[offset|offset] name] typ] s IHs]; intros fields types l Hl Hok.
  - injection Hl as <-. exists types. by rewrite app_nil_r.
  - apply bind_Some in Hl as (here & Hhere & Hl). apply bind_Some in Hl as (rest & Hrest & [= <-]).
    destruct ((0 <=? b + offset) && (b + offset <? 2 ^ 64)) eqn:Hr; [|done].
    unfold mut_bind at 1, mut_lift at 1. rewrite add_u64_ok by lia.
    assert (Hfield : ∃ types', (match name with
      | Some name =>
          let! typ := get_type fuel typ in
          mut_ret (fields ++ [{| sf_name := name; sf_offset := b + offset; sf_typ := default TUnknown typ |}])
      | None => λ types,
          match (i ← find_by_offset types typ; types !! i) with
          | Some ty =>
              match te_dwarf_type ty with
              | DwStruct s | DwUnion s => collect_fields_into fuel n (b + offset) (ds_fields s) fields types
              | _ => (Ok fields, types)
              end
          | None => (Ok fields, types)
          end
      end) types = (Ok (fields ++ here), types') ∧ memo_ok types').
    { destruct name as [name|].
      - apply bind_Some in Hhere as (r & Hres & [= <-]). destruct (get_type_ok typ r types Hres Hok) as (types' & Hg & Hok').
        exists types'. unfold mut_bind. by rewrite Hg.
      - pose proof (anonymous_entry types typ Hok) as Ha.
        destruct (i ← find_by_offset types typ; types !! i) as [ty|].
        + rewrite <- Ha in Hhere. destruct (te_dwarf_type ty); try (injection Hhere as <-; exists types; by rewrite app_nil_r).
          * by apply IH.
          * by apply IH.
        + rewrite <- Ha in Hhere. injection Hhere as <-. exists types. by rewrite app_nil_r. }
    destruct Hfield as (types1 & Hf & Hok1). unfold mut_bind at 1. rewrite Hf.
    destruct (IHs (fields ++ here) types1 rest Hrest Hok1) as (types2 & Hg & Hok2).
    exists types2. rewrite Hg. by rewrite <- app_assoc.
  - by apply IHs.
Qed.

Lemma unit_structs_flat n entries types l :
  flat_structs fuel n base entries = Some l → memo_ok types →
  ∃ types', unit_structs fuel n entries types = (Ok l, types') ∧ memo_ok types'.
Proof.
  revert types l. induction entries as [|e entries IH]; intros types l; cbn [flat_structs unit_structs].
  { intros [= <-] Hok. by exists types. }
  destruct (te_name e) as [name|]; [|by apply IH]. destruct (te_dwarf_type e) as [|s| | | | | |]; try by apply IH.
  intros Hl Hok. apply bind_Some in Hl as (fields & Hf & Hl). apply bind_Some in Hl as (rest & Hrest & [= <-]).
  destruct (collect_fields_flat n 0 (ds_fields s) [] types fields Hf Hok) as (types1 & Hc & Hok1).
  destruct (IH types1 rest Hrest Hok1) as (types2 & Hu & Hok2).
  exists types2. unfold mut_bind, collect_fields. by rewrite Hc, Hu.
Qed.
End fields.
End memo.

Section fill.
Context {bm : Build} `{GimliAttr}.

Lemma read_types_fresh nodes last types :
  read_types nodes last = Ok types → Forall (λ e, te_typ e = None) types.
Proof.
  revert types. induction nodes as [|node nodes IH]; intros types; cbn [read_types]; intros Hr.
  { inv_ok. subst. constructor. }
  destruct (read_type node) as [[[name t]|]|[]| |]; try done; try (by apply IH).
  inv_ok. subst types. constructor; [done|by apply IH].
Qed.

Lemma memo_ok_fresh types : Forall (λ e, te_typ e = None) types → memo_ok (H:=dwarf_memo types) types.
Proof.
  intros Hf. split; [done|]. intros k t Hc. cbn in Hc. destruct (entry_at types k) as [e|] eqn:He; [|done]. cbn in Hc.
  apply List.find_some in He as [Hin _]. apply list_elem_of_In in Hin. rewrite Forall_forall in Hf. rewrite (Hf e Hin) in Hc. done.
Qed.

(** C26. The types of a unit of DWARF: when its entries are in the order of their
    offsets and no reference goes through more than [fuel] types, a module gets
    one structure for each one of the unit that has a name and a definition,
    with the fields of its anonymous members at their place and every field of
    the type found by following the references; the cells that keep the types
    that are resolved change nothing. *)
Theorem fill_reference fuel n unit types structs symbols :
  read_types (du_nodes unit) (du_end unit) = Ok types → offsets_sorted types →
  flat_structs fuel n types types = Some structs →
  fill fuel n unit symbols = Ok (builder_extend_types symbols structs).
Proof.
  intros Hr Hs Hflat. unfold fill. rewrite Hr. cbn [res_bind].
  destruct (unit_structs_flat types Hs fuel n types types structs Hflat
    (memo_ok_fresh types (read_types_fresh _ _ _ Hr))) as (types' & Hu & _).
  by rewrite Hu.
Qed.
End fill.

(** ** A unit *)

Section witness.
#[local] Existing Instance debug_build.

#[local] Instance sample_attr : GimliAttr := {|
  GError := unit;
  AttributeValue := Z * string;
  unit_ref := λ v, Some v.1;
  udata_value := λ v, Some v.1;
  sdata_value := λ v, Some v.1;
  encoding_value := λ v, Some (AteOther v.1);
  flag_value := λ v, Some (negb (v.1 =? 0));
  string_value := λ v, Some (Ok v.2);
|}.

Definition sample_entry (offset : Z) (tag : DwTag) (name : option string) (attrs : list (DwAt * Z)) : DwarfEntry := {|
  de_offset := offset;
  de_tag := tag;
  attr_value := λ at_,
    Ok match at_ with
       | AtName => (λ name, (0, name)) <$> name
       | _ => (λ a : DwAt * Z, (a.2, ""%string)) <$> List.find (λ a, match at_, a.1 with
           | AtType, AtType | AtByteSize, AtByteSize | AtDataMemberLocation, AtDataMemberLocation
           | AtEncoding, AtEncoding => true
           | _, _ => false
           end) attrs
       end;
|}.

Definition sample_node (entry : DwarfEntry) (children : list DwarfEntry) : DwarfNode :=
  {| dn_entry := entry; dn_children := children; dn_end := Ok tt |}.

(** [typedef unsigned num; struct list { struct list *next; struct { num x, y; }; };] *)
Definition sample_unit : DwarfUnit := {|
  du_nodes := [
    sample_node (sample_entry 10 TagBaseType (Some "unsigned"%string) [(AtByteSize, 4); (AtEncoding, 7)]) [];
    sample_node (sample_entry 20 TagTypedef (Some "num"%string) [(AtType, 10)]) [];
    sample_node (sample_entry 30 TagStructureType (Some "list"%string) [(AtByteSize, 16)])
      [sample_entry 31 (TagOther 13) (Some "next"%string) [(AtDataMemberLocation, 0); (AtType, 40)];
       sample_entry 32 (TagOther 13) None [(AtDataMemberLocation, 8); (AtType, 50)]];
    sample_node (sample_entry 40 TagPointerType None [(AtType, 30)]) [];
    sample_node (sample_entry 50 TagStructureType None [(AtByteSize, 8)])
      [sample_entry 51 (TagOther 13) (Some "x"%string) [(AtDataMemberLocation, 0); (AtType, 20)];
       sample_entry 52 (TagOther 13) (Some "y"%string) [(AtDataMemberLocation, 4); (AtType, 20)]]];
  du_end := Ok tt;
|}.

Definition sample_list_struct : Struct := {|
  st_size := 16; st_name := "list";
  st_fields := [{| sf_name := "next"; sf_offset := 0; sf_typ := TPointer (TStruct "list") |};
                {| sf_name := "x"; sf_offset := 8; sf_typ := TPrimitive U32 |};
                {| sf_name := "y"; sf_offset := 12; sf_typ := TPrimitive U32 |}];
|}%string.

Lemma fill_reference_witness :
  ∃ types, read_types (du_nodes sample_unit) (du_end sample_unit) = Ok types ∧
    fill 3 2 sample_unit builder_new = Ok (builder_extend_types builder_new [sample_list_struct]).
Proof.
  destruct (read_types (du_nodes sample_unit) (du_end sample_unit)) as [types| | |] eqn:Hr;
    [|vm_compute in Hr; discriminate Hr..].
  exists types. split; [reflexivity|].
  refine (fill_reference 3 2 sample_unit types [sample_list_struct] builder_new Hr _ _).
  - vm_compute in Hr. injection Hr as <-. unfold offsets_sorted. cbn. repeat constructor.
  - vm_compute in Hr. injection Hr as <-. vm_compute. reflexivity.
Defined.
End witness.
