(* ===== verification/PdbSpec.v ===== *)
(** * The types read from PDB files

    What [pdb_load_types] adds to the symbols of a module, against a reference
    that follows the references between types without a cache. *)

From S2P Require Import Prelude Rust Layout Addr Error Text Symbols PdbTypes TypeGraph.

(** ** The reference *)

(** The product of the dimensions of an array, when it fits in 32 bits at every
    step. *)
Definition array_size (dims : list Z) : option Z :=
  foldl (λ acc d, acc ← acc; if (0 <=? acc * d) && (acc * d <? 2 ^ 32) then Some (acc * d) else None) (Some 1) dims.

Definition pdb_shape (typ : TypeData) : option TypeShape :=
  match typ with
  | PdbArray element dims => (λ n, Through element (fmap (λ t, TArray t n))) <$> array_size dims
  | PdbBitfield => Some (Value (Some TBitfield))
  | PdbClass _ name _ _ => Some (Value (TStruct <$> utf8_name name))
  | PdbEnumeration next | PdbModifier next => Some (Through next id)
  | PdbProcedure => Some (Value (Some TFunction))
  | PdbPointer next => Some (Through next (fmap TPointer))
  | PdbUnion name => Some (Value (TUnion <$> utf8_name name))
  | _ => Some (Value None)
  end.

(** The place of an index in a list of types whose first index is [first]. *)
Definition pdb_slot (first index : Z) : option nat :=
  if (first <=? index) && (index <? 2 ^ 32) then Some (Z.to_nat (index - first)) else None.

Definition pdb_graph (first : Z) (types : list TypeData) : TypeGraph := λ index,
  if index <? 0x1000 then
    match classify_primitive (E:=Never) index with Ok t => Some (Value t) | _ => None end
  else
    i ← pdb_slot first index;
    match types !! i with Some typ => pdb_shape typ | None => Some (Value None) end.

Section reference.
Variable fuel : nat.
Variable first : Z.
Variable types : list TypeData.

(** The members whose name can be read, in order. *)
Fixpoint flat_members (fields : list TypeData) : option (list StructField) :=
  match fields with
  | [] => Some []
  | PdbMember typ name offset :: fields =>
      r ← resolve fuel (pdb_graph first types) typ;
      rest ← flat_members fields;
      Some match utf8_name name with
           | Some name => {| sf_name := name; sf_offset := offset; sf_typ := default TUnknown r |} :: rest
           | None => rest
           end
  | _ :: fields => flat_members fields
  end.

(** The structure of a class, when it has a name, is a [struct], and has a list
    of fields. *)
Definition flat_class (item : TypeData) : option (option Struct) :=
  match item with
  | PdbClass kind name (Some fields) size =>
      match utf8_name name with
      | Some name =>
          i ← pdb_slot first fields;
          match kind, types !! i with
          | ClassKindStruct, Some (PdbFieldList fields) =>
              l ← flat_members fields;
              Some (Some {| st_size := size; st_name := name; st_fields := l |})
          | _, _ => Some None
          end
      | None => Some None
      end
  | _ => Some None
  end.

Definition flat_classes (items : list TypeData) : option (list Struct) :=
  structs ← mapM flat_class items; Some (omap id structs).
End reference.

(** ** The cache *)

Section memo.
Context {bm : Build}.
Variable first : Z.
Variable base : list TypeData.
Hypothesis first_range : 0 <= first.
Hypothesis base_length : first + Z.of_nat (length base) <= 2 ^ 32.

Definition pdb_valid (s : PdbTypeList) : Prop := ptl_offset s = first ∧ fst <$> ptl_types s = base.

Definition pdb_cell_of (s : PdbTypeList) (index : Z) : option TypeKind :=
  if index <? 0x1000 then None else i ← pdb_slot first index; p ← ptl_types s !! i; p.2.

Definition pdb_store (index : Z) (t : option TypeKind) (s : PdbTypeList) : PdbTypeList :=
  if index <? 0x1000 then s
  else match pdb_slot first index with Some i => set_cell i t s | None => s end.

#[export] Instance pdb_memo : TypeMemo PdbTypeList := {|
  memo_graph := pdb_graph first base;
  memo_valid := pdb_valid;
  memo_cell := pdb_cell_of;
  memo_store := pdb_store;
  memo_get := pdb_get_type;
|}.

Lemma set_cell_types i t s : fst <$> ptl_types (set_cell i t s) = fst <$> ptl_types s.
Proof.
  apply list_eq. intros j. cbn. rewrite !list_lookup_fmap. destruct (decide (i = j)) as [->|].
  - rewrite list_lookup_alter, decide_True by done. by destruct (ptl_types s !! j).
  - by rewrite list_lookup_alter_ne.
Qed.

(** Nothing is kept for an index after the end. *)
Lemma set_cell_none i t s : ptl_types s !! i = None → set_cell i t s = s.
Proof.
  intros Hi. destruct s as [o l]. unfold set_cell. f_equal. cbn in *. apply list_eq. intros j.
  destruct (decide (i = j)) as [->|]; [by rewrite list_lookup_alter, decide_True, Hi by done|by rewrite list_lookup_alter_ne].
Qed.

Lemma pdb_slot_range index i : pdb_slot first index = Some i → Z.of_nat i = index - first ∧ first <= index < 2 ^ 32.
Proof. unfold pdb_slot. destruct (_ && _) eqn:Hr; [|done]. intros [= <-]. lia. Qed.

Lemma pdb_slot_inj k k' i : pdb_slot first k = Some i → pdb_slot first k' = Some i → k = k'.
Proof. intros Hk%pdb_slot_range Hk'%pdb_slot_range. lia. Qed.

Lemma ptl_lookup_slot s index i :
  pdb_valid s → pdb_slot first index = Some i → ptl_lookup s index = Ok ((λ p, (i, p)) <$> ptl_types s !! i).
Proof.
  intros [Ho _] Hi%pdb_slot_range. unfold ptl_lookup, sub_u64. rewrite Ho, checked_width_ok by lia. cbn.
  replace (Z.to_nat (index - first)) with i by lia. destruct (Z.ltb_spec (index - first) (Z.of_nat (length (ptl_types s)))); [done|].
  by rewrite lookup_ge_None_2 by lia.
Qed.

Lemma valid_lookup s i : pdb_valid s → fst <$> ptl_types s !! i = base !! i.
Proof. intros [_ <-]. by rewrite list_lookup_fmap. Qed.

Lemma mul_all_size dims n : array_size dims = Some n → mul_all dims = Ok n.
Proof.
  unfold array_size, mul_all. generalize 1. induction dims as [|d dims IH]; intros acc; cbn; [by intros [= ->]|].
  destruct (_ && _) eqn:Hr; [rewrite checked_width_ok by lia; by apply IH|].
  assert (∀ l, foldl (λ acc d, acc ← acc; if (0 <=? acc * d) && (acc * d <? 2 ^ 32) then Some (acc * d) else None)
    None l = None) as Hn by (intros l; by induction l).
  by rewrite Hn.
Qed.

(** [pdb_get_type] for an index that has a place. *)
Lemma pdb_get_type_slot n index i s :
  pdb_valid s → index <? 0x1000 = false → pdb_slot first index = Some i →
  pdb_get_type (S n) index s =
  match ptl_types s !! i with
  | None => (Ok None, s)
  | Some (typ, Some t) => (Ok (Some t), s)
  | Some (typ, None) =>
      match pdb_classify_type (pdb_get_type n) typ s with
      | (Ok t, s) => (Ok t, set_cell i t s)
      | (r, s) => (r, s)
      end
  end.
Proof.
  intros Hv Hp Hi. cbn [pdb_get_type]. rewrite Hp, (ptl_lookup_slot s index i Hv Hi).
  by destruct (ptl_types s !! i) as [[typ [t|]]|].
Qed.

Lemma pdb_classify_value get typ t s :
  pdb_shape typ = Some (Value t) → pdb_classify_type get typ s = (Ok t, s).
Proof.
  destruct typ; cbn; try (by intros [= <-]); try done; by destruct (array_size _).
Qed.

Lemma pdb_classify_through get typ next f s r s' :
  pdb_shape typ = Some (Through next f) → get next s = (Ok r, s') → pdb_classify_type get typ s = (Ok (f r), s').
Proof.
  destruct typ; cbn; try done; [|intros [= -> <-] Hg..].
  - destruct (array_size dimensions) as [n|] eqn:Hn; [|done]. intros [= -> <-] Hg. unfold mut_bind. rewrite Hg.
    destruct r as [r|]; [|done]. unfold mut_lift. by rewrite (mul_all_size _ _ Hn).
  - done.
  - done.
  - unfold mut_bind. by rewrite Hg.
Qed.

#[export] Instance pdb_memo_laws : TypeMemoLaws PdbTypeList.
Proof.
  split; cbn [memo_graph memo_valid memo_cell memo_store memo_get pdb_memo].
  - intros k t s Hv. unfold pdb_store. destruct (_ <? _); [done|]. destruct (pdb_slot first k); [|done].
    split; [apply Hv|]. rewrite set_cell_types. apply Hv.
  - intros k t s k' t' Hv. unfold pdb_store, pdb_cell_of. destruct (k <? _); [by left|].
    destruct (pdb_slot first k) as [i|] eqn:Hi; [|by left]. destruct (k' <? _); [done|].
    destruct (pdb_slot first k') as [i'|] eqn:Hi'; [|done]. cbn. destruct (decide (i = i')) as [<-|].
    + rewrite list_lookup_alter, decide_True by done. destruct (ptl_types s !! i) as [p|]; [|done]. cbn. intros ->.
      right. split; [by eapply pdb_slot_inj|done].
    + rewrite list_lookup_alter_ne by done. by left.
  - intros n k s t Hv Hc. unfold pdb_cell_of in Hc. destruct (k <? _) eqn:Hp; [done|].
    destruct (pdb_slot first k) as [i|] eqn:Hi; [|done]. rewrite (pdb_get_type_slot n k i s Hv Hp Hi). cbn in Hc.
    destruct (ptl_types s !! i) as [[typ c]|]; [|done]. cbn in Hc. by subst c.
  - intros n k s t Hv Hc Hg. unfold pdb_cell_of, pdb_graph, pdb_store in *. destruct (k <? _) eqn:Hp.
    { cbn [pdb_get_type]. rewrite Hp. by destruct (classify_primitive k) as [x|[]| |]; [injection Hg as ->|..]. }
    destruct (pdb_slot first k) as [i|] eqn:Hi; [|done]. rewrite (pdb_get_type_slot n k i s Hv Hp Hi). cbn in Hc, Hg.
    rewrite <- (valid_lookup s i Hv) in Hg. destruct (ptl_types s !! i) as [[typ c]|] eqn:Hs; cbn in Hc, Hg.
    + subst c. by rewrite (pdb_classify_value _ typ t s Hg).
    + injection Hg as <-. by rewrite set_cell_none.
  - intros n k s next f r s' Hv Hc Hg Hr. unfold pdb_cell_of, pdb_graph, pdb_store in *. destruct (k <? _) eqn:Hp.
    { by destruct (classify_primitive k). }
    destruct (pdb_slot first k) as [i|] eqn:Hi; [|done]. rewrite (pdb_get_type_slot n k i s Hv Hp Hi). cbn in Hc, Hg.
    rewrite <- (valid_lookup s i Hv) in Hg. destruct (ptl_types s !! i) as [[typ c]|] eqn:Hs; cbn in Hc, Hg; [|done].
    subst c. by rewrite (pdb_classify_through _ typ next f s r s' Hg Hr).
Qed.

(** ** Structures *)

Section structs.
Variable fuel : nat.

Lemma pdb_get_type_ok k r s :
  resolve fuel (pdb_graph first base) k = Some r → memo_ok s →
  ∃ s', pdb_get_type fuel k s = (Ok r, s') ∧ memo_ok s'.
Proof. exact (@memo_get_resolve _ pdb_memo pdb_memo_laws fuel k r s). Qed.

Lemma pdb_collect_fields_flat fields s l :
  flat_members fuel first base fields = Some l → memo_ok s →
  ∃ s', pdb_collect_fields fuel fields s = (Ok l, s') ∧ memo_ok s'.
Proof.
  revert s l. induction fields as [|field fields IH]; intros s l; cbn [flat_members pdb_collect_fields].
  { intros [= <-] Hok. by exists s. }
  destruct field as [| | | | | | | | |typ name offset|]; try by apply IH.
  intros Hl Hok. apply bind_Some in Hl as (r & Hr & Hl). apply bind_Some in Hl as (rest & Hrest & [= <-]).
  destruct (pdb_get_type_ok typ r s Hr Hok) as (s1 & Hg & Hok1). destruct (IH s1 rest Hrest Hok1) as (s2 & Hf & Hok2).
  exists s2. unfold mut_bind. by rewrite Hg, Hf.
Qed.

Lemma pdb_struct_flat item s r :
  flat_class fuel first base item = Some r → memo_ok s → ∃ s', pdb_struct fuel item s = (Ok r, s') ∧ memo_ok s'.
Proof.
  destruct item as [| |kind name [fields|] size| | | | | | | |]; cbn [flat_class pdb_struct]; try (intros [= <-] Hok; by exists s).
  2: { intros [= <-] Hok. exists s. by destruct (utf8_name name). }
  destruct (utf8_name name) as [name'|]; [|intros [= <-] Hok; by exists s].
  intros Hr Hok. apply bind_Some in Hr as (i & Hi & Hr). pose proof (proj1 Hok) as Hv.
  unfold ptl_get. rewrite (ptl_lookup_slot s fields i Hv Hi). cbn. rewrite <- (valid_lookup s i Hv) in Hr.
  destruct (ptl_types s !! i) as [[typ c]|]; cbn in *; [|destruct kind; injection Hr as <-; by exists s].
  destruct kind; [|injection Hr as <-; by exists s].
  destruct typ as [| | | | | | | |members| |]; try (injection Hr as <-; by exists s).
  apply bind_Some in Hr as (l & Hl & [= <-]). destruct (pdb_collect_fields_flat members s l Hl Hok) as (s' & Hc & Hok').
  exists s'. unfold mut_bind. by rewrite Hc.
Qed.

Lemma pdb_structs_flat items s l :
  flat_classes fuel first base items = Some l → memo_ok s → ∃ s', pdb_structs fuel items s = (Ok l, s') ∧ memo_ok s'.
Proof.
  unfold flat_classes. intros Hl. apply bind_Some in Hl as (rs & Hrs%mapM_Some & [= <-]). revert s.
  induction Hrs as [|item r items rs Hr _ IH]; intros s Hok; [by exists s|].
  destruct (pdb_struct_flat item s r Hr Hok) as (s1 & H1 & Hok1). destruct (IH s1 Hok1) as (s2 & H2 & Hok2).
  exists s2. cbn [pdb_structs]. unfold mut_bind. rewrite H1, H2. split; [|done]. by destruct r.
Qed.

Lemma memo_ok_new : memo_ok {| ptl_offset := first; ptl_types := (λ t, (t, None)) <$> base |}.
Proof.
  split.
  - split; [done|]. cbn. rewrite <- list_fmap_compose. apply list_fmap_id.
  - intros k t. cbn. unfold pdb_cell_of. destruct (k <? _); [done|]. destruct (pdb_slot first k) as [i|]; [|done]. cbn.
    rewrite list_lookup_fmap. by destruct (base !! i).
Qed.
End structs.
End memo.

Section load.
Context {bm : Build} {PdbError : Type}.

(** The items of a type stream whose first index is [first]. *)
Definition stream_items (first : Z) (types : list TypeData) : list (Z * Res PdbError TypeData) :=
  imap (λ i typ, (first + Z.of_nat i, Ok typ)) types.

Lemma read_stream_items first i types :
  read_stream (Z.of_nat i) (if decide (i = 0%nat) then None else Some first)
    (imap (λ j typ, (first + Z.of_nat (i + j), Ok typ)) types) (Ok tt)
  = Ok (match types with [] => if decide (i = 0%nat) then None else Some first | _ => Some first end,
        (λ t, (t, @None TypeKind)) <$> types) :> Res PdbError _.
Proof.
  revert i. induction types as [|typ types IH]; intros i; [done|]. cbn [imap read_stream].
  assert (default (first + Z.of_nat (i + 0)) (if decide (i = 0%nat) then None else Some first) = first) as ->
    by (destruct (decide (i = 0%nat)); cbn; lia).
  replace (first + Z.of_nat (i + 0) =? first + Z.of_nat i) with true by lia. cbn.
  specialize (IH (S i)). rewrite decide_False in IH by lia. replace (Z.of_nat i + 1) with (Z.of_nat (S i)) by lia.
  erewrite imap_ext; [rewrite IH|]; [by destruct types|]. intros j t _. cbn. do 2 f_equal. lia.
Qed.

(** C27. The types of a PDB file: when the indices of the type stream follow each
    other, no index of a field list is before the first one and no reference
    goes through more than [fuel] types, a module gets one structure for each
    [struct] that has a name and a list of fields, with every member that has a
    name, of the type found by following the references; the cells that keep the
    types that are resolved change nothing. *)
Theorem pdb_load_types_reference fuel first types structs module :
  0 <= first → first + Z.of_nat (length types) <= 2 ^ 32 →
  flat_classes fuel first types types = Some structs →
  pdb_load_types fuel (Ok (stream_items first types, Ok tt)) module
  = Ok (builder_extend_types module structs) :> Res PdbError _.
Proof.
  intros Hfirst Hlen Hs. unfold pdb_load_types. cbn [res_bind].
  pose proof (read_stream_items first 0 types : read_stream 0 _ (imap (λ j typ, (first + Z.of_nat j, Ok typ)) types) _ = _) as Hr.
  rewrite decide_True in Hr by done.
  unfold stream_items. rewrite Hr. cbn [res_bind].
  assert (fst <$> ((λ t, (t, @None TypeKind)) <$> types) = types) as -> by (rewrite <- list_fmap_compose; apply list_fmap_id).
  destruct (pdb_structs_flat first types Hfirst Hlen fuel types _ structs Hs (memo_ok_new first types)) as (s' & Hu & _).
  destruct types as [|typ types]; [by injection Hs as <-|]. cbn [default id]. by rewrite Hu.
Qed.
End load.

(** ** A type stream *)

Section witness.
#[local] Existing Instance debug_build.

(** [struct list { struct list *next; unsigned short tag[4]; };] *)
Definition sample_types : list TypeData :=
  [PdbFieldList [PdbMember 0x1002 (str_bytes "next") 0; PdbMember 0x1003 (str_bytes "tag") 8; PdbOtherType];
   PdbClass ClassKindStruct (str_bytes "list") (Some 0x1000) 16;
   PdbPointer 0x1001;
   PdbArray 0x1004 [4];
   PdbModifier 0x21].

Definition sample_pdb_struct : Struct := {|
  st_size := 16; st_name := "list";
  st_fields := [{| sf_name := "next"; sf_offset := 0; sf_typ := TPointer (TStruct "list") |};
                {| sf_name := "tag"; sf_offset := 8; sf_typ := TArray (TPrimitive U16) 4 |}];
|}%string.

Lemma pdb_load_types_reference_witness :
  flat_classes 3 0x1000 sample_types sample_types = Some [sample_pdb_struct] ∧
  pdb_load_types 3 (Ok (stream_items 0x1000 sample_types, Ok tt)) builder_new
  = Ok (builder_extend_types builder_new [sample_pdb_struct]) :> Res Never _.
Proof.
  assert (flat_classes 3 0x1000 sample_types sample_types = Some [sample_pdb_struct]) as H by (vm_compute; reflexivity).
  split; [exact H|]. refine (pdb_load_types_reference 3 0x1000 sample_types [sample_pdb_struct] builder_new _ _ H); cbn; lia.
Defined.
End witness.
