(* ===== verification/Native.v ===== *)
(** * The C interface ([native/src/error.rs], [cstring.rs], [array.rs], [os.rs])

    A C function works on the memory of the host, where the caller's buffers
    are, on the last error of the thread, and on the index of symbols of the
    operating system.  A pointer is an address, and NULL is 0.  A [Process], a
    [Module], a [Thread] and a [Vma] of the interface hold one address, like the
    types of the library, and are modelled by it.  An access outside of the
    buffer that a caller describes is visible: it changes the memory there. *)

From S2P Require Import Prelude Rust Layout Addr Error Text Mem Registers Mmu Arch Symbols Os.

(** ** Memory of the host *)

Definition HostMemory := Z → byte.

Definition mem_read (mem : HostMemory) (ptr : Z) (n : nat) : bytes :=
  (λ i, mem (ptr + Z.of_nat i)) <$> seq 0 n.

Definition mem_write (mem : HostMemory) (ptr : Z) (bs : bytes) : HostMemory := λ a,
  if (ptr <=? a) && (a <? ptr + Z.of_nat (length bs)) then default (mem a) (bs !! Z.to_nat (a - ptr)) else mem a.

(** [NonNull::new] *)
Definition non_null (ptr : Z) : option Z := if ptr =? 0 then None else Some ptr.

(** The state that a C function works on. *)
Record CState (St : Type) := {
  cs_memory : HostMemory;
  cs_error : option VmError;
  cs_os : St;
}.
Arguments cs_memory {St}. Arguments cs_error {St}. Arguments cs_os {St}.

(** What the payload of a panic can be downcast to. *)
Inductive PanicPayload := PayloadString (s : string) | PayloadStr (s : string) | PayloadOther.

Section native.
Context {bm : Build} {St : Type}.

(** The payload of a panic of the program, which the outcome [Panic] leaves out. *)
Variable payload : PanicPayload.

Notation CS := (CState St).

Definition set_memory (mem : HostMemory) (s : CS) : CS :=
  {| cs_memory := mem; cs_error := cs_error s; cs_os := cs_os s |}.

Definition write_memory (ptr : Z) (bs : bytes) (s : CS) : CS := set_memory (mem_write (cs_memory s) ptr bs) s.

Definition set_last_error (error : option VmError) (s : CS) : CS :=
  {| cs_memory := cs_memory s; cs_error := error; cs_os := cs_os s |}.

(** ** Errors *)

Definition set_error (error : VmError) (s : CS) : CS := set_last_error (Some error) s.
Definition clear_error (s : CS) : CS := set_last_error None s.
Definition take_error (s : CS) : option VmError * CS := (cs_error s, set_last_error None s).

Definition convert_panic_payload (payload : PanicPayload) : VmError :=
  match payload with
  | PayloadString s | PayloadStr s => vm_error_new (dyn_of_str ("panic at: " +:+ s)%string)
  | PayloadOther => vm_error_new (dyn_of_str "panic"%string)
  end.

(** [catch_unwind] with the standard library. *)
Definition catch_unwind {T} (f : MutRes CS VmError T) : MutRes CS Never (option T) := λ s,
  match f s with
  | (Ok val, s) => (Ok (Some val), clear_error s)
  | (Err error, s) => (Ok None, set_error error s)
  | (Panic, s) => (Ok None, set_error (convert_panic_payload payload) s)
  | (NoFuel, s) => (NoFuel, s)
  end.

(** [wrap]: [res] is a pointer to a [T], or NULL. *)
Definition wrap {T} (P : Pod T) (res : Z) (f : VmResult T) : MutRes CS Never Z :=
  let! val := catch_unwind (mut_lift f) in
  match val with
  | Some val => λ s,
      (Ok 0, match non_null res with Some res => write_memory res (bytes_of P val) s | None => s end)
  | None => mut_ret 1
  end.

Definition wrap_unit (f : MutRes CS VmError unit) : MutRes CS Never Z :=
  let! val := catch_unwind f in mut_ret match val with Some _ => 0 | None => -1 end.

(** A box becomes a pointer, which is not NULL. *)
Definition wrap_box {T} (f : VmResult T) : MutRes CS Never (option T) := catch_unwind (mut_lift f).

Definition wrap_usize (f : MutRes CS VmError Z) : MutRes CS Never Z :=
  let! val := catch_unwind f in mut_ret match val with Some n => as_i64 n | None => -1 end.

(** The error is given to the caller; [None] is NULL. *)
Definition take_last_error : MutRes CS Never (option VmError) := λ s,
  let (error, s) := take_error s in (Ok error, s).

(** ** Strings *)

Record Formatter := { fm_ptr : option Z; fm_len : Z; fm_written : Z }.

Definition formatter_new (ptr len : Z) : Formatter :=
  if negb (len =? 0) then {| fm_ptr := non_null ptr; fm_len := len - 1; fm_written := 0 |}
  else {| fm_ptr := None; fm_len := 0; fm_written := 0 |}.

(** [Drop for Formatter], also the first part of [finish]. *)
Definition formatter_end (self : Formatter) (s : CS) : CS :=
  match fm_ptr self with Some ptr => write_memory ptr [Byte.x00] s | None => s end.

(** [finish]; it drops [self]. *)
Definition formatter_finish (self : Formatter) (s : CS) : Z * CS :=
  (fm_written self, formatter_end self (formatter_end self s)).

Definition write_str (str : string) : MutRes (Formatter * CS) unit unit := λ '(self, s),
  match fm_ptr self with
  | None => (Ok tt, (self, s))
  | Some ptr =>
      let bs := str_bytes str in
      let n := Z.min (Z.of_nat (length bs)) (fm_len self) in
      ((if n <? Z.of_nat (length bs) then Err tt else Ok tt),
       ({| fm_ptr := non_null (ptr + n); fm_len := fm_len self - n; fm_written := fm_written self + n |},
        write_memory ptr (take (Z.to_nat n) bs) s))
  end.

(** [fmt::write]: the text is written in pieces, until one fails. *)
Fixpoint fmt_write (pieces : list string) : MutRes (Formatter * CS) unit unit :=
  match pieces with
  | [] => mut_ret tt
  | piece :: pieces => let! _ := write_str piece in fmt_write pieces
  end.

(** [let _ = fmt.write_str(..)] *)
Definition write_ignored (text : MutRes (Formatter * CS) unit unit) : MutRes (Formatter * CS) VmError unit := λ s,
  match text s with (Panic, s) => (Panic, s) | (NoFuel, s) => (NoFuel, s) | (_, s) => (Ok tt, s) end.

(** The formatter is dropped when [f] fails, too. *)
Definition with_formatter (ptr len : Z) (f : MutRes (Formatter * CS) VmError unit) : MutRes CS Never Z :=
  wrap_usize (λ s,
    match f (formatter_new ptr len, s) with
    | (Ok _, (fmt, s)) => let (n, s) := formatter_finish fmt s in (Ok n, s)
    | (Err e, (fmt, s)) => (Err e, formatter_end fmt s)
    | (Panic, (fmt, s)) => (Panic, formatter_end fmt s)
    | (NoFuel, (_, s)) => (NoFuel, s)
    end).

(** [CStr::from_ptr], when there is a NUL in the [fuel] next bytes. *)
Fixpoint c_str (fuel : nat) (mem : HostMemory) (ptr : Z) : Res Never bytes :=
  match fuel with
  | O => NoFuel
  | S fuel =>
      if bool_decide (mem ptr = Byte.x00) then Ok []
      else let? bs := c_str fuel mem (ptr + 1) in Ok (mem ptr :: bs)
  end.

(** How [core::fmt] cuts the text of an error into pieces. *)
Variable display_pieces : string → list string.

Definition display_error (err : VmError) : list string := display_pieces (vm_error_display true err).

Definition print_last_error (str max_len : Z) : MutRes CS Never Z := λ s,
  let fmt := formatter_new str max_len in
  let '(error, s) := take_error s in
  let '(fmt, s) :=
    match error with
    | Some err => let '(fmt, s) := (fmt_write (display_error err) (fmt, s)).2 in (fmt, set_error err s)
    | None => (write_str "success"%string (fmt, s)).2
    end in
  let (n, s) := formatter_finish fmt s in (Ok n, s).

Definition error_print (err : option VmError) (str max_len : Z) : MutRes CS Never Z := λ s,
  let fmt := formatter_new str max_len in
  let '(fmt, s) :=
    match err with
    | None => (write_str "success"%string (fmt, s)).2
    | Some err => (fmt_write (display_error err) (fmt, s)).2
    end in
  let (n, s) := formatter_finish fmt s in (Ok n, s).

Definition error_with_message (fuel : nat) (err : VmError) (context : Z) (mem : HostMemory) : Res Never VmError :=
  let? context := c_str fuel mem context in
  Ok (vm_error_with_context (bytes_str (from_utf8_lossy context)) (DynVm err)).

Definition error_missing_symbol (fuel : nat) (sym : Z) (mem : HostMemory) : Res Never VmError :=
  let? sym := c_str fuel mem sym in Ok (missing_symbol (bytes_str (from_utf8_lossy sym))).

(** ** Arrays *)

Record Array := { ar_array : option Z; ar_max_size : Z; ar_cursor : Z }.

Definition array_new (ptr max_size : Z) : Array :=
  {| ar_array := non_null ptr; ar_max_size := max_size; ar_cursor := 0 |}.

Definition array_push {T} (P : Pod T) (val : T) : MutRes (Array * CS) VmError ControlFlow := λ '(self, s),
  let next (n : Z) := {| ar_array := ar_array self; ar_max_size := ar_max_size self; ar_cursor := n |} in
  match ar_array self with
  | Some array =>
      if ar_cursor self <? ar_max_size self then
        let s := write_memory (array + ar_cursor self * Z.of_nat (size_of P)) (bytes_of P val) s in
        match add_u64 (ar_cursor self) 1 with
        | Ok n => (Ok Continue, (next n, s))
        | r => (res_map (λ _, Continue) r, (self, s))
        end
      else (Ok Break, (self, s))
  | None =>
      match add_u64 (ar_cursor self) 1 with
      | Ok n => (Ok Continue, (next n, s))
      | r => (res_map (λ _, Continue) r, (self, s))
      end
  end.

(** [fill]; dropping the items of an array has no effect. *)
Definition array_fill (ptr max_size : Z) (f : MutRes (Array * CS) VmError unit) : MutRes CS Never Z :=
  wrap_usize (λ s,
    match f (array_new ptr max_size, s) with
    | (Ok _, (array, s)) => (Ok (ar_cursor array), s)
    | (Err e, (_, s)) => (Err e, s)
    | (Panic, (_, s)) => (Panic, s)
    | (NoFuel, (_, s)) => (NoFuel, s)
    end).

(** [slice::from_raw_parts_mut] *)
Definition from_raw_parts_mut {E A} (ptr : Z) (size : nat) (f : MutRes bytes E A) : MutRes CS E A := λ s,
  let (r, bs) := f (mem_read (cs_memory s) ptr size) in (r, write_memory ptr bs s).

(** ** Operating systems *)

Section os.
Context {A : Type} `{ArchTypes A}.
Variable os : Os A St.

Definition c_read_virtual_memory (mmu_addr addr buf : Z) (buf_size : nat) : MutRes CS Never Z :=
  wrap_unit (from_raw_parts_mut buf buf_size (os_read_virtual_memory os mmu_addr addr)).

Definition c_try_read_virtual_memory (mmu_addr addr buf : Z) (buf_size : nat) : MutRes CS Never Z :=
  wrap_unit (from_raw_parts_mut buf buf_size (os_try_read_virtual_memory os mmu_addr addr)).

Definition c_read_process_memory (mmu_addr addr proc buf : Z) (buf_size : nat) : MutRes CS Never Z :=
  wrap_unit (from_raw_parts_mut buf buf_size (read_process_memory os proc mmu_addr addr)).

Definition c_try_read_process_memory (mmu_addr addr proc buf : Z) (buf_size : nat) : MutRes CS Never Z :=
  wrap_unit (from_raw_parts_mut buf buf_size (try_read_process_memory os proc mmu_addr addr)).

Definition c_os_current_process (vcpu proc : Z) : MutRes CS Never Z := wrap pod_u64 proc (current_process os vcpu).
Definition c_os_current_thread (vcpu thread : Z) : MutRes CS Never Z := wrap pod_u64 thread (current_thread os vcpu).

(** The iterations whose items are addresses. *)
Definition fill_addresses (ptr n : Z) (iter : ForEach Z) : MutRes CS Never Z :=
  array_fill ptr n (iter _ (array_push pod_u64)).

Definition c_os_processes (procs n_procs : Z) : MutRes CS Never Z := fill_addresses procs n_procs (for_each_process os).

Definition c_process_id (proc pid : Z) : MutRes CS Never Z := wrap pod_u64 pid (process_id os proc).

(** A text that the operating system gives, if it does. *)
Definition write_text (text : VmResult (option string)) : MutRes (Formatter * CS) VmError unit :=
  let! text := mut_lift text in
  match text with Some text => write_ignored (write_str text) | None => mut_ret tt end.

Definition c_process_name (proc name max_len : Z) : MutRes CS Never Z :=
  with_formatter name max_len (write_text (res_map Some (process_name os proc))).

Definition c_process_pgd (proc pgd : Z) : MutRes CS Never Z := wrap pod_u64 pgd (process_pgd os proc).

Definition c_process_path (proc name max_len : Z) : MutRes CS Never Z :=
  with_formatter name max_len (write_text (process_path os proc)).

Definition c_process_parent (proc parent : Z) : MutRes CS Never Z := wrap pod_u64 parent (process_parent os proc).

Definition c_process_vmas (proc vmas n : Z) : MutRes CS Never Z := fill_addresses vmas n (process_for_each_vma os proc).
Definition c_process_threads (proc threads n : Z) : MutRes CS Never Z :=
  fill_addresses threads n (process_for_each_thread os proc).
Definition c_process_children (proc children n : Z) : MutRes CS Never Z :=
  fill_addresses children n (process_for_each_child os proc).
Definition c_process_modules (proc modules n : Z) : MutRes CS Never Z :=
  fill_addresses modules n (process_for_each_module os proc).

(** The [StackFrame] of the interface. *)
Record CStackFrame := { cf_ip : Z; cf_sp : Z }.

Definition CStackFrame_pod : Pod CStackFrame :=
  pod_iso (λ '(ip, sp), {| cf_ip := ip; cf_sp := sp |}) (λ f, (cf_ip f, cf_sp f)) (pod_pair pod_u64 pod_u64).

Definition c_frame (frame : StackFrame) : CStackFrame :=
  {| cf_ip := frame_instruction_pointer frame; cf_sp := frame_stack_pointer frame |}.

Definition c_process_callstack (callstack : Z → Z → Z → option Z → ForEach StackFrame) (proc frames n_frames : Z)
  : MutRes CS Never Z :=
  array_fill frames n_frames (process_callstack os callstack proc _ (λ frame, array_push CStackFrame_pod (c_frame frame))).

Definition c_thread_id (thread tid : Z) : MutRes CS Never Z := wrap pod_u64 tid (thread_id os thread).

Definition c_thread_name (thread name max_len : Z) : MutRes CS Never Z :=
  with_formatter name max_len (write_text (thread_name os thread)).

Definition c_thread_process (thread proc : Z) : MutRes CS Never Z := wrap pod_u64 proc (thread_process os thread).

Definition c_vma_start (vma start : Z) : MutRes CS Never Z := wrap pod_u64 start (vma_start os vma).
Definition c_vma_end (vma end_ : Z) : MutRes CS Never Z := wrap pod_u64 end_ (vma_end os vma).

Definition c_vma_path (vma path max_len : Z) : MutRes CS Never Z :=
  with_formatter path max_len (write_text (vma_path os vma)).

Definition c_module_start (module proc start : Z) : MutRes CS Never Z :=
  wrap pod_u64 start (let? ' (start, _) := module_span os module proc in Ok start).

Definition c_module_end (module proc end_ : Z) : MutRes CS Never Z :=
  wrap pod_u64 end_ (let? ' (_, end_) := module_span os module proc in Ok end_).

Definition c_module_name (module proc name max_len : Z) : MutRes CS Never Z :=
  with_formatter name max_len (write_text (res_map Some (module_name os module proc))).

Definition c_module_path (module proc path max_len : Z) : MutRes CS Never Z :=
  with_formatter path max_len (write_text (res_map Some (module_path os module proc))).

(** The lookup works on the index of symbols. *)
Definition with_os {E T} (f : MutRes St E T) : MutRes (Formatter * CS) E T := λ '(fmt, s),
  let (r, st) := f (cs_os s) in (r, (fmt, {| cs_memory := cs_memory s; cs_error := cs_error s; cs_os := st |})).

Definition c_resolve_symbol (proc addr symbol max_len : Z) : MutRes CS Never Z :=
  with_formatter symbol max_len (
    let! sym := with_os (resolve_symbol os addr proc) in
    match sym with Some (sym, _) => write_ignored (write_str sym) | None => mut_ret tt end).
End os.
End native.
