(* ===== verification/NativeSpec.v ===== *)
(** * What the C interface writes

    The strings and the arrays that C functions fill stay in the buffer of the
    caller, strings end with a NUL, and the error of the thread says how the
    call ended. *)

From S2P Require Import Prelude Rust Layout Addr Error Text Mem Registers Mmu Arch ArchSpec.
From S2P Require Import Backend Symbols SymbolsSpec Os OsSpec Native.

(** ** Memories that have the same content *)

#[export] Instance host_memory_equiv : Equiv HostMemory := λ m m', ∀ a, m a = m' a.

#[export] Instance host_memory_equivalence : Equivalence (≡@{HostMemory}).
Proof.
  split; [by intros m a|by intros m m' H a; rewrite (H a)|].
  intros m1 m2 m3 H1 H2 a. by rewrite (H1 a), (H2 a).
Qed.

#[export] Instance mem_write_proper : Proper ((≡@{HostMemory}) ==> eq ==> eq ==> (≡)) mem_write.
Proof. intros m m' Hm ptr _ <- bs _ <- a. unfold mem_write. by rewrite (Hm a). Qed.

Lemma mem_write_lookup mem ptr bs i b :
  bs !! i = Some b → mem_write mem ptr bs (ptr + Z.of_nat i) = b.
Proof.
  intros Hi. pose proof (lookup_lt_Some _ _ _ Hi). unfold mem_write.
  replace (_ && _) with true by lia. replace (Z.to_nat (ptr + Z.of_nat i - ptr)) with i by lia. by rewrite Hi.
Qed.

Lemma mem_write_out mem ptr bs a :
  a < ptr ∨ ptr + Z.of_nat (length bs) <= a → mem_write mem ptr bs a = mem a.
Proof. intros Ha. unfold mem_write. by replace (_ && _) with false by lia. Qed.

Lemma mem_write_nil mem ptr : mem_write mem ptr [] ≡ mem.
Proof. intros a. apply mem_write_out. cbn. lia. Qed.

(** An address is out of what is written, or one of its positions. *)
Lemma mem_write_cases ptr (bs : bytes) a :
  (a < ptr ∨ ptr + Z.of_nat (length bs) <= a) ∨ ∃ i b, a = ptr + Z.of_nat i ∧ bs !! i = Some b.
Proof.
  destruct (decide (a < ptr ∨ ptr + Z.of_nat (length bs) <= a)); [by left|right].
  destruct (lookup_lt_is_Some_2 bs (Z.to_nat (a - ptr))) as [b Hb]; [lia|].
  exists (Z.to_nat (a - ptr)), b. split; [lia|done].
Qed.

Lemma mem_write_app mem ptr x y :
  mem_write (mem_write mem ptr x) (ptr + Z.of_nat (length x)) y ≡ mem_write mem ptr (x ++ y).
Proof.
  intros a. destruct (mem_write_cases ptr (x ++ y) a) as [Ha|(i & b & -> & Hb)].
  - rewrite length_app in Ha. rewrite !mem_write_out by (rewrite ?length_app; lia). done.
  - rewrite (mem_write_lookup mem ptr (x ++ y) i b Hb). apply lookup_app_Some in Hb as [Hb|[Hl Hb]].
    + pose proof (lookup_lt_Some _ _ _ Hb). rewrite mem_write_out by lia. by apply mem_write_lookup.
    + replace (ptr + Z.of_nat i) with (ptr + Z.of_nat (length x) + Z.of_nat (i - length x)) by lia.
      by apply mem_write_lookup.
Qed.

Lemma mem_write_twice mem ptr bs : mem_write (mem_write mem ptr bs) ptr bs ≡ mem_write mem ptr bs.
Proof.
  intros a. destruct (mem_write_cases ptr bs a) as [Ha|(i & b & -> & Hb)].
  - by rewrite mem_write_out.
  - by rewrite !(mem_write_lookup _ _ _ i b).
Qed.

Lemma c_str_S n mem ptr :
  c_str (S n) mem ptr =
  if bool_decide (mem ptr = Byte.x00) then Ok [] else let? bs := c_str n mem (ptr + 1) in Ok (mem ptr :: bs).
Proof. done. Qed.

(** Reading a string back. *)
Lemma c_str_write bs mem ptr mem' :
  mem' ≡ mem_write mem ptr (bs ++ [Byte.x00]) → Forall (λ b, b ≠ Byte.x00) bs →
  c_str (S (length bs)) mem' ptr = Ok bs.
Proof.
  revert mem ptr. induction bs as [|b bs IH]; intros mem ptr Hm Hbs.
  { cbn. pose proof (mem_write_lookup mem ptr [Byte.x00] 0 Byte.x00 eq_refl) as H0. rewrite Z.add_0_r in H0.
    by rewrite (Hm ptr), bool_decide_true. }
  apply Forall_cons in Hbs as [Hb Hbs].
  assert (mem' ptr = b) as Hp.
  { rewrite (Hm ptr). pose proof (mem_write_lookup mem ptr ((b :: bs) ++ [Byte.x00]) 0 b eq_refl) as H0. by rewrite Z.add_0_r in H0. }
  change (length (b :: bs)) with (S (length bs)). rewrite c_str_S, Hp, bool_decide_false by done.
  rewrite (IH (mem_write mem ptr [b])); [done| |done].
  rewrite Hm. change ((b :: bs) ++ [Byte.x00]) with ([b] ++ (bs ++ [Byte.x00])). by rewrite <- mem_write_app.
Qed.

Section spec.
Context {bm : Build} {St : Type}.
Variable payload : PanicPayload.
Implicit Types s : CState St.

(** The error that a call leaves for the thread. *)
Definition error_left {T} (r : VmResult T) : option VmError :=
  match r with
  | Ok _ | NoFuel => None
  | Err e => Some e
  | Panic => Some (convert_panic_payload payload)
  end.

Definition state_after {T} (mem : HostMemory) (r : VmResult T) s : CState St :=
  {| cs_memory := mem; cs_error := error_left r; cs_os := cs_os s |}.

(** ** Strings *)

(** What fits of the text, with its NUL, in [len] bytes. *)
Definition c_text (len : Z) (text : VmResult (option string)) : bytes :=
  match text with Ok (Some text) => take (Z.to_nat (len - 1)) (str_bytes text) | _ => [] end.

Lemma str_bytes_app x y : str_bytes (x +:+ y)%string = str_bytes x ++ str_bytes y.
Proof.
  unfold str_bytes. rewrite <- fmap_app. f_equal. induction x as [|c x IH]; [done|].
  change (String c x +:+ y)%string with (String c (x +:+ y)). cbn [String.list_ascii_of_string]. by rewrite IH.
Qed.

(** The formatter after [n] bytes. *)
Definition advance (fmt : Formatter) (p n : Z) : Formatter :=
  {| fm_ptr := Some (p + n); fm_len := fm_len fmt - n; fm_written := fm_written fmt + n |}.

Lemma write_str_spec text fmt p s :
  fm_ptr fmt = Some p → 0 < p → 0 <= fm_len fmt →
  let bs := str_bytes text in
  write_str text (fmt, s) =
  (if fm_len fmt <? Z.of_nat (length bs) then Err tt else Ok tt,
   (advance fmt p (Z.min (Z.of_nat (length bs)) (fm_len fmt)),
    write_memory p (take (Z.to_nat (fm_len fmt)) bs) s)).
Proof.
  intros Hp H0 Hl bs. unfold write_str. rewrite Hp. fold bs. unfold non_null.
  replace (_ + _ =? 0) with false by lia.
  replace (Z.min (Z.of_nat (length bs)) (fm_len fmt) <? Z.of_nat (length bs)) with (fm_len fmt <? Z.of_nat (length bs)) by lia.
  do 3 f_equal. destruct (Z.le_ge_cases (Z.of_nat (length bs)) (fm_len fmt)).
  - rewrite Z.min_l by lia. by rewrite !take_ge by lia.
  - by rewrite Z.min_r by lia.
Qed.

(** Text that is written in pieces is the concatenation of the pieces. *)
Lemma fmt_write_spec pieces fmt p s :
  fm_ptr fmt = Some p → 0 < p → 0 <= fm_len fmt →
  let bs := str_bytes (foldr String.append ""%string pieces) in
  ∃ r mem, fmt_write pieces (fmt, s) =
    (r, (advance fmt p (Z.min (Z.of_nat (length bs)) (fm_len fmt)), set_memory mem s)) ∧ r ≠ Panic ∧ r ≠ NoFuel ∧
    mem ≡ mem_write (cs_memory s) p (take (Z.to_nat (fm_len fmt)) bs).
Proof.
  revert fmt p s. induction pieces as [|x pieces IH]; intros fmt p s Hp H0 Hl; cbn [foldr fmt_write].
  { exists (Ok tt), (cs_memory s). split_and!; [|done..|].
    - unfold mut_ret. f_equal. destruct fmt as [q l w], s. unfold advance, set_memory. cbn in *. subst q.
      rewrite Z.min_l by lia. repeat f_equal; lia.
    - cbn. by rewrite take_nil, mem_write_nil. }
  rewrite str_bytes_app, length_app. unfold mut_bind at 1.
  rewrite (write_str_spec x fmt p s Hp H0 Hl). set (bx := str_bytes x).
  set (bp := str_bytes (foldr String.append ""%string pieces)).
  destruct (Z.ltb_spec (fm_len fmt) (Z.of_nat (length bx))) as [Hx|Hx].
  - exists (Err tt), (mem_write (cs_memory s) p (take (Z.to_nat (fm_len fmt)) bx)). split_and!; [|done..|].
    + by replace (Z.min (Z.of_nat (length bx + length bp)) (fm_len fmt)) with (Z.min (Z.of_nat (length bx)) (fm_len fmt)) by lia.
    + by rewrite take_app_le by lia.
  - rewrite Z.min_l by lia. destruct (IH (advance fmt p (Z.of_nat (length bx))) (p + Z.of_nat (length bx))
      (write_memory p (take (Z.to_nat (fm_len fmt)) bx) s)) as (r & mem & Hw & Hr1 & Hr2 & Hm); [done|lia|cbn; lia|].
    exists r, mem. rewrite Hw. split_and!; [|done..|].
    + fold bp. cbn [fm_len advance]. do 2 f_equal. unfold advance. cbn. f_equal; [f_equal|..]; lia.
    + rewrite Hm. cbn [cs_memory write_memory set_memory fm_len advance]. fold bp. rewrite take_ge by lia.
      rewrite mem_write_app, take_app_ge by lia. do 2 f_equiv. f_equal. lia.
Qed.

(** [wrap_usize] reports a size, or leaves the error. *)
Lemma wrap_usize_spec (f : MutRes (CState St) VmError Z) s r s' :
  f s = (r, s') → r ≠ NoFuel → (∀ n, r = Ok n → is_i64 n) →
  wrap_usize payload f s =
  (Ok match r with Ok n => n | _ => -1 end, state_after (cs_memory s') r s').
Proof.
  intros Hf Hr Hn. unfold wrap_usize, mut_bind, catch_unwind. rewrite Hf.
  destruct r as [n|e| |]; [|done..]. cbn. by rewrite as_i64_small by (by apply Hn).
Qed.

(** C33. A string that a C function writes: in a buffer of [len] bytes at [ptr],
    the bytes of the text that fit and a NUL, and nothing else changes; the
    length is returned.  Without a text the string is empty, also when the
    function fails or panics, which returns -1 and leaves the error for the
    thread; a success clears it.  The caller reads the text back when it has no
    NUL in itself. *)
Theorem c_string_spec ptr len text s :
  text ≠ NoFuel → 0 < ptr → 0 < len → ptr + len <= 2 ^ 63 →
  ∃ mem, with_formatter payload ptr len (write_text text) s
    = (Ok match text with Ok _ => Z.of_nat (length (c_text len text)) | _ => -1 end, state_after mem text s) ∧
    mem ≡ mem_write (cs_memory s) ptr (c_text len text ++ [Byte.x00]) ∧
    (Forall (λ b, b ≠ Byte.x00) (c_text len text) →
     c_str (S (length (c_text len text))) mem ptr = Ok (c_text len text)).
Proof.
  intros Ht Hp Hl Hb.
  enough (∃ mem, with_formatter payload ptr len (write_text text) s
    = (Ok match text with Ok _ => Z.of_nat (length (c_text len text)) | _ => -1 end, state_after mem text s) ∧
    mem ≡ mem_write (cs_memory s) ptr (c_text len text ++ [Byte.x00])) as (mem & Hw & Hm)
    by (exists mem; split_and!; [done..|]; by apply (c_str_write _ (cs_memory s))).
  unfold with_formatter, formatter_new. replace (len =? 0) with false by lia. cbn [negb].
  set (fmt := {| fm_ptr := non_null ptr; fm_len := len - 1; fm_written := 0 |}).
  assert (fm_ptr fmt = Some ptr) as Hf by (cbn; unfold non_null; by replace (ptr =? 0) with false by lia).
  set (len' := Z.of_nat (length (c_text len text))).
  set (mem1 := match text with
               | Ok (Some _) => mem_write (cs_memory s) ptr (c_text len text)
               | _ => cs_memory s
               end).
  set (mem2 := mem_write mem1 (ptr + len') [Byte.x00]).
  exists (match text with Ok _ => mem_write mem2 (ptr + len') [Byte.x00] | _ => mem2 end). split.
  - erewrite wrap_usize_spec with (r := res_map (λ _, len') text)
      (s' := set_memory match text with Ok _ => mem_write mem2 (ptr + len') [Byte.x00] | _ => mem2 end s).
    + destruct text as [text|e| |]; done.
    + destruct text as [[text|]|e| |]; 
        [|unfold write_text, mut_bind, mut_lift, mut_ret, formatter_finish, formatter_end; rewrite Hf;
          unfold len', mem2, mem1; cbn; by rewrite ?Z.add_0_r..|done].
      unfold write_text, mut_bind, mut_lift, write_ignored. rewrite (write_str_spec text fmt ptr s Hf) by (cbn; lia).
      assert (Z.min (Z.of_nat (length (str_bytes text))) (fm_len fmt) = len') as Hn
        by (unfold len'; cbn [c_text fm_len fmt]; rewrite length_take; lia).
      rewrite Hn. by destruct (_ <? _).
    + by destruct text.
    + intros n. destruct text as [text'|e| |]; [|done..]. intros [= <-]. unfold is_i64, len'. cbn [c_text].
      destruct text' as [text'|]; [rewrite length_take|cbn]; lia.
  - assert (mem2 ≡ mem_write (cs_memory s) ptr (c_text len text ++ [Byte.x00])) as Hm.
    { unfold mem2, mem1, len'. rewrite <- mem_write_app.
      destruct text as [[text|]|e| |]; cbn [c_text length]; by rewrite ?mem_write_nil. }
    destruct text as [text|e| |]; [|done..]. unfold mem2. rewrite mem_write_twice. exact Hm.
Qed.

(** What [print_last_error] writes. *)
Lemma print_last_error_spec pieces str max_len s :
  0 < str → 0 < max_len →
  let text := match cs_error s with
              | Some err => foldr String.append ""%string (display_error pieces err)
              | None => "success"%string
              end in
  let bs := take (Z.to_nat (max_len - 1)) (str_bytes text) in
  ∃ mem, print_last_error pieces str max_len s = (Ok (Z.of_nat (length bs)), set_memory mem s) ∧
    mem ≡ mem_write (cs_memory s) str (bs ++ [Byte.x00]).
Proof.
  intros Hp Hl text bs. set (fmt := {| fm_ptr := non_null str; fm_len := max_len - 1; fm_written := 0 |}).
  assert (fm_ptr fmt = Some str) as Hf by (cbn; unfold non_null; by replace (str =? 0) with false by lia).
  assert (Z.min (Z.of_nat (length (str_bytes text))) (fm_len fmt) = Z.of_nat (length bs)) as Hn
    by (unfold bs; cbn [fm_len fmt]; rewrite length_take; lia).
  assert (∃ mem, print_last_error pieces str max_len s =
    (Ok (Z.of_nat (length bs)),
     set_memory (mem_write (mem_write mem (str + Z.of_nat (length bs)) [Byte.x00]) (str + Z.of_nat (length bs)) [Byte.x00]) s) ∧
    mem ≡ mem_write (cs_memory s) str bs) as (mem & -> & Hm).
  { unfold print_last_error, formatter_new, take_error. replace (max_len =? 0) with false by lia. cbn [negb]. fold fmt.
    destruct s as [m0 [err|] o]; cbn [cs_error] in *.
    - destruct (fmt_write_spec (display_error pieces err) fmt str (set_last_error None (Build_CState _ m0 (Some err) o)) Hf Hp)
        as (r & mem & -> & _ & _ & Hm); [cbn; lia|]. fold text in Hm |- *. rewrite Hn. by exists mem.
    - rewrite (write_str_spec _ fmt str _ Hf Hp) by (cbn; lia). fold text. rewrite Hn.
      by eexists. }
  eexists. split; [done|]. by rewrite mem_write_twice, Hm, mem_write_app.
Qed.

(** ** Arrays *)

Section arrays.
Context {T U : Type} (P : Pod U) `{!PodOk P}.
Variable g : T → U.

Definition items_bytes (l : list T) : bytes := bytes_of_list P (g <$> l).

Lemma items_bytes_cons x l : items_bytes (x :: l) = bytes_of P (g x) ++ items_bytes l.
Proof. done. Qed.

(** The calls of [array_push] for the items of an iteration. *)
Lemma push_items l last array n k s :
  0 < array → 0 <= k <= n → n < 2 ^ 63 →
  let m := Z.to_nat (n - k) in
  ∃ mem, iterate (λ x, array_push P (g x)) l last ({| ar_array := Some array; ar_max_size := n; ar_cursor := k |}, s)
    = (if decide (length l <= m)%nat then last else Ok tt,
       ({| ar_array := Some array; ar_max_size := n; ar_cursor := k + Z.of_nat (length (take m l)) |}, set_memory mem s)) ∧
    mem ≡ mem_write (cs_memory s) (array + k * Z.of_nat (size_of P)) (items_bytes (take m l)).
Proof.
  intros Ha Hk Hn m. unfold m. clear m. revert k s Hk. induction l as [|x l IH]; intros k s Hk; cbn [iterate].
  { exists (cs_memory s). rewrite take_nil. cbn [length]. rewrite decide_True by lia. split; [|by rewrite mem_write_nil].
    unfold mut_lift. destruct s. do 3 f_equal. cbn. lia. }
  unfold mut_bind at 1, array_push at 1. cbn [ar_array ar_cursor ar_max_size].
  destruct (Z.ltb_spec k n) as [Hlt|Hge].
  - unfold add_u64. rewrite checked_width_ok by lia. cbn [is_break].
    destruct (IH (k + 1) (write_memory (array + k * Z.of_nat (size_of P)) (bytes_of P (g x)) s)) as (mem & Hi & Hm); [lia|].
    exists mem. rewrite Hi. replace (Z.to_nat (n - k)) with (S (Z.to_nat (n - (k + 1)))) by lia. cbn [take length]. split.
    + f_equal; [|do 2 f_equal; lia].
      destruct (decide (length l <= _)%nat), (decide (S (length l) <= _)%nat); done || lia.
    + rewrite Hm, items_bytes_cons, <- mem_write_app, pod_length. cbn [cs_memory write_memory set_memory].
      replace (array + (k + 1) * Z.of_nat (size_of P)) with (array + k * Z.of_nat (size_of P) + Z.of_nat (size_of P)) by lia. done.
  - replace (Z.to_nat (n - k)) with 0%nat by lia. cbn [take length is_break]. exists (cs_memory s).
    rewrite decide_False by lia. split; [|by cbn; rewrite mem_write_nil].
    unfold mut_ret. destruct s. do 3 f_equal. cbn. lia.
Qed.

(** Without an array the items are counted. *)
Lemma count_items l last n k s :
  0 <= k → k + Z.of_nat (length l) < 2 ^ 63 →
  iterate (λ x, array_push P (g x)) l last ({| ar_array := None; ar_max_size := n; ar_cursor := k |}, s)
  = (last, ({| ar_array := None; ar_max_size := n; ar_cursor := k + Z.of_nat (length l) |}, s)).
Proof.
  revert k. induction l as [|x l IH]; intros k Hk Hl; cbn [iterate length].
  { unfold mut_lift. do 3 f_equal. lia. }
  unfold mut_bind at 1, array_push at 1. cbn [ar_array ar_cursor]. unfold add_u64.
  cbn [length] in Hl. rewrite checked_width_ok by lia. cbn [is_break]. rewrite IH by lia. do 3 f_equal. lia.
Qed.

(** C34. An array that a C function fills from an iteration of the operating
    system: the items that fit are written one after the other from [ptr] on,
    nothing else changes, and their number is returned; with a NULL pointer the
    number of all the items is.  An iteration that fails before the array is
    full returns -1 and leaves the error for the thread. *)
Theorem c_array_spec iter items last ptr n s :
  IteratesTo iter items last → last ≠ NoFuel → 0 <= ptr → 0 <= n < 2 ^ 63 → Z.of_nat (length items) < 2 ^ 63 →
  let stored := if ptr =? 0 then [] else take (Z.to_nat n) items in
  let count := if ptr =? 0 then Z.of_nat (length items) else Z.min n (Z.of_nat (length items)) in
  let outcome := if negb (ptr =? 0) && (n <? Z.of_nat (length items)) then Ok tt else last in
  ∃ mem, array_fill payload ptr n (iter _ (λ x, array_push P (g x))) s
    = (Ok match outcome with Ok _ => count | _ => -1 end, state_after mem outcome s) ∧
    mem ≡ mem_write (cs_memory s) ptr (items_bytes stored).
Proof.
  intros Hi Hlast Hp Hn Hl. unfold array_fill, array_new, non_null. destruct (Z.eqb_spec ptr 0) as [->|Hptr]; cbn [negb andb].
  - exists (cs_memory s). split; [|by cbn; rewrite mem_write_nil].
    erewrite wrap_usize_spec with (r := res_map (λ _, Z.of_nat (length items)) last) (s' := s).
    + by destruct last.
    + rewrite Hi, count_items by lia. by destruct last.
    + by destruct last.
    + intros m. destruct last; [|done..]. intros [= <-]. unfold is_i64. lia.
  - destruct (push_items items last ptr n 0 s) as (mem & Hw & Hm); [lia..|].
    rewrite Z.sub_0_r in Hw, Hm. rewrite Z.mul_0_l, Z.add_0_r in Hm. exists mem. split; [|done].
    set (count := Z.min n (Z.of_nat (length items))).
    set (outcome := if n <? Z.of_nat (length items) then Ok tt else last).
    assert ((if decide (length items <= Z.to_nat n)%nat then last else Ok tt) = outcome) as Ho.
    { unfold outcome. destruct (decide _), (Z.ltb_spec n (Z.of_nat (length items))); done || lia. }
    assert (outcome ≠ NoFuel) as Hno by (unfold outcome; by destruct (_ <? _)).
    rewrite Ho in Hw. clearbody outcome.
    erewrite wrap_usize_spec with (r := res_map (λ _, count) outcome) (s' := set_memory mem s).
    + by destruct outcome.
    + rewrite Hi, Hw. cbn [ar_cursor]. rewrite length_take.
      replace (0 + Z.of_nat (Z.to_nat n `min` length items)) with count by (unfold count; lia). by destruct outcome.
    + by destruct outcome.
    + intros m. destruct outcome; [|done..]. intros [= <-]. unfold is_i64, count. lia.
Qed.
End arrays.
End spec.

(** ** Two calls *)

Section witness.
#[local] Existing Instance debug_build.

Definition sample_state : CState unit :=
  {| cs_memory := λ _, Byte.xff; cs_error := Some (vm_of_str "before"); cs_os := tt |}.

Lemma c_string_spec_witness :
  ∃ mem, with_formatter PayloadOther 100 4 (write_text (Ok (Some "vminer"%string))) sample_state
    = (Ok 3, {| cs_memory := mem; cs_error := None; cs_os := tt |}) ∧
    c_str 4 mem 100 = Ok (str_bytes "vmi") ∧ mem 99 = Byte.xff ∧ mem 104 = Byte.xff.
Proof.
  destruct (c_string_spec PayloadOther 100 4 (Ok (Some "vminer"%string)) sample_state ltac:(done) ltac:(lia) ltac:(lia) ltac:(lia))
    as (mem & Hw & Hm & Hs).
  exists mem. split; [exact Hw|]. split; [|split].
  - apply Hs. vm_compute. repeat constructor; discriminate.
  - exact (Hm 99).
  - exact (Hm 104).
Defined.

Definition sample_iteration : ForEach Z := λ S f, iterate f [5; 6; 7] (Ok tt).

Lemma c_array_spec_witness :
  ∃ mem, fill_addresses PayloadOther 8 2 sample_iteration sample_state
    = (Ok 2, {| cs_memory := mem; cs_error := None; cs_os := tt |}) ∧
    mem 8 = Byte.x05 ∧ mem 16 = Byte.x06 ∧ mem 24 = Byte.xff.
Proof.
  destruct (c_array_spec PayloadOther pod_u64 id sample_iteration [5; 6; 7] (Ok tt) 8 2 sample_state
    ltac:(intros ???; reflexivity) ltac:(done) ltac:(lia) ltac:(lia) ltac:(cbn; lia)) as (mem & Hw & Hm).
  exists mem. split; [exact Hw|]. split; [exact (Hm 8)|]. split; [exact (Hm 16)|exact (Hm 24)].
Defined.
End witness.
