(* ===== verification/NativeBackend.v ===== *)
(** * Backends and operating systems of the C interface
    ([native/src/backend.rs], the constructors of [native/src/os.rs])

    A backend written in C is a table of functions, each of which may be NULL; a
    function that fills a buffer is a computation on the buffer that returns a
    code.  The structures of registers of the interface have the layout of those
    of the library: a function returns their bytes. *)

From S2P Require Import Prelude Rust Layout Addr Error Mem Text Registers Mmu Arch Pages Backend.
From S2P Require Import Symbols Os Pointer LinuxProfile Linux WinProfile WinMemory Windows WinPdb WinOs.
From S2P Require Import MemSpec ArchSpec Native.

(** ** [X86_64Backend] *)

Record X86_64Backend := {
  cb_memory_mappings : option (list MemoryMap);
  cb_read_physical_memory : option (Z → MutRes bytes Never Z);
  cb_read_virtual_memory : option (Z → Z → MutRes bytes Never Z);
  cb_vcpus_count : Z;
  cb_registers : option (Z → bytes);
  cb_special_registers : option (Z → bytes);
  cb_other_registers : option (Z → bytes);
  (** the code that is returned and the value of the register *)
  cb_registers_by_name : option (Z → bytes → Z → Z * Z);
}.

Section backend.
Context {bm : Build}.

(** [io::Error::from_raw_os_error] *)
Variable from_raw_os_error : Z → IoError.
Variable self : X86_64Backend.

(** The code that a function of the table returns. *)
Definition code_result (res : Z) : MemoryAccessResult unit :=
  if res =? 0 then Ok tt
  else if 0 <? res then Err (MemIo (from_raw_os_error res))
  else Err OutOfBounds.

Definition c_memory_mappings : list MemoryMap := default [] (cb_memory_mappings self).

Definition c_read_physical (addr : Z) : MutRes bytes MemoryAccessError unit :=
  match cb_read_physical_memory self with
  | Some read_physical => λ buf,
      let (res, buf) := read_physical addr buf in
      (let? res := from_never res in code_result res, buf)
  | None => mut_lift (Err MemUnsupported)
  end.

Definition c_memory : Memory := {|
  memory_mappings := c_memory_mappings;
  is_valid := default_is_valid c_memory_mappings;
  read_physical := c_read_physical;
  search := default_search c_read_physical;
  dump := λ _ _, default_dump c_read_physical c_memory_mappings;
|}.

(** The three functions that return registers. *)
Definition c_get_registers {T} (P : Pod T) (registers : option (Z → bytes)) (vcpu : Z) : VcpuResult T :=
  if cb_vcpus_count self <=? vcpu then Err InvalidId
  else match registers with Some registers => Ok (pod_read P (registers vcpu)) | None => Err VcpuUnsupported end.

Definition c_raw_vcpus : RawVcpus X86_64 := {|
  arch := X86_64_;
  vcpus_count := cb_vcpus_count self;
  registers := (c_get_registers x86_Registers_pod (cb_registers self) : Z → VcpuResult (Registers X86_64));
  special_registers :=
    (c_get_registers x86_SpecialRegisters_pod (cb_special_registers self) : Z → VcpuResult (SpecialRegisters X86_64));
  other_registers :=
    (c_get_registers x86_OtherRegisters_pod (cb_other_registers self) : Z → VcpuResult (OtherRegisters X86_64));
|}.

(** [CString::new] fails on a NUL. *)
Definition c_register_by_name (vcpu : Z) (name : string) : VcpuResult Z :=
  match cb_registers_by_name self with
  | Some registers_by_name =>
      if bool_decide (Byte.x00 ∈ str_bytes name) then Err UnknownRegister
      else
        let (res, reg) := registers_by_name vcpu (str_bytes name ++ [Byte.x00]) 0 in
        if res =? 0 then Ok reg else Err UnknownRegister
  | None => arch_register_by_name (arch c_raw_vcpus) c_raw_vcpus vcpu name
  end.

Definition c_vcpus : HasVcpus X86_64 :=
  let vcpus := default_vcpus c_raw_vcpus in {|
    raw_vcpus := raw_vcpus vcpus;
    register_by_name := c_register_by_name;
    instruction_pointer := instruction_pointer vcpus;
    stack_pointer := stack_pointer vcpus;
    base_pointer := base_pointer vcpus;
    pgd := pgd vcpus;
    kernel_per_cpu := kernel_per_cpu vcpus;
  |}.

Definition c_backend_read_virtual_memory (mmu_addr addr : Z) : MutRes bytes TranslationError unit :=
  match cb_read_virtual_memory self with
  | Some read_virtual => λ buf,
      let (res, buf) := read_virtual mmu_addr addr buf in
      (let? res := from_never res in map_err TransMemory (code_result res), buf)
  | None => bk_read_virtual_memory (default_backend c_memory c_vcpus) mmu_addr addr
  end.

Definition c_backend : Backend X86_64 :=
  let backend := default_backend c_memory c_vcpus in {|
    bk_memory := bk_memory backend;
    bk_vcpus := bk_vcpus backend;
    bk_read_virtual_memory := c_backend_read_virtual_memory;
    bk_virtual_to_physical := bk_virtual_to_physical backend;
    bk_find_kernel_pgd := bk_find_kernel_pgd backend;
    bk_find_in_kernel_memory := bk_find_in_kernel_memory backend;
  |}.
End backend.

(** [Backend::new] and [backend_make] *)
Definition native_backend {bm : Build} {A} `{Architecture A} (backend : Backend A) : Backend RtArch :=
  arc_backend (runtime_backend backend).

Definition backend_make {bm : Build} (from_raw_os_error : Z → IoError) (backend : X86_64Backend) : Backend RtArch :=
  native_backend (c_backend from_raw_os_error backend).

(** What the interface asks of a function that reads physical memory: it returns
    a code, keeps to the buffer, and what it does depends on the memory only. *)
Class CReadLaws (f : Z → MutRes bytes Never Z) : Prop := {
  c_read_code : ∀ addr buf, is_ok (f addr buf).1;
  c_read_length : ∀ addr buf, length (f addr buf).2 = length buf;
  c_read_same : ∀ addr buf1 buf2, length buf1 = length buf2 → (f addr buf1).1 = (f addr buf2).1;
  c_read_content : ∀ addr buf1 buf2, length buf1 = length buf2 → (f addr buf1).1 = Ok 0 → f addr buf2 = f addr buf1;
}.

(** Such a backend has the contract of physical memory. *)
#[export] Instance c_memory_laws {bm : Build} os_error (self : X86_64Backend) f :
  cb_read_physical_memory self = Some f → CReadLaws f → MemoryLaws (c_memory os_error self).
Proof.
  intros Hf HC. cbn [c_memory read_physical]. unfold c_read_physical. rewrite Hf. split.
  - intros addr buf. pose proof (c_read_length addr buf). by destruct (f addr buf).
  - intros addr buf1 buf2 Hl. pose proof (c_read_same addr buf1 buf2 Hl) as Hs.
    destruct (f addr buf1), (f addr buf2). cbn in *. by subst.
  - intros addr buf1 buf2 Hl Hr. pose proof (c_read_content addr buf1 buf2 Hl) as Hs.
    destruct (f addr buf1) as [r b]. cbn in Hr, Hs. destruct (c_read_code addr buf1) as [code Hcode].
    destruct r as [code'|[]| |]; try done. cbn in Hr. unfold code_result in Hr.
    destruct (Z.eqb_spec code' 0) as [->|]; [|by destruct (0 <? code')]. by rewrite Hs.
Qed.

(** ** Operating systems *)

Section os.
Context {bm : Build} {M : Type} `{OnceMap M}.

(** The parameters of both operating systems. *)
Variable fuel : nat.
Variable memchr : byte → bytes → option nat.
Variable from_utf8_error : bytes → string.
Variable new_finder : bytes → Finder.
Variable size_of_image : bytes → VmResult Z.
Variables linux_loader win_loader : VmResult SymbolLoader.

(** [Linux::create] and [Windows::create] *)
Definition linux_create {A} `{Architecture A} (backend : Backend A) (symbols : SymbolsIndexer M)
  : VmResult (Linux A * SymbolsIndexer M) :=
  linux_build memchr new_finder linux_loader backend (with_symbols os_builder symbols).

Definition win_create {A} `{Architecture A} (backend : Backend A) (symbols : SymbolsIndexer M)
  : VmResult (Windows A * SymbolsIndexer M) :=
  win_build fuel memchr new_finder size_of_image win_loader backend (with_symbols os_builder symbols).

(** A boxed operating system, with its index of symbols. *)
Definition CsOs : Type := Os RtArch (SymbolsIndexer M) * SymbolsIndexer M.

Definition boxed_linux (linux : Linux RtArch * SymbolsIndexer M) : CsOs :=
  (linux_os fuel memchr from_utf8_error linux.1, linux.2).

Definition boxed_windows (windows : Windows RtArch * SymbolsIndexer M) : CsOs :=
  (windows_os fuel memchr new_finder size_of_image windows.1, windows.2).

(** [Os::new]: the first operating system that recognises the machine. *)
Definition native_os_new (backend : Backend RtArch) (symbols : SymbolsIndexer M) : VmResult CsOs :=
  let? linux := from_never (linux_quick_check new_finder backend) in
  match linux with
  | Some builder =>
      res_map boxed_linux (linux_build memchr new_finder linux_loader backend (with_symbols builder symbols))
  | None =>
      let? windows := from_never (win_quick_check fuel memchr new_finder size_of_image backend) in
      match windows with
      | Some builder =>
          res_map boxed_windows
            (win_build fuel memchr new_finder size_of_image win_loader backend (with_symbols builder symbols))
      | None => Err (vm_of_str "Failed to guess host OS")
      end
  end.

Section functions.
Context {St : Type}.
Variable payload : PanicPayload.

Notation CCall T := (MutRes (CState St) Never T).

Definition c_os_new (backend : Backend RtArch) (symbols : option (SymbolsIndexer M)) : CCall (option CsOs) :=
  wrap_box payload (native_os_new backend (default indexer_new symbols)).

Definition c_os_new_linux (backend : Backend RtArch) (symbols : option (SymbolsIndexer M)) : CCall (option CsOs) :=
  wrap_box payload (res_map boxed_linux (linux_create backend (default indexer_new symbols))).

Definition c_os_new_windows (backend : Backend RtArch) (symbols : option (SymbolsIndexer M)) : CCall (option CsOs) :=
  wrap_box payload (res_map boxed_windows (win_create backend (default indexer_new symbols))).
End functions.
End os.
