(* ===== verification/Relocations.v ===== *)
(** * Relocations of DWARF sections ([vminer-core/src/symbols/dwarf/relocations.rs])

    The [object] crate gives the sections of a file with their relocations, the
    [gimli] crate reads DWARF through its trait [Reader]: a [Relocate] is a
    reader that applies the relocations of its section to what it reads.
    Logging is left out; [usize] has 64 bits. *)

From S2P Require Import Prelude Rust Layout Addr Error Text Symbols Dwarf.

(** ** [object] *)

Inductive RelocationKind := Absolute | OtherKindOfRelocation.
Inductive RelocationTarget := TargetSymbol (index : Z) | OtherTarget.

(** The addend is an [i64]. *)
Record Relocation := {
  rel_kind : RelocationKind;
  rel_target : RelocationTarget;
  rel_has_implicit_addend : bool;
  rel_addend : Z;
}.

(** What [uncompressed_data] returns: a part of the file, or a new vector. *)
Inductive Cow := Borrowed (data : bytes) | Owned (data : bytes).

Record Section_ (ObjectError : Type) := {
  sec_relocations : list (Z * Relocation);
  sec_uncompressed_data : Res ObjectError Cow;
}.
Arguments sec_relocations {ObjectError}. Arguments sec_uncompressed_data {ObjectError}.

Record ObjectFile (ObjectError : Type) := {
  obj_little_endian : bool;
  obj_section_by_name : string → option (Section_ ObjectError);
  (** the address of the symbol *)
  obj_symbol_by_index : Z → option Z;
}.
Arguments obj_little_endian {ObjectError}. Arguments obj_section_by_name {ObjectError}.
Arguments obj_symbol_by_index {ObjectError}.

(** ** [gimli::Reader] *)

Class GimliReader (E R : Type) := {
  rd_big_endian : R → bool;
  rd_len : R → Z;
  rd_empty : R → R;
  rd_truncate : Z → MutRes R E unit;
  rd_offset_from : R → R → Z;
  rd_offset_id : R → Z;
  rd_lookup_offset_id : R → Z → option Z;
  rd_find : R → byte → Res E Z;
  rd_skip : Z → MutRes R E unit;
  rd_split : Z → MutRes R E R;
  rd_to_slice : R → Res E bytes;
  rd_to_string : R → Res E string;
  rd_to_string_lossy : R → Res E string;
  rd_read_slice : nat → MutRes R E bytes;
  rd_read_address : Z → MutRes R E Z;
  (** the argument tells the 64-bit format from the 32-bit one *)
  rd_read_length : bool → MutRes R E Z;
  rd_read_offset : bool → MutRes R E Z;
  rd_read_sized_offset : Z → MutRes R E Z;
}.

(** ** [Relocate] *)

Notation RelocationMap := (gmap Z Relocation).

Record Relocate (R : Type) := {
  rl_relocations : RelocationMap;
  rl_section : R;
  rl_reader : R;
}.
Arguments rl_relocations {R}. Arguments rl_section {R}. Arguments rl_reader {R}.

Definition relocate {R} (self : Relocate R) (offset value : Z) : Z :=
  match rl_relocations self !! offset with
  | Some relocation =>
      match rel_kind relocation with
      | Absolute =>
          if rel_has_implicit_addend relocation then wrapping_add value (as_u64 (rel_addend relocation))
          else as_u64 (rel_addend relocation)
      | _ => value
      end
  | None => value
  end.

Section reader.
Context {E R : Type} `{GimliReader E R}.

Definition set_reader (reader : R) (self : Relocate R) : Relocate R :=
  {| rl_relocations := rl_relocations self; rl_section := rl_section self; rl_reader := reader |}.

(** A method of the reader. *)
Definition delegate {A} (f : MutRes R E A) : MutRes (Relocate R) E A := λ self,
  let (r, reader) := f (rl_reader self) in (r, set_reader reader self).

(** The methods that relocate what they read; [ReaderOffset::from_u64] always
    succeeds for a [usize] of 64 bits. *)
Definition relocated (f : MutRes R E Z) : MutRes (Relocate R) E Z := λ self,
  let offset := rd_offset_from (rl_reader self) (rl_section self) in
  (let! value := delegate f in λ self, (Ok (relocate self offset value), self)) self.

Definition relocate_split (len : Z) : MutRes (Relocate R) E (Relocate R) := λ self,
  let (r, other) := rd_truncate len (rl_reader self) in
  (let! _ := mut_lift r in
   let! _ := delegate (rd_skip len) in
   mut_ret (set_reader other self)) self.

#[export] Instance relocate_reader : GimliReader E (Relocate R) := {|
  rd_big_endian := λ self, rd_big_endian (rl_reader self);
  rd_len := λ self, rd_len (rl_reader self);
  rd_empty := λ self, set_reader (rd_empty (rl_reader self)) self;
  rd_truncate := λ len, delegate (rd_truncate len);
  rd_offset_from := λ self base, rd_offset_from (rl_reader self) (rl_reader base);
  rd_offset_id := λ self, rd_offset_id (rl_reader self);
  rd_lookup_offset_id := λ self id, rd_lookup_offset_id (rl_reader self) id;
  rd_find := λ self byte, rd_find (rl_reader self) byte;
  rd_skip := λ len, delegate (rd_skip len);
  rd_split := relocate_split;
  rd_to_slice := λ self, rd_to_slice (rl_reader self);
  rd_to_string := λ self, rd_to_string (rl_reader self);
  rd_to_string_lossy := λ self, rd_to_string_lossy (rl_reader self);
  rd_read_slice := λ n, delegate (rd_read_slice n);
  rd_read_address := λ address_size, relocated (rd_read_address address_size);
  rd_read_length := λ format, relocated (rd_read_length format);
  rd_read_offset := λ format, relocated (rd_read_offset format);
  rd_read_sized_offset := λ size, relocated (rd_read_sized_offset size);
|}.
End reader.

(** ** Loading *)

Section load.
Context {ObjectError : Type}.
Variable file : ObjectFile ObjectError.

(** One turn of the loop of [add_relocations]. *)
Definition add_relocation (relocations : RelocationMap) (rel : Z * Relocation) : RelocationMap :=
  let '(offset, relocation) := rel in
  match rel_kind relocation with
  | Absolute =>
      let relocation :=
        match rel_target relocation with
        | TargetSymbol symbol_idx =>
            match obj_symbol_by_index file symbol_idx with
            | Some address =>
                {| rel_kind := rel_kind relocation; rel_target := rel_target relocation;
                   rel_has_implicit_addend := rel_has_implicit_addend relocation;
                   rel_addend := as_i64 (wrapping_add address (as_u64 (rel_addend relocation))) |}
            | None => relocation
            end
        | _ => relocation
        end in
      <[offset := relocation]> relocations
  | _ => relocations
  end.

Definition add_relocations (relocations : RelocationMap) (section : Section_ ObjectError) : RelocationMap :=
  foldl add_relocation relocations (sec_relocations section).

(** [gimli::EndianSlice::new] *)
Context {R : Type}.
Variable endian_slice : bytes → bool → R.

Definition load_file_section (name : string) (little_endian : bool) : Res ObjectError (Relocate R) :=
  let? ' (relocations, data) :=
    match obj_section_by_name file name with
    | Some section =>
        let relocations := add_relocations ∅ section in
        let? data := sec_uncompressed_data section in
        match data with Borrowed b => Ok (relocations, b) | Owned _ => Panic end
    | None => Ok (∅, [])
    end in
  let reader := endian_slice data little_endian in
  Ok {| rl_relocations := relocations; rl_section := reader; rl_reader := reader |}.

(** [gimli::Dwarf::load] *)
Context {Dwarf : Type}.
Variable dwarf_load : (string → Res ObjectError (Relocate R)) → Res ObjectError Dwarf.

Definition load_dwarf : Res ObjectError Dwarf :=
  dwarf_load (λ section, load_file_section section (obj_little_endian file)).
End load.

(** ** Errors *)

Inductive RelocationsError (GError ObjectError : Type) :=
| RelGimli (err : GError)
| RelObject (err : ObjectError)
| CompressedSection.
Arguments RelGimli {GError ObjectError}. Arguments RelObject {GError ObjectError}.
Arguments CompressedSection {GError ObjectError}.

Section error.
Context {GError ObjectError : Type}.

(** The message of the error of another crate, and those of its sources. *)
Variable gimli_chain : GError → list string.
Variable object_chain : ObjectError → list string.

Definition relocations_display (self : RelocationsError GError ObjectError) : string :=
  match self with
  | RelGimli _ => "failed to read DWARF data"
  | RelObject _ => "failed to read ELF"
  | CompressedSection => "compressed DWARF sections are not supported"
  end%string.

Definition relocations_sources (self : RelocationsError GError ObjectError) : list string :=
  match self with
  | RelGimli err => gimli_chain err
  | RelObject err => object_chain err
  | CompressedSection => []
  end.
End error.

(** [load_types] of [dwarf/mod.rs] *)
Section load_types.
Context {bm : Build} `{GimliAttr} {ObjectError R Dwarf : Type}.
Variable endian_slice : bytes → bool → R.
Variable dwarf_load : (string → Res ObjectError (Relocate R)) → Res ObjectError Dwarf.

(** The units of the DWARF data, and how their iteration ends. *)
Variable dwarf_units : Dwarf → list (Res GError DwarfUnit) * Res GError unit.
Variables fuel n : nat.

Definition load_types (obj : ObjectFile ObjectError)
  : MutRes ModuleSymbolsBuilder (RelocationsError GError ObjectError) unit :=
  let! dwarf := mut_lift (map_err RelObject (load_dwarf obj endian_slice dwarf_load)) in
  let '(units, last) := dwarf_units dwarf in
  mut_map_err RelGimli (load_types_from_dwarf fuel n units last).
End load_types.

(** ** Facts *)

(** The addend of a relocation of the section, with the address of its symbol. *)
Definition full_addend {ObjectError} (file : ObjectFile ObjectError) (rel : Relocation) : Z :=
  match rel_target rel with
  | TargetSymbol i =>
      match obj_symbol_by_index file i with Some address => address + rel_addend rel | None => rel_addend rel end
  | OtherTarget => rel_addend rel
  end.

(** The last absolute relocation at an offset. *)
Definition relocation_at (rels : list (Z * Relocation)) (offset : Z) : option Relocation :=
  snd <$> List.find (λ p, (p.1 =? offset) && match rel_kind p.2 with Absolute => true | _ => false end) (rev rels).

Lemma as_u64_as_i64_mod z : as_u64 (as_i64 z) = as_u64 z.
Proof. by rewrite as_u64_as_i64. Qed.

(** What is read where there is a relocation: the address of its symbol and its
    addend, added to the value of the section when that is part of it. *)
Lemma load_file_section_relocates {ObjectError R} (file : ObjectFile ObjectError) (endian_slice : bytes → bool → R)
    name little section rl offset value :
  obj_section_by_name file name = Some section →
  load_file_section file endian_slice name little = Ok rl →
  relocate rl offset value =
  match relocation_at (sec_relocations section) offset with
  | None => value
  | Some rel => as_u64 ((if rel_has_implicit_addend rel then value else 0) + full_addend file rel)
  end.
Proof.
  intros Hs Hl. unfold load_file_section in Hl. rewrite Hs in Hl. inv_ok.
  destruct v as [relocations data]. destruct v0 as [b|b]; [|done]. inv_ok. subst rl.
  subst relocations.
  unfold relocate, add_relocations, relocation_at. cbn [rl_relocations].
  induction (sec_relocations section) as [|[o rel] rels IH] using rev_ind; [cbn; by rewrite lookup_empty|].
  rewrite foldl_app, rev_app_distr. cbn [foldl rev app List.find fst snd]. unfold add_relocation at 1.
  destruct (rel_kind rel) eqn:Hk; [|by rewrite andb_false_r]. rewrite andb_true_r.
  destruct (Z.eqb_spec o offset) as [->|Ho]; [|rewrite lookup_insert_ne by done; exact IH].
  rewrite lookup_insert_eq. cbn [fmap option_fmap option_map snd]. unfold full_addend.
  assert (∀ v a, (if rel_has_implicit_addend rel then wrapping_add v (as_u64 a) else as_u64 a)
    = as_u64 ((if rel_has_implicit_addend rel then v else 0) + a)) as Ha.
  { intros v a. unfold wrapping_add, wrap_u64, as_u64. destruct (rel_has_implicit_addend rel); [|done].
    by rewrite Zplus_mod_idemp_r. }
  destruct (rel_target rel) as [i|]; [|by rewrite ?Hk, Ha]. destruct (obj_symbol_by_index file i) as [address|]; [|by rewrite ?Hk, Ha].
  cbn [rel_kind rel_has_implicit_addend rel_addend]. rewrite ?Hk, Ha. unfold as_i64, wrapping_add, wrap_u64, as_u64.
  generalize (if rel_has_implicit_addend rel then value else 0). intros v. clear. lia.
Qed.
