(* ===== verification/Loading.v ===== *)
(** * Loading the symbols of a module ([vminer-core/src/symbols/mod.rs],
    [native/src/symbols.rs])

    The format of a file is told by its first bytes: ELF with DWARF, PDB, or a
    list of symbols.  The crates that decode the first two are the class
    [SymbolCrates]; a path is modelled by its file name and by what reading it
    gives.  A builder is a state: it keeps what was pushed before a failure. *)

From S2P Require Import Prelude Rust Layout Addr Error Text Mem Registers Mmu Arch ArchSpec Backend.
From S2P Require Import Symbols SymbolsSpec SymbolsFile Dwarf Relocations PdbTypes Os Native.

(** What the crates [object], [gimli] and [pdb] give. *)
Class SymbolCrates `{GimliAttr} := {
  ObjectError : Type;
  SectionReader : Type;
  DwarfData : Type;
  object_parse : bytes → Res ObjectError (ObjectFile ObjectError);
  endian_slice : bytes → bool → SectionReader;
  dwarf_load : (string → Res ObjectError (Relocate SectionReader)) → Res ObjectError DwarfData;
  dwarf_units : DwarfData → list (Res GError DwarfUnit) * Res GError unit;
  PdbError : Type;
  PdbFile : Type;
  pdb_open : bytes → Res PdbError PdbFile;
  pdb_global_symbols : PdbFile → Res PdbError (list (Res PdbError SymbolData) * Res PdbError unit);
  pdb_address_map : PdbFile → Res PdbError unit;
  pdb_type_information : PdbFile → Res PdbError (list (Z * Res PdbError TypeData) * Res PdbError unit);
  (** the messages of the errors, and of their sources *)
  gimli_chain : GError → list string;
  object_chain : ObjectError → list string;
  pdb_chain : PdbError → list string;
}.

(** [VmError::new] on the error of a crate. *)
Definition foreign_error (chain : list string) : VmError :=
  vm_error_new (DynForeign (default ""%string (head chain)) (tail chain)).

(** [content.starts_with(magic)] *)
Definition starts_with (content magic : bytes) : bool := bool_decide (take (length magic) content = magic).

Definition ELF_MAGIC : bytes := Byte.x7f :: str_bytes "ELF".
Definition PDB_MAGIC : bytes := str_bytes "Microsoft C/C++".

Section load.
Context {bm : Build} `{SymbolCrates}.

(** The bounds of the resolution of types, and of the nesting of structures. *)
Variables fuel nesting : nat.
Variable sort_unstable_by : (SymbolEntry → SymbolEntry → comparison) → list SymbolEntry → list SymbolEntry.

Definition relocations_error (err : RelocationsError GError ObjectError) : VmError :=
  vm_error_new (DynForeign (relocations_display err) (relocations_sources gimli_chain object_chain err)).

(** The types of a PDB are added when all of them are read. *)
Definition builder_pdb_types (pdb : PdbFile) : MutRes ModuleSymbolsBuilder VmError unit := λ self,
  match pdb_load_types fuel (pdb_type_information pdb) self with
  | Ok self => (Ok tt, self)
  | Err err => (Ok tt, self)
  | Panic => (Panic, self)
  | NoFuel => (NoFuel, self)
  end.

Definition builder_read_bytes (content : bytes) : MutRes ModuleSymbolsBuilder VmError unit :=
  if starts_with content ELF_MAGIC then
    let! obj := mut_lift (map_err (λ err, foreign_error (object_chain err)) (object_parse content)) in
    mut_map_err relocations_error (load_types endian_slice dwarf_load dwarf_units fuel nesting obj)
  else if starts_with content PDB_MAGIC then
    let! pdb := mut_lift (map_err (λ err, foreign_error (pdb_chain err)) (pdb_open content)) in
    let! _ := mut_map_err (λ err, foreign_error (pdb_chain err))
                (load_syms (pdb_global_symbols pdb) (pdb_address_map pdb)) in
    builder_pdb_types pdb
  else read_from_bytes content.

Definition from_bytes (content : bytes) : VmResult ModuleSymbols :=
  let? module := run_on builder_new (builder_read_bytes content) in
  from_never (build sort_unstable_by module).

(** ** Files *)

(** A path: [file_name()], and what [fs::read] gives. *)
Record FilePath := { path_file_name : option bytes; path_content : Res IoError bytes }.

Definition builder_read_file_inner (path : FilePath) : MutRes ModuleSymbolsBuilder VmError unit :=
  let! content := mut_lift (map_err vm_of_io (path_content path)) in builder_read_bytes content.

Definition from_file (path : FilePath) : VmResult ModuleSymbols :=
  let? module := run_on builder_new (builder_read_file_inner path) in
  from_never (build sort_unstable_by module).

Section indexer.
Context {M : Type} `{OnceMap M}.

Notation Indexer := (MutRes (SymbolsIndexer M) VmError).

Definition load_from_bytes (name : string) (content : bytes) : Indexer (option ModuleSymbols) :=
  load_module name (λ _, res_map Some (from_bytes content)).

(** The name of the module that a path gives. *)
Definition path_name (path : FilePath) : VmResult string :=
  let? name := option_context (path_file_name path) "no file name" in
  option_context (if utf8_valid name then Some (bytes_str name) else None) "non UTF-8 file name".

Definition load_from_file_inner (path : FilePath) : Indexer (option ModuleSymbols) :=
  let! name := mut_lift (path_name path) in
  load_module name (λ _, res_map Some (from_file path)).

(** The entries of a directory; what cannot be loaded is logged. *)
Fixpoint load_entries (entries : list (Res IoError FilePath)) : Indexer unit :=
  match entries with
  | [] => mut_ret tt
  | Ok path :: entries => λ self,
      match load_from_file_inner path self with
      | (Ok _, self) | (Err _, self) => load_entries entries self
      | (Panic, self) => (Panic, self)
      | (NoFuel, self) => (NoFuel, self)
      end
  | Err err :: entries => load_entries entries
  | Panic :: _ => mut_lift Panic
  | NoFuel :: _ => mut_lift NoFuel
  end.

Definition load_dir_inner (entries : Res IoError (list (Res IoError FilePath))) : Indexer unit :=
  let! entries := mut_lift (map_err vm_of_io entries) in load_entries entries.

(** ** The C interface *)

Section native.
Variable payload : PanicPayload.
Variable utf8_error : bytes → string.
Notation CS := (CState (SymbolsIndexer M)).

Definition on_indexer {E T} (f : MutRes (SymbolsIndexer M) E T) : MutRes CS E T := λ s,
  let (r, indexer) := f (cs_os s) in
  (r, {| cs_memory := cs_memory s; cs_error := cs_error s; cs_os := indexer |}).

(** [CStr::from_ptr(ptr).to_str()?] *)
Definition c_to_str (n : nat) (ptr : Z) : MutRes CS VmError string := λ s,
  (let? bs := from_never (c_str n (cs_memory s) ptr) in
   if utf8_valid bs then Ok (bytes_str bs) else Err (vm_of_utf8 (utf8_error bs)), s).

Definition c_symbols_load_from_bytes (n : nat) (name data : Z) (len : nat) : MutRes CS Never Z :=
  wrap_unit payload (λ s,
    (let data := mem_read (cs_memory s) data len in
     let! name := c_to_str n name in
     let! _ := on_indexer (load_from_bytes name data) in mut_ret tt) s).

(** [open] gives the path, or the entries, that a name stands for. *)
Definition c_symbols_load_from_file (n : nat) (open : string → FilePath) (path : Z) : MutRes CS Never Z :=
  wrap_unit payload (let! path := c_to_str n path in
                     let! _ := on_indexer (load_from_file_inner (open path)) in mut_ret tt).

Definition c_symbols_load_dir (n : nat) (open : string → Res IoError (list (Res IoError FilePath))) (path : Z)
  : MutRes CS Never Z :=
  wrap_unit payload (let! path := c_to_str n path in on_indexer (load_dir_inner (open path))).
End native.
End indexer.

(** ** Facts *)

Section facts.
Context {M : Type} `{OnceMapLaws M}.

(** What a path gives, when it can be loaded. *)
Definition loads (path : Res IoError FilePath) (name : string) : option ModuleSymbols :=
  match path with
  | Ok path =>
      match path_name path with
      | Ok name' =>
          if String.eqb name' name then match from_file path with Ok module => Some module | _ => None end else None
      | _ => None
      end
  | _ => None
  end.

(** The first entry of a name that can be loaded. *)
Definition first_loaded (entries : list (Res IoError FilePath)) (name : string) : option ModuleSymbols :=
  head (omap (λ path, loads path name) entries).

(** The bounds are enough for an entry; an entry that is read is a result. *)
Definition entry_ends (path : Res IoError FilePath) : Prop :=
  match path with
  | Ok path => from_file path ≠ NoFuel
  | Err _ => True
  | _ => False
  end.

(** Loading the path panics, unless there are symbols of its name in [modules]. *)
Definition panics_in (modules : string → option (option ModuleSymbols)) (path : FilePath) : Prop :=
  ∃ name, path_name path = Ok name ∧ modules name = None ∧ from_file path = Panic.

(** The modules when [more] are added to those that were there. *)
Definition with_more (modules : M) (more : string → option ModuleSymbols) (name : string)
  : option (option ModuleSymbols) :=
  match om_get modules name with Some v => Some v | None => Some <$> more name end.

(** The modules of an index after [load_entries], name by name. *)
Definition extends_with (modules modules' : M) (more : string → option ModuleSymbols) : Prop :=
  ∀ name, om_get modules' name = with_more modules more name.

Lemma extends_refl modules : extends_with modules modules (λ _, None).
Proof. intros name. unfold with_more. by destruct (om_get modules name). Qed.

Lemma with_more_cons modules modules' path paths name :
  extends_with modules modules' (loads path) →
  with_more modules' (first_loaded paths) name = with_more modules (first_loaded (path :: paths)) name.
Proof.
  intros Hx. unfold with_more. rewrite Hx. unfold with_more.
  destruct (om_get modules name); [done|]. unfold first_loaded. cbn [omap list_omap].
  by destruct (loads path name).
Qed.

Lemma extends_cons modules modules' modules'' path paths :
  extends_with modules modules' (loads path) →
  extends_with modules' modules'' (first_loaded paths) →
  extends_with modules modules'' (first_loaded (path :: paths)).
Proof. intros Hx Hx' name. rewrite Hx'. by apply with_more_cons. Qed.

Lemma panics_in_ext modules modules' path :
  (∀ name, modules name = modules' name) → panics_in modules path → panics_in modules' path.
Proof. intros He (name & Hn & Hm & Hp). exists name. by rewrite <- He. Qed.

Lemma path_name_returns path : path_name path ≠ Panic ∧ path_name path ≠ NoFuel.
Proof.
  unfold path_name. destruct (path_file_name path) as [name|]; cbn; [|done]. by destruct (utf8_valid name).
Qed.

(** One path: a panic, which leaves the modules, or a result. *)
Lemma load_from_file_extends path (self : SymbolsIndexer M) :
  entry_ends (Ok path) →
  (panics_in (om_get (si_modules self)) path ∧ load_from_file_inner path self = (Panic, self)) ∨
  (¬ panics_in (om_get (si_modules self)) path ∧
   ∃ r modules, load_from_file_inner path self = (r, {| si_modules := modules |}) ∧ r ≠ Panic ∧ r ≠ NoFuel ∧
     extends_with (si_modules self) modules (loads (Ok path))).
Proof.
  intros He. unfold load_from_file_inner, mut_bind, mut_lift. destruct self as [modules]. cbn [si_modules entry_ends] in *.
  destruct (path_name path) as [n|e| |] eqn:Hname; [| |by destruct (path_name_returns path)..].
  2: { right. split; [intros (? & ? & _); congruence|]. exists (Err e), modules. split_and!; [done..|].
       intros name. unfold with_more. cbn [loads]. rewrite Hname. by destruct (om_get modules name). }
  unfold load_module. cbn [si_modules].
  set (f := λ name, result_with_context DynVm (res_map Some (from_file path)) _).
  destruct (om_get modules n) as [v|] eqn:Hg.
  { rewrite (om_present _ _ _ _ Hg). right. split; [intros (? & ? & ? & _); congruence|].
    exists (Ok v), modules. split_and!; [done..|]. intros name. unfold with_more. cbn [loads]. rewrite Hname.
    destruct (om_get modules name) eqn:Hg'; [done|]. destruct (String.eqb_spec n name) as [->|]; [congruence|done]. }
  destruct (from_file path) as [m|e| |] eqn:Hf; [| | |done].
  - right. split; [intros (? & _ & _ & ?); congruence|].
    destruct (om_absent_ok modules n f (Some m) Hg) as (modules' & -> & Hn' & Hother); [unfold f; done|].
    exists (Ok (Some m)), modules'. split_and!; [done..|]. intros name. unfold with_more. cbn [loads]. rewrite Hname, Hf.
    destruct (String.eqb_spec n name) as [<-|Hne]; [by rewrite Hn', Hg|].
    rewrite Hother by congruence. by destruct (om_get modules name).
  - right. split; [intros (? & _ & _ & ?); congruence|].
    erewrite (om_absent_err modules n f); [|done|unfold f; cbn; reflexivity].
    eexists _, modules. split_and!; [done..|]. intros name. unfold with_more. cbn [loads]. rewrite Hname, Hf.
    destruct (om_get modules name); [done|]. by destruct (String.eqb n name).
  - left. split; [by exists n|]. by rewrite (om_absent_panic modules n f Hg).
Qed.

Lemma load_entries_extends entries (self : SymbolsIndexer M) :
  Forall entry_ends entries →
  ∃ modules,
    load_entries entries self = (Ok tt, {| si_modules := modules |}) ∧
    extends_with (si_modules self) modules (first_loaded entries) ∧
    (∀ pre path post, entries = pre ++ Ok path :: post →
       ¬ panics_in (with_more (si_modules self) (first_loaded pre)) path) ∨
    load_entries entries self = (Panic, {| si_modules := modules |}) ∧
    ∃ pre path post, entries = pre ++ Ok path :: post ∧
      panics_in (with_more (si_modules self) (first_loaded pre)) path ∧
      extends_with (si_modules self) modules (first_loaded pre).
Proof.
  intros He. revert self. induction He as [|entry entries He _ IH]; intros self.
  { exists (si_modules self). left. destruct self. split_and!; [done|apply extends_refl|by intros []]. }
  assert (Hnil : ∀ name, om_get (si_modules self) name = with_more (si_modules self) (first_loaded []) name)
    by exact (extends_refl (si_modules self)).
  destruct entry as [path|err| |]; [|clear He|done|done]; cbn [load_entries].
  - destruct (load_from_file_extends path self He) as [(Hp & ->)|(Hnp & r & modules & -> & Hp & Hn & Hx)].
    { exists (si_modules self). right. destruct self. split; [done|]. exists [], path, entries.
      split_and!; [done|by eapply panics_in_ext|exact Hnil]. }
    destruct (IH {| si_modules := modules |}) as (modules' & [(Hl & Hx' & Hno)|(Hl & pre & p & post & -> & Hpp & Hx')]);
      exists modules'; cbn [si_modules] in *; [left|right].
    + split_and!; [by destruct r|by eapply extends_cons|]. intros [|p0 pre] p post [= <- Heq].
      * intros Hp0. apply Hnp. eapply panics_in_ext; [|exact Hp0]. intros name. symmetry. apply Hnil.
      * intros Hp0. eapply (Hno pre p post Heq), panics_in_ext; [|exact Hp0].
        intros name. symmetry. by apply with_more_cons.
    + split; [by destruct r|]. exists (Ok path :: pre), p, post. split_and!; [done| |by eapply extends_cons].
      eapply panics_in_ext; [|exact Hpp]. intros name. by apply with_more_cons.
  - destruct (IH self) as (modules & [(Hl & Hx & Hno)|(Hl & pre & p & post & -> & Hpp & Hx)]); exists modules; [left|right].
    + split_and!; [done|done|]. intros [|p0 pre] p post [= <- Heq]. by apply (Hno pre p post).
    + split; [done|]. by exists (Err err :: pre), p, post.
Qed.

(** C35. Loading a directory: the entries that cannot be read, named or decoded
    are skipped and make nothing fail; every name gets the symbols of the first
    entry with that name that can be loaded, and the modules that were loaded
    before are kept.  The exception is an entry whose decoding panics (a file
    with a line of less than 19 bytes does, [SymbolsFile.short_line_panics]) and
    whose name has no symbols yet: at the first such entry the whole load panics,
    with the modules that the entries before it gave.  A directory that cannot
    be read is an error that changes nothing. *)
Theorem load_dir_spec entries (self : SymbolsIndexer M) :
  Forall entry_ends entries →
  (∀ err, load_dir_inner (Err err) self = (Err (vm_of_io err), self)) ∧
  ∃ modules,
    load_dir_inner (Ok entries) self = (Ok tt, {| si_modules := modules |}) ∧
    extends_with (si_modules self) modules (first_loaded entries) ∧
    (∀ pre path post, entries = pre ++ Ok path :: post →
       ¬ panics_in (with_more (si_modules self) (first_loaded pre)) path) ∨
    load_dir_inner (Ok entries) self = (Panic, {| si_modules := modules |}) ∧
    ∃ pre path post, entries = pre ++ Ok path :: post ∧
      panics_in (with_more (si_modules self) (first_loaded pre)) path ∧
      extends_with (si_modules self) modules (first_loaded pre).
Proof. intros He. split; [done|]. by apply load_entries_extends. Qed.
End facts.
End load.

(** ** A directory *)

Section witness.
#[local] Existing Instance debug_build.

#[local] Instance no_attr : GimliAttr := {|
  GError := Empty_set; AttributeValue := Empty_set;
  unit_ref := λ v, match v with end; udata_value := λ v, match v with end; sdata_value := λ v, match v with end;
  encoding_value := λ v, match v with end; flag_value := λ v, match v with end; string_value := λ v, match v with end;
|}.

(** Crates that decode nothing. *)
#[local] Instance no_crates : SymbolCrates := {|
  ObjectError := unit; SectionReader := unit; DwarfData := unit;
  object_parse := λ _, Err tt; endian_slice := λ _ _, tt; dwarf_load := λ _, Err tt; dwarf_units := λ _, ([], Ok tt);
  PdbError := unit; PdbFile := unit; pdb_open := λ _, Err tt; pdb_global_symbols := λ _, Err tt;
  pdb_address_map := λ _, Err tt; pdb_type_information := λ _, Err tt;
  gimli_chain := λ _, []; object_chain := λ _, ["bad ELF"%string]; pdb_chain := λ _, ["bad PDB"%string];
|}.

Definition sample_path (name : string) (content : bytes) : Res IoError FilePath :=
  Ok {| path_file_name := Some (str_bytes name); path_content := Ok content |}.

(** An ELF file that is not decoded, a file that is not read, and symbols. *)
Definition sample_dir : list (Res IoError FilePath) :=
  [sample_path "kernel" ELF_MAGIC;
   Ok {| path_file_name := Some (str_bytes "kernel"); path_content := Err (io_from_kind OtherKind) |};
   sample_path "kernel" (str_bytes "ffffffffba000200 D linux_banner")].

(** The same directory, and one where a file with an empty line comes last. *)
Lemma load_dir_spec_witness :
  (∃ modules : gmap string (option ModuleSymbols),
    load_dir_inner 1 1 sort_by (Ok sample_dir) indexer_new = (Ok tt, {| si_modules := modules |}) ∧
    ∃ module, om_get modules "kernel"%string = Some (Some module) ∧
              get_address module "linux_banner"%string = Ok (Some 0xffffffffba000200)) ∧
  (∃ modules : gmap string (option ModuleSymbols),
    load_dir_inner 1 1 sort_by (Ok (sample_dir ++ [sample_path "user" [newline_byte]])) indexer_new
      = (Panic, {| si_modules := modules |})).
Proof.
  split.
  - destruct (load_dir_spec 1 1 sort_by (M := gmap string (option ModuleSymbols)) sample_dir indexer_new)
      as (_ & modules & [(Hl & Hx & _)|(Hl & _)]).
    { repeat constructor; vm_compute; discriminate. }
    + exists modules. split; [exact Hl|]. eexists. split; [rewrite (Hx "kernel"%string); vm_compute; reflexivity|].
      vm_compute. reflexivity.
    + exfalso. revert Hl. vm_compute. discriminate.
  - destruct (load_dir_spec 1 1 sort_by (M := gmap string (option ModuleSymbols))
      (sample_dir ++ [sample_path "user" [newline_byte]]) indexer_new) as (_ & modules & [(_ & _ & Hno)|(Hl & _)]).
    { repeat constructor; vm_compute; discriminate. }
    + exfalso. eapply (Hno sample_dir); [reflexivity|]. exists "user"%string. by split_and!; vm_compute.
    + by exists modules.
Defined.
End witness.
