(* ===== verification/Kvm.v ===== *)
(** * The KVM backend ([vminer/src/backends/kvm/mod.rs])

    The memory of the machine is found in the mappings of the hypervisor, which
    [/proc] lists, and the registers are received from the payload that runs in
    it.  Opening files and sockets, and listing a directory, are input: the model
    takes what they give. *)

From S2P Require Import Prelude Rust Layout Addr Error Text Mem Registers Mmu Arch Backend Symbols SymbolsFile KvmDump.

(** ** Text *)

(** [str::contains] *)
Fixpoint str_contains (needle hay : bytes) : bool :=
  bool_decide (take (length needle) hay = needle) ||
  match hay with [] => false | _ :: hay => str_contains needle hay end.

(** What [BufRead::lines] removes from the end of a line. *)
Definition trim_newline (line : bytes) : bytes :=
  match rev line with
  | nl :: rest =>
      if bool_decide (nl = newline_byte) then
        match rest with
        | cr :: rest' => if bool_decide (cr = Byte.x0d) then rev rest' else rev rest
        | [] => []
        end
      else line
  | [] => []
  end.

Notation minus_byte := Byte.x2d.
Notation space_byte := Byte.x20.

(** ** [/proc/pid/maps] *)

(** The message of the error of [u64::from_str_radix]. *)
Section maps.
Context {bm : Build}.
Variable parse_error : bytes → string.

(** The loop of [find_lib], on what is left of the file. *)
Fixpoint find_lib_lines (fuel : nat) (path : string) (name : string) : MutRes bytes VmError Z :=
  match fuel with
  | O => mut_lift NoFuel
  | S fuel =>
      let! ' (line, n) := read_one_line_std in
      if (n =? 0)%nat then
        mut_lift (Err (vm_error_new (dyn_of_str
          ("failed to find address of " +:+ quote +:+ name +:+ quote)%string)))
      else
        let line := trim_newline line in
        if str_contains (str_bytes name) line && str_contains (str_bytes "r-xp ") line then
          mut_lift (
            let? end_ := unwrap (find_byte minus_byte line) in
            let digits := take end_ line in
            match u64_from_str_radix 16 digits with
            | Some addr => Ok addr
            | None => Err (vm_error_with_context ("failed to parse " +:+ path)%string
                             (DynForeign (parse_error digits) []))
            end)
        else find_lib_lines fuel path name
  end.

Definition maps_path (pid : Z) : string := ("/proc/" +:+ format_dec pid +:+ "/maps")%string.

(** [find_lib]; [maps] is the content of the file. *)
Definition find_lib (maps : Z → Res IoError bytes) (pid : Z) (name : string) : VmResult Z :=
  let? content := map_err vm_of_io (maps pid) in
  (find_lib_lines (S (length content)) (maps_path pid) name content).1.

(** A line of the file: its first and last addresses, unless it is malformed or
    a library. *)
Definition parse_mapping (line : bytes) : option (Z * Z) :=
  i ← find_byte minus_byte line;
  start_addr ← u64_from_str_radix 16 (take i line);
  let line := drop i line in
  i ← find_byte space_byte line;
  end_addr ← u64_from_str_radix 16 (drop 1 (take i line));
  let line := drop i line in
  if str_contains (str_bytes "/usr/") line then None else Some (start_addr, end_addr).

(** The guess of the memory so far: its address and its size. *)
Definition update_guess (guess : Z * Z) (mapping : option (Z * Z)) : Res Never (Z * Z) :=
  match mapping with
  | Some (start_addr, end_addr) =>
      let? cur_size := sub_u64 end_addr start_addr in
      Ok (if guess.2 <? cur_size then (start_addr, cur_size) else guess)
  | None => Ok guess
  end.

Fixpoint guess_lines (fuel : nat) (guess : Z * Z) : MutRes bytes VmError (Z * Z) :=
  match fuel with
  | O => mut_lift NoFuel
  | S fuel =>
      let! ' (line, n) := read_one_line_std in
      if (n =? 0)%nat then mut_ret guess
      else
        let! guess := mut_lift (from_never (update_guess guess (parse_mapping line))) in
        guess_lines fuel guess
  end.

(** [find_memory]: the mapping, then the file opened on it. *)
Definition guess_memory (content : bytes) : VmResult (Z * Z) :=
  let? guess := (guess_lines (S (length content)) (0, 0) content).1 in
  if guess.1 =? 0 then Err (vm_error_new (dyn_of_str "failed to find VM memory")) else Ok guess.

(** [File::open] is given the function that reads the opened file. *)
Definition find_memory (maps : Res IoError bytes) (mem : Res IoError (Z → MutRes bytes IoError unit)) : VmResult File :=
  let? content := map_err vm_of_io maps in
  let? ' (map_guess, map_size) := guess_memory content in
  let? end_ := add_u64 map_guess map_size in
  let? read_exact_at := map_err vm_of_io mem in
  file_new read_exact_at map_guess end_.
End maps.

(** ** vCPUs *)

(** [read_one]: an entry of [/proc/pid/fd] is its name and the target of the
    link, each when it is text. *)
Definition vcpu_fd (parse_i32 : string → option Z) (entry : option (option string * option string)) : option Z :=
  ' (file_name, fd_name) ← entry;
  fd_name ← fd_name;
  if bool_decide (take 20 (str_bytes fd_name) = str_bytes "anon_inode:kvm-vcpu:")
  then file_name ← file_name; parse_i32 file_name
  else None.

Definition get_vcpus_fds (parse_i32 : string → option Z)
    (read_dir : Res IoError (list (option (option string * option string)))) : VmResult (list Z) :=
  let? entries := map_err vm_of_io read_dir in Ok (omap (vcpu_fd parse_i32) entries).

(** The thread of [start_listener], on what the socket receives. *)
Definition receive_vcpus {V} (read_vcpu : MutRes bytes IoError V) (fds_len : nat) (stream : bytes) : VmResult (list V) :=
  map_err vm_of_io (read_vcpus read_vcpu fds_len stream).1.

(** ** The backend *)

Inductive TargetArch := TargetX86_64 | TargetAarch64.

Record Kvm (V : Type) := { kvm_mem : MemRemap; kvm_vcpus_list : list V }.
Arguments kvm_mem {V}. Arguments kvm_vcpus_list {V}.

Section kvm.
Context {bm : Build} {V : Type}.

Definition connect_mappings {E} (size : Z) : Res E (list MemoryMap * list Z) :=
  Ok ([{| map_start := 0; map_end := size |}], [0]).

Definition default_qemu_mappings {E} (target : TargetArch) (size : Z) : Res E (list MemoryMap * list Z) :=
  match target with
  | TargetX86_64 =>
      if size <=? 2 * 2 ^ 30 then Ok ([{| map_start := 0; map_end := size |}], [0])
      else
        let? end_ := add_u64 size (2 * 2 ^ 30) in
        Ok ([{| map_start := 0; map_end := 2 * 2 ^ 30 |}; {| map_start := 4 * 2 ^ 30; map_end := end_ |}],
            [0; 2 * 2 ^ 30])
  | TargetAarch64 =>
      let? end_ := add_u64 size (1 * 2 ^ 30) in
      Ok ([{| map_start := 1 * 2 ^ 30; map_end := end_ |}], [0])
  end.

(** [create], once the memory is found; [get_regs] attaches to the process. *)
Definition kvm_create (mem : VmResult File) (get_regs : VmResult (list V))
    (make_mappings : Z → VmResult (list MemoryMap * list Z)) : VmResult (Kvm V) :=
  let? mem := mem in
  let? vcpus := get_regs in
  let? ' (mappings, remap_at) := make_mappings (file_size mem) in
  Ok {| kvm_mem := remap_new (file_memory mem) mappings remap_at; kvm_vcpus_list := vcpus |}.

Definition kvm_connect (mem : VmResult File) (get_regs : VmResult (list V)) : VmResult (Kvm V) :=
  kvm_create mem get_regs connect_mappings.

Definition with_default_qemu_mappings (target : TargetArch) (mem : VmResult File) (get_regs : VmResult (list V))
  : VmResult (Kvm V) :=
  kvm_create mem get_regs (default_qemu_mappings target).

Definition with_memory_mappings (mem : VmResult File) (get_regs : VmResult (list V)) (mappings : list MemoryMap)
    (remap_at : list Z) : VmResult (Kvm V) :=
  kvm_create mem get_regs (λ _, Ok (mappings, remap_at)).

Definition kvm_memory (self : Kvm V) : Memory :=
  let mem := remap_memory (kvm_mem self) in {|
    memory_mappings := memory_mappings mem;
    is_valid := default_is_valid (memory_mappings mem);
    read_physical := read_physical mem;
    search := default_search (read_physical mem);
    dump := λ _ _, default_dump (read_physical mem) (memory_mappings mem);
  |}.
End kvm.

Section vcpus.
Context {bm : Build}.

Definition kvm_x86_vcpus (self : Kvm x86_Vcpu) : RawVcpus X86_64 := {|
  arch := X86_64_;
  vcpus_count := Z.of_nat (length (kvm_vcpus_list self));
  registers := (dump_register (kvm_vcpus_list self) x86_registers : Z → VcpuResult (Registers X86_64));
  special_registers :=
    (dump_register (kvm_vcpus_list self) x86_special_registers : Z → VcpuResult (SpecialRegisters X86_64));
  other_registers :=
    (dump_register (kvm_vcpus_list self) x86_other_registers : Z → VcpuResult (OtherRegisters X86_64));
|}.

Definition kvm_arm_vcpus (self : Kvm arm_Vcpu) : RawVcpus Aarch64 := {|
  arch := Aarch64_;
  vcpus_count := Z.of_nat (length (kvm_vcpus_list self));
  registers := (dump_register (kvm_vcpus_list self) arm_registers : Z → VcpuResult (Registers Aarch64));
  special_registers :=
    (dump_register (kvm_vcpus_list self) arm_special_registers : Z → VcpuResult (SpecialRegisters Aarch64));
  other_registers :=
    (dump_register (kvm_vcpus_list self) arm_other_registers : Z → VcpuResult (OtherRegisters Aarch64));
|}.

Definition kvm_x86_backend (self : Kvm x86_Vcpu) : Backend X86_64 :=
  default_backend (kvm_memory self) (default_vcpus (kvm_x86_vcpus self)).

Definition kvm_arm_backend (self : Kvm arm_Vcpu) : Backend Aarch64 :=
  default_backend (kvm_memory self) (default_vcpus (kvm_arm_vcpus self)).
End vcpus.
