(* ===== verification/KvmPatch.v ===== *)
(** * The payload that runs in the hypervisor ([kvm_patch/src/])

    The payload asks KVM for the registers of each vCPU and sends them on a
    socket.  The [ioctl]s are parameters: what KVM writes in the structure that
    it is given.  The structures have the fields of those of the library, in the
    same order. *)

From S2P Require Import Prelude Rust Layout Error Registers.

(** ** x86_64 *)

Definition kvm_regs : Type := x86_Registers.
Definition kvm_segment : Type := Segment.
Definition kvm_dtable : Type := Dtable.
Definition kvm_sregs : Type := x86_SpecialRegisters.
Definition msrs : Type := x86_OtherRegisters.

Record kvm_msr_entry := { msr_index : Z; msr_reserved : Z; msr_data : Z }.

Definition kvm_msr_entry_pod : Pod kvm_msr_entry :=
  pod_iso (λ '(i, (r, d)), {| msr_index := i; msr_reserved := r; msr_data := d |})
          (λ e, (msr_index e, (msr_reserved e, msr_data e))) (pod_pair pod_u32 (pod_pair pod_u32 pod_u64)).

Record kvm_msrs := { msrs_nmsrs : Z; msrs_pad : Z; msrs_entries : list kvm_msr_entry }.

Definition kvm_msrs_pod : Pod kvm_msrs :=
  pod_iso (λ '(n, (p, e)), {| msrs_nmsrs := n; msrs_pad := p; msrs_entries := e |})
          (λ m, (msrs_nmsrs m, (msrs_pad m, msrs_entries m)))
          (pod_pair pod_u32 (pod_pair pod_u32 (pod_array kvm_msr_entry_pod 2))).

Definition KVM_GET_REGS : Z := 2156965505.
Definition KVM_GET_SREGS : Z := 2167975555.
Definition KVM_GET_MSRS : Z := 3221794440.

(** [ioctl(fd, request, argument)]: the bytes of the structure afterwards. *)
Section x86.
Variable ioctl : Z → Z → bytes → Res IoError bytes.

(** A request that fills a structure. *)
Definition ioctl_get {T} (P : Pod T) (request vcpu_fd : Z) : Res IoError T :=
  let? bs := ioctl vcpu_fd request (replicate (size_of P) Byte.x00) in Ok (pod_read P bs).

Definition get_regs (vcpu_fd : Z) : Res IoError kvm_regs := ioctl_get x86_Registers_pod KVM_GET_REGS vcpu_fd.
Definition get_sregs (vcpu_fd : Z) : Res IoError kvm_sregs := ioctl_get x86_SpecialRegisters_pod KVM_GET_SREGS vcpu_fd.

Definition msr_entry (index : Z) : kvm_msr_entry := {| msr_index := index; msr_reserved := 0; msr_data := 0 |}.

Definition get_msrs (vcpu_fd : Z) : Res IoError msrs :=
  let request := {| msrs_nmsrs := 2; msrs_pad := 0; msrs_entries := [msr_entry 0xc0000082; msr_entry 0xc0000102] |} in
  let? bs := ioctl vcpu_fd KVM_GET_MSRS (bytes_of kvm_msrs_pod request) in
  let answer := pod_read kvm_msrs_pod bs in
  let data i := default 0 (msr_data <$> msrs_entries answer !! i) in
  Ok {| lstar := data 0%nat; gs_kernel_base := data 1%nat |}.

(** [send_fds]: the state is what the socket has received. *)
Fixpoint x86_send_fds (vcpus : list Z) : MutRes bytes IoError unit :=
  match vcpus with
  | [] => mut_ret tt
  | vcpu :: vcpus =>
      let! regs := mut_lift (get_regs vcpu) in
      let! sregs := mut_lift (get_sregs vcpu) in
      let! msrs := mut_lift (get_msrs vcpu) in
      let! _ := λ out, (Ok tt, out ++ bytes_of x86_Registers_pod regs) in
      let! _ := λ out, (Ok tt, out ++ bytes_of x86_SpecialRegisters_pod sregs) in
      let! _ := λ out, (Ok tt, out ++ bytes_of x86_OtherRegisters_pod msrs) in
      x86_send_fds vcpus
  end.
End x86.

(** ** aarch64 *)

Definition user_pt_regs : Type := arm_Registers.
Definition special_regs : Type := arm_SpecialRegisters.

Section arm.
(** [KVM_GET_ONE_REG]: the register that has this number. *)
Variable one_reg : Z → Z → Res IoError Z.

Definition get_one_reg (vcpu_fd id : Z) : Res IoError Z := one_reg vcpu_fd id.

(** The loop over the registers from the [i]-th on. *)
Fixpoint get_core_regs (vcpu_fd i : Z) (n : nat) : Res IoError (list Z) :=
  match n with
  | O => Ok []
  | S n =>
      let? reg := get_one_reg vcpu_fd (0x6030000000100000 + 2 * i) in
      let? regs := get_core_regs vcpu_fd (i + 1) n in
      Ok (reg :: regs)
  end.

(** The structure is filled as a slice of [u64]. *)
Definition arm_get_regs (vcpu_fd : Z) : Res IoError user_pt_regs :=
  let? regs := get_core_regs vcpu_fd 0 (size_of arm_Registers_pod / 8) in
  Ok (pod_read arm_Registers_pod (bytes_of_list pod_u64 regs)).

Definition get_special_regs (vcpu_fd : Z) : Res IoError special_regs :=
  let? sp_el1 := get_one_reg vcpu_fd 0x6030000000100044 in
  let? ttbr0_el1 := get_one_reg vcpu_fd 0x603000000013c100 in
  let? ttbr1_el1 := get_one_reg vcpu_fd 0x603000000013c101 in
  let? vbar_el1 := get_one_reg vcpu_fd 0x603000000013c600 in
  Ok {| sp_el1 := sp_el1; ttbr0_el1 := ttbr0_el1; ttbr1_el1 := ttbr1_el1; vbar_el1 := vbar_el1 |}.

Fixpoint arm_send_fds (vcpus : list Z) : MutRes bytes IoError unit :=
  match vcpus with
  | [] => mut_ret tt
  | vcpu :: vcpus =>
      let! regs := mut_lift (arm_get_regs vcpu) in
      let! sregs := mut_lift (get_special_regs vcpu) in
      let! _ := λ out, (Ok tt, out ++ bytes_of arm_Registers_pod regs) in
      let! _ := λ out, (Ok tt, out ++ bytes_of arm_SpecialRegisters_pod sregs) in
      arm_send_fds vcpus
  end.
End arm.

(** [vminer_payload]: the code that is returned to the other process. *)
Definition payload_result (raw_os_error : IoError → option Z) (r : Res IoError unit) : Res Never Z :=
  match r with
  | Ok _ => Ok 0
  | Err e => Ok (default 777 (raw_os_error e))
  | Panic => Panic
  | NoFuel => NoFuel
  end.
