(* ===== verification/KvmTrace.v ===== *)
(** * Running functions in the hypervisor ([vminer/src/backends/kvm/ptrace.rs],
    [x86_64.rs], [aarch64.rs], and [attach] of [mod.rs])

    The traced process is a state that system calls read and change: the class
    [Ptrace].  Its memory goes through [/proc/pid/mem].  A value that is dropped
    restores something: what follows its creation is run by [guarded], which
    runs the drop whatever the outcome is. *)

From S2P Require Import Prelude Rust Layout Error Text Kvm.

(** ** Registers of a thread *)

(** The methods of [Registers], on the [user_regs_struct] of an architecture. *)
Class UserRegs (R : Type) := {
  INSTRUCTIONS : bytes;
  regs_pod : Pod R;
  ur_instruction_pointer : R → Z;
  set_instruction_pointer : R → Z → R;
  move_stack : R → Res Never R;
  (** the address of the function and its arguments *)
  prepare_funcall : R → Z → list Z → R;
  return_value : R → Z;
}.

(** The fields of [libc::user_regs_struct] that are used, and the others. *)
Record x86_user_regs := {
  ux_rip : Z; ux_rsp : Z; ux_rax : Z;
  ux_rdi : Z; ux_rsi : Z; ux_rdx : Z; ux_rcx : Z; ux_r8 : Z; ux_r9 : Z;
  ux_rest : list Z;
}.

Record arm_user_regs := { ua_regs : list Z; ua_sp : Z; ua_pc : Z; ua_pstate : Z }.

Section regs.
Context {bm : Build}.

(** The stack pointer, 256 bytes lower and aligned. *)
Definition moved_stack (sp : Z) : Res Never Z :=
  let? sp := sub_u64 sp 0x100 in Ok (Z.land sp (not_u64 0xf)).

Definition x86_instructions : bytes := zb <$> [0xff; 0xd0; 0xcc].

Definition x86_set_ip (r : x86_user_regs) (addr : Z) : x86_user_regs :=
  {| ux_rip := addr; ux_rsp := ux_rsp r; ux_rax := ux_rax r; ux_rdi := ux_rdi r; ux_rsi := ux_rsi r;
     ux_rdx := ux_rdx r; ux_rcx := ux_rcx r; ux_r8 := ux_r8 r; ux_r9 := ux_r9 r; ux_rest := ux_rest r |}.

Definition x86_move_stack (r : x86_user_regs) : Res Never x86_user_regs :=
  let? sp := moved_stack (ux_rsp r) in
  Ok {| ux_rip := ux_rip r; ux_rsp := sp; ux_rax := ux_rax r; ux_rdi := ux_rdi r; ux_rsi := ux_rsi r;
        ux_rdx := ux_rdx r; ux_rcx := ux_rcx r; ux_r8 := ux_r8 r; ux_r9 := ux_r9 r; ux_rest := ux_rest r |}.

(** [prepare_funcall0] to [prepare_funcall6]: the arguments that are given. *)
Definition x86_prepare (r : x86_user_regs) (addr : Z) (args : list Z) : x86_user_regs :=
  let arg i old := default old (args !! i) in
  {| ux_rip := ux_rip r; ux_rsp := ux_rsp r; ux_rax := addr;
     ux_rdi := arg 0%nat (ux_rdi r); ux_rsi := arg 1%nat (ux_rsi r); ux_rdx := arg 2%nat (ux_rdx r);
     ux_rcx := arg 3%nat (ux_rcx r); ux_r8 := arg 4%nat (ux_r8 r); ux_r9 := arg 5%nat (ux_r9 r);
     ux_rest := ux_rest r |}.

Definition arm_instructions : bytes := zb <$> [0x00; 0x01; 0x3f; 0xd6; 0x00; 0x00; 0x20; 0xd4].

Definition arm_move_stack (r : arm_user_regs) : Res Never arm_user_regs :=
  let? sp := moved_stack (ua_sp r) in
  Ok {| ua_regs := ua_regs r; ua_sp := sp; ua_pc := ua_pc r; ua_pstate := ua_pstate r |}.

Definition arm_set_pc (r : arm_user_regs) (addr : Z) : arm_user_regs :=
  {| ua_regs := ua_regs r; ua_sp := ua_sp r; ua_pc := addr; ua_pstate := ua_pstate r |}.

Definition arm_prepare (r : arm_user_regs) (addr : Z) (args : list Z) : arm_user_regs :=
  {| ua_regs := args ++ drop (length args) (<[8%nat := addr]> (ua_regs r));
     ua_sp := ua_sp r; ua_pc := ua_pc r; ua_pstate := ua_pstate r |}.

(** The layout of the structure of [libc] is a parameter. *)
Definition x86_user_regs_ops (P : Pod x86_user_regs) : UserRegs x86_user_regs := {|
  INSTRUCTIONS := x86_instructions;
  regs_pod := P;
  ur_instruction_pointer := ux_rip;
  set_instruction_pointer := x86_set_ip;
  move_stack := x86_move_stack;
  prepare_funcall := x86_prepare;
  return_value := ux_rax;
|}.

Definition arm_user_regs_ops (P : Pod arm_user_regs) : UserRegs arm_user_regs := {|
  INSTRUCTIONS := arm_instructions;
  regs_pod := P;
  ur_instruction_pointer := ua_pc;
  set_instruction_pointer := arm_set_pc;
  move_stack := arm_move_stack;
  prepare_funcall := arm_prepare;
  return_value := λ r, nth 0 (ua_regs r) 0;
|}.
End regs.

(** ** System calls *)

Class Ptrace (P : Type) := {
  pt_attach : MutRes P IoError unit;
  pt_wait : MutRes P IoError unit;
  pt_cont : MutRes P IoError unit;
  pt_detach : MutRes P IoError unit;
  (** what is written in the buffer of [PTRACE_GETREGSET] *)
  pt_getregset : nat → MutRes P IoError bytes;
  (** how much is read of that of [PTRACE_SETREGSET] *)
  pt_setregset : bytes → MutRes P IoError nat;
  (** [read_exact_at] and [write_all_at] on [/proc/pid/mem] *)
  pt_read_at : Z → nat → MutRes P IoError bytes;
  pt_write_at : Z → bytes → MutRes P IoError unit;
}.

(** Run [f]; then the drop, whose failure is ignored. *)
Definition guarded {P E A} (drop : MutRes P E unit) (f : MutRes P E A) : MutRes P E A := λ p,
  let (r, p) := f p in
  match r with
  | NoFuel => (NoFuel, p)
  | _ => match drop p with (Panic, p) => (Panic, p) | (NoFuel, p) => (NoFuel, p) | (_, p) => (r, p) end
  end.

Section trace.
Context {bm : Build} {P R : Type} `{Ptrace P} `{UserRegs R}.

Notation Tracing := (MutRes P VmError).

Definition io {A} (f : MutRes P IoError A) : Tracing A := mut_map_err vm_of_io f.

(** ** [RawTracee] *)

(** [attach]; the tracee is detached when it cannot be waited for. *)
Definition raw_attach : Tracing unit :=
  let! _ := io pt_attach in
  λ p, match io pt_wait p with
       | (Ok _, p) => (Ok tt, p)
       | (r, p) => (r, (io pt_detach p).2)
       end.

Definition get_registers : Tracing R :=
  let! bs := mut_map_err (λ err, vm_error_with_context "failed to get registers" (DynIo err))
               (pt_getregset (size_of regs_pod)) in
  if (length bs =? size_of regs_pod)%nat then mut_ret (pod_read regs_pod bs)
  else mut_lift (Err (vm_error_new (dyn_of_str "failed to fill registers"))).

Definition set_registers (registers : R) : Tracing unit :=
  let! n := mut_map_err (λ err, vm_error_with_context "failed to set registers" (DynIo err))
              (pt_setregset (bytes_of regs_pod registers)) in
  if (n =? size_of regs_pod)%nat then mut_ret tt
  else mut_lift (Err (vm_error_new (dyn_of_str "failed to set registers"))).

(** ** [Tracee] *)

Record Tracee := { tr_registers : R; tr_instrs : bytes; tr_instrs_addr : Z }.

(** [open_mem] is the result of opening [/proc/pid/mem], and [find_code] that of
    [find_lib(pid, "/")]. *)
Definition tracee_attach (open_mem : Res IoError unit) (find_code : VmResult Z) : Tracing Tracee :=
  let! _ := mut_lift (map_err vm_of_io open_mem) in
  λ p,
  match raw_attach p with
  | (Ok _, p) =>
      let r :=
        (let! registers := get_registers in
         let! instrs_addr := mut_lift find_code in
         let! instrs := io (pt_read_at instrs_addr (length INSTRUCTIONS)) in
         let! _ := io (pt_write_at instrs_addr INSTRUCTIONS) in
         mut_ret {| tr_registers := registers; tr_instrs := instrs; tr_instrs_addr := instrs_addr |}) p in
      match r with
      | (Ok tracee, p) => (Ok tracee, p)
      | (r, p) => (r, (io pt_detach p).2)
      end
  | (Err e, p) => (Err e, p)
  | (Panic, p) => (Panic, p)
  | (NoFuel, p) => (NoFuel, p)
  end.

(** [Drop for Tracee], then for its [RawTracee]. *)
Definition tracee_drop (self : Tracee) : Tracing unit := λ p,
  let '(_, p) := (let! _ := io (pt_write_at (tr_instrs_addr self) (tr_instrs self)) in
                  set_registers (tr_registers self)) p in
  let '(_, p) := io pt_detach p in
  (Ok tt, p).

Definition peek_data (addr : Z) (n : nat) : Tracing bytes := io (pt_read_at addr n).
Definition poke_data (addr : Z) (buf : bytes) : Tracing unit := io (pt_write_at addr buf).

Section tracee.
Variable self : Tracee.

Definition do_funcall (registers : R) : Tracing Z :=
  let! registers := mut_lift (from_never (move_stack registers)) in
  let registers := set_instruction_pointer registers (tr_instrs_addr self) in
  let! _ := set_registers registers in
  let! _ := io pt_cont in
  let! _ := io pt_wait in
  let! registers := get_registers in
  let ip := ur_instruction_pointer registers in
  let! expected := mut_lift (add_u64 (tr_instrs_addr self) (Z.of_nat (length INSTRUCTIONS))) in
  if negb (ip =? expected)
  then mut_lift (Err (vm_error_new (dyn_of_str ("unexpected return address: " +:+ format_hex ip)%string)))
  else mut_ret (return_value registers).

(** [funcall0] to [funcall6] *)
Definition funcall (addr : Z) (args : list Z) : Tracing Z := do_funcall (prepare_funcall (tr_registers self) addr args).

(** The loop of [get_dlerror]. *)
Fixpoint read_c_string (fuel : nat) (addr : Z) : Tracing bytes :=
  match fuel with
  | O => mut_lift NoFuel
  | S fuel =>
      let! buf := peek_data addr 1 in
      match buf with
      | [b] =>
          if bool_decide (b = Byte.x00) then mut_ret []
          else let! bs := read_c_string fuel (wrapping_add addr 1) in mut_ret (b :: bs)
      | _ => mut_ret []
      end
  end.

(** An error read from the tracee, or the error of reading it. *)
Definition remote_error (context : string) (error : Tracing VmError) : MutRes P Never VmError := λ p,
  match error p with
  | (Ok error, p) => (Ok error, p)
  | (Err err, p) => (Ok (vm_error_with_context context (DynVm err)), p)
  | (Panic, p) => (Panic, p)
  | (NoFuel, p) => (NoFuel, p)
  end.

Variable fuel : nat.
Variable from_raw_os_error : Z → IoError.

Definition get_dlerror (dlerror : Z) : MutRes P Never VmError :=
  remote_error "failed to get dlerror" (
    let! addr := funcall dlerror [] in
    if addr =? 0 then mut_ret (vm_error_new (dyn_of_str "Success"))
    else
      let! error := read_c_string fuel addr in
      mut_ret (vm_error_new (dyn_of_str (bytes_str (from_utf8_lossy error))))).

(** An [i32] of the memory of the tracee. *)
Definition as_i32 (z : Z) : Z := (z + 2 ^ 31) mod 2 ^ 32 - 2 ^ 31.

Definition get_errno (errno : Z) : MutRes P Never VmError :=
  remote_error "failed to get errno" (
    let! addr := funcall errno [] in
    let! bs := peek_data addr 4 in
    mut_ret (vm_of_io (from_raw_os_error (as_i32 (le_val bs))))).

(** [return Err(VmError::with_context(context, err))] *)
Definition fail_with {A} (context : string) (err : MutRes P Never VmError) : Tracing A := λ p,
  match err p with
  | (Ok err, p) => (Err (vm_error_with_context context (DynVm err)), p)
  | (Err e, p) => (match e with end, p)
  | (Panic, p) => (Panic, p)
  | (NoFuel, p) => (NoFuel, p)
  end.

(** ** [attach] *)

(** The addresses of the functions of [libc] in the tracee. *)
Record Remote := {
  their_dlopen : Z; their_dlclose : Z; their_dlsym : Z; their_dlerror : Z; their_mmap : Z; their_errno : Z;
}.

Definition LIB_PATH : bytes := str_bytes "/usr/lib/libvminer_kvm_patch.so" ++ [Byte.x00].
Definition FUN_NAME : bytes := str_bytes "vminer_payload" ++ [Byte.x00].

(** [dlclose], when the handle goes out of scope. *)
Definition do_dlclose (remote : Remote) (handle : Z) : Tracing unit := λ p,
  match funcall (their_dlclose remote) [handle] p with
  | (Ok res, p) =>
      if res =? 0 then (Ok tt, p)
      else match get_dlerror (their_dlerror remote) p with
           | (Panic, p) => (Panic, p)
           | (NoFuel, p) => (NoFuel, p)
           | (_, p) => (Ok tt, p)
           end
  | (Err _, p) => (Ok tt, p)
  | (Panic, p) => (Panic, p)
  | (NoFuel, p) => (NoFuel, p)
  end.

(** What [attach] does with the tracee; [fds] are the bytes of the descriptors,
    [n_fds] their number, and the constants are those of [libc]. *)
Variables PROT_READ MAP_PRIVATE_ANONYMOUS RTLD_NOW : Z.

Definition run_payload (remote : Remote) (fds : bytes) (n_fds : Z) : Tracing unit :=
  let! mmap_addr := funcall (their_mmap remote) [0; 0x1000; PROT_READ; MAP_PRIVATE_ANONYMOUS; as_u64 (-1); 0] in
  if as_i32 mmap_addr =? -1 then fail_with "remote mmap failed" (get_errno (their_errno remote))
  else
    let! _ := poke_data mmap_addr (LIB_PATH ++ FUN_NAME) in
    let! handle := funcall (their_dlopen remote) [mmap_addr; RTLD_NOW] in
    if handle =? 0 then fail_with "remote dlopen failed" (get_dlerror (their_dlerror remote))
    else
      guarded (do_dlclose remote handle) (
        let! fun_name := mut_lift (add_u64 mmap_addr (Z.of_nat (length LIB_PATH))) in
        let! payload := funcall (their_dlsym remote) [handle; fun_name] in
        if payload =? 0 then fail_with "remote dlsym failed" (get_dlerror (their_dlerror remote))
        else
          let! _ := poke_data mmap_addr fds in
          let! res := funcall payload [mmap_addr; n_fds] in
          let error := as_i32 res in
          if negb (error =? 0)
          then mut_lift (Err (vm_error_with_context "payload failed" (DynIo (from_raw_os_error error))))
          else mut_ret tt).
End tracee.

(** The address in the tracee of a function of ours. *)
Definition remote_address (our_libc their_libc addr : Z) : VmResult Z :=
  let? offset := sub_u64 addr our_libc in add_u64 their_libc offset.

(** [ours] are the addresses of the functions in this process. *)
Definition remote_addresses (our_libc their_libc : Z) (ours : Remote) : VmResult Remote :=
  let address := remote_address our_libc their_libc in
  let? dlopen := address (their_dlopen ours) in
  let? dlclose := address (their_dlclose ours) in
  let? dlsym := address (their_dlsym ours) in
  let? dlerror := address (their_dlerror ours) in
  let? mmap := address (their_mmap ours) in
  let? errno := address (their_errno ours) in
  Ok {| their_dlopen := dlopen; their_dlclose := dlclose; their_dlsym := dlsym; their_dlerror := dlerror;
        their_mmap := mmap; their_errno := errno |}.

Section attach.
Variable fuel : nat.
Variable from_raw_os_error : Z → IoError.
Variables PROT_READ MAP_PRIVATE_ANONYMOUS RTLD_NOW : Z.

(** [find_lib] gives the three addresses. *)
Definition kvm_attach (our_libc their_libc : VmResult Z) (open_mem : Res IoError unit) (find_code : VmResult Z) (ours : Remote) (fds : list Z) : Tracing unit :=
  let! our_libc := mut_lift our_libc in
  let! their_libc := mut_lift their_libc in
  let! remote := mut_lift (remote_addresses our_libc their_libc ours) in
  let! tracee := λ p, match tracee_attach open_mem find_code p with
                      | (Err e, p) => (Err (vm_error_with_context "failed to attach to KVM" (DynVm e)), p)
                      | r => r
                      end in
  guarded (tracee_drop tracee)
    (run_payload tracee fuel from_raw_os_error PROT_READ MAP_PRIVATE_ANONYMOUS RTLD_NOW remote
       (bytes_of_list pod_u32 fds) (Z.of_nat (length fds))).
End attach.
End trace.
