(* ===== verification/KvmSpec.v ===== *)
(** * What the KVM backend guarantees

    The memory that is guessed from the mappings of the hypervisor, the windows
    of QEMU, the registers that the payload sends, and the state in which the
    hypervisor is left. *)

From S2P Require Import Prelude Rust Layout Addr Error Text Mem MemSpec Registers Mmu Arch Backend.
From S2P Require Import Symbols SymbolsFile KvmDump KvmDumpSpec Kvm KvmPatch KvmTrace.

(** ** The mappings of a process *)

(** A line of [/proc/pid/maps]: the addresses, how they are written, and what
    follows the space. *)
Record MapsLine := { ml_start : Z; ml_end : Z; ml_start_text : bytes; ml_end_text : bytes; ml_rest : bytes }.

Definition ml_tail (l : MapsLine) : bytes := space_byte :: ml_rest l ++ [newline_byte].

Definition ml_line (l : MapsLine) : bytes := ml_start_text l ++ minus_byte :: ml_end_text l ++ ml_tail l.

(** Text that is read as a number. *)
Definition number_text (z : Z) (text : bytes) : Prop :=
  u64_from_str_radix 16 text = Some z ∧
  ∀ b, b ∈ text → bz b < 0x80 ∧ b ≠ minus_byte ∧ b ≠ space_byte ∧ b ≠ newline_byte.

Definition ml_ok (l : MapsLine) : Prop :=
  number_text (ml_start l) (ml_start_text l) ∧ number_text (ml_end l) (ml_end_text l) ∧
  0 <= ml_start l <= ml_end l ∧ ml_end l < 2 ^ 64 ∧
  utf8_valid (ml_rest l) = true ∧ newline_byte ∉ ml_rest l.

Definition ml_size (l : MapsLine) : Z := ml_end l - ml_start l.

(** The mappings that are not libraries. *)
Definition candidates (lines : list MapsLine) : list MapsLine :=
  filter (λ l, str_contains (str_bytes "/usr/") (ml_tail l) = false) lines.

Lemma find_byte_app b (x y : bytes) : b ∉ x → find_byte b (x ++ b :: y) = Some (length x).
Proof.
  intros Hx. apply find_byte_some. split; [by apply list_lookup_middle|]. by rewrite take_app_length.
Qed.

Lemma read_line_nl line rest :
  newline_byte ∉ line → utf8_valid (line ++ [newline_byte]) = true →
  read_one_line_std ((line ++ [newline_byte]) ++ rest) =
  (Ok (line ++ [newline_byte], length (line ++ [newline_byte])), rest).
Proof.
  intros Hn Hu. unfold read_one_line_std.
  assert (find_byte newline_byte ((line ++ [newline_byte]) ++ rest) = Some (length line)) as ->
    by (rewrite <- app_assoc; by apply find_byte_app).
  assert (S (length line) = length (line ++ [newline_byte])) as -> by (rewrite length_app; cbn; lia).
  by rewrite take_app_length, drop_app_length, Hu.
Qed.

Section guess.
Context {bm : Build}.

Lemma parse_ml_line l : ml_ok l →
  parse_mapping (ml_line l) =
  if str_contains (str_bytes "/usr/") (ml_tail l) then None else Some (ml_start l, ml_end l).
Proof.
  intros ([Hs Hsb] & [He Heb] & _). unfold parse_mapping, ml_line.
  rewrite find_byte_app by (intros Hb; by apply Hsb in Hb as (_ & ? & _)). cbn [mbind option_bind].
  rewrite take_app_length, Hs. cbn [mbind option_bind]. rewrite drop_app_length.
  assert (find_byte space_byte (minus_byte :: ml_end_text l ++ ml_tail l) = Some (S (length (ml_end_text l)))) as ->.
  { change (minus_byte :: ml_end_text l ++ ml_tail l) with ((minus_byte :: ml_end_text l) ++ space_byte :: ml_rest l ++ [newline_byte]).
    apply find_byte_app. rewrite not_elem_of_cons. split; [done|]. intros Hb. by apply Heb in Hb as (_ & _ & ? & _). }
  cbn [mbind option_bind take drop]. rewrite drop_0, take_app_length, He. cbn [mbind option_bind]. by rewrite drop_app_length.
Qed.

Lemma read_ml_line l rest : ml_ok l →
  read_one_line_std (ml_line l ++ rest) = (Ok (ml_line l, length (ml_line l)), rest).
Proof.
  intros ([_ Hs] & [_ He] & _ & _ & Hu & Hn).
  assert (ml_line l = (ml_start_text l ++ minus_byte :: ml_end_text l ++ space_byte :: ml_rest l) ++ [newline_byte]) as Heq
    by (unfold ml_line, ml_tail; rewrite <- !app_assoc; cbn; by rewrite <- app_assoc).
  rewrite Heq. apply read_line_nl.
  - rewrite not_elem_of_app, not_elem_of_cons, not_elem_of_app, not_elem_of_cons. split_and!; try done.
    + intros Hb. by apply Hs in Hb as (_ & _ & _ & ?).
    + intros Hb. by apply He in Hb as (_ & _ & _ & ?).
  - rewrite <- Heq. unfold ml_line, ml_tail. apply utf8_app; [apply utf8_ascii; intros b Hb; by apply Hs in Hb as [? _]|].
    change (minus_byte :: ml_end_text l ++ space_byte :: ml_rest l ++ [newline_byte])
      with ((minus_byte :: ml_end_text l) ++ (space_byte :: ml_rest l ++ [newline_byte])).
    apply utf8_app.
    + apply utf8_ascii. intros b [->|Hb]%elem_of_cons; [done|]. by apply He in Hb as [? _].
    + change (utf8_valid (ml_rest l ++ [newline_byte]) = true). by apply utf8_app.
Qed.

(** The guess over a list of mappings. *)
Definition guess_of (guess : Z * Z) (l : list MapsLine) : Z * Z :=
  foldl (λ guess m, if guess.2 <? ml_size m then (ml_start m, ml_size m) else guess) guess l.

Lemma guess_of_spec guess l :
  (guess_of guess l = guess ∧ Forall (λ m, ml_size m <= guess.2) l) ∨
  ∃ l1 m l2, l = l1 ++ m :: l2 ∧ guess_of guess l = (ml_start m, ml_size m) ∧ guess.2 < ml_size m ∧
    Forall (λ x, ml_size x < ml_size m) l1 ∧ Forall (λ x, ml_size x <= ml_size m) l2.
Proof.
  revert guess. induction l as [|m l IH]; intros guess; [by left|]. cbn [guess_of foldl].
  destruct (Z.ltb_spec guess.2 (ml_size m)) as [Hm|Hm].
  - right. destruct (IH (ml_start m, ml_size m)) as [[Hg Hl]|(l1 & m' & l2 & -> & Hg & Hlt & Hl1 & Hl2)].
    + exists [], m, l. split_and!; [done|exact Hg|done|constructor|exact Hl].
    + exists (m :: l1), m', l2. cbn [snd] in Hlt. split_and!; [done|exact Hg|lia|by constructor|done].
  - destruct (IH guess) as [[Hg Hl]|(l1 & m' & l2 & -> & Hg & Hlt & Hl1 & Hl2)].
    + left. split; [exact Hg|]. by constructor.
    + right. exists (m :: l1), m', l2. split_and!; [done|exact Hg|done|constructor; [lia|done]|done].
Qed.

Lemma guess_lines_of fuel guess lines :
  Forall ml_ok lines → (length lines < fuel)%nat →
  guess_lines fuel guess (concat (ml_line <$> lines)) = (Ok (guess_of guess (candidates lines)), []).
Proof.
  intros Hl. revert fuel guess. induction Hl as [|l lines Hl _ IH]; intros [|fuel] guess Hf; cbn [length] in Hf; try lia.
  { done. }
  cbn [guess_lines fmap list_fmap concat]. unfold mut_bind at 1. rewrite read_ml_line by done.
  replace (length (ml_line l) =? 0)%nat with false
    by (unfold ml_line, ml_tail; rewrite length_app; cbn; rewrite length_app; cbn; lia).
  unfold mut_bind, mut_lift. rewrite parse_ml_line by done. unfold candidates. rewrite filter_cons.
  destruct (str_contains (str_bytes "/usr/") (ml_tail l)).
  - rewrite decide_False by done. cbn. rewrite IH by lia. done.
  - rewrite decide_True by done. cbn [update_guess]. destruct Hl as (_ & _ & Hr & He & _).
    unfold sub_u64. rewrite checked_width_ok by lia. cbn [res_bind from_never map_err]. rewrite IH by lia. done.
Qed.

(** C36. The guess of the memory of the machine: of the mappings of the
    hypervisor that are not under [/usr/], the first of the largest ones; the
    guess fails only when they are all empty, or when that one is at address 0. *)
Theorem guess_memory_spec lines :
  Forall ml_ok lines →
  match guess_memory (concat (ml_line <$> lines)) with
  | Ok (start, size) =>
      ∃ l1 m l2, candidates lines = l1 ++ m :: l2 ∧ start = ml_start m ∧ size = ml_size m ∧ 0 < size ∧ start ≠ 0 ∧
        Forall (λ x, ml_size x < size) l1 ∧ Forall (λ x, ml_size x <= size) l2
  | Err _ =>
      Forall (λ x, ml_size x = 0) (candidates lines) ∨
      ∃ m, m ∈ candidates lines ∧ ml_start m = 0 ∧ Forall (λ x, ml_size x <= ml_size m) (candidates lines)
  | _ => False
  end.
Proof.
  intros Hl. unfold guess_memory.
  assert (length lines <= length (concat (ml_line <$> lines)))%nat as Hlen.
  { clear Hl. induction lines as [|l lines IH]; [done|]. rewrite fmap_cons. cbn [concat length]. rewrite length_app.
    assert (0 < length (ml_line l))%nat by (unfold ml_line; rewrite length_app; cbn; lia).
    lia. }
  rewrite guess_lines_of by (done || lia). cbn [fst res_bind].
  assert (Forall (λ m, 0 <= ml_size m) (candidates lines)) as Hpos.
  { apply Forall_forall. intros m Hm. apply list_elem_of_filter in Hm as [_ Hm]. rewrite Forall_forall in Hl.
    destruct (Hl m Hm) as (_ & _ & ? & _). unfold ml_size. lia. }
  destruct (guess_of_spec (0, 0) (candidates lines)) as [[-> Hz]|(l1 & m & l2 & Hc & -> & Hm & Hl1 & Hl2)]; cbn [fst snd] in *.
  - cbn. left. rewrite Forall_forall in *. intros x Hx. specialize (Hz x Hx). specialize (Hpos x Hx). lia.
  - destruct (Z.eqb_spec (ml_start m) 0) as [H0|H0].
    + right. exists m. rewrite Hc. split_and!; [set_solver|done|]. apply Forall_app. split; [|by constructor].
      eapply Forall_impl; [exact Hl1|]. intros x Hx. cbn in Hx. lia.
    + exists l1, m, l2. done.
Qed.
End guess.

(** A mapping of two pages, a larger one that is a library, and one of three pages. *)
Definition maps_example : list MapsLine :=
  let line start end_ start_text end_text rest :=
    {| ml_start := start; ml_end := end_; ml_start_text := str_bytes start_text; ml_end_text := str_bytes end_text;
       ml_rest := str_bytes rest |} in
  [line 0x1000 0x3000 "1000" "3000" "rw-p"; line 0x4000 0x9000 "4000" "9000" "r--p /usr/lib/a.so";
   line 0xa000 0xd000 "a000" "d000" "rw-p"]%string.

Lemma number_text_ok z text :
  u64_from_str_radix 16 text = Some z →
  forallb (λ b, (bz b <? 0x80) && bool_decide (b ≠ minus_byte ∧ b ≠ space_byte ∧ b ≠ newline_byte)) text = true →
  number_text z text.
Proof.
  intros Hz Ht. split; [done|]. intros b Hb. rewrite forallb_forall in Ht. specialize (Ht b).
  rewrite list_elem_of_In in Hb. specialize (Ht Hb). apply andb_true_iff in Ht as [? ?%bool_decide_eq_true].
  split; [lia|done].
Qed.

Lemma guess_memory_spec_witness :
  ∃ l1 m l2, candidates maps_example = l1 ++ m :: l2 ∧ 0xa000 = ml_start m ∧ 0x3000 = ml_size m ∧
    Forall (λ x, ml_size x < 0x3000) l1 ∧ Forall (λ x, ml_size x <= 0x3000) l2.
Proof.
  assert (Forall ml_ok maps_example) as Hok.
  { unfold maps_example. cbv zeta. repeat apply Forall_cons_2; [..|apply Forall_nil_2];
      (split_and!; [apply number_text_ok; reflexivity..
                   |cbn; lia|cbn; lia|cbn; lia|reflexivity|apply (bool_decide_unpack _); reflexivity]). }
  pose proof (guess_memory_spec (bm := debug_build) maps_example Hok) as Hg.
  assert (@guess_memory debug_build (concat (ml_line <$> maps_example)) = Ok (0xa000, 0x3000)) as He by reflexivity.
  rewrite He in Hg. destruct Hg as (l1 & m & l2 & Hc & Hs & Hz & _ & _ & Hl1 & Hl2).
  exact (ex_intro _ l1 (ex_intro _ m (ex_intro _ l2 (conj Hc (conj Hs (conj Hz (conj Hl1 Hl2))))))).
Defined.

(** The guess ends on every content. *)
Lemma guess_lines_total `{Build} fuel guess bs : (length bs < fuel)%nat → (guess_lines fuel guess bs).1 ≠ NoFuel.
Proof.
  revert guess bs. induction fuel as [|fuel IH]; intros guess bs Hf; [lia|]. cbn [guess_lines]. unfold mut_bind at 1.
  destruct (read_one_line_std bs) as [[[line n]|e| |] rest] eqn:Hr; try done.
  - destruct (Nat.eqb_spec n 0) as [|Hn]; [done|].
    apply read_one_line_std_progress in Hr as (-> & Hl & _). rewrite length_app in Hf.
    unfold mut_bind, mut_lift, update_guess, sub_u64, checked_width.
    destruct (parse_mapping line) as [[s e]|]; [|cbn; apply IH; lia].
    destruct (_ && _); cbn; [apply IH; lia|]. destruct debug_assertions; cbn; [done|apply IH; lia].
  - unfold read_one_line_std in Hr. by case_match.
Qed.

Lemma guess_memory_ends `{Build} content : guess_memory content ≠ NoFuel.
Proof.
  unfold guess_memory. pose proof (guess_lines_total (S (length content)) (0, 0) content ltac:(lia)) as Hn.
  destruct (guess_lines _ _ _).1 as [g|e| |]; [|done..]. cbn. by destruct (_ =? _).
Qed.

(** ** The windows of QEMU *)

(** Where an address of the guest is in the memory of the hypervisor, for a read
    of [len] bytes. *)
Definition qemu_offset (size addr len : Z) : option Z :=
  if addr + len <=? Z.min size (2 ^ 31) then Some addr
  else if (2 ^ 31 <? size) && (2 ^ 32 <=? addr) && (addr + len <=? size + 2 ^ 31) then Some (addr - 2 ^ 31)
  else None.

Lemma qemu_read `{Build} {V} (file : File) (vcpus : VmResult (list V)) k addr buf :
  with_default_qemu_mappings TargetX86_64 (Ok file) vcpus = Ok k →
  0 <= file_size file < 2 ^ 62 → 0 <= addr < 2 ^ 62 → Z.of_nat (length buf) < 2 ^ 62 →
  read_physical (kvm_memory k) addr buf =
  match qemu_offset (file_size file) addr (Z.of_nat (length buf)) with
  | Some offset => file_read_physical file offset buf
  | None => (Err OutOfBounds, buf)
  end.
Proof.
  intros Hk Hs Ha Hb. unfold with_default_qemu_mappings, kvm_create, default_qemu_mappings in Hk. cbn [res_bind] in Hk.
  inv_ok. destruct v0 as [mappings at_]. inv_ok. subst k. cbn [kvm_memory remap_memory kvm_mem remap_new read_physical].
  set (self := {| remap_mappings := mappings; remap_at := at_; remap_inner := file_memory file |}).
  assert (length mappings = length at_ ∧ Forall map_wf mappings ∧
    remap_target mappings at_ addr (Z.of_nat (length buf)) = qemu_offset (file_size file) addr (Z.of_nat (length buf)))
    as (Hl & Hwf & Ht).
  { unfold qemu_offset. destruct (Z.leb_spec (file_size file) (2 * 2 ^ 30)) as [Hle|Hgt].
    - injection Hv0 as <- <-. split_and!; [done|repeat constructor; unfold is_u64; cbn; lia|].
      cbn [remap_target]. unfold covers. cbn [map_start map_end]. replace (0 <=? addr) with true by lia.
      rewrite Z.min_l by lia. destruct (addr + _ <=? _); cbn [andb]; [f_equal; lia|].
      by replace (2 ^ 31 <? file_size file) with false by lia.
    - unfold add_u64 in Hv0. rewrite checked_width_ok in Hv0 by lia. cbn [res_bind] in Hv0. injection Hv0 as <- <-.
      split_and!; [done|repeat constructor; unfold is_u64; cbn; lia|].
      cbn [remap_target]. unfold covers. cbn [map_start map_end]. replace (0 <=? addr) with true by lia.
      rewrite Z.min_r by lia. replace (2 * 2 ^ 30) with (2 ^ 31) by lia. replace (4 * 2 ^ 30) with (2 ^ 32) by lia.
      replace (2 ^ 31 <? file_size file) with true by lia. cbn [andb].
      destruct (addr + _ <=? _); [f_equal; lia|].
      destruct ((2 ^ 32 <=? addr) && (addr + _ <=? file_size file + 2 ^ 31)); [f_equal; lia|done]. }
  pose proof (remap_read_spec self addr buf Hl Hwf) as Hr. cbn [remap_mappings remap_at remap_inner self] in Hr.
  rewrite Ht in Hr. destruct Hr as [Hr _]; [lia|unfold is_u64; lia| |exact Hr].
  unfold qemu_offset. intros a. destruct (Z.leb_spec (addr + Z.of_nat (length buf)) (Z.min (file_size file) (2 ^ 31))).
  - intros [= <-]. unfold is_u64. lia.
  - destruct (_ && _) eqn:Hc; [|done]. intros [= <-]. unfold is_u64. lia.
Qed.

(** ** The registers that are sent *)

#[export] Instance kvm_msr_entry_pod_ok : PodOk kvm_msr_entry_pod.
Proof. pod_struct. Qed.
#[export] Instance kvm_msrs_pod_ok : PodOk kvm_msrs_pod.
Proof. pod_struct. Qed.

Section send.
Variable ioctl : Z → Z → bytes → Res IoError bytes.

(** KVM fills the structure that it is given. *)
Definition ioctl_fills : Prop := ∀ fd request arg bs, ioctl fd request arg = Ok bs → length bs = length arg.

Hypothesis fills : ioctl_fills.

Lemma ioctl_get_wf {T} (P : Pod T) `{!PodOk P} request fd x : ioctl_get ioctl P request fd = Ok x → pod_wf P x.
Proof.
  unfold ioctl_get. intros Hx. inv_ok. subst x. apply pod_read_wf. apply fills in Hv. by rewrite Hv, length_replicate.
Qed.

Lemma get_msrs_wf fd x : get_msrs ioctl fd = Ok x → pod_wf x86_OtherRegisters_pod x.
Proof.
  unfold get_msrs. intros Hx. apply res_bind_ok in Hx as (v & Hv & Hx).
  pose proof (fills _ _ _ _ Hv) as Hl. rewrite pod_length in Hl.
  pose proof (pod_read_wf (P := kvm_msrs_pod) v Hl) as Hw. destruct (pod_read kvm_msrs_pod v) as [n p es].
  injection Hx as <-.
  destruct Hw as (_ & _ & He). cbn in He.
  destruct He as [Hlen He]. list_by_length es. apply Forall_cons in He as [(_ & _ & H0) [(_ & _ & H1) _]%Forall_cons].
  split; [exact H0|exact H1].
Qed.

(** What the payload gets for a vCPU. *)
Definition x86_asked (fd : Z) (v : x86_Vcpu) : Prop :=
  get_regs ioctl fd = Ok (x86_registers v) ∧ get_sregs ioctl fd = Ok (x86_special_registers v) ∧
  get_msrs ioctl fd = Ok (x86_other_registers v).

Lemma x86_send_fds_spec fds out out' :
  x86_send_fds ioctl fds out = (Ok tt, out') →
  ∃ vcpus, Forall2 x86_asked fds vcpus ∧ Forall (pod_wf x86_Vcpu_pod) vcpus ∧
    out' = out ++ concat (bytes_of x86_Vcpu_pod <$> vcpus).
Proof.
  revert out. induction fds as [|fd fds IH]; intros out; cbn [x86_send_fds].
  { intros [= <-]. exists []. split_and!; [constructor..|by rewrite app_nil_r]. }
  unfold mut_bind, mut_lift. destruct (get_regs ioctl fd) as [r| | |] eqn:Hr; [|done..].
  destruct (get_sregs ioctl fd) as [s| | |] eqn:Hs; [|done..].
  destruct (get_msrs ioctl fd) as [o| | |] eqn:Ho; [|done..]. intros Hsend.
  apply IH in Hsend as (vcpus & Hasked & Hwf & ->).
  exists ({| x86_registers := r; x86_special_registers := s; x86_other_registers := o |} :: vcpus). split_and!.
  - by constructor.
  - constructor; [|done]. split; [by eapply ioctl_get_wf; [apply _|exact Hr]|].
    split; [by eapply ioctl_get_wf; [apply _|exact Hs]|by apply get_msrs_wf in Ho].
  - rewrite fmap_cons. cbn [concat].
    cbn [x86_Vcpu_pod pod_iso pod_pair bytes_of fst snd x86_registers x86_special_registers x86_other_registers].
    by rewrite <- !app_assoc.
Qed.
End send.

Section arm_send.
Variable one_reg : Z → Z → Res IoError Z.

Definition one_reg_fills : Prop := ∀ fd id r, one_reg fd id = Ok r → is_u64 r.

Hypothesis one_reg_u64 : one_reg_fills.

Definition core_id (i : nat) : Z := 0x6030000000100000 + 2 * Z.of_nat i.

Lemma get_core_regs_spec fd i n l :
  get_core_regs one_reg fd (Z.of_nat i) n = Ok l →
  length l = n ∧ Forall is_u64 l ∧ ∀ j r, l !! j = Some r → one_reg fd (core_id (i + j)) = Ok r.
Proof.
  revert i l. induction n as [|n IH]; intros i l; cbn [get_core_regs]; intros Hl; inv_ok; subst l; [done|].
  replace (Z.of_nat i + 1) with (Z.of_nat (S i)) in * by lia. apply IH in Hv0 as (Hlen & Hu & Hget).
  split_and!; [cbn; lia|constructor; [by eapply one_reg_u64|done]|]. intros [|j] r; cbn.
  - intros [= <-]. by rewrite Nat.add_0_r.
  - intros Hj. rewrite <- Nat.add_succ_comm. by apply Hget.
Qed.

(** Every register of the structure is the one of its number. *)
Lemma arm_get_regs_spec fd r :
  arm_get_regs one_reg fd = Ok r →
  pod_wf arm_Registers_pod r ∧ (∀ i x, regs r !! i = Some x → one_reg fd (core_id i) = Ok x) ∧
  one_reg fd (core_id 31) = Ok (sp r) ∧ one_reg fd (core_id 32) = Ok (pc r) ∧ one_reg fd (core_id 33) = Ok (pstate r).
Proof.
  unfold arm_get_regs. intros Hr. apply res_bind_ok in Hr as (v & Hv & Hr).
  assert (r = pod_read arm_Registers_pod (bytes_of_list pod_u64 v)) as -> by congruence. clear Hr. apply (get_core_regs_spec fd 0) in Hv as (Hlen & Hu & Hget).
  change (size_of arm_Registers_pod / 8)%nat with 34%nat in Hlen.
  assert (∃ l a b c, v = l ++ [a; b; c] ∧ length l = 31%nat) as (l & a & b & c & -> & Hl).
  { rewrite <- (take_drop 31 v). assert (length (drop 31 v) = 3%nat) as Hd by (rewrite length_drop; lia).
    destruct (drop 31 v) as [|a [|b [|c [|]]]]; try done. exists (take 31 v), a, b, c. split; [done|]. rewrite length_take. lia. }
  set (r := {| regs := l; sp := a; pc := b; pstate := c |}).
  assert (bytes_of_list pod_u64 (l ++ [a; b; c]) = bytes_of arm_Registers_pod r) as Hb.
  { unfold bytes_of_list. rewrite fmap_app, concat_app. cbn [arm_Registers_pod pod_iso pod_pair bytes_of fst snd regs sp pc pstate r].
    rewrite <- Hl, pod_array_bytes. unfold bytes_of_list. f_equal. }
  apply Forall_app in Hu as [Hul Hu]. apply Forall_cons in Hu as [Ha Hu]. apply Forall_cons in Hu as [Hb' Hu].
  apply Forall_cons in Hu as [Hc _].
  assert (pod_wf arm_Registers_pod r) as Hwf.
  { split; [split; [exact Hl|]|].
    - eapply Forall_impl; [exact Hul|]. intros x Hx. exact Hx.
    - split; [exact Ha|split; [exact Hb'|exact Hc]]. }
  rewrite Hb, pod_read_bytes_of by done. split; [done|]. cbn [regs sp pc pstate r].
  split_and!.
  - intros i x Hi. apply (Hget i). by apply lookup_app_l_Some.
  - apply (Hget 31%nat). rewrite lookup_app_r by lia. by rewrite Hl.
  - apply (Hget 32%nat). rewrite lookup_app_r by lia. by rewrite Hl.
  - apply (Hget 33%nat). rewrite lookup_app_r by lia. by rewrite Hl.
Qed.

Lemma get_special_regs_wf fd r : get_special_regs one_reg fd = Ok r → pod_wf arm_SpecialRegisters_pod r.
Proof.
  unfold get_special_regs, get_one_reg. intros Hr. inv_ok. subst r.
  repeat match goal with H : one_reg _ _ = Ok _ |- _ => apply one_reg_u64 in H end. done.
Qed.

Definition arm_asked (fd : Z) (v : arm_Vcpu) : Prop :=
  arm_get_regs one_reg fd = Ok (arm_registers v) ∧ get_special_regs one_reg fd = Ok (arm_special_registers v).

Lemma arm_send_fds_spec fds out out' :
  arm_send_fds one_reg fds out = (Ok tt, out') →
  ∃ vcpus, Forall2 arm_asked fds vcpus ∧ Forall (pod_wf arm_Vcpu_pod) vcpus ∧
    out' = out ++ concat (bytes_of arm_Vcpu_pod <$> vcpus).
Proof.
  revert out. induction fds as [|fd fds IH]; intros out; cbn [arm_send_fds].
  { intros [= <-]. exists []. split_and!; [constructor..|by rewrite app_nil_r]. }
  unfold mut_bind, mut_lift. destruct (arm_get_regs one_reg fd) as [r| | |] eqn:Hr; [|done..].
  destruct (get_special_regs one_reg fd) as [s| | |] eqn:Hs; [|done..]. intros Hsend.
  apply IH in Hsend as (vcpus & Hasked & Hwf & ->).
  exists ({| arm_registers := r; arm_special_registers := s; arm_other_registers := arm_no_other_registers |} :: vcpus).
  split_and!.
  - by constructor.
  - constructor; [|done]. split; [by apply arm_get_regs_spec in Hr as [? _]|].
    split; [by apply get_special_regs_wf in Hs|done].
  - rewrite fmap_cons. cbn [concat].
    cbn [arm_Vcpu_pod arm_OtherRegisters_pod pod_iso pod_pair pod_array_u8 bytes_of fst snd arm_registers
      arm_special_registers arm_other_registers].
    by rewrite <- !app_assoc.
Qed.
End arm_send.

(** What the listener reads when vCPUs have been sent. *)
Lemma receive_sent {V} write (read : MutRes bytes IoError V) enc wf (asked : Z → V → Prop) fds vcpus :
  codec write read enc wf → Forall2 asked fds vcpus → Forall wf vcpus →
  receive_vcpus read (length fds) (concat (enc <$> vcpus)) = Ok vcpus.
Proof.
  intros Hc Hasked Hwf. unfold receive_vcpus. rewrite (Forall2_length _ _ _ Hasked).
  pose proof (read_vcpus_app _ _ _ _ vcpus [] Hc Hwf) as Hr. rewrite app_nil_r in Hr. by rewrite Hr.
Qed.

(** C37. The payload and the listener agree, although they are two programs: on
    both architectures, when the payload has sent the registers of some vCPUs, the
    listener that expects that many receives, in order, what KVM answered for each
    of them. *)
Theorem payload_roundtrip ioctl one_reg fds out :
  ioctl_fills ioctl → one_reg_fills one_reg →
  (x86_send_fds ioctl fds [] = (Ok tt, out) →
   ∃ vcpus, receive_vcpus read_x86_vcpu (length fds) out = Ok vcpus ∧ Forall2 (x86_asked ioctl) fds vcpus) ∧
  (arm_send_fds one_reg fds [] = (Ok tt, out) →
   ∃ vcpus, receive_vcpus read_arm_vcpu (length fds) out = Ok vcpus ∧ Forall2 (arm_asked one_reg) fds vcpus).
Proof.
  intros Hi Ho. split; intros Hsend.
  - apply x86_send_fds_spec in Hsend as (vcpus & Hasked & Hwf & ->); [|done]. exists vcpus. split; [|done].
    by eapply receive_sent; [apply x86_codec|..].
  - apply arm_send_fds_spec in Hsend as (vcpus & Hasked & Hwf & ->); [|done]. exists vcpus. split; [|done].
    by eapply receive_sent; [apply arm_codec|..].
Qed.

(** Two vCPUs on each architecture: registers full of zeroes, and the numbers of
    the registers. *)
Lemma payload_roundtrip_witness :
  let ioctl (_ _ : Z) (arg : bytes) : Res IoError bytes := Ok (replicate (length arg) Byte.x00) in
  let one_reg (_ id : Z) : Res IoError Z := Ok (Z.land id 0xffff) in
  (∃ out vcpus, x86_send_fds ioctl [3; 4] [] = (Ok tt, out) ∧
    receive_vcpus read_x86_vcpu 2 out = Ok vcpus ∧ Forall2 (x86_asked ioctl) [3; 4] vcpus) ∧
  (∃ out vcpus, arm_send_fds one_reg [3; 4] [] = (Ok tt, out) ∧
    receive_vcpus read_arm_vcpu 2 out = Ok vcpus ∧ Forall2 (arm_asked one_reg) [3; 4] vcpus).
Proof.
  intros ioctl one_reg. assert (ioctl_fills ioctl) as Hi by (intros fd request arg bs [= <-]; apply length_replicate).
  assert (one_reg_fills one_reg) as Ho.
  { intros fd id r [= <-]. unfold is_u64. change 0xffff with (Z.ones 16). rewrite Z.land_ones by lia.
    pose proof (Z.mod_pos_bound id (2 ^ 16)). lia. }
  split.
  - assert ((x86_send_fds ioctl [3; 4] []).1 = Ok tt) as Hok by reflexivity.
    destruct (x86_send_fds ioctl [3; 4] []) as [r out] eqn:Hs. cbn [fst] in Hok. subst r.
    destruct (proj1 (payload_roundtrip ioctl one_reg [3; 4] out Hi Ho) Hs) as (vcpus & Hr & Ha).
    exists out, vcpus. repeat split; assumption.
  - assert ((arm_send_fds one_reg [3; 4] []).1 = Ok tt) as Hok by reflexivity.
    destruct (arm_send_fds one_reg [3; 4] []) as [r out] eqn:Hs. cbn [fst] in Hok. subst r.
    destruct (proj2 (payload_roundtrip ioctl one_reg [3; 4] out Hi Ho) Hs) as (vcpus & Hr & Ha).
    exists out, vcpus. repeat split; assumption.
Defined.
