(* ===== verification/KvmTraceSpec.v ===== *)
(** * The hypervisor is left as it was found

    Whatever the functions that are run in the hypervisor do, and however they
    fail, [attach] ends with the code and the registers of the thread restored
    and the thread detached, as long as the thread is seen to stop again when it
    has been continued: a thread that runs can neither be restored nor
    detached. *)

From S2P Require Import Prelude Rust Layout Addr Error Text Registers Mem Native NativeSpec Kvm KvmTrace.

(** A thread is traced, and runs or is stopped, or is not traced. *)
Inductive ThreadState := Running | Stopped | Detached.

(** What [ptrace] and [/proc/pid/mem] do to a thread that is not killed: its
    memory, its registers, and its state.  The requests of [ptrace] are for a
    tracee that is stopped: nothing is said of what they do to another one, where
    they fail with [ESRCH].  A stopped thread stays as it is until it is continued,
    and a wait that succeeds has seen the thread stop.  The registers that a thread
    has can be given back to it, and [code] stays mapped. *)
Class PtraceLaws (P R : Type) `{Ptrace P} `{UserRegs R} (code : Z) := {
  th_memory : P → HostMemory;
  th_registers : P → R;
  th_state : P → ThreadState;
  regs_pod_ok : PodOk regs_pod;
  th_valid : R → Prop;
  th_valid_wf : ∀ r, th_valid r → pod_wf regs_pod r;
  th_registers_valid : ∀ p, th_valid (th_registers p);
  pt_attach_spec : ∀ p p', pt_attach p = (Ok tt, p') → th_state p' = Running;
  pt_wait_spec : ∀ p p', th_state p = Running → pt_wait p = (Ok tt, p') → th_state p' = Stopped;
  pt_getregset_spec : ∀ n p, th_state p = Stopped → (pt_getregset n p).2 = p ∧
    ∀ bs, (pt_getregset n p).1 = Ok bs → length bs = size_of regs_pod → bs = bytes_of regs_pod (th_registers p);
  pt_setregset_spec : ∀ r p, th_state p = Stopped →
    let '(res, p') := pt_setregset (bytes_of regs_pod r) p in
    th_state p' = Stopped ∧
    (th_valid r → res = Ok (size_of regs_pod) ∧ th_registers p' = r ∧ th_memory p' ≡ th_memory p);
  pt_read_at_spec : ∀ a n p, th_state p = Stopped → (pt_read_at a n p).2 = p ∧
    ∀ bs, (pt_read_at a n p).1 = Ok bs → bs = mem_read (th_memory p) a n;
  pt_write_at_spec : ∀ a bs p, th_state p = Stopped →
    let '(r, p') := pt_write_at a bs p in
    th_registers p' = th_registers p ∧ th_state p' = Stopped ∧
    (r = Ok tt → th_memory p' ≡ mem_write (th_memory p) a bs) ∧
    (a = code → length bs = length INSTRUCTIONS → r = Ok tt);
  pt_cont_spec : ∀ p, th_state p = Stopped →
    match pt_cont p with (Ok _, p') => th_state p' = Running | (_, p') => p' = p end;
  pt_detach_spec : ∀ p, th_state p = Stopped → let p' := (pt_detach p).2 in
    th_state p' = Detached ∧ th_registers p' = th_registers p ∧ th_memory p' ≡ th_memory p;
}.

(** The bytes that are read after a write. *)
Lemma mem_read_length mem a n : length (mem_read mem a n) = n.
Proof. unfold mem_read. by rewrite length_fmap, length_seq. Qed.

Lemma mem_read_lookup mem a n i : (i < n)%nat → mem_read mem a n !! i = Some (mem (a + Z.of_nat i)).
Proof. intros Hi. unfold mem_read. rewrite list_lookup_fmap, lookup_seq_lt by done. done. Qed.

Section spec.
Context {bm : Build} {P R : Type} `{PT : Ptrace P} `{UR : UserRegs R} {code : Z} `{!PtraceLaws P R code}.
#[local] Existing Instance regs_pod_ok.

(** A wait for a thread that was continued does not fail. *)
Definition waits_succeed : Prop := ∀ p, th_state p = Running → (pt_wait p).1 = Ok tt.

Section stopped.
Hypothesis waits : waits_succeed.

(** Computations after which a stopped thread is stopped again. *)
Definition stays_stopped {E A} (m : MutRes P E A) : Prop := ∀ p, th_state p = Stopped → th_state (m p).2 = Stopped.

Lemma stopped_ret {E A} (a : A) : stays_stopped (E:=E) (mut_ret a).
Proof. by intros p. Qed.

Lemma stopped_lift {E A} (r : Res E A) : stays_stopped (mut_lift r).
Proof. by intros p. Qed.

Lemma stopped_bind {E A B} (m : MutRes P E A) (k : A → MutRes P E B) :
  stays_stopped m → (∀ a, stays_stopped (k a)) → stays_stopped (let! x := m in k x).
Proof.
  intros Hm Hk p Hp. unfold mut_bind. specialize (Hm p Hp). destruct (m p) as [[a| | |] p']; try done. by apply Hk.
Qed.

Lemma stopped_map_err {E F A} (f : E → F) (m : MutRes P E A) : stays_stopped m → stays_stopped (mut_map_err f m).
Proof. intros Hm p Hp. unfold mut_map_err. specialize (Hm p Hp). by destruct (m p). Qed.

Lemma stopped_if {E A} (b : bool) (m m' : MutRes P E A) :
  stays_stopped m → stays_stopped m' → stays_stopped (if b then m else m').
Proof. by destruct b. Qed.

Lemma stopped_getregset n : stays_stopped (pt_getregset n).
Proof. intros p Hp. by rewrite (proj1 (pt_getregset_spec n p Hp)). Qed.

Lemma stopped_read_at a n : stays_stopped (pt_read_at a n).
Proof. intros p Hp. by rewrite (proj1 (pt_read_at_spec a n p Hp)). Qed.

Lemma stopped_write_at a bs : stays_stopped (pt_write_at a bs).
Proof. intros p Hp. pose proof (pt_write_at_spec a bs p Hp) as Hw. destruct (pt_write_at a bs p). by destruct Hw as (_ & ? & _). Qed.

Lemma stopped_set_registers r : stays_stopped (set_registers r).
Proof.
  apply stopped_bind; [|intros n; apply stopped_if; [apply stopped_ret|apply stopped_lift]].
  apply stopped_map_err. intros p Hp. pose proof (pt_setregset_spec r p Hp) as Hs.
  destruct (pt_setregset _ p). by destruct Hs as [? _].
Qed.

(** Continuing a thread, and waiting for it. *)
Lemma stopped_cont_wait {A} (k : unit → MutRes P VmError A) :
  (∀ x, stays_stopped (k x)) → stays_stopped (let! _ := io pt_cont in let! x := io pt_wait in k x).
Proof.
  intros Hk p Hp. unfold mut_bind, io, mut_map_err. pose proof (pt_cont_spec p Hp) as Hc.
  destruct (pt_cont p) as [[x| | |] p1]; cbn [map_err]; [|by subst p1..].
  pose proof (waits p1 Hc) as Hw. pose proof (pt_wait_spec p1) as Hs.
  destruct (pt_wait p1) as [r p2]. cbn [fst] in Hw. subst r. cbn [map_err]. apply Hk. by apply Hs.
Qed.

Create HintDb stopped.
#[local] Hint Resolve stopped_ret stopped_lift stopped_map_err stopped_getregset stopped_read_at stopped_write_at
  stopped_set_registers : stopped.
#[local] Hint Extern 0 (stays_stopped (mut_bind (io pt_cont) _)) => apply stopped_cont_wait; intros ? : stopped.
#[local] Hint Extern 1 (stays_stopped (mut_bind _ _)) => apply stopped_bind; [|intros ?] : stopped.
#[local] Hint Extern 1 (stays_stopped (if _ then _ else _)) => apply stopped_if : stopped.
#[local] Hint Extern 1 (stays_stopped (io _)) => apply stopped_map_err : stopped.

Lemma stopped_peek_data addr n : stays_stopped (peek_data addr n).
Proof. apply stopped_map_err, stopped_read_at. Qed.
Lemma stopped_poke_data addr buf : stays_stopped (poke_data addr buf).
Proof. apply stopped_map_err, stopped_write_at. Qed.
#[local] Hint Resolve stopped_peek_data stopped_poke_data : stopped.

Lemma stopped_get_registers : stays_stopped get_registers.
Proof. unfold get_registers. auto with stopped. Qed.
#[local] Hint Resolve stopped_get_registers : stopped.

Lemma stopped_funcall self addr args : stays_stopped (funcall self addr args).
Proof. unfold funcall, do_funcall. auto 20 with stopped. Qed.
#[local] Hint Resolve stopped_funcall : stopped.

Lemma stopped_c_string fuel addr : stays_stopped (read_c_string fuel addr).
Proof.
  revert addr. induction fuel as [|fuel IH]; intros addr; cbn [read_c_string]; [auto with stopped|].
  apply stopped_bind; [auto with stopped|]. intros [|b [|? ?]]; auto 10 with stopped.
Qed.
#[local] Hint Resolve stopped_c_string : stopped.

Lemma stopped_remote_error context error : stays_stopped error → stays_stopped (remote_error context error).
Proof. intros He p Hp. unfold remote_error. specialize (He p Hp). by destruct (error p) as [[| | |] ?]. Qed.

Lemma stopped_dlerror self fuel addr : stays_stopped (get_dlerror self fuel addr).
Proof. unfold get_dlerror. apply stopped_remote_error. auto 10 with stopped. Qed.

Lemma stopped_errno self os_error addr : stays_stopped (get_errno self os_error addr).
Proof. unfold get_errno. apply stopped_remote_error. auto 10 with stopped. Qed.

Lemma stopped_fail_with {A} context err : stays_stopped err → stays_stopped (fail_with (A:=A) context err).
Proof. intros He p Hp. unfold fail_with. specialize (He p Hp). by destruct (err p) as [[|[]| |] ?]. Qed.

Lemma stopped_guarded {E A} (drop : MutRes P E unit) (f : MutRes P E A) :
  stays_stopped drop → stays_stopped f → stays_stopped (guarded drop f).
Proof.
  intros Hd Hf p Hp. unfold guarded. specialize (Hf p Hp). destruct (f p) as [r p']. cbn in Hf.
  specialize (Hd p' Hf). destruct (drop p') as [r' p'']. by destruct r; [destruct r'..|].
Qed.

Lemma stopped_dlclose self fuel remote handle : stays_stopped (do_dlclose self fuel remote handle).
Proof.
  intros p Hp. unfold do_dlclose. pose proof (stopped_funcall self (their_dlclose remote) [handle] p Hp) as Hf.
  destruct (funcall _ _ _ p) as [[res| | |] p']; try done. destruct (res =? 0); [done|].
  pose proof (stopped_dlerror self fuel (their_dlerror remote) p' Hf) as He. by destruct (get_dlerror _ _ _ p') as [[| | |] ?].
Qed.
#[local] Hint Resolve stopped_dlerror stopped_errno stopped_fail_with stopped_guarded stopped_dlclose : stopped.

Lemma stopped_run_payload self fuel os_error a b c remote fds n :
  stays_stopped (run_payload self fuel os_error a b c remote fds n).
Proof. unfold run_payload. auto 30 with stopped. Qed.
End stopped.

(** Dropping the tracee restores it. *)
Lemma tracee_drop_spec self p :
  th_state p = Stopped → tr_instrs_addr self = code → length (tr_instrs self) = length INSTRUCTIONS →
  th_valid (tr_registers self) →
  let p' := (tracee_drop self p).2 in
  th_state p' = Detached ∧ th_registers p' = tr_registers self ∧
  ∀ i b, tr_instrs self !! i = Some b → th_memory p' (code + Z.of_nat i) = b.
Proof.
  intros Hp Hcode Hlen Hwf. unfold tracee_drop. set (f := mut_bind _ _). destruct (f p) as [r p2] eqn:Hf.
  assert (th_state p2 = Stopped ∧ th_registers p2 = tr_registers self ∧
    ∀ i b, tr_instrs self !! i = Some b → th_memory p2 (code + Z.of_nat i) = b) as (Hs2 & Hr2 & Hm2).
  { subst f. unfold mut_bind at 1, io, mut_map_err in Hf.
    pose proof (pt_write_at_spec (tr_instrs_addr self) (tr_instrs self) p Hp) as Hw.
    destruct (pt_write_at _ _ p) as [r1 p1]. destruct Hw as (_ & Hp1 & Hm & Hok). specialize (Hok Hcode Hlen) as ->.
    specialize (Hm eq_refl). cbn [map_err] in Hf. unfold set_registers, mut_bind, mut_map_err in Hf.
    pose proof (pt_setregset_spec (tr_registers self) p1 Hp1) as Hs.
    destruct (pt_setregset _ p1) as [r3 p3]. destruct Hs as [Hstop Hs]. destruct (Hs Hwf) as (-> & Hr & Hm3).
    cbn [map_err] in Hf. rewrite Nat.eqb_refl in Hf. injection Hf as _ <-. rewrite Hr.
    split; [done|]. split; [done|]. intros i b Hi. rewrite (Hm3 _), (Hm _), Hcode. by apply mem_write_lookup. }
  unfold io, mut_map_err. pose proof (pt_detach_spec p2 Hs2) as Hd. destruct (pt_detach p2) as [r3 p3]. cbn [snd] in Hd |- *.
  destruct Hd as (Ht & Hr3 & Hm3). split_and!; [done|by rewrite Hr3|]. intros i b Hi. rewrite (Hm3 _). by apply Hm2.
Qed.

(** A thread that is attached is stopped. *)
Lemma raw_attach_stopped p p0 : raw_attach p = (Ok tt, p0) → th_state p0 = Stopped.
Proof.
  unfold raw_attach, mut_bind, io, mut_map_err. intros Ha. pose proof (pt_attach_spec p) as Hat.
  destruct (pt_attach p) as [[[]| | |] p1]; cbn [map_err] in Ha; [|done..]. specialize (Hat p1 eq_refl).
  pose proof (pt_wait_spec p1) as Hw. destruct (pt_wait p1) as [[[]| | |] p2]; cbn [map_err] in Ha; [|done..].
  injection Ha as <-. by apply Hw.
Qed.

(** A failed operation detaches. *)
Lemma failed_attach p0 p : p = p0 → th_state p0 = Stopped →
  let p' := (io pt_detach p).2 in
  th_state p' = Detached ∧ th_registers p' = th_registers p0 ∧ th_memory p' ≡ th_memory p0.
Proof.
  intros -> Hp. unfold io, mut_map_err. pose proof (pt_detach_spec p0 Hp) as Hd. by destruct (pt_detach p0).
Qed.

(** What is saved when the tracee is made. *)
Lemma tracee_attach_spec p p0 :
  raw_attach p = (Ok tt, p0) →
  match tracee_attach (Ok tt) (Ok code) p with
  | (Ok tracee, p') =>
      tr_registers tracee = th_registers p0 ∧ tr_instrs_addr tracee = code ∧
      tr_instrs tracee = mem_read (th_memory p0) code (length INSTRUCTIONS) ∧ th_state p' = Stopped
  | (_, p') => th_state p' = Detached ∧ th_registers p' = th_registers p0 ∧ th_memory p' ≡ th_memory p0
  end.
Proof.
  intros Ha. pose proof (raw_attach_stopped p p0 Ha) as Hp0. unfold tracee_attach, mut_bind at 1, mut_lift at 1. cbn [map_err]. rewrite Ha. unfold get_registers, mut_bind, mut_map_err, io at 1, mut_map_err.
  destruct (pt_getregset_spec (size_of regs_pod) p0 Hp0) as [Hs Hg].
  destruct (pt_getregset _ p0) as [[bs|e| |] p1]; cbn [fst snd map_err] in *; [|by apply failed_attach..].
  destruct (Nat.eqb_spec (length bs) (size_of regs_pod)) as [Hl|Hl]; [|by apply failed_attach]. cbn [mut_ret mut_lift].
  rewrite (Hg bs eq_refl Hl), pod_read_bytes_of by apply th_valid_wf, th_registers_valid. subst p1.
  unfold mut_ret, io at 1, mut_map_err.
  destruct (pt_read_at_spec code (length INSTRUCTIONS) p0 Hp0) as [Hs Hr].
  destruct (pt_read_at _ _ p0) as [[instrs|e| |] p1]; cbn [fst snd map_err] in *; [|by apply failed_attach..].
  rewrite (Hr instrs eq_refl). subst p1. unfold io at 1, mut_map_err.
  pose proof (pt_write_at_spec code INSTRUCTIONS p0 Hp0) as Hw.
  destruct (pt_write_at _ _ p0) as [r p1]. destruct Hw as (_ & Hp1 & _ & Hok). by rewrite Hok.
Qed.

(** What the thread was when it was stopped. *)
Definition restored (p0 p' : P) : Prop :=
  th_state p' = Detached ∧ th_registers p' = th_registers p0 ∧
  ∀ i, (i < length INSTRUCTIONS)%nat → th_memory p' (code + Z.of_nat i) = th_memory p0 (code + Z.of_nat i).

(** C38. After [attach], however it ends (the remote functions may fail, corrupt
    the thread or be missing, and the code may panic), the thread is detached, its
    registers are those it had when it was stopped, and so is the code that was
    replaced to call functions; provided that the thread is stopped when the last
    remote function is over.  It is when no [waitpid] fails after the thread was
    continued.  When one fails the thread may still run, and then neither its
    registers can be given back nor can it be detached
    ([interrupted_wait_not_restored]).  If [attach] fails before it runs a
    function, nothing is required. *)
Theorem attach_restores fuel os_error prot_read map_anonymous rtld_now our_libc their_libc ours remote fds p p0 r p' :
  remote_addresses our_libc their_libc ours = Ok remote →
  raw_attach p = (Ok tt, p0) →
  kvm_attach fuel os_error prot_read map_anonymous rtld_now (Ok our_libc) (Ok their_libc) (Ok tt) (Ok code) ours fds p = (r, p') → r ≠ NoFuel →
  match tracee_attach (Ok tt) (Ok code) p with
  | (Ok tracee, pa) =>
      let p1 := (run_payload tracee fuel os_error prot_read map_anonymous rtld_now remote (bytes_of_list pod_u32 fds)
                   (Z.of_nat (length fds)) pa).2 in
      th_state p1 = Stopped → restored p0 p'
  | _ => restored p0 p'
  end ∧
  (waits_succeed → restored p0 p').
Proof.
  intros Hremote Ha Hk Hr. unfold kvm_attach, mut_bind at 1 2 3, mut_lift in Hk. rewrite Hremote in Hk.
  unfold mut_bind at 1 in Hk. pose proof (tracee_attach_spec p p0 Ha) as Hta.
  destruct (tracee_attach _ _ p) as [[tracee|e| |] pa];
    [|injection Hk as <- <-; destruct Hta as (? & ? & Hm); split; intros; (split_and!; [done..|intros i _; apply Hm])..].
  destruct Hta as (Hregs & Hcode & Hinstrs & Hpa). unfold guarded in Hk. cbn zeta.
  pose proof (λ waits, stopped_run_payload waits tracee fuel os_error prot_read map_anonymous rtld_now remote (bytes_of_list pod_u32 fds)
    (Z.of_nat (length fds)) pa Hpa) as Hrun.
  destruct (run_payload _ _ _ _ _ _ _ _ _ pa) as [rr p1]. cbn [snd] in *.
  assert (Hstop : th_state p1 = Stopped → restored p0 p'); [|by split; [|intros Hw; apply Hstop, Hrun]].
  intros Hp1. destruct (tracee_drop_spec tracee p1 Hp1 Hcode) as (Ht & Hr1 & Hm1).
  { by rewrite Hinstrs, mem_read_length. }
  { rewrite Hregs. apply th_registers_valid. }
  assert (p' = (tracee_drop tracee p1).2) as ->.
  { destruct rr; [..|by injection Hk as <- _]; destruct (tracee_drop tracee p1) as [[] ?]; by injection Hk as _ <-. }
  split_and!; [done|by rewrite Hr1|]. intros i Hi. apply Hm1. by rewrite Hinstrs, mem_read_lookup.
Qed.

(** A message that ends is read to its end. *)
Lemma read_c_string_ends fuel addr k p :
  th_state p = Stopped → (k < fuel)%nat → th_memory p (Nat.iter k (λ a, wrapping_add a 1) addr) = Byte.x00 →
  (∀ a n, (pt_read_at a n p).1 ≠ NoFuel) → (read_c_string fuel addr p).1 ≠ NoFuel.
Proof.
  intros Hstop Hk Hz Hread. revert addr k Hk Hz. induction fuel as [|fuel IH]; intros addr k Hk Hz; [lia|].
  cbn [read_c_string]. unfold mut_bind at 1, peek_data, io, mut_map_err.
  destruct (pt_read_at_spec addr 1 p Hstop) as [Hs Hr]. specialize (Hread addr 1%nat) as Hn.
  destruct (pt_read_at addr 1 p) as [[bs|e| |] p1]; cbn [fst snd map_err] in *; [subst p1|done..].
  rewrite (Hr bs eq_refl). cbn. rewrite Z.add_0_r. case_bool_decide as Hb; [done|].
  destruct k as [|k]; [done|]. unfold mut_bind. rewrite Nat.iter_succ_r in Hz.
  specialize (IH (wrapping_add addr 1) k ltac:(lia) Hz). by destruct (read_c_string _ _ p) as [[] ?].
Qed.
End spec.

(** ** A machine *)

(** A thread that executes nothing but the call: the function returns 0.  The
    waits for a thread that was continued are interrupted, unless they are
    [reliable]. *)
Module Machine.
#[local] Existing Instance debug_build.

Definition pod : Pod arm_user_regs :=
  pod_iso (λ '(r, (s, (p, t))), {| ua_regs := r; ua_sp := s; ua_pc := p; ua_pstate := t |})
          (λ r, (ua_regs r, (ua_sp r, (ua_pc r, ua_pstate r))))
          (pod_pair (pod_array pod_u64 31) (pod_pair pod_u64 (pod_pair pod_u64 pod_u64))).

#[export] Instance pod_ok : PodOk pod.
Proof. pod_struct. Qed.

#[export] Instance user_regs : UserRegs arm_user_regs := arm_user_regs_ops pod.

Record Thread (reliable : bool) := {
  t_memory : HostMemory; t_registers : bytes; t_state : ThreadState; t_continued : bool;
}.
Arguments t_memory {_}. Arguments t_registers {_}. Arguments t_state {_}. Arguments t_continued {_}.

(** The registers, whatever bytes are kept. *)
Definition reg_bytes (bs : bytes) : bytes := take (size_of pod) (bs ++ replicate (size_of pod) Byte.x00).

Lemma reg_bytes_length bs : length (reg_bytes bs) = size_of pod.
Proof. unfold reg_bytes. rewrite length_take, length_app, length_replicate. lia. Qed.

Lemma reg_bytes_id bs : length bs = size_of pod → reg_bytes bs = bs.
Proof. intros Hl. unfold reg_bytes. by rewrite <- Hl, take_app_length. Qed.

Lemma reg_bytes_read r : pod_wf pod r → pod_read pod (reg_bytes (bytes_of pod r)) = r.
Proof. intros Hr. rewrite reg_bytes_id by apply pod_length. by apply pod_read_bytes_of. Qed.

Section ptrace.
Context {reliable : bool}.
Notation Thread := (Thread reliable).

Definition set_state (s : ThreadState) (t : Thread) : Thread :=
  {| t_memory := t_memory t; t_registers := t_registers t; t_state := s; t_continued := t_continued t |}.

(** The instruction that stops the thread is past the call. *)
Definition run (t : Thread) : Thread :=
  let r := pod_read pod (reg_bytes (t_registers t)) in
  {| t_memory := t_memory t;
     t_registers := bytes_of pod {| ua_regs := <[0%nat := 0]> (ua_regs r); ua_sp := ua_sp r;
                                    ua_pc := ua_pc r + Z.of_nat (length arm_instructions); ua_pstate := ua_pstate r |};
     t_state := Running; t_continued := true |}.

(** A request for a thread that is not stopped fails. *)
Definition if_stopped {A} (f : MutRes Thread IoError A) : MutRes Thread IoError A := λ t,
  match t_state t with Stopped => f t | _ => (Err (io_new OtherKind "ESRCH"%string), t) end.

#[export] Instance ptrace : Ptrace Thread := {|
  pt_attach := λ t, (Ok tt, set_state Running t);
  pt_wait := λ t, if reliable || negb (t_continued t) then (Ok tt, set_state Stopped t)
                  else (Err (io_new OtherKind "EINTR"%string), t);
  pt_cont := if_stopped (λ t, (Ok tt, run t));
  pt_detach := if_stopped (λ t, (Ok tt, set_state Detached t));
  pt_getregset := λ n, if_stopped (λ t, (Ok (take n (reg_bytes (t_registers t))), t));
  pt_setregset := λ bs, if_stopped (λ t,
    (Ok (length bs), {| t_memory := t_memory t; t_registers := bs; t_state := t_state t; t_continued := t_continued t |}));
  pt_read_at := λ a n t, (Ok (mem_read (t_memory t) a n), t);
  pt_write_at := λ a bs t,
    (Ok tt, {| t_memory := mem_write (t_memory t) a bs; t_registers := t_registers t; t_state := t_state t;
               t_continued := t_continued t |});
|}.

#[export] Instance laws code : PtraceLaws Thread arm_user_regs code.
Proof.
  refine {| th_memory := t_memory; th_registers := λ t, pod_read pod (reg_bytes (t_registers t));
            th_state := t_state; th_valid := pod_wf pod |}.
  - done.
  - intros p. apply pod_read_wf, reg_bytes_length.
  - by intros p p' [= <-].
  - intros p p' _. cbn. destruct (reliable || _); [by intros [= <-]|done].
  - intros n p Hp. cbn [pt_getregset ptrace]. unfold if_stopped. rewrite Hp. split; [done|]. intros bs [= <-].
    change (regs_pod : Pod arm_user_regs) with pod.
    rewrite length_take, reg_bytes_length. intros Hn. rewrite take_ge by (rewrite reg_bytes_length; lia).
    by rewrite pod_bytes_of_read by apply reg_bytes_length.
  - intros r p Hp. cbn [pt_setregset ptrace]. unfold if_stopped. rewrite Hp. split; [done|]. intros Hr.
    split; [exact (f_equal Ok (pod_length (P := pod) r))|]. split; [by apply reg_bytes_read|done].
  - intros a n p _. split; [done|]. by intros bs [= <-].
  - done.
  - intros p Hp. cbn. unfold if_stopped. by rewrite Hp.
  - intros p Hp. cbn. unfold if_stopped. by rewrite Hp.
Defined.

Definition start : Thread :=
  {| t_memory := λ a, zb (a mod 256);
     t_registers := bytes_of pod {| ua_regs := Z.of_nat <$> seq 1 31; ua_sp := 0x8000; ua_pc := 0x1234; ua_pstate := 0 |};
     t_state := Detached; t_continued := false |}.
End ptrace.

Definition ours : Remote :=
  {| their_dlopen := 0x1010; their_dlclose := 0x1020; their_dlsym := 0x1030; their_dlerror := 0x1040;
     their_mmap := 0x1050; their_errno := 0x1060 |}.

Definition theirs : Remote :=
  {| their_dlopen := 0x5010; their_dlclose := 0x5020; their_dlsym := 0x5030; their_dlerror := 0x5040;
     their_mmap := 0x5050; their_errno := 0x5060 |}.

End Machine.
Import Machine.
#[local] Existing Instance debug_build.

(** The attachment of a thread, and its end. *)
Notation result reliable :=
  (kvm_attach 10 (λ _, io_new OtherKind "os error"%string) 1 0x22 2 (Ok 0x1000) (Ok 0x5000) (Ok tt) (Ok 0x400) ours [7]
     (start (reliable := reliable))).

Lemma result_ends : (result true).1 ≠ NoFuel.
Proof. intros Hr. assert (match (result true).1 with NoFuel => False | _ => True end) as Hn by exact I. by rewrite Hr in Hn. Qed.

Lemma start_attached : raw_attach (start (reliable := true)) = (Ok tt, set_state Stopped start).
Proof. reflexivity. Qed.

Lemma reliable_waits : waits_succeed (P := Thread true) (code := 0x400).
Proof. done. Qed.

Lemma attach_restores_witness :
  (result true).1 ≠ NoFuel ∧ restored (code := 0x400) (set_state Stopped (start (reliable := true))) (result true).2.
Proof.
  split; [exact result_ends|].
  exact (proj2 (attach_restores (P := Thread true) (code := 0x400) 10 (λ _, io_new OtherKind "os error"%string) 1 0x22 2 0x1000 0x5000 ours
    theirs [7] start (set_state Stopped start) (result true).1 (result true).2
    eq_refl start_attached (surjective_pairing (result true)) result_ends) reliable_waits).
Defined.

(** When the wait for a remote function is interrupted, the thread is still
    traced at the end, with the registers of the call. *)
Lemma interrupted_wait_not_restored :
  t_state (result false).2 = Running ∧
  t_registers (result false).2 ≠ t_registers (start (reliable := false)).
Proof. split; [by vm_compute|]. intros Heq. by vm_compute in Heq. Qed.
