(* ===== verification/Loader.v ===== *)
(** * The loaders of symbols ([vminer/src/os/windows/loader.rs],
    [SymbolLoader] of [vminer/src/os/linux/mod.rs])

    Symbols are kept in a directory of the host; on Windows they are downloaded
    when they are missing.  Paths are bytes with the rules of the standard library
    on Unix.  The file system is a state that the class [HostFs] reads and
    changes; the network is an argument. *)

From S2P Require Import Prelude Rust Layout Error Text Symbols Dwarf Loading Pointer.

(** ** Paths *)

Definition slash_byte : byte := Byte.x2f.
Definition dot_byte : byte := Byte.x2e.

Definition is_absolute (path : bytes) : bool := bool_decide (head path = Some slash_byte).

(** [PathBuf::push] *)
Definition path_push (self path : bytes) : bytes :=
  if is_absolute path then path
  else match last self with
       | Some b => if bool_decide (b = slash_byte) then self ++ path else self ++ slash_byte :: path
       | None => path
       end.

(** [collect::<PathBuf>()] *)
Definition path_collect (components : list bytes) : bytes := foldl path_push [] components.

(** A reversed path without separators and [.] at its end. *)
Fixpoint trim_end (path : bytes) : bytes :=
  match path with
  | [] => []
  | b :: path' =>
      if bool_decide (b = slash_byte) then trim_end path'
      else if bool_decide (b = dot_byte) && is_absolute path' then trim_end path'
      else path
  end.

(** The last component of a reversed path, and what precedes it. *)
Fixpoint split_component (path : bytes) : bytes * bytes :=
  match path with
  | [] => ([], [])
  | b :: path' =>
      if bool_decide (b = slash_byte) then ([], path)
      else let '(c, rest) := split_component path' in (b :: c, rest)
  end.

(** [Path::parent] *)
Definition path_parent (path : bytes) : option bytes :=
  match trim_end (rev path) with
  | [] => None
  | path' =>
      let parent := rev (trim_end (split_component path').2) in
      Some (if is_absolute path && bool_decide (parent = []) then [slash_byte] else parent)
  end.

(** [Path::file_name] *)
Definition file_name (path : bytes) : option bytes :=
  let name := rev (split_component (trim_end (rev path))).1 in
  if bool_decide (name = [] ∨ name = [dot_byte] ∨ name = [dot_byte; dot_byte]) then None else Some name.

(** ** The file system *)

Class HostFs (F : Type) := {
  fs_exists : bytes → F → bool;
  fs_read : bytes → F → Res IoError bytes;
  fs_create_dir_all : bytes → MutRes F IoError unit;
  fs_write : bytes → bytes → MutRes F IoError unit;
}.

(** A file that is written can be read. *)
Class HostFsLaws (F : Type) `{HostFs F} := {
  fs_write_spec : ∀ path content fs fs', fs_write path content fs = (Ok tt, fs') →
    fs_exists path fs' = true ∧ fs_read path fs' = Ok content;
}.

Section loader.
Context {bm : Build} `{SymbolCrates} {F : Type} `{HostFs F}.

(** The arguments of [Loading.v]. *)
Variables fuel nesting : nat.
Variable sort_unstable_by : (SymbolEntry → SymbolEntry → comparison) → list SymbolEntry → list SymbolEntry.

(** The request for a URL fails, or its body is read. *)
Variable http_get : string → Res (list string) (Res IoError bytes).
(** The feature [download_pdb]. *)
Variable download_enabled : bool.

Notation Loading := (MutRes F VmError).

Definition file_at (path : bytes) (fs : F) : FilePath :=
  {| path_file_name := file_name path; path_content := fs_read path fs |}.

(** ** Windows *)

Record WinLoader := { wl_root : bytes; wl_url_base : string }.

Definition with_root_and_url (root : bytes) (url_base : string) : Loading WinLoader :=
  let! _ := mut_map_err vm_of_io (fs_create_dir_all root) in
  mut_ret {| wl_root := root; wl_url_base := url_base |}.

Definition with_root (root : bytes) : Loading WinLoader :=
  with_root_and_url root "https://msdl.microsoft.com/download/symbols".

(** The directory on a host that is not Windows; [var_os] is the environment. *)
Definition default_root (var_os : string → option bytes) : VmResult bytes :=
  match var_os "_NT_SYMBOl_PATH"%string with
  | Some path => Ok path
  | None =>
      match var_os "XDG_CACHE_HOME"%string with
      | Some cache => Ok (path_push cache (str_bytes "PDB"))
      | None =>
          let? home := option_context (var_os "HOME"%string) "cannot find home directory" in
          Ok (path_push home (str_bytes ".cache/PDB/"))
      end
  end.

Definition with_default_root (var_os : string → option bytes) : Loading WinLoader :=
  let! path := mut_lift (default_root var_os) in with_root path.

Definition symbol_url (self : WinLoader) (name id : string) : string :=
  (wl_url_base self +:+ "/" +:+ name +:+ "/" +:+ id +:+ "/" +:+ name)%string.

(** What is downloaded is saved. *)
Definition save_pdb (path pdb : bytes) : MutRes F IoError unit :=
  let! parent := mut_lift (match path_parent path with Some parent => Ok parent | None => Panic end) in
  let! _ := fs_create_dir_all parent in
  fs_write path pdb.

Definition download_pdb (self : WinLoader) (path : bytes) (name id : string) : Loading ModuleSymbols :=
  let! body := mut_lift (map_err foreign_error (http_get (symbol_url self name id))) in
  let! pdb := mut_lift (map_err vm_of_io body) in
  λ fs, match save_pdb path pdb fs with
        | (Ok _, fs) | (Err _, fs) => (from_bytes fuel nesting sort_unstable_by pdb, fs)
        | (Panic, fs) => (Panic, fs)
        | (NoFuel, fs) => (NoFuel, fs)
        end.

Definition symbol_path (self : WinLoader) (name id : string) : bytes :=
  path_collect [wl_root self; str_bytes name; str_bytes id; str_bytes name].

(** [SymbolLoader::load] *)
Definition win_load (self : WinLoader) (name id : string) : Loading (option ModuleSymbols) := λ fs,
  let path := symbol_path self name id in
  if fs_exists path fs then (res_map Some (from_file fuel nesting sort_unstable_by (file_at path fs)), fs)
  else if download_enabled then
    match download_pdb self path name id fs with
    | (Ok module, fs) => (Ok (Some module), fs)
    | (Err err, fs) => (Ok None, fs)
    | (Panic, fs) => (Panic, fs)
    | (NoFuel, fs) => (NoFuel, fs)
    end
  else (Ok None, fs).

(** ** Linux *)

Record LinuxLoader := { ll_root : bytes }.

Definition linux_with_root (path : bytes) : Loading LinuxLoader :=
  let! _ := mut_map_err vm_of_io (fs_create_dir_all path) in mut_ret {| ll_root := path |}.

Definition linux_symbol_path (self : LinuxLoader) (name id : string) : bytes :=
  path_collect [ll_root self; str_bytes id; str_bytes name].

Definition linux_load (self : LinuxLoader) (name id : string) : Loading (option ModuleSymbols) := λ fs,
  let path := linux_symbol_path self name id in
  if fs_exists path fs then (res_map Some (from_file fuel nesting sort_unstable_by (file_at path fs)), fs)
  else (Ok None, fs).

(** A loader in a state of the file system, as an operating system calls it. *)
Definition loader_in (load : string → string → Loading (option ModuleSymbols)) (fs : F) : SymbolLoader :=
  λ name id, (load name id fs).1.
End loader.
