(* ===== verification/LoaderSpec.v ===== *)
(** * What the loaders of symbols guarantee

    A PDB that is downloaded and saved is read from the cache afterwards; it has
    a file of its own there as long as its name is the name of a file. *)

From S2P Require Import Prelude Rust Layout Error Text Symbols SymbolsSpec Dwarf WinPdb Os Loading Pointer Loader.

(** The name of a file: no separator, and not one of the names [.] and [..]. *)
Definition plain (name : bytes) : Prop :=
  name ≠ [] ∧ name ≠ [dot_byte] ∧ name ≠ [dot_byte; dot_byte] ∧ slash_byte ∉ name.

#[export] Instance plain_dec name : Decision (plain name) := ltac:(unfold plain; apply _).

Lemma plain_relative name : plain name → is_absolute name = false.
Proof.
  intros (_ & _ & _ & Hn). unfold is_absolute. apply bool_decide_eq_false. intros Hh. apply Hn.
  destruct name; [done|]. injection Hh as ->. set_solver.
Qed.

Lemma plain_last name : plain name → ∃ x b, name = x ++ [b] ∧ b ≠ slash_byte.
Proof.
  intros (Hne & _ & _ & Hn). destruct (exists_last Hne) as (x & b & ->). exists x, b. split; [done|]. set_solver.
Qed.

(** A directory with a separator at the end. *)
Definition dir_prefix (dir : bytes) : bytes :=
  match last dir with
  | Some b => if bool_decide (b = slash_byte) then dir else dir ++ [slash_byte]
  | None => dir
  end.

Lemma push_plain dir name : plain name → path_push dir name = dir_prefix dir ++ name.
Proof.
  intros Hn. unfold path_push, dir_prefix. rewrite plain_relative by done.
  destruct (last dir) as [b|] eqn:Hl; [|by apply last_None in Hl as ->].
  case_bool_decide; [done|]. by rewrite <- app_assoc.
Qed.

Lemma dir_prefix_plain dir name : plain name → dir_prefix (dir ++ name) = dir ++ name ++ [slash_byte].
Proof.
  intros (x & b & -> & Hb)%plain_last. unfold dir_prefix. rewrite app_assoc, last_snoc, bool_decide_eq_false_2 by done.
  by rewrite <- !app_assoc.
Qed.

Lemma push_first path : path_push [] path = path.
Proof. unfold path_push. by destruct (is_absolute path). Qed.

(** The path of a file of the cache. *)
Lemma symbol_path_plain self name id :
  plain (str_bytes name) → plain (str_bytes id) →
  symbol_path self name id =
  dir_prefix (wl_root self) ++ str_bytes name ++ slash_byte :: str_bytes id ++ slash_byte :: str_bytes name.
Proof.
  intros Hn Hi. unfold symbol_path, path_collect. cbn [foldl]. rewrite push_first, !push_plain by done.
  rewrite !dir_prefix_plain by done.
  by rewrite <- !app_assoc.
Qed.

(** When the name is an absolute path, the file is that path, wherever the cache
    is. *)
Lemma symbol_path_absolute self name id :
  is_absolute (str_bytes name) = true → symbol_path self name id = str_bytes name.
Proof.
  intros Hn. unfold symbol_path, path_collect. cbn [foldl]. unfold path_push at 1. by rewrite Hn.
Qed.

Lemma component_inj x y r r' :
  slash_byte ∉ x → slash_byte ∉ y → x ++ slash_byte :: r = y ++ slash_byte :: r' → x = y ∧ r = r'.
Proof.
  revert y. induction x as [|b x IH]; intros [|c y] Hx Hy Heq; cbn in Heq.
  - by injection Heq.
  - injection Heq as <- _. by destruct Hy; left.
  - injection Heq as -> _. by destruct Hx; left.
  - injection Heq as -> Heq. apply not_elem_of_cons in Hx as [_ Hx], Hy as [_ Hy].
    by apply IH in Heq as [-> ->].
Qed.

Lemma str_bytes_inj x y : str_bytes x = str_bytes y → x = y.
Proof. intros Heq. by rewrite <- (bytes_str_bytes x), Heq, bytes_str_bytes. Qed.

(** Different PDBs have different files. *)
Lemma symbol_path_inj self name id name' id' :
  plain (str_bytes name) → plain (str_bytes id) → plain (str_bytes name') → plain (str_bytes id') →
  symbol_path self name id = symbol_path self name' id' → name = name' ∧ id = id'.
Proof.
  intros Hn Hi Hn' Hi' Heq. rewrite !symbol_path_plain in Heq by done. apply app_inv_head in Heq.
  apply component_inj in Heq as [Hname Heq]; [|apply Hn|apply Hn'].
  apply component_inj in Heq as [Hid _]; [|apply Hi|apply Hi']. by apply str_bytes_inj in Hname, Hid.
Qed.

(** ** Parents *)

Lemma trim_plain name rest : plain name → trim_end (rev name ++ rest) = rev name ++ rest.
Proof.
  intros Hp. pose proof Hp as (x & b & -> & Hb)%plain_last. rewrite rev_app_distr. cbn [rev app trim_end].
  rewrite bool_decide_eq_false_2 by done. case_bool_decide as Hd; [|done]. cbn [andb]. subst b.
  destruct Hp as (_ & Hdot & _ & Hs). destruct (decide (x = [])) as [->|Hx]; [done|].
  destruct (exists_last Hx) as (y & c & ->). rewrite rev_app_distr. cbn [rev app]. unfold is_absolute.
  rewrite bool_decide_eq_false_2; [done|]. cbn. intros [= ->]. set_solver.
Qed.

Lemma trim_slash path : trim_end (slash_byte :: path) = trim_end path.
Proof. done. Qed.

Lemma split_plain name rest : slash_byte ∉ name → split_component (name ++ slash_byte :: rest) = (name, slash_byte :: rest).
Proof.
  induction name as [|b name IH]; intros Hn; cbn [app split_component]; [by rewrite bool_decide_eq_true_2|].
  rewrite bool_decide_eq_false_2 by set_solver. by rewrite IH by set_solver.
Qed.

Lemma path_parent_plain dir name file :
  plain name → plain file → path_parent (dir ++ name ++ slash_byte :: file) = Some (dir ++ name).
Proof.
  intros Hn Hf. unfold path_parent. rewrite !rev_app_distr. cbn [rev]. rewrite <- !app_assoc. cbn [app].
  rewrite trim_plain by done. destruct (rev file ++ _) as [|b l] eqn:Hr; [by apply app_eq_nil in Hr as [_ [=]]|].
  rewrite <- Hr, split_plain by (rewrite list_elem_of_In, <- in_rev, <- list_elem_of_In; apply Hf).
  cbn [snd]. rewrite trim_slash, trim_plain by done.
  rewrite rev_app_distr, !rev_involutive.
  rewrite (bool_decide_eq_false_2 (dir ++ name = [])), andb_false_r; [done|]. intros [_ ->]%app_eq_nil. by destruct Hn.
Qed.

(** ** Loading *)

Section load.
Context {bm : Build} `{SymbolCrates} {F : Type} `{HostFsLaws F}.
Variables fuel nesting : nat.
Variable sort_unstable_by : (SymbolEntry → SymbolEntry → comparison) → list SymbolEntry → list SymbolEntry.

Notation load := (win_load fuel nesting sort_unstable_by).
Notation decode := (from_bytes fuel nesting sort_unstable_by).

(** What a file of the cache gives. *)
Lemma win_load_cached http enabled self name id fs content :
  fs_exists (symbol_path self name id) fs = true → fs_read (symbol_path self name id) fs = Ok content →
  load http enabled self name id fs = (res_map Some (decode content), fs).
Proof. intros He Hr. unfold win_load. rewrite He. unfold from_file, from_bytes, Os.run_on, builder_read_file_inner, mut_bind, mut_lift, file_at. cbn [path_content]. by rewrite Hr. Qed.

(** What a load gives of the bytes that were downloaded: to be unable to decode
    them is to have no symbols. *)
Definition decoded_or_none (content : bytes) : VmResult (option ModuleSymbols) :=
  match decode content with
  | Ok module => Ok (Some module)
  | Err _ => Ok None
  | Panic => Panic
  | NoFuel => NoFuel
  end.

(** The download of a PDB, which is saved, or not. *)
Lemma win_load_saves http self name id content saved fs fs2 :
  fs_exists (symbol_path self name id) fs = false → http (symbol_url self name id) = Ok (Ok content) →
  save_pdb (symbol_path self name id) content fs = (saved, fs2) → (saved = Ok tt ∨ ∃ err, saved = Err err) →
  load http true self name id fs = (decoded_or_none content, fs2).
Proof.
  intros He Hget Hsave Hr. unfold win_load. rewrite He. unfold download_pdb, mut_bind, mut_lift. rewrite Hget.
  cbn [map_err]. rewrite Hsave. unfold decoded_or_none. by destruct Hr as [->|[err ->]]; destruct (decode content).
Qed.

(** What is saved is read back. *)
Lemma save_pdb_reads path content fs fs2 :
  save_pdb path content fs = (Ok tt, fs2) → fs_exists path fs2 = true ∧ fs_read path fs2 = Ok content.
Proof.
  unfold save_pdb, mut_bind, mut_lift. destruct (path_parent path) as [parent|]; [|done].
  destruct (fs_create_dir_all parent fs) as [[[]|e| |] fs1]; [|done..]. apply fs_write_spec.
Qed.

(** C39. When the cache does not have a PDB and the download gives it, the load
    gives the symbols in it, or none when they cannot be decoded, also when it
    cannot be saved.  If it was saved, every load of it from then on, with any
    network or none, decodes the same bytes from the file and downloads nothing.
    For a name and an id that are names of files, that file is
    [root/name/id/name], in a directory that is made for it, and no other such
    name and id have the same path.  The name is read in the memory of the guest,
    and nothing makes it one: a name that is an absolute path is itself the path,
    whatever the root of the cache and the id. *)
Theorem win_load_downloads http self name id content saved fs fs2 :
  let path := symbol_path self name id in
  fs_exists path fs = false → http (symbol_url self name id) = Ok (Ok content) →
  save_pdb path content fs = (saved, fs2) → (saved = Ok tt ∨ ∃ err, saved = Err err) →
  load http true self name id fs = (decoded_or_none content, fs2) ∧
  (saved = Ok tt → ∀ http' enabled url,
     load http' enabled {| wl_root := wl_root self; wl_url_base := url |} name id fs2
     = (res_map Some (decode content), fs2)) ∧
  (plain (str_bytes name) → plain (str_bytes id) →
   let dir := dir_prefix (wl_root self) ++ str_bytes name ++ slash_byte :: str_bytes id in
   path = dir ++ slash_byte :: str_bytes name ∧ path_parent path = Some dir ∧
   ∀ name' id', plain (str_bytes name') → plain (str_bytes id') →
     symbol_path self name' id' = path → name' = name ∧ id' = id) ∧
  (is_absolute (str_bytes name) = true → ∀ self' id', symbol_path self' name id' = path).
Proof.
  intros path He Hget Hsave Hr. split_and!.
  - by eapply win_load_saves.
  - intros -> http' enabled url. apply save_pdb_reads in Hsave as [Hex Hread]. by apply win_load_cached.
  - intros Hn Hi dir. unfold path. split_and!.
    + rewrite symbol_path_plain by done. unfold dir. by rewrite <- !app_assoc.
    + rewrite symbol_path_plain by done.
      pose proof (path_parent_plain (dir_prefix (wl_root self) ++ str_bytes name ++ [slash_byte]) _ _ Hi Hn) as Hp.
      by rewrite <- !app_assoc in Hp.
    + intros name' id' Hn' Hi' Heq. by apply symbol_path_inj in Heq.
  - intros Ha self' id'. unfold path. by rewrite !symbol_path_absolute.
Qed.

(** What is downloaded and not decoded is saved too: it is no symbols the first
    time, and an error from then on. *)
Lemma undecodable_download http self name id content e fs fs2 :
  decode content = Err e →
  fs_exists (symbol_path self name id) fs = false → http (symbol_url self name id) = Ok (Ok content) →
  save_pdb (symbol_path self name id) content fs = (Ok tt, fs2) →
  load http true self name id fs = (Ok None, fs2) ∧ load http true self name id fs2 = (Err e, fs2).
Proof.
  intros Hc He Hget Hsave. split.
  - erewrite win_load_saves by (done || by left). unfold decoded_or_none. by rewrite Hc.
  - apply save_pdb_reads in Hsave as [Hex Hread]. by rewrite (win_load_cached _ _ _ _ _ _ content), Hc.
Qed.

(** What a failed download is. *)
Lemma win_load_no_network http self name id chain fs :
  fs_exists (symbol_path self name id) fs = false → http (symbol_url self name id) = Err chain →
  load http true self name id fs = (Ok None, fs).
Proof.
  intros He Hget. unfold win_load. rewrite He. unfold download_pdb, mut_bind, mut_lift. by rewrite Hget.
Qed.
End load.

(** ** Names from the guest *)

Definition escaping_codeview : Codeview := {|
  cv_magic := RSDS;
  cv_guid := {| guid_data1 := 0; guid_data2 := 0; guid_data3 := 0; guid_data4 := replicate 8 Byte.x00 |};
  cv_age := 1;
  cv_name := take 24 (str_bytes "/etc/passwd" ++ replicate 24 Byte.x00);
|}.

(** Such a name passes the check of [Codeview::name]. *)
Lemma guest_name_escapes self :
  ∃ name, codeview_name find_byte escaping_codeview = Some name ∧
    symbol_path self name (pdb_id escaping_codeview) = str_bytes "/etc/passwd".
Proof.
  exists "/etc/passwd"%string. split; [by vm_compute|]. by apply symbol_path_absolute.
Qed.

(** ** A file system *)

Section witness.
#[local] Existing Instance debug_build.
#[local] Existing Instances no_attr no_crates.

(** Files by their path; a directory needs nothing. *)
#[local] Instance sample_fs : HostFs (bytes → option bytes) := {|
  fs_exists := λ path fs, bool_decide (is_Some (fs path));
  fs_read := λ path fs, match fs path with Some content => Ok content | None => Err (io_from_kind OtherKind) end;
  fs_create_dir_all := λ _ fs, (Ok tt, fs);
  fs_write := λ path content fs, (Ok tt, λ p, if bool_decide (p = path) then Some content else fs p);
|}.

#[local] Instance sample_fs_laws : HostFsLaws (bytes → option bytes).
Proof.
  split. intros path content fs fs' [= <-]. cbn. rewrite (bool_decide_eq_true_2 (path = path)) by done.
  split; [by apply bool_decide_eq_true_2|done].
Qed.

Definition sample_loader : WinLoader := {| wl_root := str_bytes "/cache/PDB"; wl_url_base := "https://symbols"%string |}.

Definition sample_http (url : string) : Res (list string) (Res IoError bytes) :=
  if String.eqb url "https://symbols/a.pdb/1F/a.pdb" then Ok (Ok (str_bytes "ffffffffba000200 D linux_banner"))
  else Err ["404"%string].

Lemma win_load_downloads_witness :
  ∃ module fs, win_load 1 1 sort_by sample_http true sample_loader "a.pdb" "1F" (λ _, None) = (Ok (Some module), fs) ∧
    get_address module "linux_banner"%string = Ok (Some 0xffffffffba000200) ∧
    win_load 1 1 sort_by (λ _, Err []) true sample_loader "a.pdb" "1F" fs = (Ok (Some module), fs).
Proof.
  set (content := str_bytes "ffffffffba000200 D linux_banner").
  edestruct (win_load_downloads (F := bytes → option bytes) 1 1 sort_by sample_http sample_loader "a.pdb" "1F" content
    (Ok tt) (λ _, None)) as (Hload & Hagain & _);
    [by vm_compute|by vm_compute|by vm_compute|by left|].
  unfold decoded_or_none in Hload. specialize (Hagain eq_refl).
  destruct (from_bytes 1 1 sort_by content) as [module| | |] eqn:Hm; [|by vm_compute in Hm..].
  eexists module, _. split; [exact Hload|]. split; [|exact (Hagain (λ _, Err []) true _)].
  vm_compute in Hm. injection Hm as <-. vm_compute. reflexivity.
Defined.
End witness.
