(* ===== verification/Python.v ===== *)
(** * The Python module ([python/src/lib.rs])

    The objects of Python are records; a method that returns a [PyResult] is a
    function into [Res] with the exceptions as errors.  A reference to the
    operating system is [None] once the garbage collector has cleared it; it is
    never borrowed mutably and allocations succeed, so that nothing else fails in
    [borrow] and [PyOwned::new]. *)

From S2P Require Import Prelude Rust Layout Addr Error Text Mem Registers Mmu Arch Backend.
From S2P Require Import Symbols Os Pointer Windows WinPdb WinOs Linux Dwarf Native NativeBackend Loading.

(** ** Exceptions *)

Inductive PyErr := VminerError (msg : string) | PyRuntimeError (msg : string).

Notation PyResult := (Res PyErr).

(** [ToPyResult] *)
Definition convert_err {T} (r : VmResult T) : PyResult T := map_err (λ err, VminerError (print_backtrace err)) r.
Definition convert_mem_err {T} (r : MemoryAccessResult T) : PyResult T := map_err (λ err, VminerError (mem_display err)) r.
Definition convert_trans_err {T} (r : TranslationResult T) : PyResult T :=
  map_err (λ err, VminerError (trans_display err)) r.
Definition convert_vcpu_err {T} (r : VcpuResult T) : PyResult T := map_err (λ err, VminerError (vcpu_display err)) r.

(** ** References *)

(** [PyOwned]: the address of an object. *)
Definition PyOwned : Type := option Z.

Definition clear (self : PyOwned) : PyOwned := None.

(** [PyBytes::new_with]: the bytes that a function writes in zeroes. *)
Definition bytes_new_with (len : nat) (f : MutRes bytes PyErr unit) : PyResult bytes :=
  let (r, buf) := f (replicate len Byte.x00) in let? _ := r in Ok buf.

(** ** [Backend] *)

Section backend.
Variable self : Backend RtArch.

Definition py_virtual_to_physical (mmu_addr addr : Z) : PyResult Z :=
  convert_trans_err (bk_virtual_to_physical self mmu_addr addr).

Definition py_read_memory (addr : Z) (len : nat) : PyResult bytes :=
  bytes_new_with len (λ buf, let (r, buf) := read_physical (bk_memory self) addr buf in (convert_mem_err r, buf)).

Definition py_read_virtual_memory (mmu_addr addr : Z) (len : nat) : PyResult bytes :=
  bytes_new_with len (λ buf, let (r, buf) := bk_read_virtual_memory self mmu_addr addr buf in (convert_trans_err r, buf)).
End backend.

(** ** [RawOs] *)

Inductive RequestedOs := RequestLinux | RequestWindows.

Definition linux_wanted (os : option RequestedOs) : bool := match os with Some RequestLinux | None => true | _ => false end.
Definition windows_wanted (os : option RequestedOs) : bool := match os with Some RequestWindows | None => true | _ => false end.

Section raw_os.
Context {bm : Build} {M : Type} `{OnceMap M}.
Context `{SymbolCrates}.
Variables fuel nesting : nat.
Variable sort_unstable_by : (SymbolEntry → SymbolEntry → comparison) → list SymbolEntry → list SymbolEntry.
Variable memchr : byte → bytes → option nat.
Variable from_utf8_error : bytes → string.
Variable new_finder : bytes → Finder.
Variable size_of_image : bytes → VmResult Z.
Variables linux_loader win_loader : VmResult SymbolLoader.

Definition detect (backend : Backend RtArch) (os : option RequestedOs)
  : Res Never (option (OsBuilder M * RequestedOs)) :=
  let? linux := if linux_wanted os then linux_quick_check new_finder backend else Ok None in
  match linux with
  | Some builder => Ok (Some (builder, RequestLinux))
  | None =>
      let? windows :=
        if windows_wanted os then win_quick_check fuel memchr new_finder size_of_image backend else Ok None in
      Ok ((λ builder, (builder, RequestWindows)) <$> windows)
  end.

(** [path] is what listing the directory gives. *)
Definition raw_os_new (backend : Backend RtArch) (path : option (Res IoError (list (Res IoError FilePath))))
    (os : option RequestedOs) : VmResult CsOs :=
  let? detected := from_never (detect backend os) in
  let? ' (builder, os) := option_context detected "failed to guess guest OS" in
  let? builder :=
    match path with
    | Some entries =>
        let (r, symbols) := load_dir_inner fuel nesting sort_unstable_by entries indexer_new in
        let? _ := r in Ok (with_symbols builder symbols)
    | None => Ok builder
    end in
  match os with
  | RequestLinux =>
      res_map (boxed_linux fuel memchr from_utf8_error) (linux_build memchr new_finder linux_loader backend builder)
  | RequestWindows =>
      res_map (boxed_windows fuel memchr new_finder size_of_image)
        (win_build fuel memchr new_finder size_of_image win_loader backend builder)
  end.

Definition py_requested (kind : option string) : PyResult (option RequestedOs) :=
  match kind with
  | Some kind =>
      if String.eqb kind "linux" then Ok (Some RequestLinux)
      else if String.eqb kind "windows" then Ok (Some RequestWindows)
      else convert_err (Err (vm_error_new (dyn_of_str "Unknown OS")))
  | None => Ok None
  end.

(** The object that [Os::new] makes. *)
Definition py_os_new (backend : Backend RtArch) (path : option (Res IoError (list (Res IoError FilePath))))
    (kind : option string) : PyResult CsOs :=
  let? request := py_requested kind in
  convert_err (raw_os_new backend path request).
End raw_os.

(** ** The objects

    [raw] gives the operating system that is the object at an address; its index
    of symbols is a state that only [symbol] uses. *)

Section objects.
Context {bm : Build} {A : Type} `{ArchTypes A} {St : Type}.

Notation RawOs := (Os A St).

Record PyVcpu := { pv_os : PyOwned; pv_id : Z }.
Record PyProcess := { pp_proc : Z; pp_os : PyOwned }.
Record PyThread := { pt_thread : Z; pt_os : PyOwned }.
Record PyVma := { py_vma_start : Z; py_vma_end : Z; py_vma_file : option string }.
Record PyModule := { py_module_start : Z; py_module_end : Z; py_module_name : string; py_module_path : string }.

(** [module] is filled by the first access. *)
Record PyStackFrame := {
  pf_frame : StackFrame;
  pf_os : PyOwned;
  pf_proc : Z;
  pf_module : option (option PyModule);
}.

(** Iterators keep the items that are left; [VcpuIter] keeps a range. *)
Record ItemIter := { it_items : list Z; it_os : PyOwned }.
Record ModuleIter := { mi_modules : list Z; mi_proc : Z; mi_os : PyOwned }.
Record VcpuIter := { vc_os : PyOwned; vc_start : Z; vc_end : Z }.
Record CallStackIter := { ci_frames : list PyStackFrame; ci_error : VmResult unit }.

Variable raw : Z → RawOs.

Definition borrow (self : PyOwned) : PyResult RawOs :=
  match self with
  | Some os => Ok (raw os)
  | None => Err (PyRuntimeError "Tried to access GC'ed ref")
  end.

(** *** [Vcpu] *)

Definition vcpu_instruction_pointer (self : PyVcpu) : PyResult Z :=
  let? os := borrow (pv_os self) in convert_vcpu_err (instruction_pointer (os_vcpus os) (pv_id self)).

Definition vcpu_stack_pointer (self : PyVcpu) : PyResult Z :=
  let? os := borrow (pv_os self) in convert_vcpu_err (stack_pointer (os_vcpus os) (pv_id self)).

Definition vcpu_getattr (self : PyVcpu) (name : string) : PyResult Z :=
  let? os := borrow (pv_os self) in convert_vcpu_err (register_by_name (os_vcpus os) (pv_id self) name).

(** *** [Os] *)

Definition py_vcpus (self : PyOwned) : PyResult VcpuIter :=
  let? os := borrow self in Ok {| vc_os := self; vc_start := 0; vc_end := vcpus_count (raw_vcpus (os_vcpus os)) |}.

Definition make_proc (self : PyOwned) (proc : Z) : PyProcess := {| pp_proc := proc; pp_os := self |}.

Definition py_init_process (self : PyOwned) : PyResult PyProcess :=
  let? os := borrow self in
  let? init := convert_err (init_process os) in
  Ok (make_proc self init).

Definition py_current_thread (self : PyOwned) (vcpu : PyVcpu) : PyResult PyThread :=
  let? os := borrow self in
  let? thread := convert_err (current_thread os (pv_id vcpu)) in
  Ok {| pt_thread := thread; pt_os := self |}.

Definition py_current_process (self : PyOwned) (vcpu : PyVcpu) : PyResult PyProcess :=
  let? os := borrow self in
  let? proc := convert_err (current_process os (pv_id vcpu)) in
  Ok (make_proc self proc).

Definition py_procs (self : PyOwned) : PyResult ItemIter :=
  let? os := borrow self in
  let? procs := convert_err (collect_processes os) in
  Ok {| it_items := procs; it_os := self |}.

Definition py_find_process_by_name (self : PyOwned) (name : string) : PyResult (option PyProcess) :=
  let? os := borrow self in
  let? proc := convert_err (find_process_by_name os name) in
  Ok (make_proc self <$> proc).

Definition py_find_process_by_pid (self : PyOwned) (pid : Z) : PyResult (option PyProcess) :=
  let? os := borrow self in
  let? proc := convert_err (find_process_by_id os pid) in
  Ok (make_proc self <$> proc).

(** *** [Process] *)

(** A method of the operating system on the process. *)
Definition proc_get {T} (self : PyProcess) (f : RawOs → Z → VmResult T) : PyResult T :=
  let? os := borrow (pp_os self) in convert_err (f os (pp_proc self)).

Definition py_pid (self : PyProcess) : PyResult Z := proc_get self process_id.
Definition py_process_name (self : PyProcess) : PyResult string := proc_get self process_name.
Definition py_is_kernel (self : PyProcess) : PyResult bool := proc_get self process_is_kernel.
Definition py_pgd (self : PyProcess) : PyResult Z := proc_get self process_pgd.
Definition py_exe (self : PyProcess) : PyResult (option string) := proc_get self process_path.

Definition py_parent (self : PyProcess) : PyResult PyProcess :=
  let? parent := proc_get self process_parent in
  Ok {| pp_proc := parent; pp_os := pp_os self |}.

Definition item_iter (self : PyProcess) (items : list Z) : ItemIter := {| it_items := items; it_os := pp_os self |}.

Definition py_children (self : PyProcess) : PyResult ItemIter :=
  res_map (item_iter self) (proc_get self process_collect_children).
Definition py_threads (self : PyProcess) : PyResult ItemIter :=
  res_map (item_iter self) (proc_get self process_collect_threads).
Definition py_vmas (self : PyProcess) : PyResult ItemIter :=
  res_map (item_iter self) (proc_get self process_collect_vmas).

Definition py_modules (self : PyProcess) : PyResult ModuleIter :=
  let? modules := proc_get self process_collect_modules in
  Ok {| mi_modules := modules; mi_proc := pp_proc self; mi_os := pp_os self |}.

(** The frames that were visited are kept when the walk fails. *)
Definition py_callstack (callstack : RawOs → Z → Z → Z → option Z → ForEach StackFrame) (self : PyProcess)
  : PyResult CallStackIter :=
  let? os := borrow (pp_os self) in
  let (error, frames) :=
    process_callstack os (callstack os) (pp_proc self) _ (λ frame, push_to
      {| pf_frame := frame; pf_os := pp_os self; pf_proc := pp_proc self; pf_module := None |}) [] in
  match error with
  | Panic => Panic
  | NoFuel => NoFuel
  | error => Ok {| ci_frames := frames; ci_error := error |}
  end.

(** *** [Thread] *)

Definition thread_get {T} (self : PyThread) (f : RawOs → Z → VmResult T) : PyResult T :=
  let? os := borrow (pt_os self) in convert_err (f os (pt_thread self)).

Definition py_tid (self : PyThread) : PyResult Z := thread_get self thread_id.
Definition py_thread_name (self : PyThread) : PyResult (option string) := thread_get self thread_name.

Definition py_thread_process (self : PyThread) : PyResult PyProcess :=
  let? proc := thread_get self thread_process in
  Ok {| pp_proc := proc; pp_os := pt_os self |}.

(** *** [Vma] and [Module] *)

Definition py_vma_new (vma : Z) (os : RawOs) : VmResult PyVma :=
  let? start := vma_start os vma in
  let? end_ := vma_end os vma in
  let? file := vma_path os vma in
  Ok {| py_vma_start := start; py_vma_end := end_; py_vma_file := file |}.

Definition py_vma_contains (self : PyVma) (addr : Z) : bool := (py_vma_start self <=? addr) && (addr <? py_vma_end self).

Definition py_module_new (module proc : Z) (os : RawOs) : VmResult PyModule :=
  let? ' (start, end_) := module_span os module proc in
  let? name := module_name os module proc in
  let? path := module_path os module proc in
  Ok {| py_module_start := start; py_module_end := end_; py_module_name := name; py_module_path := path |}.

Definition py_module_contains (self : PyModule) (addr : Z) : bool :=
  (py_module_start self <=? addr) && (addr <? py_module_end self).

(** *** [StackFrame] *)

(** [GILOnceCell::get_or_try_init]: a failure leaves the cell empty. *)
Definition py_frame_module : MutRes PyStackFrame PyErr (option PyModule) := λ self,
  match pf_module self with
  | Some module => (Ok module, self)
  | None =>
      let r :=
        match frame_module (pf_frame self) with
        | Some module =>
            let? os := borrow (pf_os self) in
            let? module := convert_err (py_module_new module (pf_proc self) os) in
            Ok (Some module)
        | None => Ok None
        end in
      match r with
      | Ok module =>
          (Ok module, {| pf_frame := pf_frame self; pf_os := pf_os self; pf_proc := pf_proc self; pf_module := Some module |})
      | r => (r, self)
      end
  end.

Context (rustc_demangle cpp_demangle msvc_demangle : string → option string).

Definition py_symbol (self : PyStackFrame) (demangle_ : bool) : MutRes St PyErr string :=
  let! os := mut_lift (borrow (pf_os self)) in
  let! s := λ st,
    let (r, st) := format_stackframe_symbol os rustc_demangle cpp_demangle msvc_demangle (pf_proc self) (pf_frame self)
                     demangle_ st in
    (convert_err r, st) in
  mut_ret (if demangle_ then demangle rustc_demangle cpp_demangle msvc_demangle s else s).

(** *** Iterators: [__next__] *)

Definition vcpu_next : MutRes VcpuIter PyErr (option PyVcpu) := λ self,
  if vc_start self <? vc_end self then
    (Ok (Some {| pv_os := vc_os self; pv_id := vc_start self |}),
     {| vc_os := vc_os self; vc_start := vc_start self + 1; vc_end := vc_end self |})
  else (Ok None, self).

Definition process_next : MutRes ItemIter PyErr (option PyProcess) := λ self,
  match it_items self with
  | proc :: procs => (Ok (Some {| pp_proc := proc; pp_os := it_os self |}), {| it_items := procs; it_os := it_os self |})
  | [] => (Ok None, self)
  end.

Definition thread_next : MutRes ItemIter PyErr (option PyThread) := λ self,
  match it_items self with
  | thread :: threads =>
      (Ok (Some {| pt_thread := thread; pt_os := it_os self |}), {| it_items := threads; it_os := it_os self |})
  | [] => (Ok None, self)
  end.

Definition module_next : MutRes ModuleIter PyErr (option PyModule) := λ self,
  match borrow (mi_os self) with
  | Ok os =>
      match mi_modules self with
      | module :: modules =>
          (convert_err (res_map Some (py_module_new module (mi_proc self) os)),
           {| mi_modules := modules; mi_proc := mi_proc self; mi_os := mi_os self |})
      | [] => (Ok None, self)
      end
  | r => (res_map (λ _, None) r, self)
  end.

Definition vma_next : MutRes ItemIter PyErr (option PyVma) := λ self,
  match borrow (it_os self) with
  | Ok os =>
      match it_items self with
      | vma :: vmas => (convert_err (res_map Some (py_vma_new vma os)), {| it_items := vmas; it_os := it_os self |})
      | [] => (Ok None, self)
      end
  | r => (res_map (λ _, None) r, self)
  end.

Definition frame_next : MutRes CallStackIter PyErr (option PyStackFrame) := λ self,
  match ci_frames self with
  | frame :: frames => (Ok (Some frame), {| ci_frames := frames; ci_error := ci_error self |})
  | [] => (let? _ := convert_err (ci_error self) in Ok None, {| ci_frames := []; ci_error := Ok tt |})
  end.
End objects.
