(* ===== verification/PythonSpec.v ===== *)
(** * What the iterators of the Python module give *)

From S2P Require Import Prelude Rust Layout Addr Error Text Mem Registers Mmu Arch Backend.
From S2P Require Import Symbols Os OsSpec Python.

(** What [n] calls of [__next__] give; the end of the iteration is [Ok None]. *)
Fixpoint nexts {S T} (next : MutRes S PyErr (option T)) (n : nat) (s : S) : list (PyResult (option T)) :=
  match n with
  | O => []
  | S n => let (r, s) := next s in r :: nexts next n s
  end.

(** The outcomes of the items, then the end for ever. *)
Definition ended {T} (n : nat) (l : list (PyResult (option T))) : list (PyResult (option T)) :=
  take n (l ++ replicate n (Ok None)).

Lemma ended_nil {T} n : ended (T:=T) n [] = replicate n (Ok None).
Proof. unfold ended. cbn [app]. rewrite take_replicate. by rewrite Nat.min_id. Qed.

Lemma ended_cons {T} n (r : PyResult (option T)) l : ended (S n) (r :: l) = r :: ended n l.
Proof.
  unfold ended. cbn [app take]. f_equal. replace (S n) with (n + 1)%nat by lia.
  rewrite replicate_add, app_assoc, take_app_le; [done|]. rewrite length_app, length_replicate. lia.
Qed.

(** An iterator that stays at its end. *)
Lemma nexts_end {S T} (next : MutRes S PyErr (option T)) n s :
  next s = (Ok None, s) → nexts next n s = replicate n (Ok None).
Proof. intros Hn. induction n as [|n IH]; [done|]. cbn [nexts replicate]. by rewrite Hn, IH. Qed.

(** An iterator over a list. *)
Lemma nexts_list {S T X} (next : MutRes S PyErr (option T)) (st : list X → S) (item : X → PyResult (option T)) n l :
  (∀ x l, next (st (x :: l)) = (item x, st l)) → next (st []) = (Ok None, st []) →
  nexts next n (st l) = ended n (item <$> l).
Proof.
  intros Hc Hn. revert l. induction n as [|n IH]; intros [|x l]; [done..| |].
  - rewrite fmap_nil, ended_nil. by apply nexts_end.
  - cbn [nexts]. rewrite Hc, IH, fmap_cons, ended_cons. done.
Qed.

(** What is pushed for each item. *)
Lemma iterate_push_map {T U} (g : T → U) l last acc :
  iterate (λ x, push_to (g x)) l last acc = (last, acc ++ (g <$> l)).
Proof.
  revert acc. induction l as [|x l IH]; intros acc; cbn [iterate]; [by rewrite app_nil_r|].
  unfold mut_bind, push_to at 1. cbn [is_break]. rewrite IH. by rewrite <- app_assoc.
Qed.

Section objects.
Context {bm : Build} {A : Type} `{ArchTypes A} {St : Type}.
Variable raw : Z → Os A St.

(** The exception that ends the iteration over the frames, if there is one. *)
Definition raised (r : VmResult unit) : PyResult (option PyStackFrame) := let? _ := convert_err r in Ok None.

Definition py_frame (self : PyProcess) (frame : StackFrame) : PyStackFrame :=
  {| pf_frame := frame; pf_os := pp_os self; pf_proc := pp_proc self; pf_module := None |}.

Lemma nexts_frames n frames error :
  nexts frame_next n {| ci_frames := frames; ci_error := error |}
  = ended n (((λ frame, Ok (Some frame)) <$> frames) ++ [raised error]).
Proof.
  revert frames. induction n as [|n IH]; intros [|frame frames]; [done..| |].
  - cbn [nexts frame_next ci_frames ci_error fmap list_fmap app]. rewrite ended_cons, ended_nil. f_equal.
    by apply nexts_end.
  - cbn [nexts frame_next ci_frames ci_error fmap list_fmap app]. by rewrite IH, ended_cons.
Qed.

(** An object holds an address when the module does. *)
Lemma py_module_contains_spec module proc (os : Os A St) o addr :
  py_module_new module proc os = Ok o → module_contains os module proc addr = Ok (py_module_contains o addr).
Proof.
  unfold py_module_new, module_contains. intros Ho.
  apply res_bind_ok in Ho as ([start end_] & -> & Ho). inv_ok. by subst o.
Qed.

(** A reference that was cleared raises, and nothing else happens. *)
Lemma py_cleared (self : PyProcess) callstack :
  pp_os self = clear None →
  let raised {T} (r : PyResult T) := r = Err (PyRuntimeError "Tried to access GC'ed ref") in
  raised (py_pid raw self) ∧ raised (py_children raw self) ∧ raised (py_modules raw self) ∧ raised (py_callstack raw callstack self).
Proof. unfold py_pid, py_children, py_modules, py_callstack, proc_get. by intros ->. Qed.

(** C40. The iterators of a process: that of the call stack gives every frame that
    the walk visits and, when the walk fails, then raises its error once, so that
    no frame is lost; that of the modules gives every module in order, the ones
    that cannot be read as exceptions that do not end the iteration.  Both then
    stay at their end. *)
Theorem python_iterators callstack (self : PyProcess) p frames last modules :
  pp_os self = Some p →
  IteratesTo (process_callstack (raw p) (callstack (raw p)) (pp_proc self)) frames last → last ≠ Panic → last ≠ NoFuel →
  IteratesTo (process_for_each_module (raw p) (pp_proc self)) modules (Ok tt) →
  (∃ it, py_callstack raw callstack self = Ok it ∧
    ∀ n, nexts frame_next n it = ended n (((λ frame, Ok (Some (py_frame self frame))) <$> frames) ++ [raised last])) ∧
  (∃ it, py_modules raw self = Ok it ∧
    ∀ n, nexts (module_next raw) n it
      = ended n ((λ module, convert_err (res_map Some (py_module_new module (pp_proc self) (raw p)))) <$> modules)).
Proof.
  intros Hos Hcs Hp Hf Hm. split.
  - unfold py_callstack. rewrite Hos. cbn [borrow res_bind]. rewrite Hcs, iterate_push_map. cbn [app].
    exists {| ci_frames := py_frame self <$> frames; ci_error := last |}. split; [unfold py_frame; rewrite Hos; destruct last; [done|done|by destruct Hp|by destruct Hf]|].
    intros n. rewrite nexts_frames. by rewrite <- list_fmap_compose.
  - unfold py_modules, proc_get. rewrite Hos. cbn [borrow res_bind]. unfold process_collect_modules.
    erewrite collect_iterates by exact Hm. cbn [res_bind convert_err map_err].
    eexists. split; [reflexivity|]. intros n.
    apply (nexts_list (module_next raw) (λ l, {| mi_modules := l; mi_proc := pp_proc self; mi_os := Some p |})); done.
Qed.
End objects.

(** A process with one frame before the walk fails, and two modules. *)
Section witness.
#[local] Existing Instance debug_build.

Definition sample_py_process : PyProcess := {| pp_proc := 0x1000; pp_os := Some 1 |}.

Definition sample_py_frame : StackFrame :=
  {| frame_start := None; frame_size := None; frame_stack_pointer := 8; frame_instruction_pointer := 0x400020;
     frame_module := None |}.

Definition sample_walk (_ : Os X86_64 unit) (_ _ _ : Z) (_ : option Z) : ForEach StackFrame := λ S f,
  iterate f [sample_py_frame] (Err unsupported).

Lemma python_iterators_witness :
  ∃ frames modules,
    py_callstack (λ _, sample_os) sample_walk sample_py_process = Ok frames ∧
    nexts frame_next 4 frames
      = [Ok (Some (py_frame sample_py_process sample_py_frame)); convert_err (Err unsupported); Ok None; Ok None] ∧
    py_modules (λ _, sample_os) sample_py_process = Ok modules ∧
    length (nexts (module_next (λ _, sample_os)) 3 modules) = 3%nat.
Proof.
  destruct (python_iterators (λ _, sample_os) sample_walk sample_py_process 1 [sample_py_frame] (Err unsupported)
    [0x400000; 0x500000]) as [(frames & Hf & Hn) (modules & Hm & Hk)]; [done|by intros S f s|done|done|by intros S f s|].
  exists frames, modules. split; [exact Hf|]. split; [rewrite (Hn 4%nat); reflexivity|]. split; [exact Hm|].
  rewrite (Hk 3%nat). reflexivity.
Defined.
End witness.
