(* ===== verification/Connect.v ===== *)
(** * Opening a machine

    [get_regs] of [vminer/src/backends/kvm/mod.rs], which attaches to a hypervisor
    and receives its registers, and the functions of the C interface and of the
    Python module that open a hypervisor or a dump
    ([native/src/backend.rs], [python/src/lib.rs]). *)

From S2P Require Import Prelude Rust Layout Error Text Mem Registers Mmu Arch Backend Symbols KvmDump Kvm KvmPatch KvmTrace.
From S2P Require Import Native NativeBackend Loading Python.

Section get_regs.
Context {bm : Build} {P V : Type}.
Variable read_vcpu : MutRes bytes IoError V.

(** [listen] is the result of making the socket, and [stream] what it has received
    when the hypervisor is in a state. *)
Definition kvm_get_regs (fds : VmResult (list Z)) (listen : VmResult unit) (attach : list Z → MutRes P VmError unit)
    (stream : P → bytes) : MutRes P VmError (list V) :=
  let! fds := mut_lift fds in
  let! _ := mut_lift listen in
  let! _ := attach fds in
  λ p, (receive_vcpus read_vcpu (length fds) (stream p), p).
End get_regs.

Section open.
Context {bm : Build} {M : Type} `{OnceMap M}.

(** A dump: the content of the file, and how it is read at an offset. *)
Notation DumpFile := (VmResult (bytes * (bytes → Z → MutRes bytes IoError unit))).

Definition open_dump (file : DumpFile) : VmResult DumbDump :=
  let? ' (content, read_exact_at) := file in dump_read read_exact_at content.

(** ** The C interface *)

Variable payload : PanicPayload.
Variable utf8_error : bytes → string.

Notation CS := (CState (SymbolsIndexer M)).

Definition c_kvm_connect (mem : VmResult File) (get_regs : VmResult (list x86_Vcpu))
  : MutRes CS Never (option (Backend RtArch)) :=
  wrap_box payload (let? kvm := kvm_connect mem get_regs in Ok (native_backend (kvm_x86_backend kvm))).

Definition c_read_dump (n : nat) (open : string → DumpFile) (path : Z) : MutRes CS Never (option (Backend RtArch)) :=
  catch_unwind payload (
    let! path := c_to_str utf8_error n path in
    let! dump := mut_lift (open_dump (open path)) in
    mut_ret (native_backend (dump_backend dump))).

(** ** Python *)

Definition py_kvm_new (mem : VmResult File) (get_regs : VmResult (list x86_Vcpu)) : PyResult (Backend RtArch) :=
  let? kvm := convert_err (kvm_connect mem get_regs) in Ok (native_backend (kvm_x86_backend kvm)).

Definition py_dump_new (file : DumpFile) : PyResult (Backend RtArch) :=
  let? dump := convert_err (open_dump file) in Ok (arc_backend (dump_backend dump)).
End open.
